(* ===== verification/_CoqProject ===== *)
-Q . S2P
Prelude.v
Codec.v
Slab.v
ContextMap.v
PacketProcessor.v
FlushBatcher.v
PacketSender.v
RequestTracker.v
Proto.v
Streams.v
EndpointProto.v
RoleSetup.v
Hub.v
LoadBalancer.v
RuntimeBuilder.v
Tasks.v
Lifecycle.v
ByteStream.v
RequestServer.v
PropertyRoles.v
