(* ===== verification/Prelude.v ===== *)
(** * A verification development for the modrpc runtime

    This library models, in Rocq, the modrpc runtime (crates/modrpc/src),
    the std-modrpc roles and request tracker (std-modrpc/rust/src) and
    the hub's broadcaster (crates/modrpc-hub/src/broadcaster.rs), and
    proves the properties that make them correct.  Every definition is a
    shallow embedding of a function or type of the Rust sources: pure
    functions become Rocq functions, mutable state becomes an explicit
    record that operations take and return, concurrent tasks become step
    relations with one step per await point, and code that can panic
    returns a [result] (below) whose [Panic] case carries the message of
    the [expect], [unwrap] or index that fails.  Machine integers are [Z]
    with their wrap-around written out ([wrap], [fits]).

    ** How the parts interact

    A program builds a runtime ([RuntimeBuilder]) of workers; each worker
    has a packet processor ([PacketProcessor]) that dispatches every
    packet (a [TransmitPacket] header and a payload, [Codec]) to the
    nodes installed for its (plane, topic): inline handlers, local
    queues, redirects to other workers.  Roles install those nodes through
    their [RoleSetup] and send with [EventTx]/[PacketSender], which writes
    the packet to the transport's writer, dispatches it locally and
    schedules a flush ([FlushBatcher]).  Process-wide and per-worker state
    lives in context maps ([ContextMap]); topic subscriptions, global
    queues and role globals are entries of the global one.  Requests are
    answered by request servers ([RequestServer]) and correlated with
    their calls by the [RequestTracker] (over a [Slab]); streams are
    reordered by the stream roles ([Streams]) and byte streams reassembled
    from blobs by start index ([ByteStream]); properties are published
    by their owner to observers ([PropertyRoles]); load-balanced topics spill
    to a queue shared by the workers ([LoadBalancer]); the hub relays
    bundles between transports ([Hub]).

    ** Files (in dependency order)

    - [Prelude] (this file): the [modrpc_scope] notations, the [result]
      monad for code that panics, machine-width integers ([wrap],
      [fits]), single-bit masks ([bit]), generic list lemmas
      ([concat_map_insert_perm], [sum_list_with_insert]), the [modrpc]
      hint databases and the shared tactics.
    - [Codec]: little-endian fixed-width integers and the headers of
      endpoint_proto.rs ([TransmitPacket], [PacketBundle],
      [EndpointAddr]) and of std-modrpc's [Request]/[Response]; a [Codec]
      type class with its round-trip law, one instance per header; the
      two bundle shatterers of transport.rs.  Theorems: header round trip
      (C8), bundle round trip (C9); every view the hub's iterator yields
      is a decoded header and its rest.
    - [Slab]: the slab crate's allocator (spec-modelled), its free-list
      invariant and its refinement of a finite map.
    - [ContextMap]: context_map.rs, items per (type id, key) linked in
      per-tag chains, the public [ContextMap]/[LocalContextMap] and the
      [ContextClass] trait; [shutdown_tag] drops exactly a tag's items
      (C10).
    - [PacketProcessor]: packet_processor.rs, the dispatch table, the
      read-guard deferral of table changes, nested dispatch from handlers.
      Theorems C1-C7: dispatch refines the specification [dispatch_ref],
      deferred changes act as if applied in order, [add_node] /
      [remove_plane] keep the table well formed, fuel sufficiency, the
      i32 worker mask aliasing and the panic of a restart inside a
      handler.
    - [FlushBatcher]: flush_batcher.rs, the deadline of a writer's flush.
    - [PacketSender]: packet_sender.rs, [send_raw] (header, dispatch,
      flush policy), [try_send] as a single poll; [send_raw] writes one
      packet and dispatches it.
    - [RequestTracker]: request_tracker.rs and the request client's use of
      it; the delivery condition of a response and reachable-state
      invariants (no panic, unique ids) (C11-C13).
    - [Proto], [EndpointProto]: the generated mproto types of std-modrpc
      and endpoint_proto.rs (owned codecs, Gen encoders, Lazy views) with
      the view laws.
    - [Streams]: multi-stream and stream roles, senders and receivers;
      in-order delivery of a multi-stream (C15) and the stream receiver
      that never forwards (C16).
    - [RoleSetup]: role_setup.rs with the worker context (worker.rs) and
      the runtime's globals and commands (rt.rs): router setups, event
      Tx/Rx, topic subscriptions, a concurrent model of
      [add_topic_subscription] over [run_once], and [role_teardown], the
      future [run_role_worker] registers with [on_shutdown].  Theorems
      C17-C19.
    - [Hub]: the hub broadcaster, its task and handle (C20, C21).
    - [LoadBalancer]: load_balancer.rs with the global queues and burst
      batchers of worker.rs, as a step system over all workers (route
      closure, overflow task, batcher, suspended dispatches).  Theorems:
      every packet is in exactly one place (C22), the batcher's unwrap
      never panics (C23), no loss while receivers live (C24), every
      packet is eventually handled (C25, spec 4.7 and integration test 4).
    - [RuntimeBuilder]: rt.rs's builder, [start] and role start: start-up
      never panics and wires every worker to every other (C26), u16
      overflow of the worker count (C27), one globals shutdown task per
      role (C28).
    - [Tasks]: the bab signal tree (spec-modelled: parent pointers,
      [notify], [fired] as the walk to a notified ancestor), the tasks
      the runtime spawns with the signals each is raced against
      ([WorkerSpawner] and [RoleSpawner] of worker.rs and role.rs, the
      tasks of [spawn_worker] and [build_inter_worker_batchers]), and the
      role's name [run_role_worker] computes from its type name: the
      generated roles get their name (C39), generic roles panic (C40).
    - [Lifecycle]: the runtime's life as a step relation over [Life]
      (signals, worker packet processors and locals, globals, tasks,
      transports, started roles): [RuntimeBuilder::start]'s signals and
      worker tasks, [add_transport] and its flush loops, [start_role],
      [run_role_worker] under [on_worker_group] and [local], signal
      notification and the executors' rounds, with two invariants over
      every reachable state ([life_inv]: well-formed processors, maps and
      signal tree; [life_wired]: each role's signal is its transport's
      child).  Theorems: a woken task is run and a role's teardown
      removes its plane and locals (C35); the teardown of one role
      removes the plane of another still running (C36); a transport's
      death ends every task of its roles but not its own flush loops
      (C37); role ids are distinct up to 2^64 roles (C38).  No step of
      this model dispatches a packet, so a teardown's [remove_plane] is
      never deferred behind a suspended dispatch as it can be in the
      code; the deferral is modelled in [PacketProcessor] (C2).
    - [ByteStream]: the byte-stream sender and receiver roles
      (role_impls/byte_stream_sender.rs, byte_stream_receiver.rs), and a
      system of one of each joined by a network that delivers each blob
      once in any order.  Theorems: the receiver hands out a prefix of the
      bytes sent, in order (C29), never panics (C30); [try_peek_ahead]
      ends and reads the stream (C31); an empty [send] loses the rest of
      the stream or spins [try_peek_ahead] (C32).  The handler's panic on
      8- to 27-byte packets, the receiver handing out every byte once all
      blobs are in, and [send_buffer] sending what [send] sends are proved
      as well.
    - [RequestServer]: request_server.rs (the closures [build] and
      [build_replier] queue, [ResponseSender]) and the client side of
      request_client.rs ([call]'s request, [subscribe] and its task,
      [ResponseWaiter::wait]); a call answered by a server completes with
      the handler's output (C14), composing [RequestTracker], [Codec],
      [Proto]'s lazy views and [RoleSetup]'s receive loop.
    - [PropertyRoles]: property_owner.rs and property_observer.rs, with
      an owner, its observers and the update packets as a step system.
      Serial updates leave owner and observers agreeing (C33); two
      concurrent updates leave them disagreeing (C34).

    ** Bounds and fuel

    Recursion that is not structural takes fuel, and each such function
    has a lemma that the fuel given is enough: [handle_packet] nests at
    most once per chain, so one more than the number of chains suffices
    (C5); [remove_plane_topics] walks a plane's topic stack, at most the
    number of chains; [shatter_loop] and [shatter_iter] move the cursor by
    at least 20 bytes a turn, so [length packet] turns suffice; the loop
    of [try_peek_ahead] moves its cursor by at least one byte a turn over
    non-empty blobs, so [read_start + 1] turns suffice (C31), and an
    empty blob makes it loop for any fuel (C32); [fired] walks from a
    signal to its ancestors with the signal's id as fuel, enough because
    every parent is older, so has a smaller id, than its child (the
    invariant [sig_wf]).  The load balancer's liveness (C25) is proved by
    well-founded induction on a measure of the packets in flight
    ([lb_pot]), and the byte stream's by induction on the chunks left,
    not by fuel.  Role ids are u64 ([wrap 64]); the bound of C38 is the
    counter's width.

    ** Not modelled

    The transports and ingress (TCP, WebSocket, browser WebSocket) and
    the hub's endpoints only move bytes between sockets and the modelled
    queues; the executor shims, the worker threads themselves and
    tracing (probius) only run tasks or record metrics.  The executors
    are modelled only as far as the lifecycle needs: a task whose signal
    has fired is polled and completes; the early return of a worker's
    [run_until] once its own signal fires, which can drop teardown tasks
    before they run, and the timers of the interval and flush loops are
    not.  [local_worker_context]'s table of thread contexts is replaced by
    an optional worker index.  The code generator and compiler CLI
    produce the generated code modelled in [Proto]/[EndpointProto] but
    are not part of the runtime; [ByteStreamSender::wait_consumed],
    [RequestServerBuilder::build_shared], [TopicChannels::MultiChannel]
    and the property owner's update handler are TODOs.  External crates
    the sources only call (slab, localq, burstq, bab's writers and signal
    trees) are modelled from their documented contract and marked
    spec-modelled in the map; a bab [Packet] is the list of bytes it
    views. *)

From Stdlib Require Export ZArith Lia List.
From stdpp Require Export base gmap sets list strings.

Declare Scope modrpc_scope.
Delimit Scope modrpc_scope with mrpc.

Create HintDb modrpc discriminated.
Create Rewrite HintDb modrpc_rw.

(** ** Results of code that may panic *)

(** A Rust function that calls [expect]/[unwrap] either returns its value
    or aborts the worker thread with a message.  The model keeps both. *)
Inductive result (A : Type) : Type :=
| Ok (a : A)
| Panic (msg : string).
Arguments Ok {A} a.
Arguments Panic {A} msg.

#[export] Instance result_ret : MRet result := fun _ a => Ok a.
#[export] Instance result_bind : MBind result :=
  fun _ _ f r => match r with Ok a => f a | Panic m => Panic m end.
#[export] Instance result_fmap : FMap result :=
  fun _ _ f r => match r with Ok a => Ok (f a) | Panic m => Panic m end.

(** [expect msg o] is Rust's [Option::expect]. *)
Definition expect {A} (msg : string) (o : option A) : result A :=
  match o with Some a => Ok a | None => Panic msg end.

Definition is_ok {A} (r : result A) : bool :=
  match r with Ok _ => true | Panic _ => false end.

Lemma bind_Ok {A B} (a : A) (f : A -> result B) : (Ok a ≫= f) = f a.
Proof. reflexivity. Qed.

Lemma bind_Panic {A B} m (f : A -> result B) : (Panic m ≫= f) = Panic m.
Proof. reflexivity. Qed.

Lemma bind_eq_Ok {A B} (r : result A) (f : A -> result B) b :
  (r ≫= f) = Ok b -> exists a, r = Ok a /\ f a = Ok b.
Proof. destruct r; simpl; [eauto | discriminate]. Qed.

Lemma expect_Ok {A} msg (o : option A) a : expect msg o = Ok a <-> o = Some a.
Proof. destruct o; simpl; split; congruence. Qed.

Lemma bind_assoc {A B C} (r : result A) (f : A -> result B) (g : B -> result C) :
  ((r ≫= f) ≫= g) = (r ≫= fun a => f a ≫= g).
Proof. by destruct r. Qed.

Lemma fmap_bind {A B C} (r : result A) (f : A -> B) (g : B -> result C) :
  ((f <$> r) ≫= g) = (r ≫= fun a => g (f a)).
Proof. by destruct r. Qed.

Lemma bind_ret_r {A} (r : result A) : (r ≫= fun a => Ok a) = r.
Proof. by destruct r. Qed.

Lemma bind_ext_Ok {A B} (r : result A) (f g : A -> result B) :
  (forall a, r = Ok a -> f a = g a) -> (r ≫= f) = (r ≫= g).
Proof. destruct r; simpl; auto. Qed.

#[export] Hint Rewrite @bind_Ok @bind_Panic @bind_assoc @fmap_bind : modrpc_rw.

(** ** Machine-width integers *)

Local Open Scope Z_scope.

(** A [w]-bit unsigned integer is a [Z] in [0, 2^w).  [wrap w z] is the
    value an [as uW] cast or a wrapping operation leaves. *)
Definition wrap (w z : Z) : Z := z mod 2 ^ w.
Definition fits (w z : Z) : bool := (0 <=? z) && (z <? 2 ^ w).

Lemma fits_iff w z : fits w z = true <-> 0 <= z < 2 ^ w.
Proof. unfold fits. rewrite andb_true_iff, Z.leb_le, Z.ltb_lt. tauto. Qed.

Lemma wrap_fits w z : 0 <= w -> fits w (wrap w z) = true.
Proof.
  intros Hw. apply fits_iff. unfold wrap.
  apply Z.mod_pos_bound. apply Z.pow_pos_nonneg; lia.
Qed.

Lemma wrap_small w z : fits w z = true -> wrap w z = z.
Proof. intros H%fits_iff. unfold wrap. apply Z.mod_small; lia. Qed.

#[export] Hint Resolve wrap_fits : modrpc.

(** ** Single-bit masks *)

(** [bit i] is [1 << i]; the code keeps sets of worker ids as such masks. *)
Definition bit (i : Z) : Z := Z.shiftl 1 i.

Lemma bit_pow i : 0 <= i -> bit i = 2 ^ i.
Proof. intros Hi. unfold bit. rewrite Z.shiftl_1_l. reflexivity. Qed.

Lemma testbit_bit i j : 0 <= i -> 0 <= j -> Z.testbit (bit i) j = (i =? j).
Proof.
  intros Hi Hj. rewrite bit_pow, Z.pow2_bits_eqb by lia.
  destruct (Z.eqb_spec i j), (Z.eqb_spec j i); congruence.
Qed.

(** A mask and a single bit share a bit exactly when that bit is set. *)
Lemma land_bit_zero m i :
  0 <= i -> (Z.land m (bit i) =? 0) = negb (Z.testbit m i).
Proof.
  intros Hi. rewrite bit_pow by lia.
  destruct (Z.testbit m i) eqn:E; simpl.
  - apply Z.eqb_neq. intros H.
    assert (Z.testbit (Z.land m (2 ^ i)) i = true) as Ht.
    { rewrite Z.land_spec, Z.pow2_bits_true by lia. now rewrite E. }
    rewrite H in Ht. rewrite Z.testbit_0_l in Ht. discriminate.
  - apply Z.eqb_eq. apply Z.bits_inj_0. intros n.
    rewrite Z.land_spec.
    destruct (Z.eq_dec n i) as [->|Hn]; [now rewrite E|].
    destruct (Z.neg_nonneg_cases n) as [Hneg|Hnn].
    + now rewrite Z.testbit_neg_r.
    + rewrite Z.pow2_bits_false by lia. apply andb_false_r.
Qed.

Lemma testbit_lor_bit m i j :
  0 <= i -> 0 <= j -> Z.testbit (Z.lor m (bit i)) j = Z.testbit m j || (i =? j).
Proof. intros Hi Hj. rewrite Z.lor_spec, testbit_bit by lia. reflexivity. Qed.

#[export] Hint Rewrite land_bit_zero testbit_lor_bit using lia : modrpc_rw.

(** ** Lists *)

(** [filter] keeps a list whose elements all pass. *)
Lemma filter_Forall_id {A} (P : A -> Prop) `{!forall x, Decision (P x)} l :
  Forall P l -> filter P l = l.
Proof. induction 1; [done|]. rewrite filter_cons_True by done. by f_equal. Qed.

(** Replacing the element at [i] changes a [concat]/[map] by that
    element's image, up to permutation, and a weighted sum by the
    difference of the weights. *)
Lemma concat_map_insert_perm {A B} (f : A -> list B) l i x y :
  l !! i = Some x -> concat (map f (<[i := y]> l)) ++ f x ≡ₚ concat (map f l) ++ f y.
Proof.
  revert i. induction l as [|z l IH]; intros [|i] Hi; simplify_eq/=; [solve_Permutation|].
  rewrite <- !(assoc_L app). by rewrite (IH i Hi).
Qed.

Lemma sum_list_with_insert {A} (f : A -> nat) l i x y :
  l !! i = Some x -> (sum_list_with f (<[i := y]> l) + f x = sum_list_with f l + f y)%nat.
Proof.
  revert i. induction l as [|z l IH]; intros [|i] Hi; simplify_eq/=; [lia|].
  specialize (IH i Hi). lia.
Qed.

(** ** Shared tactics *)

(** Invert a hypothesis and clean up. *)
Ltac invc H := inversion H; subst; clear H.

(** Split the [Ok]/[Panic] cases of binds in a hypothesis [H : _ = Ok _]. *)
Ltac destruct_ok H :=
  repeat match type of H with
  | (?r ≫= _) = Ok _ =>
      let a := fresh "a" in let Ha := fresh "Ha" in
      apply bind_eq_Ok in H as (a & Ha & H)
  end.

(** Case on the boolean tests of Z comparisons the model performs. *)
Ltac case_zb :=
  repeat match goal with
  | |- context [(?a =? ?b)%Z] => destruct (Z.eqb_spec a b)
  | |- context [(?a <? ?b)%Z] => destruct (Z.ltb_spec a b)
  | |- context [(?a <=? ?b)%Z] => destruct (Z.leb_spec a b)
  end.
