(* ===== verification/Codec.v ===== *)
(** * Codec: the fixed headers of the wire format

    Models src/crates/modrpc/src/endpoint_proto.rs ([EndpointAddr],
    [TransmitPacket], [PacketBundle]), the [Request]/[Response] wrappers of
    src/std-modrpc/rust/src/proto.rs, and the bundle shatterers of
    src/crates/modrpc/src/transport.rs.  mproto writes every integer of a
    header as a fixed-width little-endian field (spec, "Byte order"); the
    integer codec [le_bytes]/[read_le] is modelled from that sentence, the
    record codecs from the generated [encode]/[decode] bodies.

    A decoder reads from the front of a byte list and returns the value
    and the bytes that follow it, as mproto's [DecodeCursor] advances.
    The [Codec] class states what a header codec promises its clients
    (the packet processor, the transports, the request tracker): encoded
    headers have the fixed length [base_len], and decoding inverts
    encoding in both directions. *)

From S2P Require Import Prelude.
Local Open Scope Z_scope.

(** ** Bytes *)

Definition byte := Byte.byte.

Definition byte_val (b : byte) : Z := Z.of_N (Byte.to_N b).

(** [z as u8]. *)
Definition byte_of (z : Z) : byte :=
  match Byte.of_N (Z.to_N (z mod 256)) with Some b => b | None => Byte.x00 end.

(** ** Little-endian fixed-width integers *)

(** [le_bytes n z] is [z.to_le_bytes()] for an [n]-byte integer. *)
Fixpoint le_bytes (n : nat) (z : Z) : list byte :=
  match n with
  | O => []
  | S n' => byte_of z :: le_bytes n' (z / 256)
  end.

(** [read_le n bs] decodes an [n]-byte integer from the front of [bs];
    it fails exactly when fewer than [n] bytes remain. *)
Fixpoint read_le (n : nat) (bs : list byte) : option (Z * list byte) :=
  match n with
  | O => Some (0, bs)
  | S n' =>
      match bs with
      | [] => None
      | b :: bs' =>
          '(z, rest) ← read_le n' bs';
          Some (byte_val b + 256 * z, rest)
      end
  end.

(** ** The header codec interface *)

(** What mproto's [BaseLen]/[Encode]/[Decode] give a fixed-size header,
    with [admissible] the field values that fit their widths. *)
Class Codec (A : Type) := {
  base_len : nat;
  admissible : A -> bool;
  encode : A -> list byte;
  decode : list byte -> option (A * list byte);
}.

(** The laws a header codec promises its clients. *)
Class CodecLaws (A : Type) `{Codec A} := {
  length_encode a : length (encode a) = base_len;
  decode_encode a rest :
    admissible a = true -> decode (encode a ++ rest) = Some (a, rest);
  decode_short bs : (length bs < base_len)%nat -> decode bs = None;
  decode_total bs : (base_len <= length bs)%nat -> is_Some (decode bs);
  decode_inv bs a rest :
    decode bs = Some (a, rest) -> admissible a = true /\ bs = encode a ++ rest;
}.

(** ** [EndpointAddr] (endpoint_proto.rs) *)

Record EndpointAddr := { endpoint : Z }.

#[export] Instance EndpointAddr_eq_dec : EqDecision EndpointAddr.
Proof. solve_decision. Defined.

#[export] Instance EndpointAddr_codec : Codec EndpointAddr := {
  base_len := 8;
  admissible e := fits 64 (endpoint e);
  encode e := le_bytes 8 (endpoint e);
  decode bs := '(endpoint, bs) ← read_le 8 bs; Some ({| endpoint := endpoint |}, bs);
}.

(** ** [TransmitPacket] (endpoint_proto.rs), the 20-byte packet header *)

Record TransmitPacket := {
  payload_length : Z;  (* u16 *)
  infra_id : Z;        (* u16 *)
  plane_id : Z;        (* u32 *)
  topic : Z;           (* u32 *)
  source : EndpointAddr;
}.

#[export] Instance TransmitPacket_codec : Codec TransmitPacket := {
  base_len := 20;
  admissible h :=
    fits 16 (payload_length h) && fits 16 (infra_id h) && fits 32 (plane_id h)
    && fits 32 (topic h) && admissible (source h);
  encode h :=
    le_bytes 2 (payload_length h) ++ le_bytes 2 (infra_id h) ++ le_bytes 4 (plane_id h)
    ++ le_bytes 4 (topic h) ++ encode (source h);
  decode bs :=
    '(payload_length, bs) ← read_le 2 bs;
    '(infra_id, bs) ← read_le 2 bs;
    '(plane_id, bs) ← read_le 4 bs;
    '(topic, bs) ← read_le 4 bs;
    '(source, bs) ← decode bs;
    Some ({| payload_length := payload_length; infra_id := infra_id;
             plane_id := plane_id; topic := topic; source := source |}, bs);
}.

(** ** [PacketBundle] (endpoint_proto.rs), the 6-byte bundle header *)

(** The Rust field [length] is [bundle_length] here: [length] is the
    list length of the Standard Library. *)
Record PacketBundle := {
  channel_id : Z;     (* u32 *)
  bundle_length : Z;  (* u16 *)
}.

#[export] Instance PacketBundle_codec : Codec PacketBundle := {
  base_len := 6;
  admissible b := fits 32 (channel_id b) && fits 16 (bundle_length b);
  encode b := le_bytes 4 (channel_id b) ++ le_bytes 2 (bundle_length b);
  decode bs :=
    '(channel_id, bs) ← read_le 4 bs;
    '(length, bs) ← read_le 2 bs;
    Some ({| channel_id := channel_id; bundle_length := length |}, bs);
}.

(** ** [Request]/[Response] wrappers (std-modrpc proto.rs) *)

(** The unit payload; mproto writes nothing for it. *)
#[export] Instance unit_codec : Codec unit := {
  base_len := 0;
  admissible _ := true;
  encode _ := [];
  decode bs := Some (tt, bs);
}.

Record Request (A : Type) := {
  req_request_id : Z;  (* u32 *)
  req_worker : Z;      (* u16 *)
  req_payload : A;
}.
Arguments req_request_id {A}. Arguments req_worker {A}. Arguments req_payload {A}.
Arguments Build_Request {A}.

Record Response (A : Type) := {
  resp_request_id : Z;        (* u32 *)
  resp_requester : Z;         (* u64 *)
  resp_requester_worker : Z;  (* u16 *)
  resp_payload : A;
}.
Arguments resp_request_id {A}. Arguments resp_requester {A}.
Arguments resp_requester_worker {A}. Arguments resp_payload {A}.
Arguments Build_Response {A}.

Section WrapperCodecs.
Context {A : Type} `{Codec A}.

#[export] Instance Request_codec : Codec (Request A) := {
  base_len := 6 + @base_len A _;
  admissible r := fits 32 (req_request_id r) && fits 16 (req_worker r)
                  && admissible (req_payload r);
  encode r := le_bytes 4 (req_request_id r) ++ le_bytes 2 (req_worker r)
              ++ encode (req_payload r);
  decode bs :=
    '(request_id, bs) ← read_le 4 bs;
    '(worker, bs) ← read_le 2 bs;
    '(payload, bs) ← decode bs;
    Some (Build_Request request_id worker payload, bs);
}.

#[export] Instance Response_codec : Codec (Response A) := {
  base_len := 14 + @base_len A _;
  admissible r := fits 32 (resp_request_id r) && fits 64 (resp_requester r)
                  && fits 16 (resp_requester_worker r) && admissible (resp_payload r);
  encode r := le_bytes 4 (resp_request_id r) ++ le_bytes 8 (resp_requester r)
              ++ le_bytes 2 (resp_requester_worker r) ++ encode (resp_payload r);
  decode bs :=
    '(request_id, bs) ← read_le 4 bs;
    '(requester, bs) ← read_le 8 bs;
    '(requester_worker, bs) ← read_le 2 bs;
    '(payload, bs) ← decode bs;
    Some (Build_Response request_id requester requester_worker payload, bs);
}.
End WrapperCodecs.

(** ** Lazy field accessors *)

(** A [...Lazy] view decodes one field at a fixed offset of the buffer,
    [Decode::decode(&DecodeCursor::at_offset(self.buffer, self.offset + k))];
    it fails when the buffer is too short for that field. *)
Definition lazy_field (offset n : nat) (bs : list byte) : option Z :=
  fst <$> read_le n (drop offset bs).

Definition request_lazy_request_id := lazy_field 0 4.
Definition request_lazy_worker := lazy_field 4 2.
Definition response_lazy_request_id := lazy_field 0 4.
Definition response_lazy_requester := lazy_field 4 8.
Definition response_lazy_requester_worker := lazy_field 12 2.

(** ** Bundles (transport.rs) *)

(** A packet on the wire: its 20-byte header and the payload after it. *)
Record WirePacket := { wp_header : TransmitPacket; wp_payload : list byte }.

Definition wire_packet_wf (p : WirePacket) : bool :=
  admissible (wp_header p)
  && (payload_length (wp_header p) =? Z.of_nat (length (wp_payload p))).

Definition packet_bytes (p : WirePacket) : list byte := encode (wp_header p) ++ wp_payload p.

(** What a flushed writer buffer holds: the bundle header, then the
    packets back to back (spec, "Wire framing on transports"). *)
Definition bundle_body (ps : list WirePacket) : list byte := mjoin (map packet_bytes ps).

Definition bundle_bytes (ch : Z) (ps : list WirePacket) : list byte :=
  encode {| channel_id := ch; bundle_length := Z.of_nat (length (bundle_body ps)) |}
  ++ bundle_body ps.

(** The offsets at which the packets of [ps] start when the first starts at [start]. *)
Fixpoint packet_offsets (start : nat) (ps : list WirePacket) : list nat :=
  match ps with
  | [] => []
  | p :: ps' => start :: packet_offsets (start + length (packet_bytes p))%nat ps'
  end.

(** [&packet[cursor..]]: Rust panics when the range starts past the end. *)
Definition slice_from (packet : list byte) (cursor : nat) : result (list byte) :=
  if decide (cursor <= length packet)%nat then Ok (drop cursor packet)
  else Panic "range start index out of range".

(** The loop of [shatter_packet_bundle]: record each packet's offset and
    skip over its header and payload.  The loop ends by itself (each turn
    moves the cursor by at least 20 bytes); the [fuel] bound only makes
    the recursion structural, and [length packet] turns are enough. *)
Fixpoint shatter_loop (fuel : nat) (packet : list byte) (cursor stop : nat)
    : result (list nat) :=
  match fuel with
  | O => Ok []
  | S fuel' =>
      if decide (cursor < stop)%nat then
        rest ← slice_from packet cursor;
        packet_header ← expect "decode rx bundle header" (fst <$> decode rest);
        offsets ← shatter_loop fuel' packet
                    (cursor + 20 + Z.to_nat (payload_length packet_header))%nat stop;
        Ok (cursor :: offsets)
      else Ok []
  end.

Definition shatter_packet_bundle (packet : list byte) : result (PacketBundle * list nat) :=
  bundle_header ← expect "decode rx bundle header" (fst <$> decode packet);
  offsets ← shatter_loop (length packet) packet 6 (6 + Z.to_nat (bundle_length bundle_header))%nat;
  Ok (bundle_header, offsets).

(** [packet.shatter_into(offsets, ..)] (the bab crate): one view per
    offset, from that offset to the next one, the last to the end. *)
Fixpoint shatter_into (packet : list byte) (offsets : list nat) : list (list byte) :=
  match offsets with
  | [] => []
  | [o] => [drop o packet]
  | o :: (o' :: _) as offsets' => take (o' - o)%nat (drop o packet) :: shatter_into packet offsets'
  end.

(** [ShatterPacketBundle] (transport.rs), the iterator the hub uses on a
    bundle body: it yields a view from each packet start while
    [cursor + 20 < len]. *)
Fixpoint shatter_iter (fuel : nat) (packet : list byte) (cursor : nat) : list (list byte) :=
  match fuel with
  | O => []
  | S fuel' =>
      if decide (cursor + 20 < length packet)%nat then
        match decode (drop cursor packet) with
        | Some (packet_header, _) =>
            drop cursor packet
            :: shatter_iter fuel' packet (cursor + 20 + Z.to_nat (payload_length packet_header))%nat
        | None => []
        end
      else []
  end.

Definition shatter_packet_bundle_iter (packet : list byte) : list (list byte) :=
  shatter_iter (length packet) packet 0.

(** A packet with header fields (7, 3) from endpoint 9. *)
Definition example_packet (len : Z) (payload : list byte) : WirePacket :=
  {| wp_header := {| payload_length := len; infra_id := 0; plane_id := 7; topic := 3;
                     source := {| endpoint := 9 |} |};
     wp_payload := payload |}.

(** ** Bytes and little-endian integers *)

Lemma byte_val_range b : 0 <= byte_val b < 256.
Proof. unfold byte_val. pose proof (Byte.to_N_bounded b). lia. Qed.

Lemma byte_val_of z : byte_val (byte_of z) = z mod 256.
Proof.
  unfold byte_val, byte_of.
  pose proof (Z.mod_pos_bound z 256 ltac:(lia)) as Hr.
  destruct (Byte.of_N (Z.to_N (z mod 256))) as [b|] eqn:E.
  - apply Byte.to_of_N in E. rewrite E. lia.
  - apply Byte.of_N_None_iff in E. lia.
Qed.

Lemma byte_of_val b : byte_of (byte_val b) = b.
Proof.
  unfold byte_of, byte_val. rewrite Z.mod_small by (pose proof (Byte.to_N_bounded b); lia).
  rewrite N2Z.id, Byte.of_to_N. reflexivity.
Qed.

Lemma length_le_bytes n z : length (le_bytes n z) = n.
Proof. revert z; induction n; simpl; auto. Qed.

Lemma pow_256_S n : 2 ^ (8 * Z.of_nat (S n)) = 256 * 2 ^ (8 * Z.of_nat n).
Proof.
  rewrite Nat2Z.inj_succ, Z.mul_succ_r, Z.pow_add_r by lia. lia.
Qed.

Lemma read_le_bytes n z rest :
  read_le n (le_bytes n z ++ rest) = Some (z mod 2 ^ (8 * Z.of_nat n), rest).
Proof.
  revert z; induction n as [|n IH]; intros z; simpl.
  - rewrite Z.mod_1_r. reflexivity.
  - rewrite IH. simpl. f_equal. f_equal.
    rewrite byte_val_of, pow_256_S.
    rewrite Z.rem_mul_r by (try apply Z.pow_pos_nonneg; lia). reflexivity.
Qed.

Lemma read_le_None n bs : read_le n bs = None <-> (length bs < n)%nat.
Proof.
  revert bs; induction n as [|n IH]; intros [|b bs]; simpl.
  - split; [discriminate | lia].
  - split; [discriminate | lia].
  - split; [lia | reflexivity].
  - specialize (IH bs). destruct (read_le n bs) as [[z r]|]; simpl.
    + split; [discriminate|]. intros Hl.
      assert (Some (z, r) = None) by (apply IH; lia). discriminate.
    + split; [|reflexivity]. intros _.
      assert (length bs < n)%nat by (apply IH; reflexivity). lia.
Qed.

(** What [read_le] returns is in range and is the canonical encoding of
    the bytes it consumed. *)
Lemma read_le_inv n bs z rest :
  read_le n bs = Some (z, rest) ->
  0 <= z < 2 ^ (8 * Z.of_nat n) /\ bs = le_bytes n z ++ rest.
Proof.
  revert bs z; induction n as [|n IH]; intros [|b bs] z Hr; simpl in Hr.
  - injection Hr as <- <-. split; [cbn; lia | reflexivity].
  - injection Hr as <- <-. split; [cbn; lia | reflexivity].
  - discriminate.
  - destruct (read_le n bs) as [[z' r']|] eqn:E; simpl in Hr; [|discriminate].
    injection Hr as <- <-. apply IH in E as [Hz ->].
    pose proof (byte_val_range b). rewrite pow_256_S. split; [lia|].
    simpl. f_equal.
    + assert (Hm : (byte_val b + 256 * z') mod 256 = byte_val b)
        by (symmetry; apply Z.mod_unique with z'; lia).
      rewrite <- (byte_of_val b) at 1. unfold byte_of. now rewrite Hm, Z.mod_small by lia.
    + f_equal. f_equal. apply Z.div_unique with (byte_val b); lia.
Qed.

(** A field of [w] bits is admissible when it fits; its [w/8] bytes then
    decode back to it. *)
Lemma read_le_bytes_fits n z rest :
  fits (8 * Z.of_nat n) z = true -> read_le n (le_bytes n z ++ rest) = Some (z, rest).
Proof. intros H. rewrite read_le_bytes. f_equal. f_equal. now apply wrap_small. Qed.

#[export] Hint Rewrite read_le_bytes_fits using assumption : modrpc_rw.

Lemma read_le_length n bs z rest :
  read_le n bs = Some (z, rest) -> length bs = (n + length rest)%nat.
Proof. intros [_ ->]%read_le_inv. rewrite length_app, length_le_bytes. reflexivity. Qed.

(** An integer read over [n1 + n2] bytes is the one read over the
    first [n1] plus [2^(8 n1)] times the one read over the next [n2]. *)
Lemma read_le_split n1 n2 bs z rest :
  read_le (n1 + n2) bs = Some (z, rest) ->
  exists z1 z2 r1, read_le n1 bs = Some (z1, r1) /\ read_le n2 r1 = Some (z2, rest)
                   /\ z = z1 + 2 ^ (8 * Z.of_nat n1) * z2.
Proof.
  revert bs z; induction n1 as [|n1 IH]; intros bs z Hr.
  - exists 0, z, bs. cbn in *. split_and!; [done|done|lia].
  - destruct bs as [|b bs]; [done|]. cbn in Hr.
    destruct (read_le (n1 + n2) bs) as [[z' r']|] eqn:E; [|done]. injection Hr as <- <-.
    destruct (IH _ _ E) as (z1 & z2 & r1 & H1 & H2 & ->).
    exists (byte_val b + 256 * z1), z2, r1. cbn. rewrite H1. split_and!; [done|done|].
    rewrite pow_256_S. lia.
Qed.

Lemma read_le_total n bs :
  (n <= length bs)%nat -> exists z rest, read_le n bs = Some (z, rest).
Proof.
  intros Hn. destruct (read_le n bs) as [[z rest]|] eqn:E; [eauto|].
  apply read_le_None in E. lia.
Qed.

(** ** Codec laws *)

(** Tactics that discharge the laws of a record codec made of [read_le]
    fields and nested codecs. *)
(** Unfold codec instances and binds, keeping the integer codec folded
    so that its lemmas apply. *)
Tactic Notation "codec_simpl" := cbn -[read_le le_bytes].
Tactic Notation "codec_simpl" "in" hyp(H) := cbn -[read_le le_bytes] in H.
Tactic Notation "codec_simpl" "in" "*" := cbn -[read_le le_bytes] in *.
Tactic Notation "codec_simpl" "in" hyp(H) "|-" "*" := cbn -[read_le le_bytes] in H |- *.

Ltac split_admissible :=
  repeat match goal with
  | H : _ && _ = true |- _ => apply andb_true_iff in H as [? ?]
  end.

Ltac decode_steps :=
  repeat match goal with
  | H : context [read_le ?n ?bs ≫= _] |- _ =>
      let E := fresh "E" in
      destruct (read_le n bs) as [[? ?]|] eqn:E; codec_simpl in H; [|discriminate]
  | H : context [@decode ?A ?C ?bs ≫= _] |- _ =>
      let E := fresh "E" in
      destruct (@decode A C bs) as [[? ?]|] eqn:E; codec_simpl in H; [|discriminate]
  end.

Section CodecFacts.
Context {A : Type} `{CodecLaws A}.

Lemma decode_length bs a rest :
  decode bs = Some (a, rest) -> length bs = (base_len + length rest)%nat.
Proof. intros [_ ->]%decode_inv. rewrite length_app, length_encode. reflexivity. Qed.

(** Decoding is injective on what it consumed: two byte strings that
    decode to the same header start with the same [base_len] bytes. *)
Lemma decode_canonical bs1 bs2 a r1 r2 :
  decode bs1 = Some (a, r1) -> decode bs2 = Some (a, r2) ->
  take base_len bs1 = take base_len bs2.
Proof.
  intros [_ ->]%decode_inv [_ ->]%decode_inv.
  rewrite !take_app_length' by (symmetry; apply length_encode). reflexivity.
Qed.
End CodecFacts.

Ltac decode_length_steps :=
  repeat match goal with
  | E : read_le _ _ = Some _ |- _ => apply read_le_length in E
  | E : decode _ = Some _ |- _ => apply decode_length in E
  end.

Ltac total_steps :=
  repeat match goal with
  | |- context [read_le ?n ?bs] =>
      let E := fresh "E" in
      destruct (read_le_total n bs) as (? & ? & E); [codec_simpl in *; lia|];
      pose proof (read_le_length _ _ _ _ E); rewrite E; codec_simpl
  | |- context [@decode ?A ?C ?bs] =>
      let E := fresh "E" in let a := fresh "a" in
      destruct (@decode_total A C _ bs) as [[a ?] E]; [codec_simpl in *; lia|];
      pose proof (decode_length _ _ _ E); rewrite E; codec_simpl
  end.

Ltac inv_steps :=
  repeat match goal with
  | E : read_le _ _ = Some _ |- _ => apply read_le_inv in E as [? ->]
  | E : decode _ = Some _ |- _ => apply decode_inv in E as [? ->]
  end.

(** Discharge the five laws of a record codec built from [read_le]
    fields and nested header codecs. *)
Ltac codec_laws :=
  split;
  [ intros []; codec_simpl; rewrite ?length_app, ?length_le_bytes, ?length_encode; reflexivity
  | intros [] rest Ha; repeat match goal with e : EndpointAddr |- _ => destruct e end;
    codec_simpl in *; split_admissible; rewrite <- ?app_assoc;
    repeat (first [rewrite read_le_bytes_fits by assumption
                  | rewrite decode_encode by assumption]; codec_simpl);
    reflexivity
  | intros bs Hl; destruct (decode bs) as [[a r]|] eqn:E; [|reflexivity];
    exfalso; codec_simpl in E; decode_steps; decode_length_steps; codec_simpl in *; lia
  | intros bs Hl; codec_simpl in Hl |- *; total_steps; eauto
  | intros bs a rest Hd; codec_simpl in Hd; decode_steps; injection Hd as <- <-;
    inv_steps; codec_simpl in *; rewrite <- ?app_assoc;
    split; [rewrite ?andb_true_iff, ?fits_iff; repeat split; assumption || lia | reflexivity] ].

#[export] Instance EndpointAddr_laws : CodecLaws EndpointAddr.
Proof. codec_laws. Qed.

#[export] Instance TransmitPacket_laws : CodecLaws TransmitPacket.
Proof. codec_laws. Qed.

#[export] Instance PacketBundle_laws : CodecLaws PacketBundle.
Proof. codec_laws. Qed.

#[export] Instance unit_laws : CodecLaws unit.
Proof.
  split; [reflexivity | intros [] ?; reflexivity | intros ? Hl; cbn in Hl; lia
         | intros; eexists; reflexivity | intros bs [] rest H; injection H as <-; auto].
Qed.

Section Wrappers.
Context {A : Type} `{CodecLaws A}.

#[export] Instance Request_laws : CodecLaws (Request A).
Proof. codec_laws. Qed.

#[export] Instance Response_laws : CodecLaws (Response A).
Proof. codec_laws. Qed.
End Wrappers.

(** ** Lazy field accessors *)

Lemma lazy_field_app offset n prefix z rest :
  length prefix = offset -> fits (8 * Z.of_nat n) z = true ->
  lazy_field offset n (prefix ++ le_bytes n z ++ rest) = Some z.
Proof.
  intros <- Hz. unfold lazy_field. rewrite drop_app_length, read_le_bytes_fits by done.
  reflexivity.
Qed.

Section LazyFields.
Context {A : Type} `{CodecLaws A}.

(** The [ResponseLazy] accessors read the fields of an encoded [Response]. *)
Lemma response_lazy_fields (resp : Response A) (rest : list byte) :
  admissible resp = true ->
  response_lazy_request_id (encode resp ++ rest) = Some (resp_request_id resp)
  /\ response_lazy_requester (encode resp ++ rest) = Some (resp_requester resp)
  /\ response_lazy_requester_worker (encode resp ++ rest) = Some (resp_requester_worker resp).
Proof.
  destruct resp as [i r w p].
  cbn [encode admissible Response_codec resp_request_id resp_requester
       resp_requester_worker resp_payload].
  intros Hr. split_admissible. rewrite <- !app_assoc. split_and!.
  - apply (lazy_field_app 0 4 []); done.
  - apply lazy_field_app; [by rewrite length_le_bytes | done].
  - rewrite app_assoc. apply lazy_field_app; [by rewrite length_app, !length_le_bytes | done].
Qed.

(** The [RequestLazy] accessors read the fields of an encoded [Request]. *)
Lemma request_lazy_fields (req : Request A) (rest : list byte) :
  admissible req = true ->
  request_lazy_request_id (encode req ++ rest) = Some (req_request_id req)
  /\ request_lazy_worker (encode req ++ rest) = Some (req_worker req).
Proof.
  destruct req as [i w p]. cbn [encode admissible Request_codec req_request_id req_worker req_payload].
  intros Hq. split_admissible. rewrite <- !app_assoc. split.
  - apply (lazy_field_app 0 4 []); done.
  - apply lazy_field_app; [by rewrite length_le_bytes | done].
Qed.
End LazyFields.

(** *** Framing lemmas *)

Lemma wire_packet_wf_spec p :
  wire_packet_wf p = true ->
  admissible (wp_header p) = true
  /\ payload_length (wp_header p) = Z.of_nat (length (wp_payload p)).
Proof. unfold wire_packet_wf. rewrite andb_true_iff, Z.eqb_eq. tauto. Qed.

Lemma length_packet_bytes p :
  length (packet_bytes p) = (20 + length (wp_payload p))%nat.
Proof. unfold packet_bytes. rewrite length_app, length_encode. reflexivity. Qed.

Lemma decode_packet_bytes p rest :
  wire_packet_wf p = true ->
  decode (packet_bytes p ++ rest) = Some (wp_header p, wp_payload p ++ rest).
Proof.
  intros [Ha _]%wire_packet_wf_spec. unfold packet_bytes.
  rewrite <- app_assoc. now apply decode_encode.
Qed.

(** The cursor [shatter_loop] computes from a packet header is the start
    of the next packet. *)
Lemma next_cursor p cursor :
  wire_packet_wf p = true ->
  (cursor + 20 + Z.to_nat (payload_length (wp_header p)))%nat
  = (cursor + length (packet_bytes p))%nat.
Proof.
  intros [_ ->]%wire_packet_wf_spec. rewrite length_packet_bytes, Nat2Z.id. lia.
Qed.

Lemma bundle_body_cons p ps : bundle_body (p :: ps) = packet_bytes p ++ bundle_body ps.
Proof. reflexivity. Qed.

Lemma length_bundle_body_ge ps : (length ps <= length (bundle_body ps))%nat.
Proof.
  induction ps as [|p ps IH]; [simpl; lia|].
  rewrite bundle_body_cons, length_app, length_packet_bytes. simpl. lia.
Qed.

#[export] Hint Rewrite bundle_body_cons length_packet_bytes : modrpc_rw.

Lemma shatter_loop_body ps pre post fuel :
  Forall (fun p => wire_packet_wf p = true) ps -> (length ps <= fuel)%nat ->
  shatter_loop fuel (pre ++ bundle_body ps ++ post) (length pre)
    (length pre + length (bundle_body ps)) = Ok (packet_offsets (length pre) ps).
Proof.
  revert pre fuel; induction ps as [|p ps IH]; intros pre fuel Hwf Hfuel.
  - destruct fuel; simpl; [reflexivity|].
    rewrite decide_False by lia. reflexivity.
  - inversion Hwf as [|? ? Hp Hps]; subst.
    destruct fuel as [|fuel]; [simpl in Hfuel; lia|]. cbn [shatter_loop].
    pose proof (length_packet_bytes p) as Hlen.
    rewrite bundle_body_cons, decide_True by (rewrite length_app; lia).
    unfold slice_from. rewrite decide_True by (rewrite !length_app; lia).
    rewrite bind_Ok, drop_app_length, <- app_assoc, decode_packet_bytes by done.
    cbn [fmap option_fmap option_map fst expect mbind result_bind].
    rewrite next_cursor by done.
    replace (pre ++ packet_bytes p ++ bundle_body ps ++ post)
      with ((pre ++ packet_bytes p) ++ bundle_body ps ++ post) by (rewrite <- app_assoc; reflexivity).
    replace (length pre + length (packet_bytes p ++ bundle_body ps))%nat
      with (length (pre ++ packet_bytes p) + length (bundle_body ps))%nat
      by (rewrite !length_app; lia).
    replace (length pre + length (packet_bytes p))%nat with (length (pre ++ packet_bytes p))
      by (rewrite length_app; reflexivity).
    rewrite IH by (simpl in Hfuel; auto with lia).
    rewrite bind_Ok, length_app. reflexivity.
Qed.

Lemma shatter_into_body ps pre :
  Forall (fun p => wire_packet_wf p = true) ps ->
  shatter_into (pre ++ bundle_body ps) (packet_offsets (length pre) ps) = map packet_bytes ps.
Proof.
  revert pre; induction ps as [|p ps IH]; intros pre Hwf; [reflexivity|].
  inversion Hwf as [|? ? Hp Hps]; subst.
  destruct ps as [|p' ps'].
  - cbn. rewrite app_nil_r, drop_app_length. reflexivity.
  - change (packet_offsets (length pre) (p :: p' :: ps'))
      with (length pre :: packet_offsets (length pre + length (packet_bytes p))%nat (p' :: ps')).
    rewrite <- length_app.
    change (packet_offsets (length (pre ++ packet_bytes p)) (p' :: ps'))
      with (length (pre ++ packet_bytes p) :: packet_offsets
              (length (pre ++ packet_bytes p) + length (packet_bytes p'))%nat ps').
    cbn [shatter_into map]. f_equal.
    + replace (length (pre ++ packet_bytes p) - length pre)%nat with (length (packet_bytes p))
        by (rewrite length_app; lia).
      rewrite bundle_body_cons, drop_app_length, take_app_length. reflexivity.
    + rewrite bundle_body_cons, app_assoc. exact (IH (pre ++ packet_bytes p) Hps).
Qed.

(** Every view the iterator yields starts with a header that decodes. *)
Lemma shatter_iter_views fuel packet cursor :
  Forall (fun view => exists (h : TransmitPacket) rest, decode view = Some (h, rest) /\ admissible h = true /\
                                     view = encode h ++ rest)
         (shatter_iter fuel packet cursor).
Proof.
  revert cursor. induction fuel as [|fuel IH]; intros cursor; cbn [shatter_iter]; [done|].
  case_decide; [|done]. destruct (decode (drop cursor packet)) as [[h r]|] eqn:E; [|done].
  constructor; [|apply IH]. exists h, r. split; [done|]. by apply decode_inv.
Qed.

Lemma shatter_iter_body ps pre post fuel :
  Forall (fun p => wire_packet_wf p = true /\ wp_payload p <> []) ps ->
  (length ps <= fuel)%nat -> (length post <= 20)%nat ->
  shatter_iter fuel (pre ++ bundle_body ps ++ post) (length pre)
  = map (fun o => drop o (pre ++ bundle_body ps ++ post)) (packet_offsets (length pre) ps).
Proof.
  revert pre fuel; induction ps as [|p ps IH]; intros pre fuel Hwf Hfuel Hpost.
  - destruct fuel; simpl; [reflexivity|].
    rewrite decide_False by (rewrite length_app; lia). reflexivity.
  - inversion Hwf as [|? ? [Hp Hne] Hps]; subst.
    destruct fuel as [|fuel]; [simpl in Hfuel; lia|]. cbn [shatter_iter].
    pose proof (length_packet_bytes p) as Hlen.
    destruct (wp_payload p) eqn:Epl; [congruence|].
    rewrite decide_True by (rewrite bundle_body_cons, !length_app, Hlen; simpl; lia).
    rewrite bundle_body_cons, drop_app_length, <- app_assoc, decode_packet_bytes by done.
    rewrite next_cursor by done.
    replace (pre ++ packet_bytes p ++ bundle_body ps ++ post)
      with ((pre ++ packet_bytes p) ++ bundle_body ps ++ post)
      by (rewrite <- app_assoc; reflexivity).
    replace (length pre + length (packet_bytes p))%nat with (length (pre ++ packet_bytes p))
      by (rewrite length_app; reflexivity).
    rewrite IH by (simpl in Hfuel; auto with lia).
    cbn [packet_offsets map]. rewrite <- app_assoc, drop_app_length, length_app. reflexivity.
Qed.

(** ** Properties of the codec *)

(** C8: [TransmitPacket] decoding and encoding are inverse: a byte string
    decodes to header [h] with [rest] left over exactly when its fields
    fit their widths and the string is the 20-byte encoding of [h]
    followed by [rest]. *)
Theorem transmit_packet_roundtrip (bs : list byte) (h : TransmitPacket) (rest : list byte) :
  decode bs = Some (h, rest) <-> admissible h = true /\ bs = encode h ++ rest.
Proof.
  split; [apply decode_inv | intros [Ha ->]; now apply decode_encode].
Qed.

(** Decoding a [TransmitPacket] fails exactly when fewer than 20
    bytes are left, and every encoded header is 20 bytes long. *)
Theorem transmit_packet_decode_error (bs : list byte) :
  @decode TransmitPacket _ bs = None <-> (length bs < 20)%nat.
Proof.
  split.
  - intros Hn. destruct (Nat.lt_ge_cases (length bs) 20) as [|Hge]; [done|].
    destruct (@decode_total _ TransmitPacket_codec _ bs Hge) as [x Hx]. congruence.
  - apply (@decode_short _ TransmitPacket_codec _).
Qed.

Lemma shatter_bundle_bytes (ch : Z) (ps : list WirePacket) :
  Forall (fun p => wire_packet_wf p = true) ps ->
  fits 32 ch = true -> fits 16 (Z.of_nat (length (bundle_body ps))) = true ->
  exists offsets,
    shatter_packet_bundle (bundle_bytes ch ps)
      = Ok ({| channel_id := ch; bundle_length := Z.of_nat (length (bundle_body ps)) |}, offsets)
    /\ shatter_into (bundle_bytes ch ps) offsets = map packet_bytes ps.
Proof.
  intros Hwf Hch Hlen. exists (packet_offsets 6 ps).
  set (hdr := {| channel_id := ch; bundle_length := Z.of_nat (length (bundle_body ps)) |}).
  assert (Hadm : admissible hdr = true).
  { cbn. now rewrite Hch, Hlen. }
  unfold shatter_packet_bundle, bundle_bytes. fold hdr.
  rewrite decode_encode by done. cbn [fmap option_fmap option_map fst expect mbind result_bind].
  replace (6 + Z.to_nat (bundle_length hdr))%nat
    with (length (encode hdr) + length (bundle_body ps))%nat
    by (rewrite length_encode; cbn; lia).
  replace (6%nat) with (length (encode hdr)) by (rewrite length_encode; reflexivity).
  rewrite <- (app_nil_r (encode hdr ++ bundle_body ps)), <- app_assoc.
  rewrite shatter_loop_body; [|done|].
  - rewrite app_nil_r. split; [reflexivity|]. now apply shatter_into_body.
  - rewrite length_app, app_nil_r. pose proof (length_bundle_body_ge ps). lia.
Qed.

(** C9: shattering a bundle that a writer produced from well-formed
    packets recovers its header, one offset per packet, and exactly the
    bytes of each packet ([shatter_packet_bundle] then [shatter_into]). *)
Theorem shatter_packet_bundle_roundtrip (ch : Z) (ps : list WirePacket) :
  Forall (fun p => wire_packet_wf p = true) ps ->
  fits 32 ch = true -> fits 16 (Z.of_nat (length (bundle_body ps))) = true ->
  exists offsets,
    shatter_packet_bundle (bundle_bytes ch ps)
      = Ok ({| channel_id := ch; bundle_length := Z.of_nat (length (bundle_body ps)) |}, offsets)
    /\ shatter_into (bundle_bytes ch ps) offsets = map packet_bytes ps.
Proof. apply shatter_bundle_bytes. Qed.

(** Views of untrusted bytes are well typed.  On any byte string
    (a bundle body read from a socket, however malformed), every view the
    hub's [ShatterPacketBundle] iterator yields starts with a 20-byte
    header that decodes to a [TransmitPacket] whose fields fit their Rust
    types (u16, u16, u32, u32, u64), followed by the rest of the view. *)
Theorem shatter_iter_views_well_typed (packet : list byte) :
  Forall (fun view => exists (h : TransmitPacket) rest, decode view = Some (h, rest) /\ admissible h = true /\
                                     view = encode h ++ rest /\ length rest = (length view - 20)%nat)
         (shatter_packet_bundle_iter packet).
Proof.
  eapply Forall_impl; [apply shatter_iter_views|].
  intros view (h & rest & Hd & Ha & ->). exists h, rest. split_and!; try done.
  rewrite length_app, length_encode. cbn. lia.
Qed.

(** the hub's [ShatterPacketBundle] iterator stops while
    [cursor + 20 < len] holds, so a bundle whose last packet has an empty
    payload (an event of type [()] such as a byte-stream [blob] of length
    0) loses that packet: the iterator yields the views of the packets
    before it and nothing for it. *)
Theorem shatter_iter_drops_empty_last (ps : list WirePacket) (p : WirePacket) :
  Forall (fun q => wire_packet_wf q = true /\ wp_payload q <> []) ps ->
  wire_packet_wf p = true -> wp_payload p = [] ->
  shatter_packet_bundle_iter (bundle_body (ps ++ [p]))
  = map (fun o => drop o (bundle_body (ps ++ [p]))) (packet_offsets 0 ps).
Proof.
  intros Hps Hp Hempty. unfold shatter_packet_bundle_iter.
  assert (Hb : bundle_body (ps ++ [p]) = [] ++ bundle_body ps ++ packet_bytes p).
  { unfold bundle_body. rewrite map_app, join_app. simpl. now rewrite app_nil_r. }
  rewrite Hb. apply (shatter_iter_body ps [] (packet_bytes p)); [done| |].
  - rewrite app_nil_l, length_app. pose proof (length_bundle_body_ge ps).
    rewrite length_packet_bytes. lia.
  - rewrite length_packet_bytes, Hempty. simpl. lia.
Qed.

(** the lazy accessors the request tracker uses read back the
    fields of an encoded [Response] (at offsets 0, 4 and 12) and of an
    encoded [Request] (at offsets 0 and 4), whatever payload and bytes
    follow. *)
Theorem lazy_accessors_read_fields {A : Type} `{CodecLaws A}
    (resp : Response A) (req : Request A) (rest : list byte) :
  admissible resp = true -> admissible req = true ->
  response_lazy_request_id (encode resp ++ rest) = Some (resp_request_id resp)
  /\ response_lazy_requester (encode resp ++ rest) = Some (resp_requester resp)
  /\ response_lazy_requester_worker (encode resp ++ rest) = Some (resp_requester_worker resp)
  /\ request_lazy_request_id (encode req ++ rest) = Some (req_request_id req)
  /\ request_lazy_worker (encode req ++ rest) = Some (req_worker req).
Proof.
  intros Hr Hq.
  destruct (response_lazy_fields resp rest Hr) as (? & ? & ?).
  destruct (request_lazy_fields req rest Hq) as (? & ?).
  by split_and!.
Qed.

(** ** Witnesses *)

Lemma shatter_packet_bundle_roundtrip_witness :
  exists offsets,
    shatter_packet_bundle
      (bundle_bytes 5 [example_packet 2 [Byte.x01; Byte.x02]; example_packet 0 []])
    = Ok ({| channel_id := 5; bundle_length := 42 |}, offsets)
    /\ shatter_into (bundle_bytes 5 [example_packet 2 [Byte.x01; Byte.x02]; example_packet 0 []])
         offsets
       = map packet_bytes [example_packet 2 [Byte.x01; Byte.x02]; example_packet 0 []].
Proof.
  apply (shatter_packet_bundle_roundtrip 5
           [example_packet 2 [Byte.x01; Byte.x02]; example_packet 0 []]);
    [repeat constructor | reflexivity | reflexivity].
Defined.

Lemma shatter_iter_drops_empty_last_witness :
  shatter_packet_bundle_iter
    (bundle_body ([example_packet 2 [Byte.x01; Byte.x02]] ++ [example_packet 0 []]))
  = map (fun o => drop o (bundle_body ([example_packet 2 [Byte.x01; Byte.x02]]
                                        ++ [example_packet 0 []])))
        (packet_offsets 0 [example_packet 2 [Byte.x01; Byte.x02]]).
Proof.
  apply shatter_iter_drops_empty_last;
    [repeat constructor; discriminate | reflexivity | reflexivity].
Defined.

Lemma lazy_accessors_read_fields_witness :
  response_lazy_requester_worker
    (encode (Build_Response 7 42 3 tt) ++ []) = Some 3.
Proof.
  apply (lazy_accessors_read_fields (Build_Response 7 42 3 tt) (Build_Request 7 3 tt) []);
    reflexivity.
Defined.
