(* ===== verification/Slab.v ===== *)
(** * Slab: the key allocator of the caller-await table

    [RequestTracker] keeps its pending calls in a [slab::Slab] (a crate
    the sources only call, modelled here from its documented behaviour):
    a vector of entries, each [Vacant next] or [Occupied v], and the head
    [next] of a free list threaded through the vacant entries.  [insert]
    takes the head of the free list, or pushes at the end when the list is
    empty ([next = entries.len()]); [remove] puts the key back at the head
    of the list, so the next [insert] reuses it.  The element count [len]
    of the crate is never read by the tracker and is left out.

    The invariant [slab_wf] says the free list is a chain of distinct
    vacant keys ending at [length entries] and holds every vacant key;
    under it the slab refines a finite map whose [insert] picks a key not
    in use ([slab_insert_refines], [slab_remove_refines]). *)

From S2P Require Import Prelude.

Section Slab.
Context {A : Type}.

Inductive Entry :=
| Vacant (next : nat)
| Occupied (v : A).

Record Slab := {
  entries : list Entry;
  next : nat;
}.

Definition slab_new : Slab := {| entries := []; next := 0 |}.

(** [Slab::get]: the value of an occupied entry. *)
Definition slab_get (s : Slab) (key : nat) : option A :=
  match entries s !! key with
  | Some (Occupied v) => Some v
  | _ => None
  end.

(** [Slab::insert] (through [insert_at]): the key it returns and the new slab. *)
Definition slab_insert (v : A) (s : Slab) : result (nat * Slab) :=
  let key := next s in
  if decide (key = length (entries s)) then
    Ok (key, {| entries := entries s ++ [Occupied v]; next := S key |})
  else
    match entries s !! key with
    | Some (Vacant n) => Ok (key, {| entries := <[key := Occupied v]> (entries s); next := n |})
    | _ => Panic "internal error: entered unreachable code"
    end.

(** [Slab::remove]: [try_remove] or the panic of [expect("invalid key")]. *)
Definition slab_remove (key : nat) (s : Slab) : result (A * Slab) :=
  match entries s !! key with
  | Some (Occupied v) =>
      Ok (v, {| entries := <[key := Vacant (next s)]> (entries s); next := key |})
  | _ => Panic "invalid key"
  end.

(** [&slab[key]] followed by an update of the entry through its cells. *)
Definition slab_modify (key : nat) (f : A -> A) (s : Slab) : Slab :=
  match entries s !! key with
  | Some (Occupied v) => {| entries := <[key := Occupied (f v)]> (entries s); next := next s |}
  | _ => s
  end.

(** ** The free-list invariant *)

(** [free_list es n l]: following the free list from [n] visits the
    distinct vacant keys [l] and ends at [length es]. *)
Inductive free_list (es : list Entry) : nat -> list nat -> Prop :=
| fl_end : free_list es (length es) []
| fl_cons k n l :
    es !! k = Some (Vacant n) -> free_list es n l -> k ∉ l -> free_list es k (k :: l).

Definition slab_wf (s : Slab) : Prop :=
  exists l, free_list (entries s) (next s) l /\
    forall k n, entries s !! k = Some (Vacant n) -> k ∈ l.

(** The abstract view: the finite map of occupied keys. *)
Definition slab_view (s : Slab) : gmap nat A :=
  map_imap (fun _ e => match e with Occupied v => Some v | Vacant _ => None end)
    (map_seq 0 (entries s)).

End Slab.
Arguments Entry : clear implicits.
Arguments Slab : clear implicits.

(** ** Lemmas *)

Section SlabProofs.
Context {A : Type}.
Implicit Types (s : Slab A) (es : list (Entry A)) (l : list nat).

Lemma slab_view_lookup s k : slab_view s !! k = slab_get s k.
Proof.
  unfold slab_view, slab_get. rewrite map_lookup_imap, lookup_map_seq_0.
  by destruct (entries s !! k) as [[]|].
Qed.

Lemma free_list_vacant es n l k : free_list es n l -> k ∈ l -> exists m, es !! k = Some (Vacant m).
Proof. induction 1; [set_solver|]. rewrite elem_of_cons. intros [->|]; eauto. Qed.

Lemma free_list_len es l : free_list es (length es) l -> l = [].
Proof.
  inversion 1 as [|k n l' Hk]; [done|]. subst.
  apply lookup_lt_Some in Hk. lia.
Qed.

(** Updating an entry off the free list keeps the list. *)
Lemma free_list_update es n l k e :
  free_list es n l -> k ∉ l -> (k < length es)%nat -> free_list (<[k := e]> es) n l.
Proof.
  induction 1 as [|j m l Hj _ IH Hnot]; intros Hk Hlt.
  - replace (length es) with (length (<[k:=e]> es)) by apply length_insert. constructor.
  - apply not_elem_of_cons in Hk as [Hkj Hk]. apply (fl_cons _ j m); [|auto|done].
    rewrite list_lookup_insert_ne; auto.
Qed.

Lemma free_list_not_occupied es n l k v : free_list es n l -> es !! k = Some (Occupied v) -> k ∉ l.
Proof. intros Hl Hk Hin. destruct (free_list_vacant _ _ _ _ Hl Hin). congruence. Qed.

Lemma slab_get_insert s k e j :
  (k < length (entries s))%nat ->
  slab_get {| entries := <[k := e]> (entries s); next := next s |} j
  = if decide (j = k) then (match e with Occupied v => Some v | Vacant _ => None end) else slab_get s j.
Proof.
  intros Hk. unfold slab_get; simpl. case_decide as Hj.
  - subst. rewrite list_lookup_insert_eq by done. by destruct e.
  - by rewrite list_lookup_insert_ne by congruence.
Qed.

Lemma slab_wf_new : slab_wf (@slab_new A).
Proof. exists []. split; [apply (fl_end [])|]. done. Qed.

(** [insert] never panics on a well-formed slab, returns a key not in
    use, stores the value under it, and keeps the slab well formed. *)
Lemma slab_insert_spec s v :
  slab_wf s ->
  exists k s', slab_insert v s = Ok (k, s') /\ slab_get s k = None /\
    (forall j, slab_get s' j = if decide (j = k) then Some v else slab_get s j) /\
    slab_wf s'.
Proof.
  intros (l & Hl & Hall). unfold slab_insert.
  case_decide as Hn.
  - rewrite Hn in Hl. apply free_list_len in Hl as ->.
    eexists _, _. split_and!; [reflexivity|..].
    + unfold slab_get. by rewrite lookup_ge_None_2 by lia.
    + intros j. unfold slab_get; simpl. case_decide as Hj.
      * subst. by rewrite Hn, lookup_app_r, Nat.sub_diag by lia.
      * destruct (decide (j < length (entries s))%nat).
        -- by rewrite lookup_app_l by done.
        -- rewrite !lookup_ge_None_2 by (rewrite ?length_app; simpl; lia). done.
    + exists []. split.
      * replace (S (next s)) with (length (entries s ++ [Occupied v])) by (rewrite length_app; simpl; lia).
        constructor.
      * intros k n Hk. apply lookup_app_Some in Hk as [Hk|[Hlen Hk]].
        -- by apply (Hall k n).
        -- apply list_lookup_singleton_Some in Hk as [_ ?]. done.
  - inversion Hl as [Heq|k n l' Hk Hl' Hnot Heq1 Heq2]; [congruence|]. subst.
    rewrite Hk. eexists _, _. split_and!; [reflexivity|..].
    + unfold slab_get. by rewrite Hk.
    + intros j. apply (slab_get_insert s). by eapply lookup_lt_Some.
    + exists l'. split.
      * apply free_list_update; [done..|]. by eapply lookup_lt_Some.
      * intros j m Hj. simpl in Hj. destruct (decide (j = next s)) as [->|Hne].
        -- rewrite list_lookup_insert_eq in Hj by (by eapply lookup_lt_Some). done.
        -- rewrite list_lookup_insert_ne in Hj by congruence.
           apply Hall in Hj. set_solver.
Qed.

(** [remove] of an occupied key returns its value, frees the key (it
    becomes the head of the free list) and keeps the slab well formed;
    [remove] of any other key panics. *)
Lemma slab_remove_spec s k :
  slab_wf s ->
  match slab_get s k with
  | Some v => exists s', slab_remove k s = Ok (v, s') /\ next s' = k /\
      (forall j, slab_get s' j = if decide (j = k) then None else slab_get s j) /\ slab_wf s'
  | None => slab_remove k s = Panic "invalid key"
  end.
Proof.
  intros (l & Hl & Hall). unfold slab_get at 1, slab_remove.
  destruct (entries s !! k) as [[n|v]|] eqn:Hk; [done| |done].
  eexists. split_and!; [reflexivity|reflexivity|..].
  - intros j. apply (slab_get_insert s). by eapply lookup_lt_Some.
  - exists (k :: l). simpl. split.
    + apply (fl_cons _ k (next s)).
      * by rewrite list_lookup_insert_eq by (by eapply lookup_lt_Some).
      * apply free_list_update; [done|by eapply free_list_not_occupied|by eapply lookup_lt_Some].
      * by eapply free_list_not_occupied.
    + intros j m Hj. destruct (decide (j = k)) as [->|Hne]; [set_solver|].
      rewrite list_lookup_insert_ne in Hj by congruence. apply Hall in Hj. set_solver.
Qed.

Lemma slab_modify_get s k f j :
  slab_get (slab_modify k f s) j = if decide (j = k) then f <$> slab_get s k else slab_get s j.
Proof.
  unfold slab_modify. destruct (entries s !! k) as [[n|v]|] eqn:Hk.
  - case_decide; subst; [by unfold slab_get; rewrite Hk|done].
  - rewrite slab_get_insert by (by eapply lookup_lt_Some).
    case_decide; subst; [by unfold slab_get; rewrite Hk|done].
  - case_decide; subst; [by unfold slab_get; rewrite Hk|done].
Qed.

Lemma slab_modify_wf s k f : slab_wf s -> slab_wf (slab_modify k f s).
Proof.
  intros (l & Hl & Hall). unfold slab_modify.
  destruct (entries s !! k) as [[n|v]|] eqn:Hk; [by exists l| |by exists l].
  exists l. simpl. split.
  - apply free_list_update; [done|by eapply free_list_not_occupied|by eapply lookup_lt_Some].
  - intros j m Hj. destruct (decide (j = k)) as [->|Hne].
    + by rewrite list_lookup_insert_eq in Hj by (by eapply lookup_lt_Some).
    + rewrite list_lookup_insert_ne in Hj by congruence. by apply (Hall j m).
Qed.

Lemma slab_insert_key_le s v k s' : slab_insert v s = Ok (k, s') -> (k <= length (entries s))%nat.
Proof.
  unfold slab_insert. case_decide; [by intros [= <- _]; lia|].
  destruct (entries s !! next s) as [[]|] eqn:Hk; [|discriminate..].
  intros [= <- _]. apply lookup_lt_Some in Hk. lia.
Qed.

(** Refinement of the allocator by a finite map: on a well-formed
    slab, [insert] never panics, picks a key not in the map, and its
    view is the map with the value inserted at that key; the slab stays
    well formed. *)
Theorem slab_insert_refines s v :
  slab_wf s ->
  exists k s', slab_insert v s = Ok (k, s') /\ slab_view s !! k = None /\
    slab_view s' = <[k := v]> (slab_view s) /\ slab_wf s'.
Proof.
  intros (k & s' & Hins & Hk & Hget & Hwf)%(slab_insert_spec _ v).
  exists k, s'. split_and!; [done|by rewrite slab_view_lookup|..|done].
  apply map_eq. intros j. rewrite slab_view_lookup, Hget.
  case_decide; subst; [by rewrite lookup_insert_eq|by rewrite lookup_insert_ne, slab_view_lookup].
Qed.

(** On a well-formed slab, [remove] of a key of the map returns its
    value, frees the key for the next [insert] (it becomes the head of
    the free list), and its view is the map without the key; [remove] of
    any other key panics with "invalid key". *)
Lemma slab_remove_refines s k :
  slab_wf s ->
  match slab_view s !! k with
  | Some v => exists s', slab_remove k s = Ok (v, s') /\ next s' = k /\
      slab_view s' = delete k (slab_view s) /\ slab_wf s'
  | None => slab_remove k s = Panic "invalid key"
  end.
Proof.
  intros Hwf. rewrite slab_view_lookup. pose proof (slab_remove_spec s k Hwf) as Hr.
  destruct (slab_get s k); [|done].
  destruct Hr as (s' & Hrem & Hn & Hget & Hwf'). exists s'. split_and!; [done..| |done].
  apply map_eq. intros j. rewrite slab_view_lookup, Hget.
  case_decide; subst; [by rewrite lookup_delete_eq|by rewrite lookup_delete_ne, slab_view_lookup].
Qed.

(** A key just removed is the one the next [insert] returns. *)
Lemma slab_remove_insert s k v s' w :
  slab_wf s -> slab_remove k s = Ok (v, s') -> exists s'', slab_insert w s' = Ok (k, s'').
Proof.
  intros Hwf Hrem. pose proof (slab_remove_spec s k Hwf) as Hr.
  destruct (slab_get s k); [|congruence].
  destruct Hr as (s1 & Hrem1 & Hn & _ & Hwf1). rewrite Hrem in Hrem1. injection Hrem1 as <- <-.
  destruct (slab_insert_spec s' w Hwf1) as (k' & s2 & Hins & _). unfold slab_insert in *.
  rewrite Hn in Hins |- *. destruct (decide _); [by eexists|].
  destruct (entries s' !! k) as [[]|]; [by eexists|discriminate..].
Qed.

End SlabProofs.
