(* ===== verification/ContextMap.v ===== *)
(** * ContextMap: the keyed store of per-worker and process-wide state

    Models src/crates/modrpc/src/context_map.rs.  A [ContextMapPrivate]
    holds items keyed by (type id, key); each item records the next item
    of its tag's chain, and [tag_chains] maps a tag to the head of its
    chain, so that [shutdown_tag] can drop every item of a tag in one walk.

    Representation: the hash table of [Item]s is a [gmap] keyed by the
    pair (type id, key) that [item_compare] compares; an [ItemId]
    (hash and pointer) is that pair, which is unique for a live item; the
    null [ItemId] is [None].  Values of every context class are a single
    type [V] of the section, and the key type [K] is shared as well (a
    type id separates the classes).  [with_inner]'s callback [f] takes the
    value and returns the new value and its result, as a [&mut T] would.
    The public [ContextMap] and [LocalContextMap] forward every call to
    their [ContextMapPrivate]; the [ContextClass] trait is a type class
    giving a class's type id and its [new(params)]. *)

From S2P Require Import Prelude.

(** ** Tags (context_map.rs, worker.rs) *)

Record WorkerId := { worker_index : Z }.  (* WorkerId(pub u16) *)

#[export] Instance WorkerId_eq_dec : EqDecision WorkerId.
Proof. solve_decision. Defined.
#[export] Instance WorkerId_countable : Countable WorkerId.
Proof. by apply (inj_countable' worker_index (fun z => {| worker_index := z |})); intros []. Defined.

Inductive ModrpcContextTag :=
| Role (role_id : Z)      (* Role(u64) *)
| Worker (w : WorkerId).  (* Worker(WorkerId) *)

#[export] Instance ModrpcContextTag_eq_dec : EqDecision ModrpcContextTag.
Proof. solve_decision. Defined.
#[export] Instance ModrpcContextTag_countable : Countable ModrpcContextTag.
Proof.
  apply (inj_countable'
           (fun t => match t with Role r => inl r | Worker w => inr w end)
           (fun s => match s with inl r => Role r | inr w => Worker w end)).
  by intros [].
Defined.

Section ContextMap.
Context {K V : Type} `{Countable K}.

(** [ItemId { hash, ptr }]: the identity of a live item. *)
Definition ItemId : Type := (nat * K)%type.

(** [Item] and its [ItemTyped { key, value }]: the key is the map's key. *)
Record Item := { item_value : V; tag_next : option ItemId }.

Record ContextMapPrivate := {
  items : gmap ItemId Item;
  tag_chains : gmap ModrpcContextTag ItemId;
}.

Definition new_inner : ContextMapPrivate := {| items := ∅; tag_chains := ∅ |}.

(** [get_ptr]/[get_ptr_fn]: find the item, or create it from [ctor] and
    push it on the front of its tag's chain. *)
Definition get_ptr (tag : ModrpcContextTag) (id : ItemId) (ctor : V) (s : ContextMapPrivate)
    : ContextMapPrivate * V :=
  match items s !! id with
  | Some it => (s, item_value it)
  | None =>
      let it := {| item_value := ctor; tag_next := tag_chains s !! tag |} in
      ({| items := <[id := it]> (items s); tag_chains := <[tag := id]> (tag_chains s) |}, ctor)
  end.

(** Write the value back, as the callback's [&mut T] does. *)
Definition set_value (id : ItemId) (v : V) (s : ContextMapPrivate) : ContextMapPrivate :=
  {| items := alter (fun it => {| item_value := v; tag_next := tag_next it |}) id (items s);
     tag_chains := tag_chains s |}.

(** [with_inner(tag, key, params, f)]: [ctor] is [T::new(params)]. *)
Definition with_inner {U} (tag : ModrpcContextTag) (type_id : nat) (key : K) (ctor : V)
    (f : V -> V * U) (s : ContextMapPrivate) : ContextMapPrivate * U :=
  let id := (type_id, key) in
  let '(s1, v) := get_ptr tag id ctor s in
  let '(v', u) := f v in
  (set_value id v' s1, u).

(** [with_inner_fn(tag, key, constructor, f)]: [ctor] is [constructor()]. *)
Definition with_inner_fn {U} (tag : ModrpcContextTag) (type_id : nat) (key : K)
    (constructor : unit -> V) (f : V -> V * U) (s : ContextMapPrivate)
    : ContextMapPrivate * U :=
  with_inner tag type_id key (constructor tt) f s.

(** The loop of [shutdown_tag]: remove the item [next] names, continue
    with its [tag_next]; a missing item is the [expect] that panics.
    Each turn removes an item, so [S (size items)] turns are enough
    ([drop_chain_fuel] below); the fuel only makes the recursion
    structural. *)
Fixpoint drop_chain (fuel : nat) (its : gmap ItemId Item) (next : option ItemId)
    : result (gmap ItemId Item) :=
  match next with
  | None => Ok its
  | Some id =>
      match fuel with
      | O => Ok its
      | S fuel' =>
          removed_item ← expect "ContextMap::shutdown_tag missing item" (its !! id);
          drop_chain fuel' (delete id its) (tag_next removed_item)
      end
  end.

Definition shutdown_tag (tag : ModrpcContextTag) (s : ContextMapPrivate)
    : result ContextMapPrivate :=
  match tag_chains s !! tag with
  | None => Ok s
  | Some head =>
      its ← drop_chain (S (size (items s))) (items s) (Some head);
      Ok {| items := its; tag_chains := delete tag (tag_chains s) |}
  end.

(** ** The public maps *)

(** [ContextClass]: the [TypeId] of a context type and its
    constructor [T::new(params)]. *)
Class ContextClass (Params : Type) := {
  context_type_id : nat;
  context_new : Params -> V;
}.

(** [ContextMap] and [LocalContextMap] wrap a [ContextMapPrivate]; they
    differ only in the [Send] bound on their items, which the model does
    not track. *)
Record ContextMap := { cm_inner : ContextMapPrivate }.
Record LocalContextMap := { lcm_inner : ContextMapPrivate }.

(** [ContextMap::new], [::with], [::with_fn] and [::shutdown_tag]. *)
Definition context_map_new : ContextMap := {| cm_inner := new_inner |}.

Definition context_map_with {P U} `{ContextClass P} (tag : ModrpcContextTag) (key : K)
    (params : P) (f : V -> V * U) (m : ContextMap) : ContextMap * U :=
  let '(s, u) := with_inner tag context_type_id key (context_new params) f (cm_inner m) in
  ({| cm_inner := s |}, u).

Definition context_map_with_fn {U} (tag : ModrpcContextTag) (type_id : nat) (key : K)
    (constructor : unit -> V) (f : V -> V * U) (m : ContextMap) : ContextMap * U :=
  let '(s, u) := with_inner_fn tag type_id key constructor f (cm_inner m) in
  ({| cm_inner := s |}, u).

Definition context_map_shutdown_tag (tag : ModrpcContextTag) (m : ContextMap)
    : result ContextMap :=
  s ← shutdown_tag tag (cm_inner m); Ok {| cm_inner := s |}.

(** [LocalContextMap::new], [::with], [::with_fn] and [::shutdown_tag]. *)
Definition local_context_map_new : LocalContextMap := {| lcm_inner := new_inner |}.

Definition local_context_map_with {P U} `{ContextClass P} (tag : ModrpcContextTag) (key : K)
    (params : P) (f : V -> V * U) (m : LocalContextMap) : LocalContextMap * U :=
  let '(s, u) := with_inner tag context_type_id key (context_new params) f (lcm_inner m) in
  ({| lcm_inner := s |}, u).

Definition local_context_map_with_fn {U} (tag : ModrpcContextTag) (type_id : nat) (key : K)
    (constructor : unit -> V) (f : V -> V * U) (m : LocalContextMap) : LocalContextMap * U :=
  let '(s, u) := with_inner_fn tag type_id key constructor f (lcm_inner m) in
  ({| lcm_inner := s |}, u).

Definition local_context_map_shutdown_tag (tag : ModrpcContextTag) (m : LocalContextMap)
    : result LocalContextMap :=
  s ← shutdown_tag tag (lcm_inner m); Ok {| lcm_inner := s |}.

(** ** The chain invariant *)

(** [chain its next l]: following [tag_next] from [next] through [its]
    visits the items [l] and ends at the null id. *)
Inductive chain (its : gmap ItemId Item) : option ItemId -> list ItemId -> Prop :=
| chain_nil : chain its None []
| chain_cons id it l :
    its !! id = Some it -> chain its (tag_next it) l -> chain its (Some id) (id :: l).

Definition tag_items (s : ContextMapPrivate) (t : ModrpcContextTag) (l : list ItemId) : Prop :=
  chain (items s) (tag_chains s !! t) l.

(** Every tag's chain is finite and reaches only live items, the chains
    of two tags share no item, and every live item is on a chain. *)
Record wf (s : ContextMapPrivate) : Prop := {
  wf_chains : forall t, exists l, tag_items s t l;
  wf_disjoint : forall t1 t2 l1 l2,
    t1 <> t2 -> tag_items s t1 l1 -> tag_items s t2 l2 -> l1 ## l2;
  wf_covered : forall id, is_Some (items s !! id) ->
    exists t l, tag_items s t l /\ id ∈ l;
}.

(** The value [with_inner] hands to its callback: the stored one, or
    the constructed one when the item does not exist. *)
Definition current_value (s : ContextMapPrivate) (id : ItemId) (ctor : V) : V :=
  default ctor (item_value <$> items s !! id).

End ContextMap.

(** ** A concrete map *)

(** A map holding one item, key 7 of type 0, created under [Role 1]. *)
Definition cm_example : @ContextMapPrivate Z Z _ _ :=
  fst (with_inner (Role 1) 0 7%Z 10%Z (fun x => (x + 1, tt)%Z) new_inner).

Section ContextMapProofs.
Context {K V : Type} `{Countable K}.
Local Notation ItemId := (@ItemId K).
Local Notation Item := (@Item K V).
Local Notation ContextMapPrivate := (@ContextMapPrivate K V _ _).
Local Notation new_inner := (@new_inner K V _ _).
Implicit Types (its : gmap ItemId Item) (s : ContextMapPrivate) (l : list ItemId) (id : ItemId)
  (h : option ItemId).

(** ** Chain lemmas *)

Lemma chain_det its h l1 l2 : chain its h l1 -> chain its h l2 -> l1 = l2.
Proof.
  intros Hc1. revert l2. induction Hc1 as [|id it l Hid Hc IH]; intros l2 Hc2;
    inversion Hc2; subst; [done|]. simplify_eq. f_equal. by apply IH.
Qed.

Lemma chain_live its h l : chain its h l -> Forall (fun id => is_Some (its !! id)) l.
Proof. induction 1; constructor; eauto. Qed.

Lemma chain_suffix its h l id :
  chain its h l -> id ∈ l -> exists l2, chain its (Some id) l2 /\ (length l2 <= length l)%nat.
Proof.
  induction 1 as [|id' it l Hid Hc IH]; [set_solver|].
  rewrite elem_of_cons. intros [->|Hin].
  - exists (id' :: l). split; [by econstructor|done].
  - destruct (IH Hin) as (l2 & ? & ?). exists l2. simpl. split; [done|lia].
Qed.

Lemma chain_NoDup its h l : chain its h l -> NoDup l.
Proof.
  induction 1 as [|id it l Hid Hc IH]; constructor; [|done].
  intros Hin. destruct (chain_suffix _ _ _ _ Hc Hin) as (l2 & Hc2 & Hlen).
  assert (id :: l = l2) as <- by (eapply chain_det; [by econstructor|done]).
  simpl in Hlen. lia.
Qed.

(** A chain stays a chain in a bigger map. *)
Lemma chain_mono its1 its2 h l : its1 ⊆ its2 -> chain its1 h l -> chain its2 h l.
Proof.
  intros Hsub. induction 1; econstructor; [|done]. by eapply lookup_weaken.
Qed.

(** ... and in a smaller one that keeps the chain's items. *)
Lemma chain_keep its1 its2 h l :
  (forall id, id ∈ l -> its2 !! id = its1 !! id) -> chain its1 h l -> chain its2 h l.
Proof.
  intros Hkeep Hc. induction Hc as [|id it l Hid Hc IH]; econstructor.
  - rewrite Hkeep; [done|set_solver].
  - apply IH. intros id' Hin. apply Hkeep. set_solver.
Qed.

Lemma chain_length_size its h l : chain its h l -> (length l <= size its)%nat.
Proof.
  intros Hc. pose proof (chain_NoDup _ _ _ Hc) as Hnd.
  pose proof (chain_live _ _ _ Hc) as Hlive.
  rewrite <- (size_list_to_set (C := gset ItemId)) by done.
  rewrite <- size_dom. apply subseteq_size. intros id Hin.
  apply elem_of_list_to_set in Hin. apply elem_of_dom.
  rewrite Forall_forall in Hlive. by apply Hlive.
Qed.

(** ** [shutdown_tag] *)

Lemma lookup_filter_notin (m : gmap ItemId Item) (l : list ItemId) i :
  filter (fun kv : ItemId * Item => kv.1 ∉ l) m !! i = if decide (i ∈ l) then None else m !! i.
Proof.
  case_decide.
  - apply map_lookup_filter_None_2. right. simpl. naive_solver.
  - destruct (m !! i) eqn:E.
    + apply map_lookup_filter_Some_2; done.
    + apply map_lookup_filter_None_2. by left.
Qed.

Lemma drop_chain_spec l its h fuel :
  chain its h l -> (length l <= fuel)%nat ->
  drop_chain fuel its h = Ok (filter (fun kv : ItemId * Item => kv.1 ∉ l) its).
Proof.
  revert its h fuel. induction l as [|id l IH]; intros its h fuel Hc Hfuel;
    inversion Hc as [|? it ? Hid Hc']; subst.
  - destruct fuel; simpl; f_equal; symmetry; apply map_filter_id; set_solver.
  - destruct fuel as [|fuel]; [simpl in Hfuel; lia|]. simpl. rewrite Hid. simpl.
    pose proof (chain_NoDup _ _ _ Hc) as Hnd. inversion Hnd as [|? ? Hnotin _]; subst.
    rewrite (IH (delete id its) (tag_next it) fuel); [| |simpl in Hfuel; lia].
    + f_equal. apply map_eq. intros i.
      rewrite !lookup_filter_notin, lookup_delete.
      repeat case_decide; set_solver.
    + eapply chain_keep; [|exact Hc']. intros id' Hin.
      rewrite lookup_delete_ne; [done|set_solver].
Qed.

Lemma chain_filter_disjoint its h l l' :
  chain its h l' -> l' ## l ->
  chain (filter (fun kv : ItemId * Item => kv.1 ∉ l) its) h l'.
Proof.
  intros Hc Hdisj. eapply chain_keep; [|exact Hc]. intros id Hin.
  rewrite lookup_filter_notin. case_decide; set_solver.
Qed.

(** [shutdown_tag] walks exactly the tag's chain: it removes the items
    on it, keeps every other item, and forgets the tag's head. *)
Lemma shutdown_tag_spec s t l :
  tag_items s t l ->
  shutdown_tag t s = Ok {| items := filter (fun kv : ItemId * Item => kv.1 ∉ l) (items s);
                           tag_chains := delete t (tag_chains s) |}.
Proof.
  unfold shutdown_tag, tag_items. intros Hc.
  destruct (tag_chains s !! t) as [head|] eqn:E.
  - rewrite (drop_chain_spec l); [done|done|].
    pose proof (chain_length_size _ _ _ Hc). lia.
  - inversion Hc; subst. destruct s as [its tc]; simpl in *. f_equal. f_equal.
    + symmetry. apply map_filter_id. set_solver.
    + symmetry. by apply delete_id.
Qed.

Lemma shutdown_tag_wf s t l s' :
  wf s -> tag_items s t l -> shutdown_tag t s = Ok s' -> wf s'.
Proof.
  intros Hwf Hl Hsd. rewrite (shutdown_tag_spec _ _ _ Hl) in Hsd. injection Hsd as <-.
  unfold tag_items in *; simpl.
  assert (Hold : forall t' l', t' <> t -> chain (items s) (tag_chains s !! t') l' ->
                 chain (filter (fun kv : ItemId * Item => kv.1 ∉ l) (items s))
                       (delete t (tag_chains s) !! t') l').
  { intros t' l' Hne Hc. rewrite lookup_delete_ne by congruence.
    apply chain_filter_disjoint; [done|]. eapply (wf_disjoint _ Hwf); eauto. }
  split; unfold tag_items; simpl.
  - intros t'. destruct (decide (t' = t)) as [->|Hne].
    + exists []. rewrite lookup_delete_eq. constructor.
    + destruct (wf_chains _ Hwf t') as [l' Hc]. eauto.
  - intros t1 t2 l1 l2 Hne Hc1 Hc2.
    destruct (decide (t1 = t)) as [->|Hne1].
    { rewrite lookup_delete_eq in Hc1. inversion Hc1; set_solver. }
    destruct (decide (t2 = t)) as [->|Hne2].
    { rewrite lookup_delete_eq in Hc2. inversion Hc2; set_solver. }
    rewrite lookup_delete_ne in Hc1, Hc2 by congruence.
    eapply (wf_disjoint _ Hwf t1 t2); [done| |].
    + eapply chain_mono; [|exact Hc1]. apply map_filter_subseteq.
    + eapply chain_mono; [|exact Hc2]. apply map_filter_subseteq.
  - intros id [it Hit]. apply map_lookup_filter_Some in Hit as [Hit Hnotin]; simpl in Hnotin.
    destruct (wf_covered _ Hwf id (ltac:(eauto))) as (t' & l' & Hc' & Hin).
    destruct (decide (t' = t)) as [->|Hne].
    + pose proof (chain_det _ _ _ _ Hc' Hl). set_solver.
    + exists t', l'. eauto.
Qed.

(** ** [with_inner] *)

Lemma new_inner_wf : wf new_inner.
Proof.
  split; unfold tag_items; simpl.
  - intros t. exists []. rewrite lookup_empty. constructor.
  - intros t1 t2 l1 l2 _ Hc1. rewrite lookup_empty in Hc1. inversion Hc1. set_solver.
  - intros id [it Hit]. by rewrite lookup_empty in Hit.
Qed.

(** Changing an item's value keeps every chain. *)
Lemma chain_alter_next (g : Item -> Item) its id h l :
  (forall it, tag_next (g it) = tag_next it) ->
  chain (alter g id its) h l <-> chain its h l.
Proof.
  intros Hg. split; induction 1 as [|id' it l Hid Hc IH]; try constructor.
  - apply lookup_alter_Some in Hid as [(<- & it0 & Hit0 & ->)|[_ Hid]].
    + econstructor; [exact Hit0|]. by rewrite <- Hg.
    + by econstructor.
  - destruct (decide (id = id')) as [<-|Hne].
    + econstructor; [rewrite lookup_alter, decide_True, Hid by done; reflexivity|].
      by rewrite Hg.
    + econstructor; [rewrite lookup_alter_ne by done; exact Hid|done].
Qed.

Lemma set_value_wf s id v : wf s -> wf (set_value id v s).
Proof.
  intros Hwf. unfold set_value.
  assert (Hc : forall h l, chain (alter (fun it => {| item_value := v; tag_next := tag_next it |})
                                        id (items s)) h l <-> chain (items s) h l)
    by (intros; by apply chain_alter_next).
  split; unfold tag_items; simpl.
  - intros t. destruct (wf_chains _ Hwf t) as [l Hl]. exists l. by apply Hc.
  - intros t1 t2 l1 l2 Hne Hc1 Hc2. eapply (wf_disjoint _ Hwf); [done|apply Hc..]; done.
  - intros i Hi. rewrite lookup_alter_is_Some in Hi.
    destruct (wf_covered _ Hwf i Hi) as (t & l & Hl & Hin). exists t, l. split; [|done].
    by apply Hc.
Qed.

(** The chain of each tag after [get_ptr]: the tag passed gains the new
    item at its front when the item did not exist; otherwise nothing moves. *)
Lemma get_ptr_chain s tag id ctor t l :
  items s !! id = None -> tag_items s t l ->
  tag_items (fst (get_ptr tag id ctor s)) t (if decide (t = tag) then id :: l else l).
Proof.
  intros Hnone Hl. unfold get_ptr. rewrite Hnone. unfold tag_items in *; simpl.
  assert (Hsub : items s ⊆ <[id := {| item_value := ctor; tag_next := tag_chains s !! tag |}]> (items s))
    by (apply insert_subseteq; done).
  case_decide as Ht.
  - subst. rewrite lookup_insert_eq. econstructor; [apply lookup_insert_eq|].
    simpl. eapply chain_mono; eauto.
  - rewrite lookup_insert_ne by congruence. eapply chain_mono; eauto.
Qed.

Lemma get_ptr_wf s tag id ctor : wf s -> wf (fst (get_ptr tag id ctor s)).
Proof.
  intros Hwf. destruct (items s !! id) as [it|] eqn:Hid.
  { unfold get_ptr. by rewrite Hid. }
  (* every old chain avoids the fresh id *)
  assert (Hfresh : forall t l, tag_items s t l -> id ∉ l).
  { intros t l Hl Hin. pose proof (chain_live _ _ _ Hl) as Hlive.
    rewrite Forall_forall in Hlive. destruct (Hlive id Hin) as [? Hsome]. congruence. }
  assert (Hnew : forall t l', tag_items (fst (get_ptr tag id ctor s)) t l' ->
                 exists l, tag_items s t l /\ l' = if decide (t = tag) then id :: l else l).
  { intros t l' Hl'. destruct (wf_chains _ Hwf t) as [l Hl]. exists l. split; [done|].
    eapply chain_det; [exact Hl'|]. by apply get_ptr_chain. }
  split.
  - intros t. destruct (wf_chains _ Hwf t) as [l Hl]. eexists. by apply get_ptr_chain.
  - intros t1 t2 l1' l2' Hne Hc1 Hc2.
    destruct (Hnew _ _ Hc1) as (l1 & Hl1 & ->), (Hnew _ _ Hc2) as (l2 & Hl2 & ->).
    pose proof (wf_disjoint _ Hwf _ _ _ _ Hne Hl1 Hl2).
    pose proof (Hfresh _ _ Hl1). pose proof (Hfresh _ _ Hl2).
    repeat case_decide; subst; set_solver.
  - intros i Hi. unfold get_ptr in Hi. rewrite Hid in Hi. simpl in Hi.
    destruct (decide (i = id)) as [->|Hne].
    + destruct (wf_chains _ Hwf tag) as [l Hl]. exists tag, (id :: l). split; [|set_solver].
      pose proof (get_ptr_chain s tag id ctor tag l Hid Hl) as Hc.
      rewrite decide_True in Hc by done. exact Hc.
    + rewrite lookup_insert_ne in Hi by congruence.
      destruct (wf_covered _ Hwf i Hi) as (t & l & Hl & Hin).
      exists t, (if decide (t = tag) then id :: l else l). split.
      * by apply get_ptr_chain.
      * case_decide; set_solver.
Qed.

Lemma with_inner_wf {U} tag type_id key ctor (f : V -> V * U) s :
  wf s -> wf (fst (with_inner tag type_id key ctor f s)).
Proof.
  intros Hwf. unfold with_inner.
  pose proof (get_ptr_wf s tag (type_id, key) ctor Hwf) as Hw.
  destruct (get_ptr tag (type_id, key) ctor s) as [s1 v]. destruct (f v) as [v' u].
  by apply set_value_wf.
Qed.

Lemma with_inner_result {U} tag type_id key ctor (f : V -> V * U) s :
  snd (with_inner tag type_id key ctor f s) = snd (f (current_value s (type_id, key) ctor))
  /\ item_value <$> items (fst (with_inner tag type_id key ctor f s)) !! (type_id, key)
     = Some (fst (f (current_value s (type_id, key) ctor))).
Proof.
  unfold with_inner, current_value, get_ptr, set_value, ItemId in *. cbv zeta.
  match goal with |- context [match ?x with Some _ => _ | None => _ end] =>
    destruct x as [it|] eqn:E end; simpl.
  - destruct (f (item_value it)) as [v' u] eqn:Ef; simpl.
    split; [done|]. rewrite lookup_alter, decide_True, E by done. reflexivity.
  - destruct (f ctor) as [v' u] eqn:Ef; simpl.
    split; [done|]. rewrite lookup_alter, decide_True, lookup_insert_eq by done. reflexivity.
Qed.

(** [with_inner] changes the value of no other item. *)
Lemma with_inner_other {U} tag type_id key ctor (f : V -> V * U) s id :
  id <> (type_id, key) ->
  item_value <$> items (fst (with_inner tag type_id key ctor f s)) !! id
  = item_value <$> items s !! id.
Proof.
  intros Hne. unfold with_inner, get_ptr, set_value, ItemId in *. cbv zeta.
  match goal with |- context [match ?x with Some _ => _ | None => _ end] =>
    destruct x as [it|] eqn:E end; simpl.
  - destruct (f (item_value it)) as [v' u]; simpl. by rewrite lookup_alter_ne by congruence.
  - destruct (f ctor) as [v' u]; simpl.
    by rewrite lookup_alter_ne, lookup_insert_ne by congruence.
Qed.

(** The value every item holds after [with_inner]. *)
Lemma with_inner_current {U} tag type_id key ctor (f : V -> V * U) s id ctor' :
  current_value (fst (with_inner tag type_id key ctor f s)) id ctor'
  = if decide (id = (type_id, key)) then fst (f (current_value s (type_id, key) ctor))
    else current_value s id ctor'.
Proof.
  unfold current_value. case_decide as Hid.
  - subst. by rewrite (proj2 (with_inner_result _ _ _ _ _ _)).
  - by rewrite with_inner_other.
Qed.

(** ** Properties of the context map *)

(** C10: under the chain invariant, [shutdown_tag t] never panics; it
    removes every item of [t]'s chain, keeps every other item unchanged,
    leaves [t] with an empty chain and keeps the invariant. *)
Theorem shutdown_tag_drops_tag (s : ContextMapPrivate) (t : ModrpcContextTag) (l : list ItemId) :
  wf s -> tag_items s t l ->
  exists s', shutdown_tag t s = Ok s' /\ wf s' /\ tag_items s' t []
    /\ (forall id, id ∈ l -> items s' !! id = None)
    /\ (forall id, id ∉ l -> items s' !! id = items s !! id).
Proof.
  intros Hwf Hl. pose proof (shutdown_tag_spec _ _ _ Hl) as Hsd.
  eexists. split; [exact Hsd|]. split; [eapply shutdown_tag_wf; eauto|].
  split; [unfold tag_items; simpl; rewrite lookup_delete_eq; constructor|].
  split; intros id Hin; simpl; rewrite lookup_filter_notin; case_decide; done.
Qed.

(** [shutdown_tag] is idempotent. *)
Theorem shutdown_tag_idempotent (s s' : ContextMapPrivate) (t : ModrpcContextTag) :
  wf s -> shutdown_tag t s = Ok s' -> shutdown_tag t s' = Ok s'.
Proof.
  intros Hwf Hsd. destruct (wf_chains _ Hwf t) as [l Hl].
  rewrite (shutdown_tag_spec _ _ _ Hl) in Hsd. injection Hsd as <-.
  unfold shutdown_tag. simpl. by rewrite lookup_delete_eq.
Qed.

(** after [shutdown_tag t], [with_inner] under [t] for a key that was
    on [t]'s chain constructs afresh: its callback sees the constructed
    value (spec scenario "Shutdown drops role state"). *)
Theorem with_after_shutdown_fresh {U} (s s' : ContextMapPrivate) (t : ModrpcContextTag)
    (l : list ItemId) (type_id : nat) (key : K) (ctor : V) (f : V -> V * U) :
  wf s -> tag_items s t l -> (type_id, key) ∈ l -> shutdown_tag t s = Ok s' ->
  snd (with_inner t type_id key ctor f s') = snd (f ctor).
Proof.
  intros Hwf Hl Hin Hsd. rewrite (shutdown_tag_spec _ _ _ Hl) in Hsd. injection Hsd as <-.
  rewrite (proj1 (with_inner_result _ _ _ _ _ _)). unfold current_value. simpl.
  rewrite lookup_filter_notin, decide_True by done. reflexivity.
Qed.

(** [with_inner] keeps the chain invariant and hands its callback the
    stored value, or the constructed one when the item is new, storing
    back what the callback returns. *)
Theorem with_inner_correct {U} (s : ContextMapPrivate) (tag : ModrpcContextTag)
    (type_id : nat) (key : K) (ctor : V) (f : V -> V * U) :
  wf s ->
  wf (fst (with_inner tag type_id key ctor f s))
  /\ snd (with_inner tag type_id key ctor f s) = snd (f (current_value s (type_id, key) ctor))
  /\ item_value <$> items (fst (with_inner tag type_id key ctor f s)) !! (type_id, key)
     = Some (fst (f (current_value s (type_id, key) ctor))).
Proof. intros Hwf. split; [by apply with_inner_wf | apply with_inner_result]. Qed.

(** an item keeps the tag it was created under: [with_inner] under
    another tag finds it and changes no chain, so shutting that other tag
    down does not drop it. *)
Theorem with_inner_keeps_creator_tag {U} (s : ContextMapPrivate) (t1 t2 : ModrpcContextTag)
    (l : list ItemId) (type_id : nat) (key : K) (ctor : V) (f : V -> V * U) :
  wf s -> tag_items s t1 l -> (type_id, key) ∈ l ->
  tag_chains (fst (with_inner t2 type_id key ctor f s)) = tag_chains s
  /\ tag_items (fst (with_inner t2 type_id key ctor f s)) t1 l.
Proof.
  intros Hwf Hl Hin.
  pose proof (chain_live _ _ _ Hl) as Hlive. rewrite Forall_forall in Hlive.
  destruct (Hlive _ Hin) as [it Hit].
  unfold with_inner, get_ptr. rewrite Hit. destruct (f (item_value it)) as [v' u]. simpl.
  split; [done|]. unfold tag_items; simpl. by apply chain_alter_next.
Qed.

End ContextMapProofs.

(** ** Witnesses *)

Lemma cm_example_wf : wf cm_example.
Proof. apply with_inner_wf, new_inner_wf. Qed.

Lemma cm_example_chain : tag_items cm_example (Role 1) [(0%nat, 7%Z)].
Proof. unfold tag_items. econstructor; [reflexivity|]. constructor. Qed.

Lemma shutdown_tag_drops_tag_witness :
  exists s', shutdown_tag (Role 1) cm_example = Ok s' /\ wf s' /\ tag_items s' (Role 1) []
    /\ (forall id, id ∈ [(0%nat, 7%Z)] -> items s' !! id = None)
    /\ (forall id, id ∉ [(0%nat, 7%Z)] -> items s' !! id = items cm_example !! id).
Proof. apply shutdown_tag_drops_tag; [apply cm_example_wf | apply cm_example_chain]. Defined.

Lemma shutdown_tag_idempotent_witness :
  exists s', shutdown_tag (Role 1) cm_example = Ok s' /\ shutdown_tag (Role 1) s' = Ok s'.
Proof.
  eexists. split; [reflexivity|].
  apply (shutdown_tag_idempotent cm_example); [apply cm_example_wf | reflexivity].
Defined.

Lemma with_after_shutdown_fresh_witness :
  exists s', shutdown_tag (Role 1) cm_example = Ok s'
    /\ snd (with_inner (Role 1) 0 7%Z 10%Z (fun x => (x, x)) s') = 10%Z.
Proof.
  eexists. split; [reflexivity|].
  apply (with_after_shutdown_fresh cm_example _ (Role 1) [(0%nat, 7%Z)]);
    [apply cm_example_wf | apply cm_example_chain | left | reflexivity].
Defined.

Lemma with_inner_correct_witness :
  snd (with_inner (Role 1) 0 7%Z 10%Z (fun x => (x, x)) cm_example) = 11%Z.
Proof.
  destruct (with_inner_correct cm_example (Role 1) 0 7%Z 10%Z (fun x => (x, x)) cm_example_wf)
    as (_ & -> & _).
  reflexivity.
Defined.

Lemma with_inner_keeps_creator_tag_witness :
  tag_chains (fst (with_inner (Worker {| worker_index := 0 |}) 0 7%Z 10%Z (fun x => (x, tt))
                     cm_example))
  = tag_chains cm_example.
Proof.
  apply (with_inner_keeps_creator_tag cm_example (Role 1) _ [(0%nat, 7%Z)]);
    [apply cm_example_wf | apply cm_example_chain | left].
Defined.
