(* ===== verification/PacketProcessor.v ===== *)
(** * PacketProcessor: the per-worker dispatch table

    Models src/crates/modrpc/src/packet_processor.rs.  The table maps
    (plane id, topic) to a [NodeChain]: its nodes (most recently added
    first), its re-entrancy flag [is_in_handler], and the link
    [plane_next_topic] of the per-plane stack of topics that
    [remove_plane] walks.  [existing_topics] records which topics already
    got a trace source, [mutations] holds the table changes requested
    while a dispatch holds the read lock, and [readers] is the number of
    read guards of the [RwLock] alive (a writer can be taken only when it
    is 0).

    The environment of the processor is explicit: the callbacks of the
    nodes are Rocq functions.  An [Inline] handler returns the actions it
    performs on this worker while it runs, in order: installing a node,
    removing a plane, or sending a packet (which dispatches it with
    source [NEW], as [EventTx::try_send] does).  Queue pushes, forwards to
    other workers and handler invocations are appended to the log [out];
    queues are unbounded in this model (a full queue suspends the Rust
    dispatch, which the model does not represent).  Tracing has no
    observable effect and is left out, except for the one place where it
    changes control flow: [_add_node] panics when a new chain gets no
    trace source. *)

From S2P Require Import Prelude Codec ContextMap.
Local Open Scope Z_scope.

(** ** Source masks *)

Definition PACKET_PROCESSOR_SOURCE_ANY : Z := 255.
Definition PACKET_PROCESSOR_SOURCE_NEW : Z := 1.
Definition PACKET_PROCESSOR_SOURCE_INTER_WORKER : Z := 2.

(** A packet is the bytes of its view: the 20-byte header, then the payload. *)
Definition Packet := list byte.

Definition HandlerKey : Type := (Z * Z)%type.  (* (plane_id, topic) *)

(** ** Nodes *)

Inductive NodeBody :=
| Inline (hid : nat) (handler : EndpointAddr -> Packet -> list HandlerAction)
| LocalQueue (queue : nat)
| RouteToLocalQueue (handler : EndpointAddr -> Packet -> option nat)
| ToWorker (to_worker_id : WorkerId)
| RouteToWorker (handler : EndpointAddr -> Packet -> option WorkerId)
(** What an inline handler does to its own worker while it runs. *)
with HandlerAction :=
| HAddNode (source_filter : Z) (plane_id topic : Z) (body : NodeBody)
| HRemovePlane (plane_id : Z)
| HSend (packet : Packet).

Record Node := { source_filter : Z; body : NodeBody }.

Record NodeChain := {
  nodes : list Node;          (* head, then the [next] links *)
  is_in_handler : bool;
  plane_next_topic : option Z;
}.

Inductive Mutation :=
| AddNode (source_filter : Z) (plane_id topic : Z) (tracer : bool) (body : NodeBody)
| RemovePlane (plane_id : Z).

(** What the dispatch makes observable. *)
Inductive Output :=
| OutCall (hid : nat) (source : EndpointAddr) (packet : Packet)  (* an inline handler ran *)
| OutQueue (queue : nat) (packet : Packet)                       (* pushed on a local queue *)
| OutWorker (to_worker : WorkerId) (packet : Packet)             (* pushed to another worker *)
| OutRequeue (packet : Packet).                                  (* local_worker_queue.send *)

Record PacketProcessor := {
  handlers : gmap HandlerKey NodeChain;
  existing_topics : gset HandlerKey;
  mutations : list Mutation;
  plane_topic_chain : gmap Z Z;
  readers : nat;
  inter_worker_senders : list bool;  (* Some(sender) at each worker index *)
  out : list Output;
}.

Definition pp_new (inter_worker_senders : list bool) : PacketProcessor :=
  {| handlers := ∅; existing_topics := ∅; mutations := []; plane_topic_chain := ∅;
     readers := 0; inter_worker_senders := inter_worker_senders; out := [] |}.

(** Record updates. *)
Definition with_handlers (st : PacketProcessor) h : PacketProcessor :=
  {| handlers := h; existing_topics := existing_topics st; mutations := mutations st;
     plane_topic_chain := plane_topic_chain st; readers := readers st;
     inter_worker_senders := inter_worker_senders st; out := out st |}.
Definition with_tables (st : PacketProcessor) h e c : PacketProcessor :=
  {| handlers := h; existing_topics := e; mutations := mutations st;
     plane_topic_chain := c; readers := readers st;
     inter_worker_senders := inter_worker_senders st; out := out st |}.
Definition with_mutations (st : PacketProcessor) m : PacketProcessor :=
  {| handlers := handlers st; existing_topics := existing_topics st; mutations := m;
     plane_topic_chain := plane_topic_chain st; readers := readers st;
     inter_worker_senders := inter_worker_senders st; out := out st |}.
Definition with_readers (st : PacketProcessor) r : PacketProcessor :=
  {| handlers := handlers st; existing_topics := existing_topics st; mutations := mutations st;
     plane_topic_chain := plane_topic_chain st; readers := r;
     inter_worker_senders := inter_worker_senders st; out := out st |}.
Definition emit (st : PacketProcessor) (o : Output) : PacketProcessor :=
  {| handlers := handlers st; existing_topics := existing_topics st; mutations := mutations st;
     plane_topic_chain := plane_topic_chain st; readers := readers st;
     inter_worker_senders := inter_worker_senders st; out := out st ++ [o] |}.

(** ** Table changes *)

(** [_add_node]: push on the front of an existing chain, or create the
    chain (it needs the trace source) and push its topic on the plane's
    stack of topics. *)
Definition _add_node (st : PacketProcessor) (source_filter plane_id topic : Z) (tracer : bool)
    (body : NodeBody) : result PacketProcessor :=
  let node := {| source_filter := source_filter; body := body |} in
  match handlers st !! (plane_id, topic) with
  | Some chain =>
      Ok (with_handlers st (<[(plane_id, topic) := {| nodes := node :: nodes chain;
                                                      is_in_handler := is_in_handler chain;
                                                      plane_next_topic := plane_next_topic chain |}]>
                             (handlers st)))
  | None =>
      if tracer then
        let prev_plane_topic_head := plane_topic_chain st !! plane_id in
        Ok (with_tables st
              (<[(plane_id, topic) := {| nodes := [node]; is_in_handler := false;
                                          plane_next_topic := prev_plane_topic_head |}]>
                 (handlers st))
              (existing_topics st)
              (<[plane_id := topic]> (plane_topic_chain st)))
      else Panic "PacketProcessor::_add_node missing tracer"
  end.

(** The loop of [_remove_plane]: each turn removes one chain of the
    plane, so [S (size handlers)] turns are enough; the fuel only makes
    the recursion structural. *)
Fixpoint remove_plane_topics (fuel : nat) (plane_id : Z) (next : option Z)
    (h : gmap HandlerKey NodeChain) (e : gset HandlerKey)
    : result (gmap HandlerKey NodeChain * gset HandlerKey) :=
  match next, fuel with
  | None, _ | _, O => Ok (h, e)
  | Some remove_topic, S fuel' =>
      let e' := e ∖ {[(plane_id, remove_topic)]} in
      node_chain ← expect "PacketProcessor::remove_plane missing topic" (h !! (plane_id, remove_topic));
      remove_plane_topics fuel' plane_id (plane_next_topic node_chain)
        (delete (plane_id, remove_topic) h) e'
  end.

Definition _remove_plane (st : PacketProcessor) (plane_id : Z) : result PacketProcessor :=
  let plane_topic_chain' := delete plane_id (plane_topic_chain st) in
  let plane_topic_next := plane_topic_chain st !! plane_id in
  '(h, e) ← remove_plane_topics (S (size (handlers st))) plane_id plane_topic_next
              (handlers st) (existing_topics st);
  Ok (with_tables st h e plane_topic_chain').

Definition apply_mutation (st : PacketProcessor) (m : Mutation) : result PacketProcessor :=
  match m with
  | AddNode source_filter plane_id topic tracer body =>
      _add_node st source_filter plane_id topic tracer body
  | RemovePlane plane_id => _remove_plane st plane_id
  end.

Fixpoint apply_mutations (st : PacketProcessor) (ms : list Mutation) : result PacketProcessor :=
  match ms with
  | [] => Ok st
  | m :: ms' => st' ← apply_mutation st m; apply_mutations st' ms'
  end.

(** [add_node]: the trace source is created when the topic is first
    seen; the change is made now if the write lock is free, or deferred. *)
Definition add_node (st : PacketProcessor) (source_filter plane_id topic : Z) (body : NodeBody)
    : result PacketProcessor :=
  let tracer := bool_decide ((plane_id, topic) ∉ existing_topics st) in
  let st := with_tables st (handlers st) ({[(plane_id, topic)]} ∪ existing_topics st)
                        (plane_topic_chain st) in
  if decide (readers st = 0%nat) then _add_node st source_filter plane_id topic tracer body
  else Ok (with_mutations st (mutations st ++ [AddNode source_filter plane_id topic tracer body])).

Definition remove_plane (st : PacketProcessor) (plane_id : Z) : result PacketProcessor :=
  if decide (readers st = 0%nat) then _remove_plane st plane_id
  else Ok (with_mutations st (mutations st ++ [RemovePlane plane_id])).

(** [add_handler], [add_local_queue], [add_route_to_local_queue],
    [to_worker], [add_route_to_worker]. *)
Definition add_handler st sf plane topic hid handler := add_node st sf plane topic (Inline hid handler).
Definition add_local_queue st sf plane topic queue := add_node st sf plane topic (LocalQueue queue).
Definition add_route_to_local_queue st sf plane topic handler :=
  add_node st sf plane topic (RouteToLocalQueue handler).
Definition to_worker st sf plane topic to_worker_id := add_node st sf plane topic (ToWorker to_worker_id).
Definition add_route_to_worker st sf plane topic handler :=
  add_node st sf plane topic (RouteToWorker handler).

(** ** Dispatch *)

(** [sent_to_workers] is an [i32] and [1 << to_worker_id.0] shifts it by
    the id modulo 32 in a release build (the shift overflows for ids of
    32 and more; a debug build panics there).  The model keeps the bits
    of the mask in a [Z]: only bits 0 to 31 are ever set. *)
Definition worker_mask (to_worker_id : WorkerId) : Z := bit (worker_index to_worker_id mod 32).

Definition send_to_worker (st : PacketProcessor) (sent_to_workers : Z) (to_worker_id : WorkerId)
    (packet : Packet) : PacketProcessor * Z :=
  let mask := worker_mask to_worker_id in
  if Z.land sent_to_workers mask =? 0 then
    let sent_to_workers := Z.lor sent_to_workers mask in
    match inter_worker_senders st !! Z.to_nat (worker_index to_worker_id) with
    | Some true => (emit st (OutWorker to_worker_id packet), sent_to_workers)
    | _ => (st, sent_to_workers)
    end
  else (st, sent_to_workers).

(** [node_chain.is_in_handler.replace(b)] on the chain of [key]. *)
Definition set_in_handler (key : HandlerKey) (b : bool) (st : PacketProcessor) : PacketProcessor :=
  with_handlers st (alter (fun c => {| nodes := nodes c; is_in_handler := b;
                                      plane_next_topic := plane_next_topic c |}) key (handlers st)).

(** The actions of an inline handler, in order; [dispatch] is the nested
    [handle_packet] a send runs. *)
Fixpoint run_actions (dispatch : Packet -> PacketProcessor -> result PacketProcessor)
    (acts : list HandlerAction) (st : PacketProcessor) : result PacketProcessor :=
  match acts with
  | [] => Ok st
  | HAddNode sf plane topic b :: acts' =>
      st ← add_node st sf plane topic b; run_actions dispatch acts' st
  | HRemovePlane plane :: acts' => st ← remove_plane st plane; run_actions dispatch acts' st
  | HSend pkt :: acts' => st ← dispatch pkt st; run_actions dispatch acts' st
  end.

(** The [while let Some(node) = next_node] loop over a chain. *)
Fixpoint walk (dispatch : Packet -> PacketProcessor -> result PacketProcessor)
    (key : HandlerKey) (source_mask : Z) (src : EndpointAddr) (packet : Packet)
    (ns : list Node) (sent_to_workers : Z) (st : PacketProcessor) : result PacketProcessor :=
  match ns with
  | [] => Ok st
  | node :: next_node =>
      if Z.land source_mask (source_filter node) =? 0
      then walk dispatch key source_mask src packet next_node sent_to_workers st
      else match body node with
      | Inline hid handler =>
          let st := set_in_handler key true (emit st (OutCall hid src packet)) in
          st ← run_actions dispatch (handler src packet) st;
          walk dispatch key source_mask src packet next_node sent_to_workers
               (set_in_handler key false st)
      | LocalQueue queue =>
          walk dispatch key source_mask src packet next_node sent_to_workers
               (emit st (OutQueue queue packet))
      | RouteToLocalQueue handler =>
          let st := match handler src packet with
                    | Some queue => emit st (OutQueue queue packet)
                    | None => st
                    end in
          walk dispatch key source_mask src packet next_node sent_to_workers st
      | ToWorker to_worker_id =>
          let '(st, sent_to_workers) := send_to_worker st sent_to_workers to_worker_id packet in
          walk dispatch key source_mask src packet next_node sent_to_workers st
      | RouteToWorker handler =>
          match handler src packet with
          | Some to_worker_id =>
              let '(st, sent_to_workers) := send_to_worker st sent_to_workers to_worker_id packet in
              walk dispatch key source_mask src packet next_node sent_to_workers st
          | None => walk dispatch key source_mask src packet next_node sent_to_workers st
          end
      end
  end.

(** The deferred mutations, once the read guard is dropped: drained and
    applied in order when the write lock can be taken.  In a dispatch
    nested in a handler ([try_send] polls the send once) the outer
    dispatch still holds its read guard, so [write().await] is pending,
    the nested future is dropped, and the mutations stay queued. *)
Definition flush_mutations (st : PacketProcessor) : result PacketProcessor :=
  match mutations st with
  | [] => Ok st
  | ms => if decide (readers st = 0%nat) then apply_mutations (with_mutations st []) ms
          else Ok st
  end.

(** [handle_packet].  Each nested dispatch is for a chain whose
    [is_in_handler] was false and is true while the nested one runs, so
    the nesting depth is at most the number of chains; [handle_packet_fuel]
    gives that much fuel, and [handle_packet_fuel_enough] below proves
    that more fuel gives the same result. *)
Fixpoint handle_packet (fuel : nat) (source : Z) (packet : Packet) (st : PacketProcessor)
    : result PacketProcessor :=
  match fuel with
  | O => Ok st
  | S fuel' =>
      header ← expect "decode packet header" (fst <$> decode packet);
      let key := (plane_id header, topic header) in
      match handlers st !! key with
      | None => Ok st
      | Some node_chain =>
          if is_in_handler node_chain then Ok (emit st (OutRequeue packet))
          else
            st ← walk (handle_packet fuel' PACKET_PROCESSOR_SOURCE_NEW) key source
                      (header.(Codec.source)) packet (nodes node_chain) 0
                      (with_readers st (S (readers st)));
            flush_mutations (with_readers st (Nat.pred (readers st)))
      end
  end.

Definition handle_packet_fuel (st : PacketProcessor) : nat := S (size (handlers st)).

Definition process_packet (source : Z) (packet : Packet) (st : PacketProcessor)
    : result PacketProcessor :=
  handle_packet (handle_packet_fuel st) source packet st.

(** ** Conditions on the actions of handlers *)

Definition with_existing (st : PacketProcessor) e : PacketProcessor :=
  with_tables st (handlers st) e (plane_topic_chain st).

Fixpoint no_send (acts : list HandlerAction) : bool :=
  match acts with
  | [] => true
  | HSend _ :: _ => false
  | _ :: acts' => no_send acts'
  end.

(** Whether an [HAddNode] on a plane follows an [HRemovePlane] of it. *)
Fixpoint add_after_remove (removed : list Z) (acts : list HandlerAction) : bool :=
  match acts with
  | [] => false
  | HRemovePlane p :: acts' => add_after_remove (p :: removed) acts'
  | HAddNode _ p _ _ :: acts' => bool_decide (p ∈ removed) || add_after_remove removed acts'
  | HSend _ :: acts' => add_after_remove removed acts'
  end.

(** ** The specification of a dispatch *)

(** [emit] of each output in turn. *)
Definition emit_all (st : PacketProcessor) (os : list Output) : PacketProcessor :=
  {| handlers := handlers st; existing_topics := existing_topics st; mutations := mutations st;
     plane_topic_chain := plane_topic_chain st; readers := readers st;
     inter_worker_senders := inter_worker_senders st; out := out st ++ os |}.

Definition worker_small (w : WorkerId) : bool := (0 <=? worker_index w) && (worker_index w <? 32).

(** A packet goes to each worker at most once: [sent] is the set of
    worker indices it already went to. *)
Definition worker_ref (senders : list bool) (sent : list Z) (w : WorkerId) (packet : Packet)
    : list Output * list Z :=
  if bool_decide (worker_index w ∈ sent) then ([], sent)
  else (match senders !! Z.to_nat (worker_index w) with
        | Some true => [OutWorker w packet]
        | _ => []
        end, worker_index w :: sent).

(** What dispatching [packet] from [source_mask] on a chain must do: for
    each node whose filter admits the source, in chain order, call the
    inline handler, push on the queue, or forward to the worker once;
    the table changes the handlers request are returned in order. *)
Fixpoint dispatch_ref (senders : list bool) (source_mask : Z) (src : EndpointAddr)
    (packet : Packet) (ns : list Node) (sent : list Z) : list Output * list HandlerAction :=
  match ns with
  | [] => ([], [])
  | node :: ns' =>
      if Z.land source_mask (source_filter node) =? 0
      then dispatch_ref senders source_mask src packet ns' sent
      else match body node with
      | Inline hid handler =>
          let '(os, acts) := dispatch_ref senders source_mask src packet ns' sent in
          (OutCall hid src packet :: os, handler src packet ++ acts)
      | LocalQueue queue =>
          let '(os, acts) := dispatch_ref senders source_mask src packet ns' sent in
          (OutQueue queue packet :: os, acts)
      | RouteToLocalQueue handler =>
          let '(os, acts) := dispatch_ref senders source_mask src packet ns' sent in
          (match handler src packet with Some q => [OutQueue q packet] | None => [] end ++ os, acts)
      | ToWorker w =>
          let '(o, sent') := worker_ref senders sent w packet in
          let '(os, acts) := dispatch_ref senders source_mask src packet ns' sent' in
          (o ++ os, acts)
      | RouteToWorker handler =>
          match handler src packet with
          | Some w =>
              let '(o, sent') := worker_ref senders sent w packet in
              let '(os, acts) := dispatch_ref senders source_mask src packet ns' sent' in
              (o ++ os, acts)
          | None => dispatch_ref senders source_mask src packet ns' sent
          end
      end
  end.

(** The nodes a dispatch reaches: their handlers send nothing while they
    run, and the workers they forward to have indices below 32. *)
Definition node_ok (source_mask : Z) (src : EndpointAddr) (packet : Packet) (node : Node) : bool :=
  (Z.land source_mask (source_filter node) =? 0) ||
  match body node with
  | Inline _ handler => no_send (handler src packet)
  | ToWorker w => worker_small w
  | RouteToWorker handler =>
      match handler src packet with Some w => worker_small w | None => true end
  | _ => true
  end.

(** [sent_to_workers] as the set of indices it holds. *)
Definition mask_of (sent : list Z) : Z := fold_right (fun i m => Z.lor m (bit i)) 0 sent.

(** ** Auxiliary definitions of the proofs *)

(** A table change touches only the three tables. *)
Definition tables_only (st st' : PacketProcessor) : Prop :=
  st' = with_tables st (handlers st') (existing_topics st') (plane_topic_chain st').

(** The mutations a state holds, applied once its read guard is released. *)
Definition pending_result (st : PacketProcessor) : result PacketProcessor :=
  apply_mutations (with_readers (with_mutations st []) 0) (mutations st).

(** ** Concrete tables *)

Definition pp_header (plane topic : Z) : TransmitPacket :=
  {| payload_length := 0; infra_id := 0; plane_id := plane; topic := topic;
     source := {| endpoint := 9 |} |}.

Definition pp_packet (plane topic : Z) : Packet := encode (pp_header plane topic).

Definition ok_or (d : PacketProcessor) (r : result PacketProcessor) : PacketProcessor :=
  match r with Ok st => st | Panic _ => d end.

(** A chain on (7, 3) built by the public operations: a local queue, a
    forward that admits only inter-worker packets, an inline handler
    that installs a queue on (7, 4), and two forwards to worker 1. *)
Definition pp_example : PacketProcessor :=
  ok_or (pp_new []) (
    st ← add_local_queue (pp_new [false; true]) PACKET_PROCESSOR_SOURCE_ANY 7 3 0;
    st ← to_worker st PACKET_PROCESSOR_SOURCE_INTER_WORKER 7 3 {| worker_index := 1 |};
    st ← add_handler st PACKET_PROCESSOR_SOURCE_ANY 7 3 5
           (fun _ _ => [HAddNode PACKET_PROCESSOR_SOURCE_ANY 7 4 (LocalQueue 1)]);
    st ← to_worker st PACKET_PROCESSOR_SOURCE_ANY 7 3 {| worker_index := 1 |};
    to_worker st PACKET_PROCESSOR_SOURCE_ANY 7 3 {| worker_index := 1 |}).

Definition chain_at (st : PacketProcessor) (key : HandlerKey) : NodeChain :=
  match handlers st !! key with
  | Some c => c
  | None => {| nodes := []; is_in_handler := false; plane_next_topic := None |}
  end.

Definition pp_example_chain : NodeChain := chain_at pp_example (7, 3).

(** Worker 5 of a runtime with 33 workers forwards (7, 3) to workers 0
    and 32. *)
Definition pp_alias_example : PacketProcessor :=
  ok_or (pp_new []) (
    st ← to_worker (pp_new (<[5%nat := false]> (replicate 33 true)))
           PACKET_PROCESSOR_SOURCE_ANY 7 3 {| worker_index := 0 |};
    to_worker st PACKET_PROCESSOR_SOURCE_ANY 7 3 {| worker_index := 32 |}).

(** A handler on (7, 3) that removes plane 7 and installs a queue on
    (7, 3) again. *)
Definition restart_handler : EndpointAddr -> Packet -> list HandlerAction :=
  fun _ _ => [HRemovePlane 7; HAddNode PACKET_PROCESSOR_SOURCE_ANY 7 3 (LocalQueue 0)].

(** A handler on (7, 3) that sends a packet on its own topic. *)
Definition echo_handler : EndpointAddr -> Packet -> list HandlerAction :=
  fun _ _ => [HSend (pp_packet 7 3)].

Definition pp_echo_example : PacketProcessor :=
  ok_or (pp_new []) (add_handler (pp_new []) PACKET_PROCESSOR_SOURCE_ANY 7 3 2 echo_handler).

Definition pp_restart_example : PacketProcessor :=
  ok_or (pp_new []) (add_handler (pp_new []) PACKET_PROCESSOR_SOURCE_ANY 7 3 1 restart_handler).

(** ** The table invariant and its checker *)

(** Following a plane's stack of topics from [next] through the
    [plane_next_topic] links visits the topics [ts]. *)
Inductive plane_chain (h : gmap HandlerKey NodeChain) (p : Z) : option Z -> list Z -> Prop :=
| pc_nil : plane_chain h p None []
| pc_cons t c ts :
    h !! (p, t) = Some c -> plane_chain h p (plane_next_topic c) ts ->
    plane_chain h p (Some t) (t :: ts).

(** An idle, well-formed table: each plane's stack lists each of its
    topics once, the trace-source set is the set of chains, no chain is
    running a handler and nothing is pending. *)
Definition planes_ok (h : gmap HandlerKey NodeChain) (ptc : gmap Z Z) : Prop :=
  forall p, exists ts, plane_chain h p (ptc !! p) ts /\ NoDup ts /\
    forall t, (p, t) ∈ dom h <-> t ∈ ts.

Record pp_wf (st : PacketProcessor) : Prop := {
  wf_planes : planes_ok (handlers st) (plane_topic_chain st);
  wf_existing k : k ∈ existing_topics st <-> k ∈ dom (handlers st);
  wf_readers : readers st = 0%nat;
  wf_mutations : mutations st = [];
  wf_not_in_handler k c : handlers st !! k = Some c -> is_in_handler c = false;
}.

Fixpoint plane_walk (fuel : nat) (h : gmap HandlerKey NodeChain) (p : Z) (nx : option Z)
    : option (list Z) :=
  match nx, fuel with
  | None, _ => Some []
  | Some _, O => None
  | Some t, S fuel' =>
      c ← h !! (p, t); ts ← plane_walk fuel' h p (plane_next_topic c); Some (t :: ts)
  end.

Definition plane_okb (h : gmap HandlerKey NodeChain) (ptc : gmap Z Z) (p : Z) : bool :=
  match plane_walk (S (size h)) h p (ptc !! p) with
  | Some ts =>
      bool_decide (NoDup ts) &&
      forallb (fun k : HandlerKey => bool_decide (k.1 <> p \/ k.2 ∈ ts)) (elements (dom h))
  | None => false
  end.

Definition pp_wfb (st : PacketProcessor) : bool :=
  forallb (plane_okb (handlers st) (plane_topic_chain st))
    (((fun k : HandlerKey => k.1) <$> elements (dom (handlers st)))
       ++ elements (dom (plane_topic_chain st))) &&
  bool_decide (existing_topics st = dom (handlers st)) &&
  (readers st =? 0)%nat &&
  match mutations st with [] => true | _ => false end &&
  forallb (fun kc : HandlerKey * NodeChain => negb (is_in_handler kc.2)) (map_to_list (handlers st)).

(** What a dispatch under a read guard leaves alone. *)
Definition keeps_table (st st' : PacketProcessor) : Prop :=
  handlers st' = handlers st /\ readers st' = readers st /\
  inter_worker_senders st' = inter_worker_senders st.

Definition mark_in_handler (key : HandlerKey) (b : bool) (h : gmap HandlerKey NodeChain)
    : gmap HandlerKey NodeChain :=
  alter (fun c => {| nodes := nodes c; is_in_handler := b; plane_next_topic := plane_next_topic c |})
    key h.

(** The chains not running a handler: each nested dispatch marks one. *)
Definition free_chains (h : gmap HandlerKey NodeChain) : nat :=
  size (filter (fun kc : HandlerKey * NodeChain => is_in_handler kc.2 = false) h).

(** ** Lemmas on the table operations *)

(** The record updates unfold when applied, so that [cbn] reduces their
    projections without copying the updated state. *)
Arguments with_handlers st h /.
Arguments with_tables st h e c /.
Arguments with_mutations st m /.
Arguments with_readers st r /.
Arguments with_existing st e /.
Arguments emit st o /.
Arguments emit_all st os /.
Arguments set_in_handler key b st /.

(** Reduce the binds and decodes of a dispatch without unfolding the codec. *)
Ltac pp_step := cbn [fmap option_fmap option_map fst expect mbind result_bind].

Ltac pp_unfold :=
  cbn [set_in_handler with_existing with_handlers with_tables with_mutations with_readers
       emit emit_all handlers existing_topics mutations plane_topic_chain readers
       inter_worker_senders out nodes is_in_handler plane_next_topic fst snd] in *.

(** The same on the goal only. *)
Ltac pp_unfold_goal :=
  cbn [set_in_handler with_existing with_handlers with_tables with_mutations with_readers
       emit emit_all handlers existing_topics mutations plane_topic_chain readers
       inter_worker_senders out nodes is_in_handler plane_next_topic fst snd].

Lemma apply_mutations_app st ms1 ms2 :
  apply_mutations st (ms1 ++ ms2) = (apply_mutations st ms1 ≫= fun s => apply_mutations s ms2).
Proof.
  revert st. induction ms1 as [|m ms1 IH]; intros st; simpl; [done|].
  rewrite bind_assoc. destruct (apply_mutation st m); simpl; auto.
Qed.

Lemma tables_only_refl st : tables_only st st.
Proof. by destruct st. Qed.

Lemma tables_only_trans s1 s2 s3 : tables_only s1 s2 -> tables_only s2 s3 -> tables_only s1 s3.
Proof. unfold tables_only. intros -> ->. by pp_unfold. Qed.

Lemma apply_mutation_tables st m st' : apply_mutation st m = Ok st' -> tables_only st st'.
Proof.
  unfold tables_only. destruct m; simpl.
  - unfold _add_node. destruct (handlers st !! _); [|destruct tracer];
      intros H; invc H; by pp_unfold.
  - unfold _remove_plane. destruct remove_plane_topics as [[h e]|]; simpl;
      intros H; invc H; by pp_unfold.
Qed.

Lemma apply_mutations_tables st ms st' : apply_mutations st ms = Ok st' -> tables_only st st'.
Proof.
  revert st. induction ms as [|m ms IH]; simpl; intros st H.
  - invc H. apply tables_only_refl.
  - destruct_ok H. eapply tables_only_trans; [eapply apply_mutation_tables|]; eauto.
Qed.

Lemma remove_plane_topics_existing fuel p nx h e k :
  k.1 <> p ->
  remove_plane_topics fuel p nx h ({[k]} ∪ e)
  = (fun he => (he.1, {[k]} ∪ he.2)) <$> remove_plane_topics fuel p nx h e.
Proof.
  intros Hk. revert nx h e. induction fuel as [|fuel IH]; intros [t|] h e; simpl; try done.
  destruct (h !! (p, t)); simpl; [|done].
  replace (({[k]} ∪ e) ∖ {[(p, t)]}) with ({[k]} ∪ e ∖ {[(p, t)]}); [apply IH|].
  destruct k as [kp kt]. simpl in Hk. apply leibniz_equiv. intros x. set_unfold.
  split; [intros [->|[? ?]]; split; auto; intros [= ->]; congruence | tauto].
Qed.

Lemma _add_node_existing st e sf p t tr b :
  _add_node (with_existing st e) sf p t tr b = (fun s => with_existing s e) <$> _add_node st sf p t tr b.
Proof.
  unfold _add_node, with_existing, with_tables, with_handlers. simpl.
  destruct (handlers st !! (p, t)); [|destruct tr]; reflexivity.
Qed.

Lemma apply_mutations_existing st ms k :
  (forall p, RemovePlane p ∈ ms -> p <> k.1) ->
  apply_mutations (with_existing st ({[k]} ∪ existing_topics st)) ms
  = (fun s => with_existing s ({[k]} ∪ existing_topics s)) <$> apply_mutations st ms.
Proof.
  revert st. induction ms as [|m ms IH]; intros st Hms; cbn [apply_mutations]; [done|].
  assert (forall p, RemovePlane p ∈ ms -> p <> k.1) as Hms' by (intros; apply Hms; by right).
  destruct m as [sf p t tr b|p]; cbn [apply_mutation].
  - rewrite _add_node_existing. destruct _add_node as [a|] eqn:E;
      cbn [fmap result_fmap mbind result_bind]; [|done].
    replace (existing_topics st) with (existing_topics a)
      by (unfold _add_node in E; repeat case_match; invc E; done).
    by apply IH.
  - unfold _remove_plane. pp_unfold.
    rewrite remove_plane_topics_existing by (apply not_eq_sym, Hms; by left).
    destruct remove_plane_topics as [[h e]|]; simpl; [|done].
    rewrite <- IH by done. reflexivity.
Qed.

Lemma _add_node_existing_same st sf p t tr b st' :
  _add_node st sf p t tr b = Ok st' -> existing_topics st' = existing_topics st.
Proof. unfold _add_node. intros Hst. repeat case_match; invc Hst; done. Qed.

Lemma remove_plane_topics_other fuel p nx h e h' e' k :
  remove_plane_topics fuel p nx h e = Ok (h', e') -> k.1 <> p -> (k ∈ e' <-> k ∈ e).
Proof.
  revert nx h e. induction fuel as [|fuel IH]; intros [t|] h e H Hk; simpl in H;
    try (invc H; done).
  destruct (h !! (p, t)); simpl in H; [|discriminate].
  rewrite (IH _ _ _ H Hk). destruct k; simpl in Hk. set_unfold. naive_solver.
Qed.

Lemma _remove_plane_other st p st' k :
  _remove_plane st p = Ok st' -> k.1 <> p -> (k ∈ existing_topics st' <-> k ∈ existing_topics st).
Proof.
  unfold _remove_plane. destruct remove_plane_topics as [[h e]|] eqn:E; simpl; [|discriminate].
  intros H. invc H. pp_unfold. eauto using remove_plane_topics_other.
Qed.

Lemma flush_idle st :
  readers st = 0%nat -> flush_mutations st = pending_result st.
Proof.
  intros Hr. unfold flush_mutations, pending_result.
  destruct (mutations st) eqn:E; [|rewrite decide_True by done; f_equal];
    destruct st; pp_unfold; subst; done.
Qed.

Lemma pending_result_Ok D s :
  pending_result D = Ok s -> readers s = 0%nat /\ mutations s = [].
Proof.
  unfold pending_result. intros Hs%apply_mutations_tables. rewrite Hs. pp_unfold. done.
Qed.

Lemma pending_result_add D k sf tr b :
  (forall q, RemovePlane q ∈ mutations D -> q <> k.1) ->
  pending_result (with_mutations (with_tables D (handlers D) ({[k]} ∪ existing_topics D)
                                    (plane_topic_chain D))
                    (mutations D ++ [AddNode sf k.1 k.2 tr b]))
  = (pending_result D ≫= fun s => _add_node (with_existing s ({[k]} ∪ existing_topics s))
                                              sf k.1 k.2 tr b).
Proof.
  intros Hq. unfold pending_result. pp_unfold. rewrite apply_mutations_app.
  transitivity (apply_mutations (with_existing (with_readers (with_mutations D []) 0)
                 ({[k]} ∪ existing_topics (with_readers (with_mutations D []) 0))) (mutations D)
                ≫= fun s => apply_mutations s [AddNode sf k.1 k.2 tr b]).
  { f_equal. }
  rewrite apply_mutations_existing by done. rewrite fmap_bind. pp_unfold.
  apply bind_ext_Ok. intros s _. simpl. by rewrite bind_ret_r.
Qed.

Lemma pending_result_remove D p :
  pending_result (with_mutations D (mutations D ++ [RemovePlane p]))
  = (pending_result D ≫= fun s => _remove_plane s p).
Proof.
  unfold pending_result. pp_unfold. rewrite apply_mutations_app.
  apply bind_ext_Ok. intros s _. simpl. by rewrite bind_ret_r.
Qed.

Section Deferred.
Context (dispatch : Packet -> PacketProcessor -> result PacketProcessor).

(** Requests made while the read guard is held become pending
    mutations; applied later they give what the requests give when each
    is served at once, as long as no plane removal precedes a node
    addition on that plane. *)
Lemma deferred_sim acts : forall D removed,
  readers D <> 0%nat ->
  no_send acts = true ->
  add_after_remove removed acts = false ->
  (forall p, RemovePlane p ∈ mutations D -> p ∈ removed) ->
  (forall s, pending_result D = Ok s ->
     forall k, k.1 ∉ removed -> (k ∈ existing_topics D <-> k ∈ existing_topics s)) ->
  (D' ← run_actions dispatch acts D; pending_result D')
  = (pending_result D ≫= run_actions dispatch acts).
Proof.
  induction acts as [|[sf p t b|p|pkt] acts IH]; intros D removed Hr Hns Har Hrm Hex;
    cbn [run_actions no_send add_after_remove] in *; try discriminate.
  - by rewrite bind_ret_r.
  - apply orb_false_iff in Har as [Hp%bool_decide_eq_false Har].
    assert (Hq : forall q, RemovePlane q ∈ mutations D -> q <> (p, t).1)
      by (intros q Hin ->; eauto).
    unfold add_node at 1. rewrite decide_False by (pp_unfold; done). cbn [mbind result_bind].
    change (mutations (with_tables D ?h ?e ?c)) with (mutations D).
    pose proof (pending_result_add D (p, t) sf (bool_decide ((p, t) ∉ existing_topics D)) b Hq)
      as Hadd. cbn [fst snd] in Hadd.
    rewrite (IH _ removed); try (pp_unfold; done).
    + rewrite Hadd, bind_assoc.
      apply bind_ext_Ok. intros s Hs. unfold add_node.
      rewrite decide_True by (apply (pending_result_Ok D s Hs)).
      assert (Hpt := Hex s Hs (p, t) Hp). simpl in Hpt.
      rewrite (bool_decide_ext _ _ (not_iff_compat Hpt)). reflexivity.
    + pp_unfold. intros q. rewrite elem_of_app, list_elem_of_singleton.
      intros [|]; [auto|discriminate].
    + intros s1 Hs1 k Hk. rewrite Hadd in Hs1.
      destruct_ok Hs1. apply _add_node_existing_same in Hs1. pp_unfold.
      rewrite Hs1, !elem_of_union, (Hex a Ha k Hk). tauto.
  - unfold remove_plane at 1. rewrite decide_False by done. cbn [mbind result_bind].
    rewrite (IH _ (p :: removed)); try (pp_unfold; done).
    + rewrite pending_result_remove, bind_assoc. apply bind_ext_Ok. intros s Hs.
      unfold remove_plane. by rewrite decide_True by (apply (pending_result_Ok D s Hs)).
    + pp_unfold. intros q. rewrite elem_of_app, list_elem_of_singleton, elem_of_cons.
      intros [|[= ->]]; auto.
    + intros s1 Hs1 k Hk. rewrite pending_result_remove in Hs1. destruct_ok Hs1.
      apply not_elem_of_cons in Hk as [Hkp Hk].
      rewrite (_remove_plane_other _ _ _ k Hs1 Hkp). eauto.
Qed.
End Deferred.

(** ** The dispatch refines its specification *)

Lemma emit_all_nil st : emit_all st [] = st.
Proof. destruct st. pp_unfold. by rewrite app_nil_r. Qed.

Lemma emit_all_app st os1 os2 : emit_all st (os1 ++ os2) = emit_all (emit_all st os1) os2.
Proof. pp_unfold. by rewrite app_assoc. Qed.

Lemma emit_all_cons st o os : emit_all st (o :: os) = emit_all (emit st o) os.
Proof. pp_unfold. by rewrite <- app_assoc. Qed.

Lemma emit_senders st o : inter_worker_senders (emit st o) = inter_worker_senders st.
Proof. reflexivity. Qed.

Lemma emit_all_senders st os : inter_worker_senders (emit_all st os) = inter_worker_senders st.
Proof. reflexivity. Qed.

Lemma testbit_mask_of sent i :
  Forall (fun j => 0 <= j) sent -> 0 <= i -> Z.testbit (mask_of sent) i = bool_decide (i ∈ sent).
Proof.
  intros Hs Hi. induction Hs as [|j sent Hj Hs IH]; simpl.
  - apply Z.testbit_0_l.
  - rewrite testbit_lor_bit, IH by lia.
    destruct (Z.eqb_spec j i) as [->|Hne]; rewrite ?orb_true_r, ?orb_false_r;
      repeat case_bool_decide; try done; set_solver.
Qed.

Lemma send_to_worker_ref st sent w packet :
  Forall (fun j => 0 <= j < 32) sent -> worker_small w = true ->
  send_to_worker st (mask_of sent) w packet
  = let '(o, sent') := worker_ref (inter_worker_senders st) sent w packet in
    (emit_all st o, mask_of sent').
Proof.
  intros Hs Hw. unfold worker_small in Hw. apply andb_true_iff in Hw as [Hw1%Z.leb_le Hw2%Z.ltb_lt].
  unfold send_to_worker, worker_ref, worker_mask. rewrite Z.mod_small by lia.
  assert (Hs0 : Forall (fun j => 0 <= j) sent) by (eapply Forall_impl; [exact Hs|]; simpl; lia).
  rewrite land_bit_zero, testbit_mask_of by done.
  destruct (bool_decide (worker_index w ∈ sent)); cbn [negb]; [by rewrite emit_all_nil|].
  destruct (inter_worker_senders st !! _) as [[]|]; rewrite ?emit_all_nil; reflexivity.
Qed.

Lemma add_node_deferred D sf p t b :
  readers D <> 0%nat ->
  add_node D sf p t b
  = Ok (with_mutations (with_existing D ({[(p, t)]} ∪ existing_topics D))
          (mutations D ++ [AddNode sf p t (bool_decide ((p, t) ∉ existing_topics D)) b])).
Proof. intros Hr. unfold add_node. rewrite decide_False by (pp_unfold; done). reflexivity. Qed.

Lemma remove_plane_deferred D p :
  readers D <> 0%nat -> remove_plane D p = Ok (with_mutations D (mutations D ++ [RemovePlane p])).
Proof. intros Hr. unfold remove_plane. by rewrite decide_False. Qed.

Lemma with_existing_id D : with_existing D (existing_topics D) = D.
Proof. by destruct D. Qed.

Section Frame.
Context (dispatch : Packet -> PacketProcessor -> result PacketProcessor).

Lemma run_actions_app acts1 acts2 st :
  run_actions dispatch (acts1 ++ acts2) st
  = (run_actions dispatch acts1 st ≫= run_actions dispatch acts2).
Proof.
  revert st. induction acts1 as [|[] acts1 IH]; intros st; simpl; [done|..];
    rewrite bind_assoc; apply bind_ext_Ok; auto.
Qed.

(** A change [g] of the state that leaves the lock, the pending
    mutations and the trace-source set alone commutes with requests
    made under the read guard. *)
Lemma run_actions_frame (g : PacketProcessor -> PacketProcessor) :
  (forall D, readers (g D) = readers D) ->
  (forall D, existing_topics (g D) = existing_topics D) ->
  (forall D, mutations (g D) = mutations D) ->
  (forall D e m, g (with_mutations (with_existing D e) m) = with_mutations (with_existing (g D) e) m) ->
  forall acts D, readers D <> 0%nat -> no_send acts = true ->
  run_actions dispatch acts (g D) = g <$> run_actions dispatch acts D.
Proof.
  intros Hr He Hm Hg. induction acts as [|[sf p t b|p|pkt] acts IH]; intros D HD Hns;
    cbn [run_actions no_send] in *; try discriminate; [done| |].
  - rewrite !add_node_deferred by (rewrite ?Hr; done). cbn [mbind result_bind fmap result_fmap].
    rewrite He, Hm, <- Hg.
    apply IH; [pp_unfold|]; done.
  - rewrite !remove_plane_deferred by (rewrite ?Hr; done). cbn [mbind result_bind fmap result_fmap].
    rewrite Hm.
    rewrite <- (with_existing_id (g D)), He, <- Hg, with_existing_id.
    apply IH; [pp_unfold|]; done.
Qed.

Lemma run_actions_emit_all acts D os :
  readers D <> 0%nat -> no_send acts = true ->
  run_actions dispatch acts (emit_all D os) = (fun s => emit_all s os) <$> run_actions dispatch acts D.
Proof. apply (run_actions_frame (fun s => emit_all s os)); intros; by pp_unfold. Qed.

Lemma run_actions_set_in_handler acts D key b :
  readers D <> 0%nat -> no_send acts = true ->
  run_actions dispatch acts (set_in_handler key b D)
  = set_in_handler key b <$> run_actions dispatch acts D.
Proof. apply run_actions_frame; intros; by pp_unfold. Qed.

(** Requests under the read guard leave the chains, the lock, the
    senders and the log alone. *)
Lemma run_actions_deferred_keeps acts D D' :
  readers D <> 0%nat -> no_send acts = true -> run_actions dispatch acts D = Ok D' ->
  handlers D' = handlers D /\ readers D' = readers D /\
  inter_worker_senders D' = inter_worker_senders D /\ out D' = out D.
Proof.
  revert D. induction acts as [|[sf p t b|p|pkt] acts IH]; intros D HD Hns H;
    cbn [run_actions no_send] in *; try discriminate; [by invc H| |].
  - rewrite add_node_deferred in H by done. cbn [mbind result_bind] in H.
    apply IH in H; [pp_unfold|pp_unfold|]; done.
  - rewrite remove_plane_deferred in H by done. cbn [mbind result_bind] in H.
    apply IH in H; [pp_unfold|pp_unfold|]; done.
Qed.
End Frame.

Lemma set_in_handler_restore st key c :
  handlers st !! key = Some c -> is_in_handler c = false ->
  set_in_handler key false (set_in_handler key true st) = st.
Proof.
  intros Hc Hf. pp_unfold. rewrite alter_alter_eq, alter_id.
  - by destruct st.
  - intros c' Hc'. rewrite Hc in Hc'. invc Hc'. destruct c'; simpl in *; by subst.
Qed.

Lemma worker_ref_range senders sent w packet :
  Forall (fun j => 0 <= j < 32) sent -> worker_small w = true ->
  Forall (fun j => 0 <= j < 32) (worker_ref senders sent w packet).2.
Proof.
  unfold worker_small, worker_ref. intros Hs [Hw1%Z.leb_le Hw2%Z.ltb_lt]%andb_true_iff.
  case_bool_decide; simpl; [done|]. constructor; [lia|done].
Qed.

Section Walk.
Context (dispatch : Packet -> PacketProcessor -> result PacketProcessor).
Context (key : HandlerKey) (c : NodeChain) (source_mask : Z) (src : EndpointAddr) (packet : Packet).
Hypothesis Hidle : is_in_handler c = false.

(** The walk over a chain, under the read guard, is its specification:
    the outputs of [dispatch_ref] in order, then the table changes the
    handlers asked for, still pending. *)
Lemma walk_spec ns : forall sent st,
  readers st <> 0%nat -> handlers st !! key = Some c ->
  Forall (fun j => 0 <= j < 32) sent ->
  forallb (node_ok source_mask src packet) ns = true ->
  walk dispatch key source_mask src packet ns (mask_of sent) st
  = let '(os, acts) := dispatch_ref (inter_worker_senders st) source_mask src packet ns sent in
    run_actions dispatch acts (emit_all st os).
Proof.
  induction ns as [|node ns IH]; intros sent st Hr Hc Hs Hok; cbn [walk dispatch_ref forallb] in *.
  - by rewrite emit_all_nil.
  - apply andb_true_iff in Hok as [Hn Hok]. unfold node_ok in Hn.
    destruct (Z.land source_mask (source_filter node) =? 0); [by apply IH|]. simpl in Hn.
    destruct (body node) as [hid h|q|h|w|h].
    + change (emit st (OutCall hid src packet)) with (emit_all st [OutCall hid src packet]).
      rewrite run_actions_set_in_handler, run_actions_emit_all, !fmap_bind by (pp_unfold; done).
      destruct dispatch_ref as [os acts] eqn:E.
      change (OutCall hid src packet :: os) with ([OutCall hid src packet] ++ os).
      rewrite run_actions_app, emit_all_app, run_actions_emit_all, run_actions_emit_all, !fmap_bind
        by (pp_unfold; done).
      apply bind_ext_Ok. intros s Hrun.
      destruct (run_actions_deferred_keeps _ _ _ _ Hr Hn Hrun) as (Hh & Hr' & Hw & _).
      rewrite (set_in_handler_restore _ key c) by (pp_unfold; congruence).
      rewrite IH by (pp_unfold; congruence). by rewrite emit_all_senders, Hw, E.
    + rewrite IH by (pp_unfold; done). rewrite emit_senders.
      destruct dispatch_ref. by rewrite emit_all_cons.
    + destruct (h src packet) as [q|]; cbn [app].
      * rewrite IH by (pp_unfold; done). rewrite emit_senders.
        destruct dispatch_ref. by rewrite emit_all_cons.
      * rewrite IH by done. by destruct dispatch_ref.
    + rewrite send_to_worker_ref by done.
      pose proof (worker_ref_range (inter_worker_senders st) sent w packet Hs Hn) as Hs'.
      destruct worker_ref as [o sent'] eqn:E. simpl in Hs'.
      rewrite IH by (pp_unfold; done). rewrite emit_all_senders.
      destruct dispatch_ref. by rewrite emit_all_app.
    + destruct (h src packet) as [w|]; [|by apply IH].
      rewrite send_to_worker_ref by done.
      pose proof (worker_ref_range (inter_worker_senders st) sent w packet Hs Hn) as Hs'.
      destruct worker_ref as [o sent'] eqn:E. simpl in Hs'.
      rewrite IH by (pp_unfold; done). rewrite emit_all_senders.
      destruct dispatch_ref. by rewrite emit_all_app.
Qed.
End Walk.

Lemma no_send_app acts1 acts2 : no_send (acts1 ++ acts2) = no_send acts1 && no_send acts2.
Proof. induction acts1 as [|[] acts1 IH]; simpl; auto. Qed.

Lemma dispatch_ref_no_send senders source_mask src packet ns sent :
  forallb (node_ok source_mask src packet) ns = true ->
  no_send (dispatch_ref senders source_mask src packet ns sent).2 = true.
Proof.
  revert sent. induction ns as [|node ns IH]; intros sent Hok; simpl in *; [done|].
  apply andb_true_iff in Hok as [Hn Hok]. unfold node_ok in Hn.
  destruct (Z.land source_mask (source_filter node) =? 0); [by apply IH|]. simpl in Hn.
  destruct (body node) as [hid h|q|h|w|h]; simpl in Hn.
  - pose proof (IH sent Hok). destruct dispatch_ref; simpl in *. by rewrite no_send_app, Hn.
  - pose proof (IH sent Hok). by destruct dispatch_ref.
  - pose proof (IH sent Hok). by destruct dispatch_ref.
  - destruct worker_ref as [o s']. pose proof (IH s' Hok). by destruct dispatch_ref.
  - destruct (h src packet); [|by apply IH].
    destruct worker_ref as [o s']. pose proof (IH s' Hok). by destruct dispatch_ref.
Qed.

(** The state a dispatch starts from once its read guard is released:
    nothing pending, the outputs emitted. *)
Lemma pending_result_start st os :
  readers st = 0%nat -> mutations st = [] ->
  pending_result (emit_all (with_readers st 1) os) = Ok (emit_all st os).
Proof.
  intros Hr Hm. unfold pending_result. pp_unfold. rewrite Hm. simpl.
  destruct st; pp_unfold; subst; done.
Qed.

Lemma flush_after_walk d acts D0 :
  readers D0 = 1%nat -> no_send acts = true ->
  (D ← run_actions d acts D0; flush_mutations (with_readers D (Nat.pred (readers D))))
  = (D ← run_actions d acts D0; pending_result D).
Proof.
  intros Hr Hns. apply bind_ext_Ok. intros D HD.
  assert (Hr0 : readers D0 <> 0%nat) by lia.
  destruct (run_actions_deferred_keeps _ _ _ _ Hr0 Hns HD) as (_ & HrD & _).
  rewrite HrD, Hr, flush_idle by (pp_unfold; done). unfold pending_result. by pp_unfold.
Qed.

(** C2: Table changes requested by handlers while a dispatch holds
    the read guard are queued; applied in order when the guard is
    released, they give the same state as serving each request at once,
    provided no removal of a plane is followed by an addition on it. *)
Theorem deferred_mutations_sequential d st acts :
  readers st = 0%nat -> mutations st = [] ->
  no_send acts = true -> add_after_remove [] acts = false ->
  (D ← run_actions d acts (with_readers st 1);
   flush_mutations (with_readers D (Nat.pred (readers D))))
  = run_actions d acts st.
Proof.
  intros Hr Hm Hns Har.
  assert (Hst : pending_result (with_readers st 1) = Ok st).
  { unfold pending_result. pp_unfold. rewrite Hm. destruct st; pp_unfold; subst; done. }
  rewrite flush_after_walk by (pp_unfold; done).
  rewrite (deferred_sim d acts _ []); try (pp_unfold; done).
  - by rewrite Hst.
  - intros p. pp_unfold. rewrite Hm. intros []%not_elem_of_nil.
  - rewrite Hst. intros s [= <-]. done.
Qed.

(** C1: Dispatching a packet on an idle table, to a chain that
    is not running a handler, emits exactly the outputs of the
    specification [dispatch_ref] (each node whose filter admits the
    source, in chain order, each worker at most once) and then performs
    the table changes the handlers asked for, as if each had been served
    at once.  It holds when the handlers send nothing while they run, the
    forwards go to workers below 32 and no plane removal is followed by
    an addition on it. *)
Theorem handle_packet_dispatch fuel source packet st hdr rest c :
  readers st = 0%nat -> mutations st = [] ->
  decode packet = Some (hdr, rest) ->
  handlers st !! (plane_id hdr, topic hdr) = Some c -> is_in_handler c = false ->
  forallb (node_ok source (Codec.source hdr) packet) (nodes c) = true ->
  add_after_remove []
    (dispatch_ref (inter_worker_senders st) source (Codec.source hdr) packet (nodes c) []).2 = false ->
  handle_packet (S fuel) source packet st
  = let '(os, acts) :=
      dispatch_ref (inter_worker_senders st) source (Codec.source hdr) packet (nodes c) [] in
    run_actions (handle_packet fuel PACKET_PROCESSOR_SOURCE_NEW) acts (emit_all st os).
Proof.
  intros Hr Hm Hdec Hc Hf Hok Har. cbn [handle_packet]. rewrite Hdec. pp_step.
  rewrite Hc, Hf, Hr. change 0%Z with (mask_of []).
  rewrite (walk_spec _ _ c) by (pp_unfold; auto).
  change (inter_worker_senders (with_readers st 1)) with (inter_worker_senders st).
  pose proof (dispatch_ref_no_send (inter_worker_senders st) source (Codec.source hdr) packet
                (nodes c) [] Hok) as Hns.
  destruct dispatch_ref as [os acts]. simpl in Hns, Har.
  rewrite flush_after_walk by (pp_unfold; done).
  rewrite (deferred_sim _ acts _ []); try (pp_unfold; done).
  - by rewrite pending_result_start.
  - intros p. pp_unfold. rewrite Hm. intros []%not_elem_of_nil.
  - rewrite pending_result_start by done. intros s [= <-]. done.
Qed.

(** ** Forwards to workers *)

(** C6: Forwards are deduplicated by an [i32] mask shifted by the
    worker index modulo 32: once a dispatch has forwarded to one worker,
    a forward in the same dispatch to any worker whose index agrees with
    it modulo 32 is dropped, even when it is a different worker. *)
Theorem send_to_worker_aliases st sent w1 w2 packet :
  worker_index w1 mod 32 = worker_index w2 mod 32 ->
  let '(st1, sent1) := send_to_worker st sent w1 packet in
  send_to_worker st1 sent1 w2 packet = (st1, sent1).
Proof.
  intros Hw. unfold send_to_worker, worker_mask. rewrite <- Hw.
  assert (Hi : 0 <= worker_index w1 mod 32) by (apply Z.mod_pos_bound; lia).
  destruct (Z.land sent (bit (worker_index w1 mod 32)) =? 0) eqn:E.
  - assert (Hset : (Z.land (Z.lor sent (bit (worker_index w1 mod 32)))
                     (bit (worker_index w1 mod 32)) =? 0) = false).
    { rewrite land_bit_zero, testbit_lor_bit, Z.eqb_refl, orb_true_r by done. done. }
    destruct (inter_worker_senders st !! _) as [[]|]; simpl; rewrite Hset; reflexivity.
  - simpl. rewrite E. reflexivity.
Qed.

Lemma send_to_worker_aliases_witness :
  worker_index {| worker_index := 0 |} mod 32 = worker_index {| worker_index := 32 |} mod 32 /\
  (let '(st1, sent1) := send_to_worker pp_alias_example 0 {| worker_index := 0 |} (pp_packet 7 3) in
   send_to_worker st1 sent1 {| worker_index := 32 |} (pp_packet 7 3) = (st1, sent1)).
Proof.
  split; [reflexivity|].
  apply (send_to_worker_aliases pp_alias_example 0 {| worker_index := 0 |}
           {| worker_index := 32 |} (pp_packet 7 3)). reflexivity.
Defined.

Lemma deferred_mutations_sequential_witness :
  (D ← run_actions (fun _ st => Ok st)
         [HAddNode PACKET_PROCESSOR_SOURCE_ANY 7 3 (LocalQueue 0); HRemovePlane 8;
          HAddNode PACKET_PROCESSOR_SOURCE_ANY 7 3 (LocalQueue 1)]
         (with_readers pp_example 1);
   flush_mutations (with_readers D (Nat.pred (readers D))))
  = run_actions (fun _ st => Ok st)
      [HAddNode PACKET_PROCESSOR_SOURCE_ANY 7 3 (LocalQueue 0); HRemovePlane 8;
       HAddNode PACKET_PROCESSOR_SOURCE_ANY 7 3 (LocalQueue 1)] pp_example.
Proof. apply deferred_mutations_sequential; vm_compute; reflexivity. Defined.

Lemma handle_packet_dispatch_witness :
  handle_packet 1 PACKET_PROCESSOR_SOURCE_NEW (pp_packet 7 3) pp_example
  = let '(os, acts) :=
      dispatch_ref (inter_worker_senders pp_example) PACKET_PROCESSOR_SOURCE_NEW
        {| endpoint := 9 |} (pp_packet 7 3) (nodes pp_example_chain) [] in
    run_actions (handle_packet 0 PACKET_PROCESSOR_SOURCE_NEW) acts (emit_all pp_example os).
Proof.
  apply (handle_packet_dispatch 0 PACKET_PROCESSOR_SOURCE_NEW (pp_packet 7 3) pp_example
           (pp_header 7 3) [] pp_example_chain); vm_compute; reflexivity.
Defined.

(** ** The table invariant *)

Lemma plane_chain_keep h h' p nx ts :
  plane_chain h p nx ts ->
  (forall t, t ∈ ts -> plane_next_topic <$> h' !! (p, t) = plane_next_topic <$> h !! (p, t)) ->
  plane_chain h' p nx ts.
Proof.
  induction 1 as [|t c ts Hc Hch IH]; intros Hsame; [constructor|].
  assert (Ht := Hsame t ltac:(set_solver)). rewrite Hc in Ht.
  destruct (h' !! (p, t)) as [c'|] eqn:Hc'; simpl in Ht; [|discriminate]. injection Ht as Ht.
  econstructor; [exact Hc'|]. rewrite Ht. apply IH. intros t' Ht'. apply Hsame. set_solver.
Qed.

Lemma plane_chain_in h p nx ts t : plane_chain h p nx ts -> t ∈ ts -> (p, t) ∈ dom h.
Proof.
  induction 1 as [|t0 c ts Hc Hch IH]; [set_solver|].
  rewrite elem_of_cons. intros [->|Ht]; [|auto]. apply elem_of_dom. eauto.
Qed.

(** The removal loop on a well-formed plane stack deletes exactly the
    plane's chains. *)
Lemma remove_plane_topics_spec p ts : forall h nx e fuel,
  plane_chain h p nx ts -> NoDup ts -> (length ts < fuel)%nat ->
  exists h' e', remove_plane_topics fuel p nx h e = Ok (h', e') /\
    (forall k, h' !! k = if decide (k.1 = p /\ k.2 ∈ ts) then None else h !! k) /\
    (forall k, k ∈ e' <-> k ∈ e /\ ~ (k.1 = p /\ k.2 ∈ ts)).
Proof.
  induction ts as [|t ts IH]; intros h nx e fuel Hch Hnd Hlen; inversion Hch as [|? c ? Hc Hch']; subst.
  - exists h, e. split; [by destruct fuel|]. split; intros k; [|set_solver].
    case_decide as Hk; [|done]. destruct Hk as [_ []%not_elem_of_nil].
  - destruct fuel as [|fuel]; [simpl in Hlen; lia|]. apply NoDup_cons in Hnd as [Ht Hnd].
    simpl. rewrite Hc. simpl.
    destruct (IH (delete (p, t) h) (plane_next_topic c) (e ∖ {[(p, t)]}) fuel)
      as (h' & e' & Hrun & Hh & He); [|done|simpl in Hlen; lia|].
    { apply (plane_chain_keep h); [done|]. intros t' Ht'.
      rewrite lookup_delete_ne; [done|]. intros [= ->]. contradiction. }
    exists h', e'. split; [done|]. split.
    + intros [kp kt]. rewrite Hh. simpl.
      destruct (decide ((kp, kt) = (p, t))) as [[= -> ->]|Hne].
      * rewrite lookup_delete_eq. by destruct (decide (p = p /\ t ∈ ts)), (decide (p = p /\ t ∈ t :: ts)); set_solver.
      * rewrite lookup_delete_ne by done.
        destruct (decide (kp = p /\ kt ∈ ts)), (decide (kp = p /\ kt ∈ t :: ts)); try done;
          exfalso; set_unfold; naive_solver.
    + intros [kp kt]. rewrite He. set_unfold. naive_solver.
Qed.

Lemma plane_topics_bound (h : gmap HandlerKey NodeChain) (p : Z) (ts : list Z) :
  NoDup ts -> (forall t, t ∈ ts -> (p, t) ∈ dom h) -> (length ts <= size h)%nat.
Proof.
  intros Hnd Hin. rewrite <- (length_fmap (fun t => (p, t))), <- size_dom.
  rewrite <- (size_list_to_set (C := gset HandlerKey)).
  - apply subseteq_size. intros k. rewrite elem_of_list_to_set, list_elem_of_fmap.
    intros (t & -> & Ht). auto.
  - apply NoDup_fmap; [intros ?? [=]; done|done].
Qed.

Lemma planes_ok_remove h h' ptc p :
  planes_ok h ptc ->
  (forall k, h' !! k = if decide (k.1 = p) then None else h !! k) ->
  planes_ok h' (delete p ptc).
Proof.
  intros Hok Hh q. destruct (decide (q = p)) as [->|Hq].
  - exists []. rewrite lookup_delete_eq. split_and!; [constructor|constructor|].
    intros t. rewrite elem_of_dom, Hh, decide_True by done. split; [intros []; discriminate|set_solver].
  - destruct (Hok q) as (ts & Hch & Hnd & Hdom). exists ts. rewrite lookup_delete_ne by congruence.
    split_and!; [|done|].
    + apply (plane_chain_keep h); [done|]. intros t _. rewrite Hh, decide_False by done. done.
    + intros t. rewrite <- Hdom, !elem_of_dom, Hh, decide_False by done. done.
Qed.

Lemma planes_ok_update h ptc p t c c' :
  planes_ok h ptc -> h !! (p, t) = Some c -> plane_next_topic c' = plane_next_topic c ->
  planes_ok (<[(p, t) := c']> h) ptc.
Proof.
  intros Hok Hc Hn q. destruct (Hok q) as (ts & Hch & Hnd & Hdom). exists ts.
  split_and!; [|done|].
  - apply (plane_chain_keep h); [done|]. intros t' _.
    destruct (decide ((q, t') = (p, t))) as [[= -> ->]|Hne].
    + rewrite lookup_insert_eq, Hc. simpl. by rewrite Hn.
    + by rewrite lookup_insert_ne by congruence.
  - intros t'. rewrite <- Hdom, dom_insert_L. apply elem_of_dom_2 in Hc. set_solver.
Qed.

Lemma planes_ok_new h ptc p t c' :
  planes_ok h ptc -> h !! (p, t) = None -> plane_next_topic c' = ptc !! p ->
  planes_ok (<[(p, t) := c']> h) (<[p := t]> ptc).
Proof.
  intros Hok Hc Hn q. destruct (Hok q) as (ts & Hch & Hnd & Hdom).
  assert (Hkeep : plane_chain (<[(p, t) := c']> h) q (ptc !! q) ts).
  { apply (plane_chain_keep h); [done|]. intros t' Ht'.
    rewrite lookup_insert_ne; [done|]. intros [= -> ->].
    apply not_elem_of_dom in Hc. apply Hc, Hdom, Ht'. }
  destruct (decide (q = p)) as [->|Hq].
  - exists (t :: ts). rewrite lookup_insert_eq.
    assert (Ht : t ∉ ts) by (rewrite <- Hdom; apply not_elem_of_dom; done).
    split_and!.
    + econstructor; [apply lookup_insert_eq|]. by rewrite Hn.
    + by constructor.
    + intros t'. rewrite dom_insert_L, elem_of_union, elem_of_singleton, elem_of_cons, Hdom.
      naive_solver.
  - exists ts. rewrite lookup_insert_ne by congruence. split_and!; [done|done|].
    intros t'. rewrite <- Hdom, dom_insert_L. set_solver.
Qed.

Lemma pp_new_wf senders : pp_wf (pp_new senders).
Proof.
  split; simpl; [|set_solver|done|done|intros k c; by rewrite lookup_empty].
  intros p. exists []. rewrite lookup_empty. split_and!; [constructor..|]. set_solver.
Qed.

(** [_remove_plane] on well-formed plane stacks: it succeeds and
    deletes exactly the plane's chains and trace sources. *)
Lemma _remove_plane_ok st p :
  planes_ok (handlers st) (plane_topic_chain st) ->
  exists h' e', _remove_plane st p = Ok (with_tables st h' e' (delete p (plane_topic_chain st))) /\
    (forall k, h' !! k = if decide (k.1 = p) then None else handlers st !! k) /\
    (forall k, k ∈ e' <-> k ∈ existing_topics st /\ ~ (k.1 = p /\ k ∈ dom (handlers st))).
Proof.
  intros Hok. destruct (Hok p) as (ts & Hch & Hnd & Hdom).
  destruct (remove_plane_topics_spec p ts (handlers st) _ (existing_topics st)
              (S (size (handlers st))) Hch Hnd) as (h' & e' & Hrun & Hh & He).
  { apply Nat.lt_succ_r, (plane_topics_bound _ p); [done|]. intros t. apply Hdom. }
  exists h', e'. split_and!.
  - unfold _remove_plane. by rewrite Hrun.
  - intros [kp kt]. rewrite Hh. simpl. destruct (decide (kp = p)) as [->|Hne].
    + case_decide as Hk; [done|]. apply not_elem_of_dom. rewrite Hdom. tauto.
    + rewrite !decide_False by tauto. done.
  - intros [kp kt]. rewrite He. simpl. split; intros [Hin Hn]; split; try done; intros [-> Hk];
      apply Hn; split; try done; by apply Hdom.
Qed.

Lemma remove_plane_ok st p :
  pp_wf st ->
  exists st', remove_plane st p = Ok st' /\
    (forall k, handlers st' !! k = if decide (k.1 = p) then None else handlers st !! k) /\
    pp_wf st'.
Proof.
  intros Hwf. destruct (_remove_plane_ok st p (wf_planes _ Hwf)) as (h' & e' & Hrun & Hh & He).
  exists (with_tables st h' e' (delete p (plane_topic_chain st))). split_and!.
  - unfold remove_plane. by rewrite decide_True by apply Hwf.
  - done.
  - constructor; pp_unfold.
    + eapply planes_ok_remove; [apply Hwf|done].
    + intros k. rewrite He, wf_existing, !elem_of_dom, Hh by done.
      case_decide; [|tauto]. split; [tauto|intros [? Hs]; discriminate].
    + apply Hwf.
    + apply Hwf.
    + intros k c. rewrite Hh. case_decide; [discriminate|]. apply Hwf.
Qed.

(** C3: On a well-formed idle table, [remove_plane] succeeds
    (its [expect] never fires), removes the chains of that plane and no
    other, and leaves the table well formed. *)
Theorem remove_plane_spec st p :
  pp_wf st ->
  exists st', remove_plane st p = Ok st' /\
    (forall k, handlers st' !! k = if decide (k.1 = p) then None else handlers st !! k) /\
    pp_wf st'.
Proof. apply remove_plane_ok. Qed.

Lemma add_node_ok st sf p t b :
  pp_wf st ->
  exists st', add_node st sf p t b = Ok st' /\
    nodes <$> handlers st' !! (p, t)
      = Some ({| source_filter := sf; body := b |} :: from_option nodes [] (handlers st !! (p, t))) /\
    (forall k, k <> (p, t) -> handlers st' !! k = handlers st !! k) /\
    pp_wf st'.
Proof.
  intros Hwf. unfold add_node. rewrite decide_True by (pp_unfold; apply Hwf).
  unfold _add_node. pp_unfold.
  destruct (handlers st !! (p, t)) as [c|] eqn:Hc.
  - eexists. split_and!; [reflexivity|pp_unfold; by rewrite lookup_insert_eq|..].
    + intros k Hk. pp_unfold. by rewrite lookup_insert_ne by congruence.
    + constructor; pp_unfold; try apply Hwf.
      * eapply planes_ok_update; [apply Hwf|exact Hc|done].
      * intros k. rewrite elem_of_union, wf_existing, dom_insert_L, elem_of_union by done.
        done.
      * intros k c'. rewrite lookup_insert. case_decide; [intros [= <-]; simpl|apply Hwf].
        by apply (wf_not_in_handler _ Hwf (p, t)).
  - rewrite bool_decide_eq_true_2.
    2:{ rewrite wf_existing by done. by apply not_elem_of_dom. }
    eexists. split_and!; [reflexivity|pp_unfold; by rewrite lookup_insert_eq|..].
    + intros k Hk. pp_unfold. by rewrite lookup_insert_ne by congruence.
    + constructor; pp_unfold; try apply Hwf.
      * by apply planes_ok_new; [apply Hwf|..].
      * intros k. rewrite elem_of_union, wf_existing, dom_insert_L, elem_of_union by done.
        done.
      * intros k c'. rewrite lookup_insert. case_decide; [intros [= <-]; done|apply Hwf].
Qed.

(** C4: On a well-formed idle table, [add_node] succeeds (a new
    topic always gets its trace source), puts the node at the head of the
    topic's chain, creating the chain for a new topic, changes no other
    chain and leaves the table well formed. *)
Theorem add_node_spec st sf p t b :
  pp_wf st ->
  exists st', add_node st sf p t b = Ok st' /\
    nodes <$> handlers st' !! (p, t)
      = Some ({| source_filter := sf; body := b |} :: from_option nodes [] (handlers st !! (p, t))) /\
    (forall k, k <> (p, t) -> handlers st' !! k = handlers st !! k) /\
    pp_wf st'.
Proof. apply add_node_ok. Qed.

(** ** The checker is sound *)

Lemma plane_walk_sound fuel h p nx ts : plane_walk fuel h p nx = Some ts -> plane_chain h p nx ts.
Proof.
  revert nx ts. induction fuel as [|fuel IH]; intros [t|] ts; simpl; try discriminate;
    try (intros [= <-]; constructor).
  destruct (h !! (p, t)) as [c|] eqn:Hc; simpl; [|discriminate].
  destruct (plane_walk fuel h p (plane_next_topic c)) eqn:Hw; simpl; [|discriminate].
  intros [= <-]. econstructor; eauto.
Qed.

Lemma plane_okb_sound h ptc p :
  plane_okb h ptc p = true -> exists ts, plane_chain h p (ptc !! p) ts /\ NoDup ts /\
    forall t, (p, t) ∈ dom h <-> t ∈ ts.
Proof.
  unfold plane_okb. destruct plane_walk as [ts|] eqn:Hw; [|discriminate].
  intros [Hnd Hall]%andb_true_iff. apply plane_walk_sound in Hw.
  exists ts. split_and!; [done|by apply bool_decide_eq_true in Hnd|]. intros t. split.
  - intros Ht. rewrite forallb_forall in Hall.
    specialize (Hall (p, t) ltac:(by apply list_elem_of_In, elem_of_elements)).
    apply bool_decide_eq_true in Hall. simpl in Hall. tauto.
  - eauto using plane_chain_in.
Qed.

(** The checker decides the invariant soundly. *)
Lemma pp_wfb_sound st : pp_wfb st = true -> pp_wf st.
Proof.
  unfold pp_wfb. intros H. repeat apply andb_true_iff in H as [H ?].
  rename H into Hpl. constructor.
  - intros p. rewrite forallb_forall in Hpl.
    destruct (decide (p ∈ (((fun k : HandlerKey => k.1) <$> elements (dom (handlers st)))
                            ++ elements (dom (plane_topic_chain st))))) as [Hin|Hout].
    + apply plane_okb_sound, Hpl, list_elem_of_In, Hin.
    + exists []. assert (plane_topic_chain st !! p = None) as ->.
      { apply not_elem_of_dom. intros Hp. apply Hout, elem_of_app. right. by apply elem_of_elements. }
      split_and!; [constructor..|]. intros t. split; [|set_solver].
      intros Ht. exfalso. apply Hout, elem_of_app. left. apply list_elem_of_fmap.
      exists (p, t). split; [done|by apply elem_of_elements].
  - intros k. match goal with H : bool_decide (_ = _) = true |- _ => apply bool_decide_eq_true in H; rewrite H end. done.
  - match goal with H : (_ =? _)%nat = true |- _ => by apply Nat.eqb_eq in H end.
  - by destruct (mutations st).
  - intros k c Hc.
    match goal with H : forallb _ (map_to_list _) = true |- _ => rewrite forallb_forall in H end.
    apply negb_true_iff. apply (H0 (k, c)). by apply list_elem_of_In, elem_of_map_to_list.
Qed.

Lemma alter_in_handler_restore (h : gmap HandlerKey NodeChain) key c :
  h !! key = Some c -> is_in_handler c = false ->
  alter (fun c => {| nodes := nodes c; is_in_handler := false; plane_next_topic := plane_next_topic c |}) key
    (alter (fun c => {| nodes := nodes c; is_in_handler := true; plane_next_topic := plane_next_topic c |})
       key h) = h.
Proof.
  intros Hc Hf. rewrite alter_alter_eq, alter_id; [done|].
  intros c' Hc'. rewrite Hc in Hc'. invc Hc'. destruct c'; simpl in *; by subst.
Qed.

(** C7: On a well-formed table, a handler that removes its own
    plane and then installs a node on its own topic makes the dispatch
    panic when the deferred mutations are applied: the addition was
    queued without a trace source because the topic still existed, and
    the removal queued before it deletes the topic's chain. *)
Theorem restart_in_handler_panics fuel source packet st hdr rest c hid h sf sf' b :
  pp_wf st -> decode packet = Some (hdr, rest) ->
  handlers st !! (plane_id hdr, topic hdr) = Some c ->
  nodes c = [{| source_filter := sf; body := Inline hid h |}] ->
  Z.land source sf <> 0 ->
  h (Codec.source hdr) packet = [HRemovePlane (plane_id hdr); HAddNode sf' (plane_id hdr) (topic hdr) b] ->
  handle_packet (S fuel) source packet st = Panic "PacketProcessor::_add_node missing tracer".
Proof.
  intros Hwf Hdec Hc Hn Hsf Hh. cbn [handle_packet]. rewrite Hdec. pp_step.
  rewrite Hc, (wf_not_in_handler _ Hwf _ _ Hc), Hn, (wf_readers _ Hwf). cbn [walk body source_filter].
  rewrite (proj2 (Z.eqb_neq _ _) Hsf), Hh. cbn [run_actions].
  rewrite remove_plane_deferred by (pp_unfold; done). pp_step.
  rewrite add_node_deferred by (pp_unfold; done). pp_step. cbn [walk].
  unfold flush_mutations. pp_unfold_goal. rewrite (wf_mutations _ Hwf). cbn [app Nat.pred].
  rewrite decide_True by done. cbn [apply_mutations apply_mutation].
  rewrite (alter_in_handler_restore _ _ c) by (done || apply (wf_not_in_handler _ Hwf _ _ Hc)).
  rewrite bool_decide_eq_false_2
    by (rewrite wf_existing by done; intros Hn0; apply Hn0, elem_of_dom; eauto).
  edestruct _remove_plane_ok as (h' & e' & -> & Hh' & _); [pp_unfold; apply Hwf|].
  pp_step. unfold _add_node. pp_unfold. rewrite Hh'. by rewrite decide_True.
Qed.

Lemma restart_in_handler_panics_witness :
  handle_packet 1 PACKET_PROCESSOR_SOURCE_NEW (pp_packet 7 3) pp_restart_example
  = Panic "PacketProcessor::_add_node missing tracer".
Proof.
  apply (restart_in_handler_panics 0 PACKET_PROCESSOR_SOURCE_NEW (pp_packet 7 3) pp_restart_example
           (pp_header 7 3) [] (chain_at pp_restart_example (7, 3)) 1 restart_handler
           PACKET_PROCESSOR_SOURCE_ANY PACKET_PROCESSOR_SOURCE_ANY (LocalQueue 0));
    [apply pp_wfb_sound|..]; vm_compute; try reflexivity; discriminate.
Defined.

Lemma remove_plane_spec_witness :
  exists st', remove_plane pp_example 7 = Ok st' /\
    (forall k, handlers st' !! k = if decide (k.1 = 7) then None else handlers pp_example !! k) /\
    pp_wf st'.
Proof. apply remove_plane_spec, pp_wfb_sound. vm_compute. reflexivity. Defined.

Lemma add_node_spec_witness :
  exists st', add_node pp_example PACKET_PROCESSOR_SOURCE_ANY 7 4 (LocalQueue 2) = Ok st' /\
    nodes <$> handlers st' !! (7, 4)
      = Some ({| source_filter := PACKET_PROCESSOR_SOURCE_ANY; body := LocalQueue 2 |}
                :: from_option nodes [] (handlers pp_example !! (7, 4))) /\
    (forall k, k <> (7, 4) -> handlers st' !! k = handlers pp_example !! k) /\
    pp_wf st'.
Proof. apply add_node_spec, pp_wfb_sound. vm_compute. reflexivity. Defined.

(** A handler that sends a packet to its own topic is not
    re-entered: the nested dispatch finds the chain marked as running a
    handler and pushes the packet back on the worker's local queue, after
    which the table is as before. *)
Theorem self_send_requeued fuel source packet packet' st hdr hdr' rest rest' c hid h sf :
  pp_wf st -> decode packet = Some (hdr, rest) -> decode packet' = Some (hdr', rest') ->
  (plane_id hdr', topic hdr') = (plane_id hdr, topic hdr) ->
  handlers st !! (plane_id hdr, topic hdr) = Some c ->
  nodes c = [{| source_filter := sf; body := Inline hid h |}] ->
  Z.land source sf <> 0 ->
  h (Codec.source hdr) packet = [HSend packet'] ->
  handle_packet (S (S fuel)) source packet st
  = Ok (emit_all st [OutCall hid (Codec.source hdr) packet; OutRequeue packet']).
Proof.
  intros Hwf Hdec Hdec' Hkey Hc Hn Hsf Hh.
  cbn [handle_packet]. rewrite Hdec. pp_step.
  rewrite Hc, (wf_not_in_handler _ Hwf _ _ Hc), Hn, (wf_readers _ Hwf). cbn [walk body source_filter].
  rewrite (proj2 (Z.eqb_neq _ _) Hsf), Hh. cbn [run_actions handle_packet]. rewrite Hdec'. pp_step.
  rewrite Hkey. pp_unfold. rewrite lookup_alter_eq, Hc. pp_step. cbn [is_in_handler].
  unfold flush_mutations. pp_unfold. rewrite (wf_mutations _ Hwf). pp_step. pp_unfold.
  rewrite (alter_in_handler_restore _ _ c) by (done || apply (wf_not_in_handler _ Hwf _ _ Hc)).
  rewrite <- app_assoc. pose proof (wf_readers _ Hwf). pose proof (wf_mutations _ Hwf).
  destruct st; pp_unfold; simpl in *; by subst.
Qed.

Lemma self_send_requeued_witness :
  handle_packet 2 PACKET_PROCESSOR_SOURCE_NEW (pp_packet 7 3) pp_echo_example
  = Ok (emit_all pp_echo_example [OutCall 2 {| endpoint := 9 |} (pp_packet 7 3);
                                  OutRequeue (pp_packet 7 3)]).
Proof.
  apply (self_send_requeued 0 PACKET_PROCESSOR_SOURCE_NEW (pp_packet 7 3) (pp_packet 7 3)
           pp_echo_example (pp_header 7 3) (pp_header 7 3) [] [] (chain_at pp_echo_example (7, 3))
           2 echo_handler PACKET_PROCESSOR_SOURCE_ANY);
    [apply pp_wfb_sound|..]; vm_compute; try reflexivity; discriminate.
Defined.

(** ** The nesting of dispatches is bounded *)

Lemma send_to_worker_fields st sent w packet :
  let st' := (send_to_worker st sent w packet).1 in
  handlers st' = handlers st /\ readers st' = readers st /\
  inter_worker_senders st' = inter_worker_senders st.
Proof. unfold send_to_worker. repeat case_match; simpl; done. Qed.

Section Nested.
Context (dispatch : Packet -> PacketProcessor -> result PacketProcessor).

Hypothesis Hd : forall p s s', readers s <> 0%nat -> dispatch p s = Ok s' -> keeps_table s s'.

Lemma keeps_table_trans s1 s2 s3 : keeps_table s1 s2 -> keeps_table s2 s3 -> keeps_table s1 s3.
Proof. intros (? & ? & ?) (? & ? & ?). split_and!; congruence. Qed.

Lemma run_actions_keeps acts st st' :
  readers st <> 0%nat -> run_actions dispatch acts st = Ok st' -> keeps_table st st'.
Proof.
  revert st. induction acts as [|[sf p t b|p|pkt] acts IH]; intros st Hr H; simpl in H.
  - invc H. done.
  - rewrite add_node_deferred in H by done. simpl in H.
    apply IH in H; [|pp_unfold; done]. eapply keeps_table_trans; [|exact H]. done.
  - rewrite remove_plane_deferred in H by done. simpl in H.
    apply IH in H; [|pp_unfold; done]. eapply keeps_table_trans; [|exact H]. done.
  - destruct_ok H. pose proof (Hd _ _ _ Hr Ha) as Hk.
    eapply keeps_table_trans; [exact Hk|]. apply IH; [|done].
    destruct Hk as (_ & -> & _). done.
Qed.

Lemma walk_keeps key c source_mask src packet ns : forall sent st st',
  readers st <> 0%nat -> handlers st !! key = Some c -> is_in_handler c = false ->
  walk dispatch key source_mask src packet ns sent st = Ok st' -> keeps_table st st'.
Proof.
  induction ns as [|node ns IH]; intros sent st st' Hr Hc Hf H; simpl in H; [by invc H|].
  destruct (_ =? 0); [eauto|].
  destruct (body node) as [hid h|q|h|w|h].
  - destruct_ok H.
    apply run_actions_keeps in Ha as (Hh & Hr' & Hw); [|pp_unfold; done].
    pp_unfold. eapply keeps_table_trans; [|eapply IH; [..|exact H]].
    + split_and!; pp_unfold; rewrite ?Hh, ?Hr', ?Hw; try done.
      by apply (alter_in_handler_restore _ _ c).
    + pp_unfold. congruence.
    + pp_unfold. rewrite Hh. by rewrite (alter_in_handler_restore _ _ c).
    + done.
  - eapply keeps_table_trans; [|eapply IH; [..|exact H]]; pp_unfold; done.
  - eapply keeps_table_trans; [|eapply IH; [..|exact H]]; case_match; pp_unfold; done.
  - destruct send_to_worker as [s1 m1] eqn:E.
    pose proof (send_to_worker_fields st sent w packet) as Hs. rewrite E in Hs. simpl in Hs.
    destruct Hs as (Hh & Hr' & Hw).
    eapply keeps_table_trans; [|eapply IH; [..|exact H]]; try congruence. split_and!; done.
  - destruct (h src packet) as [w|]; [|eauto].
    destruct send_to_worker as [s1 m1] eqn:E.
    pose proof (send_to_worker_fields st sent w packet) as Hs. rewrite E in Hs. simpl in Hs.
    destruct Hs as (Hh & Hr' & Hw).
    eapply keeps_table_trans; [|eapply IH; [..|exact H]]; try congruence. split_and!; done.
Qed.
End Nested.

(** A dispatch nested under a read guard leaves the chains, the lock and
    the senders as it found them. *)
Lemma handle_packet_keeps n : forall source packet st st',
  readers st <> 0%nat -> handle_packet n source packet st = Ok st' -> keeps_table st st'.
Proof.
  induction n as [|n IH]; intros source packet st st' Hr H; cbn [handle_packet] in H;
    [by invc H|].
  destruct (fst <$> decode packet) as [hdr|]; cbn [expect mbind result_bind] in H; [|discriminate].
  destruct (handlers st !! _) as [c|] eqn:Hc; [|by invc H].
  destruct (is_in_handler c) eqn:Hf; [by invc H|].
  destruct_ok H. apply (walk_keeps _ (fun p s s' Hs => IH _ p s s' Hs) _ c) in Ha as (Hh & Hr' & Hw);
    [|pp_unfold; done|pp_unfold; exact Hc|done].
  unfold flush_mutations in H. pp_unfold. rewrite Hr' in H. simpl in H.
  destruct (mutations a); [|rewrite decide_False in H by done]; invc H; split_and!; pp_unfold; done.
Qed.

Lemma free_chains_mark h key c :
  h !! key = Some c -> is_in_handler c = false ->
  free_chains h = S (free_chains (mark_in_handler key true h)).
Proof.
  intros Hc Hf. unfold free_chains, mark_in_handler.
  rewrite <- (insert_id h key c Hc) at 2. rewrite alter_insert_eq.
  rewrite map_filter_insert_False by (simpl; congruence).
  rewrite map_filter_delete, map_size_delete_Some; [|eexists; by apply map_lookup_filter_Some_2].
  assert (size (filter (fun kc : HandlerKey * NodeChain => is_in_handler kc.2 = false) h) <> 0%nat);
    [|lia].
  eapply map_size_ne_0_lookup_2. eexists. by apply map_lookup_filter_Some_2.
Qed.

Lemma free_chains_size h : (free_chains h <= size h)%nat.
Proof. apply map_subseteq_size, map_filter_subseteq. Qed.

Section Congr.
Context (d1 d2 : Packet -> PacketProcessor -> result PacketProcessor).
Hypothesis Hd1 : forall p s s', readers s <> 0%nat -> d1 p s = Ok s' -> keeps_table s s'.

Lemma run_actions_congr H1 acts : forall st,
  (forall p s, handlers s = H1 -> readers s <> 0%nat -> d1 p s = d2 p s) ->
  handlers st = H1 -> readers st <> 0%nat ->
  run_actions d1 acts st = run_actions d2 acts st.
Proof.
  induction acts as [|[sf p t b|p|pkt] acts IH]; intros st Hag Hh Hr; simpl; [done|..].
  - rewrite add_node_deferred by done. simpl. apply IH; pp_unfold; done.
  - rewrite remove_plane_deferred by done. simpl. apply IH; pp_unfold; done.
  - rewrite <- Hag by done. apply bind_ext_Ok. intros s Hs.
    destruct (Hd1 _ _ _ Hr Hs) as (? & ? & _). apply IH; [exact Hag|congruence..].
Qed.

Lemma walk_congr key c H0 source_mask src packet ns : forall sent st,
  H0 !! key = Some c -> is_in_handler c = false ->
  (forall p s, handlers s = mark_in_handler key true H0 -> readers s <> 0%nat -> d1 p s = d2 p s) ->
  handlers st = H0 -> readers st <> 0%nat ->
  walk d1 key source_mask src packet ns sent st = walk d2 key source_mask src packet ns sent st.
Proof.
  induction ns as [|node ns IH]; intros sent st Hc Hf Hag Hh Hr; simpl; [done|].
  destruct (_ =? 0); [auto|].
  destruct (body node) as [hid h|q|h|w|h].
  - rewrite <- (run_actions_congr (mark_in_handler key true H0)) by (pp_unfold; subst; done).
    apply bind_ext_Ok. intros s Hs.
    apply (run_actions_keeps _ Hd1) in Hs as (Hh' & Hr' & _); [|pp_unfold; done].
    apply IH; try done; pp_unfold; [|congruence].
    rewrite Hh', Hh. by apply (alter_in_handler_restore _ _ c).
  - apply IH; pp_unfold; done.
  - apply IH; try case_match; pp_unfold; done.
  - destruct send_to_worker as [s1 m1] eqn:E.
    pose proof (send_to_worker_fields st sent w packet) as Hs. rewrite E in Hs. simpl in Hs.
    apply IH; try done; [destruct Hs as (-> & _)|destruct Hs as (_ & -> & _)]; done.
  - destruct (h src packet) as [w|]; [|auto].
    destruct send_to_worker as [s1 m1] eqn:E.
    pose proof (send_to_worker_fields st sent w packet) as Hs. rewrite E in Hs. simpl in Hs.
    apply IH; try done; [destruct Hs as (-> & _)|destruct Hs as (_ & -> & _)]; done.
Qed.
End Congr.

(** More fuel than the number of chains not running a handler changes
    nothing. *)
Lemma handle_packet_fuel_indep n : forall m source packet st,
  (free_chains (handlers st) < n)%nat -> (free_chains (handlers st) < m)%nat ->
  handle_packet n source packet st = handle_packet m source packet st.
Proof.
  induction n as [|n IH]; intros [|m] source packet st Hn Hm; try lia.
  cbn [handle_packet]. destruct (fst <$> decode packet) as [hdr|]; cbn [expect mbind result_bind];
    [|done].
  destruct (handlers st !! _) as [c|] eqn:Hc; [|done].
  destruct (is_in_handler c) eqn:Hf; [done|].
  rewrite (walk_congr _ (handle_packet m PACKET_PROCESSOR_SOURCE_NEW) (fun p s s' Hs => handle_packet_keeps n _ p s s' Hs) _ c (handlers st));
    pp_unfold; try done.
  intros p s Hs _. apply IH; rewrite Hs;
    pose proof (free_chains_mark (handlers st) _ c Hc Hf); lia.
Qed.

(** C5: Dispatches nest only through chains that are not already
    running a handler, so the nesting depth is below the number of
    chains: any fuel of at least [handle_packet_fuel st] (one more than
    the number of chains) gives the result of [process_packet]. *)
Theorem handle_packet_fuel_enough n source packet st :
  (handle_packet_fuel st <= n)%nat ->
  handle_packet n source packet st = process_packet source packet st.
Proof.
  intros Hn. unfold process_packet, handle_packet_fuel in *.
  pose proof (free_chains_size (handlers st)). apply handle_packet_fuel_indep; lia.
Qed.

Lemma handle_packet_fuel_enough_witness :
  (handle_packet_fuel pp_echo_example <= 10)%nat /\
  handle_packet 10 PACKET_PROCESSOR_SOURCE_NEW (pp_packet 7 3) pp_echo_example
  = process_packet PACKET_PROCESSOR_SOURCE_NEW (pp_packet 7 3) pp_echo_example.
Proof.
  assert (H : (handle_packet_fuel pp_echo_example <= 10)%nat) by (vm_compute; lia).
  split; [exact H|]. exact (handle_packet_fuel_enough 10 _ _ _ H).
Defined.
