(* ===== verification/FlushBatcher.v ===== *)
(** * FlushBatcher: the flush deadline of a writer

    Models src/crates/modrpc/src/flush_batcher.rs and the task that
    drives it (the loop spawned by [spawn_writer_flush_batcher] in
    transport.rs and by the runtime in rt.rs).  Instants and durations
    are integers of nanoseconds; [Instant::checked_add] fails past
    [INSTANT_MAX].  The waker cell holds the id of the task parked in
    [wait()]; [schedule_flush] returns the task it wakes.  The wasm32
    variant of [schedule_flush] (always [Immediate]) is not modelled. *)

From S2P Require Import Prelude.
Local Open Scope Z_scope.

(** ** State and operations *)

Inductive NextFlushTime :=
| NInstant (t : Z)
| Immediate.

Inductive FlushBatcherStatus :=
| Snooze (duration : Z)
| FlushNow
| DoNotFlush.

Record FlushBatcher := {
  max_flush_delay : Z;
  next_flush_time : option NextFlushTime;
  waker : option nat;
}.

(** The largest [Instant] of a 64-bit [Timespec], in nanoseconds. *)
Definition INSTANT_MAX : Z := (2 ^ 63 - 1) * 1000000000 + 999999999.

Definition instant_checked_add (now d : Z) : option Z :=
  if now + d <=? INSTANT_MAX then Some (now + d) else None.

Definition fb_new (max_flush_delay : Z) : FlushBatcher :=
  {| max_flush_delay := max_flush_delay; next_flush_time := None; waker := None |}.

Definition set_next (fb : FlushBatcher) (n : option NextFlushTime) : FlushBatcher :=
  {| max_flush_delay := max_flush_delay fb; next_flush_time := n; waker := waker fb |}.

Definition schedule_flush (now : Z) (fb : FlushBatcher) : FlushBatcher * option nat :=
  match next_flush_time fb with
  | Some _ => (fb, None)
  | None =>
      let next :=
        if decide (max_flush_delay fb = 0) then Some Immediate
        else NInstant <$> instant_checked_add now (max_flush_delay fb) in
      ({| max_flush_delay := max_flush_delay fb; next_flush_time := next; waker := None |},
       waker fb)
  end.

Definition cancel_flush (fb : FlushBatcher) : FlushBatcher := set_next fb None.

Definition handle_flush (now : Z) (fb : FlushBatcher) : FlushBatcher * FlushBatcherStatus :=
  match next_flush_time fb with
  | Some Immediate => (set_next fb None, FlushNow)
  | Some (NInstant next_flush_time) =>
      if next_flush_time <=? now then (set_next fb None, FlushNow)
      else (fb, Snooze (next_flush_time - now))
  | None => (fb, DoNotFlush)
  end.

(** [FlushBatcherWait::poll] by task [task]: ready when a deadline is
    set, otherwise the task's waker is stored. *)
Definition wait_poll (task : nat) (fb : FlushBatcher) : FlushBatcher * bool :=
  match next_flush_time fb with
  | Some _ => (fb, true)
  | None => ({| max_flush_delay := max_flush_delay fb; next_flush_time := None;
                waker := Some task |}, false)
  end.

(** ** The flush task *)

(** What one run of the inner loop ends with. *)
Inductive FlushOutcome :=
| Flushed (at_time : Z)
| NotFlushed (at_time : Z).

(** The inner [loop] of the flush task, from time [now]: a snooze
    sleeps until the sleeper wakes it, at [wake_at t >= t] for a
    requested instant [t].  Each snooze ends at or after the deadline,
    so two turns are enough ([flush_loop_two_turns]); the fuel only
    makes the recursion structural. *)
Fixpoint flush_loop (fuel : nat) (wake_at : Z -> Z) (now : Z) (fb : FlushBatcher)
    : FlushBatcher * FlushOutcome :=
  match fuel with
  | O => (fb, NotFlushed now)
  | S fuel' =>
      match handle_flush now fb with
      | (fb, Snooze duration) => flush_loop fuel' wake_at (wake_at (now + duration)) fb
      | (fb, FlushNow) => (fb, Flushed now)
      | (fb, DoNotFlush) => (fb, NotFlushed now)
      end
  end.

(** ** Lemmas *)

(** Once a deadline is set, scheduling again changes nothing and wakes no one. *)
Lemma schedule_flush_pending now fb n :
  next_flush_time fb = Some n -> schedule_flush now fb = (fb, None).
Proof. unfold schedule_flush. by intros ->. Qed.

Lemma schedules_pending ts fb n :
  next_flush_time fb = Some n -> fold_left (fun fb t => fst (schedule_flush t fb)) ts fb = fb.
Proof.
  intros Hn. induction ts as [|t ts IH]; [done|]. simpl. by rewrite (schedule_flush_pending t fb n).
Qed.

(** The inner loop on a deadline [t]: it flushes at once when [t] has
    passed, or after one snooze that ends at [wake_at t >= t]. *)
Lemma flush_loop_instant fuel wake_at now fb t :
  (2 <= fuel)%nat -> (forall x, x <= wake_at x) -> next_flush_time fb = Some (NInstant t) ->
  flush_loop fuel wake_at now fb
  = (set_next fb None, Flushed (if t <=? now then now else wake_at t)).
Proof.
  intros Hf Hw Hn. destruct fuel as [|[|fuel]]; [lia|lia|].
  cbn [flush_loop]. unfold handle_flush at 1. rewrite Hn.
  destruct (Z.leb_spec t now) as [Hle|Hlt]; [reflexivity|].
  replace (now + (t - now)) with t by lia.
  unfold handle_flush. rewrite Hn. pose proof (Hw t).
  destruct (Z.leb_spec t (wake_at t)); [reflexivity|lia].
Qed.

Lemma schedule_flush_idle now fb :
  next_flush_time fb = None -> 0 < max_flush_delay fb -> now + max_flush_delay fb <= INSTANT_MAX ->
  schedule_flush now fb
  = ({| max_flush_delay := max_flush_delay fb;
        next_flush_time := Some (NInstant (now + max_flush_delay fb)); waker := None |}, waker fb).
Proof.
  intros Hn Hd Hmax. unfold schedule_flush, instant_checked_add. rewrite Hn.
  rewrite decide_False by lia. destruct (Z.leb_spec (now + max_flush_delay fb) INSTANT_MAX); [done|lia].
Qed.

(** After a flush is scheduled at [t0] on an idle batcher with a
    positive delay, however many more sends schedule before the flush
    task runs, the task's inner loop (with a sleeper that never wakes
    early) flushes at its first turn at or after [t0 + max_flush_delay]
    and clears the deadline: the deadline is never postponed. *)
Theorem flush_latency_bound fuel wake_at t0 ts now fb :
  next_flush_time fb = None -> 0 < max_flush_delay fb -> t0 + max_flush_delay fb <= INSTANT_MAX ->
  (2 <= fuel)%nat -> (forall x, x <= wake_at x) ->
  let fb1 := fold_left (fun fb t => fst (schedule_flush t fb)) ts (fst (schedule_flush t0 fb)) in
  snd (flush_loop fuel wake_at now fb1)
    = Flushed (if t0 + max_flush_delay fb <=? now then now else wake_at (t0 + max_flush_delay fb))
  /\ next_flush_time (fst (flush_loop fuel wake_at now fb1)) = None.
Proof.
  intros Hn Hd Hmax Hf Hw fb1. subst fb1. rewrite schedule_flush_idle by done. simpl fst.
  rewrite (schedules_pending _ _ (NInstant (t0 + max_flush_delay fb))) by done.
  by rewrite (flush_loop_instant _ _ _ _ (t0 + max_flush_delay fb)).
Qed.

(** A flush task parked in [wait()] on an idle batcher is woken by
    the next [schedule_flush], and its [wait()] then completes. *)
Theorem schedule_flush_wakes_waiter task now fb :
  next_flush_time fb = None -> (max_flush_delay fb = 0 \/ now + max_flush_delay fb <= INSTANT_MAX) ->
  let fb1 := fst (wait_poll task fb) in
  snd (wait_poll task fb) = false /\
  snd (schedule_flush now fb1) = Some task /\
  snd (wait_poll task (fst (schedule_flush now fb1))) = true.
Proof.
  intros Hn Hd fb1. subst fb1. unfold wait_poll, schedule_flush. rewrite !Hn. simpl.
  split_and!; [done..|].
  destruct (decide (max_flush_delay fb = 0)); [done|].
  unfold instant_checked_add. destruct (Z.leb_spec (now + max_flush_delay fb) INSTANT_MAX); [done|lia].
Qed.

Lemma flush_latency_bound_witness :
  next_flush_time (fb_new 100000) = None /\ 0 < max_flush_delay (fb_new 100000) /\
  1000 + max_flush_delay (fb_new 100000) <= INSTANT_MAX /\ (2 <= 2)%nat /\
  (forall x, x <= x + 7) /\
  (let fb1 := fold_left (fun fb t => fst (schedule_flush t fb)) [2000; 50000]
                (fst (schedule_flush 1000 (fb_new 100000))) in
   snd (flush_loop 2 (fun x => x + 7) 3000 fb1)
     = Flushed (if 1000 + max_flush_delay (fb_new 100000) <=? 3000 then 3000
                else (fun x => x + 7) (1000 + max_flush_delay (fb_new 100000)))
   /\ next_flush_time (fst (flush_loop 2 (fun x => x + 7) 3000 fb1)) = None).
Proof.
  assert (Hw : forall x : Z, x <= x + 7) by lia.
  assert (H1 : 0 < max_flush_delay (fb_new 100000)) by (vm_compute; reflexivity).
  assert (H2 : 1000 + max_flush_delay (fb_new 100000) <= INSTANT_MAX) by (vm_compute; congruence).
  assert (H3 : (2 <= 2)%nat) by lia.
  split_and!; [reflexivity|exact H1|exact H2|exact H3|exact Hw|].
  exact (flush_latency_bound 2 (fun x => x + 7) 1000 [2000; 50000] 3000 (fb_new 100000)
           eq_refl H1 H2 H3 Hw).
Defined.

Lemma schedule_flush_wakes_waiter_witness :
  next_flush_time (fb_new 100000) = None /\
  (max_flush_delay (fb_new 100000) = 0 \/ 5 + max_flush_delay (fb_new 100000) <= INSTANT_MAX) /\
  (let fb1 := fst (wait_poll 3 (fb_new 100000)) in
   snd (wait_poll 3 (fb_new 100000)) = false /\
   snd (schedule_flush 5 fb1) = Some 3%nat /\
   snd (wait_poll 3 (fst (schedule_flush 5 fb1))) = true).
Proof.
  assert (H : max_flush_delay (fb_new 100000) = 0 \/ 5 + max_flush_delay (fb_new 100000) <= INSTANT_MAX)
    by (right; vm_compute; congruence).
  split_and!; [reflexivity|exact H|].
  exact (schedule_flush_wakes_waiter 3 5 (fb_new 100000) eq_refl H).
Defined.
