(* ===== verification/PacketSender.v ===== *)
(** * PacketSender: writing a packet to its channel and dispatching it locally

    Models src/crates/modrpc/src/packet_sender.rs.  A [PacketSender]
    owns a channel selector (one writer, or a writer per topic), the
    endpoint address it stamps on every header, the shared
    [PacketProcessor] of its worker and, optionally, the
    [FlushBatcher] of its writer.  [send_raw] reserves header and
    payload in the selected writer, writes the 20-byte [TransmitPacket]
    header (its length cast [as u16]), lets the caller fill the payload,
    dispatches the same bytes to the local packet processor and then
    applies the flush policy: flush the writer once 32000 bytes are
    unflushed, otherwise schedule a flush.  [try_send] polls [send] once
    ([now_or_never]); [SendPoll] says where that single poll stops.

    bab's writer is modelled from its use here ([Writer]): the packets
    written since the last flush and those handed on by [flush]. *)

From S2P Require Import Prelude Codec PacketProcessor FlushBatcher.
Local Open Scope Z_scope.

(** ** bab's writer, as the sender uses it *)

Record Writer := { flushed : list Packet; unflushed : list Packet }.

Definition writer_new : Writer := {| flushed := []; unflushed := [] |}.

(** [DynWriter::unflushed_bytes]. *)
Definition unflushed_bytes (w : Writer) : Z := Z.of_nat (list_sum (map length (unflushed w))).

(** A reserved buffer, once written and turned into a [Packet], is part
    of the writer's next flush. *)
Definition writer_commit (packet : Packet) (w : Writer) : Writer :=
  {| flushed := flushed w; unflushed := unflushed w ++ [packet] |}.

Definition writer_flush (w : Writer) : Writer :=
  {| flushed := flushed w ++ unflushed w; unflushed := [] |}.

(** [reserve(n)]: a buffer of [n] bytes; its old contents are not
    specified and are zeros here. *)
Definition writer_reserve (n : nat) : list byte := repeat Byte.x00 n.

(** Every packet the writer was given, in order. *)
Definition written (w : Writer) : list Packet := flushed w ++ unflushed w.

(** ** Channel selectors *)

Inductive ChannelSelector :=
| SingleChannelSelector (tx_channel : Writer)
| MultiChannelSelector (topic_channels : gmap Z nat) (channels : list Writer).

(** [MultiChannelSelector::set_topic_channel]. *)
Definition set_topic_channel (topic : Z) (channel_id : nat) (topic_channels : gmap Z nat)
    : gmap Z nat :=
  <[topic := channel_id]> topic_channels.

(** [select_channel], as the index of the writer it returns. *)
Definition select_channel (sel : ChannelSelector) (topic : Z) : result nat :=
  match sel with
  | SingleChannelSelector _ => Ok 0%nat
  | MultiChannelSelector topic_channels channels =>
      channel_id ← expect "called `Option::unwrap()` on a `None` value"
                     (topic_channels !! topic);
      if decide (channel_id < length channels)%nat then Ok channel_id
      else Panic "index out of bounds"
  end.

Definition channels_of (sel : ChannelSelector) : list Writer :=
  match sel with
  | SingleChannelSelector w => [w]
  | MultiChannelSelector _ channels => channels
  end.

Definition update_channel (sel : ChannelSelector) (i : nat) (g : Writer -> Writer)
    : ChannelSelector :=
  match sel with
  | SingleChannelSelector w => SingleChannelSelector (g w)
  | MultiChannelSelector tc channels => MultiChannelSelector tc (alter g i channels)
  end.

(** ** The sender *)

Record PacketSender := {
  endpoint_addr : EndpointAddr;
  channel_selector : ChannelSelector;
  pp : PacketProcessor;
  flush_batcher : option FlushBatcher;
}.

(** [SingleChannelSender::into]. *)
Definition single_channel_sender (endpoint_addr : EndpointAddr) (tx_channel : Writer)
    (pp : PacketProcessor) (flush_batcher : option FlushBatcher) : PacketSender :=
  {| endpoint_addr := endpoint_addr; channel_selector := SingleChannelSelector tx_channel;
     pp := pp; flush_batcher := flush_batcher |}.

(** [MultiChannelSender::into]. *)
Definition multi_channel_sender (endpoint_addr : EndpointAddr) (topic_channels : gmap Z nat)
    (channels : list Writer) (pp : PacketProcessor) (flush_batcher : option FlushBatcher)
    : PacketSender :=
  {| endpoint_addr := endpoint_addr;
     channel_selector := MultiChannelSelector topic_channels channels;
     pp := pp; flush_batcher := flush_batcher |}.

Definition with_channel (s : PacketSender) (i : nat) (g : Writer -> Writer) : PacketSender :=
  {| endpoint_addr := endpoint_addr s; channel_selector := update_channel (channel_selector s) i g;
     pp := pp s; flush_batcher := flush_batcher s |}.

Definition with_pp (s : PacketSender) (st : PacketProcessor) : PacketSender :=
  {| endpoint_addr := endpoint_addr s; channel_selector := channel_selector s;
     pp := st; flush_batcher := flush_batcher s |}.

Definition with_flush_batcher (s : PacketSender) (fb : FlushBatcher) : PacketSender :=
  {| endpoint_addr := endpoint_addr s; channel_selector := channel_selector s;
     pp := pp s; flush_batcher := Some fb |}.

Definition channel_unflushed_bytes (s : PacketSender) (i : nat) : Z :=
  default 0 (unflushed_bytes <$> channels_of (channel_selector s) !! i).

(** [<TransmitPacket as BaseLen>::BASE_LEN]. *)
Definition header_length : nat := base_len (A := TransmitPacket).

(** The header [send_raw] and [send_buffer] write. *)
Definition tx_header (s : PacketSender) (plane_id topic payload_length : Z) : TransmitPacket :=
  {| payload_length := payload_length; infra_id := 0; plane_id := plane_id; topic := topic;
     source := endpoint_addr s |}.

(** The flush policy that ends [send_raw] and [send_buffer] at time
    [now]; it returns the flush task woken by [schedule_flush]. *)
Definition FLUSH_THRESHOLD : Z := 32000.

Definition after_send (now : Z) (i : nat) (s : PacketSender) : PacketSender * option nat :=
  match flush_batcher s with
  | None => (s, None)
  | Some fb =>
      if FLUSH_THRESHOLD <=? channel_unflushed_bytes s i
      then (with_flush_batcher (with_channel s i writer_flush) (cancel_flush fb), None)
      else let '(fb', woken) := schedule_flush now fb in (with_flush_batcher s fb', woken)
  end.

(** The part of [send_raw] up to the dispatch: select the channel,
    reserve, write header and payload ([f] fills the payload slice). *)
Definition reserve_and_write (plane_id topic : Z) (len : nat) (f : list byte -> list byte)
    (s : PacketSender) : result (nat * Packet * PacketSender) :=
  i ← select_channel (channel_selector s) topic;
  let buf := writer_reserve (header_length + len) in
  let packet := encode (tx_header s plane_id topic (wrap 16 (Z.of_nat len)))
                ++ f (drop header_length buf) in
  Ok (i, packet, with_channel s i (writer_commit packet)).

Definition dispatch (now : Z) (i : nat) (packet : Packet) (s : PacketSender)
    : result (PacketSender * option nat) :=
  st ← process_packet PACKET_PROCESSOR_SOURCE_NEW packet (pp s);
  Ok (after_send now i (with_pp s st)).

Definition send_raw (now plane_id topic : Z) (len : nat) (f : list byte -> list byte)
    (s : PacketSender) : result (PacketSender * option nat) :=
  '(i, packet, s) ← reserve_and_write plane_id topic len f s;
  dispatch now i packet s.

(** [send]: the payload's encoding fills the reserved slice. *)
Definition send `{Codec A} (now plane_id topic : Z) (payload : A) (s : PacketSender)
    : result (PacketSender * option nat) :=
  send_raw now plane_id topic (base_len (A := A)) (fun _ => encode payload) s.

(** [send_buffer]: the buffer already holds room for the header; the
    debug build panics on the subtraction when it is shorter. *)
Definition send_buffer (now plane_id topic : Z) (buffer : list byte) (s : PacketSender)
    : result (PacketSender * option nat) :=
  i ← select_channel (channel_selector s) topic;
  let buffer_length := length buffer in
  if decide (buffer_length < header_length)%nat then Panic "attempt to subtract with overflow"
  else
    let header := tx_header s plane_id topic (wrap 16 (Z.of_nat (buffer_length - header_length))) in
    let packet := encode header ++ drop header_length buffer in
    dispatch now i packet (with_channel s i (writer_commit packet)).

(** Where the single poll of [try_send] stops. *)
Inductive SendPoll :=
| ReservePending    (* [channel.reserve(..)] has no buffer ready *)
| DispatchPending   (* [pp.handle_packet] waits at its first await (read lock, requeue) *)
| SendCompletes.

(** [try_send]: [now_or_never] drops the future where its poll stopped;
    it returns whether [send] completed. *)
Definition try_send `{Codec A} (now : Z) (p : SendPoll) (plane_id topic : Z) (payload : A)
    (s : PacketSender) : result (PacketSender * option nat * bool) :=
  match p with
  | ReservePending => _ ← select_channel (channel_selector s) topic; Ok (s, None, false)
  | DispatchPending =>
      '(_, _, s) ← reserve_and_write plane_id topic (base_len (A := A))
                     (fun _ => encode payload) s;
      Ok (s, None, false)
  | SendCompletes => '(s, woken) ← send now plane_id topic payload s; Ok (s, woken, true)
  end.

(** One turn of the flush task of transport.rs: on [FlushNow] it
    flushes its writer, the single channel of the sender. *)
Definition flush_task_turn (now : Z) (s : PacketSender) : PacketSender :=
  match flush_batcher s with
  | None => s
  | Some fb =>
      match handle_flush now fb with
      | (fb', FlushNow) => with_flush_batcher (with_channel s 0 writer_flush) fb'
      | (fb', _) => with_flush_batcher s fb'
      end
  end.

(** A writer's pending bytes are below the threshold and have a flush
    deadline. *)
Definition flush_armed (s : PacketSender) : Prop :=
  forall fb, flush_batcher s = Some fb ->
  Forall (fun w => unflushed_bytes w < FLUSH_THRESHOLD /\
                   (unflushed w <> [] -> next_flush_time fb <> None))
         (channels_of (channel_selector s)).

(** Every packet channel [i] of the sender was given. *)
Definition written_at (s : PacketSender) (i : nat) : list Packet :=
  default [] (written <$> channels_of (channel_selector s) !! i).

(** The packet [send_raw] writes, as a header and a payload. *)
Definition sent_packet (s : PacketSender) (plane_id topic : Z) (len : nat)
    (f : list byte -> list byte) : WirePacket :=
  {| wp_header := tx_header s plane_id topic (wrap 16 (Z.of_nat len));
     wp_payload := f (repeat Byte.x00 len) |}.

(** The steps of a sender and its flush task, at times whose flush
    deadline [now + max_flush_delay] is a valid [Instant]. *)
Definition clock_ok (now : Z) (s : PacketSender) : Prop :=
  forall fb, flush_batcher s = Some fb -> now + max_flush_delay fb <= INSTANT_MAX.

Definition is_single (s : PacketSender) : Prop :=
  exists w, channel_selector s = SingleChannelSelector w.

Inductive sender_step : PacketSender -> PacketSender -> Prop :=
| StepSendRaw now plane_id topic len f s s' woken :
    clock_ok now s -> send_raw now plane_id topic len f s = Ok (s', woken) -> sender_step s s'
| StepFlushTask now s : sender_step s (flush_task_turn now s).

(** ** Examples *)

(** A single-channel sender of endpoint 7 with the 100us flush batcher
    transport.rs gives every writer, and an empty packet processor. *)
Definition ex_sender : PacketSender :=
  single_channel_sender {| endpoint := 7 |} writer_new (pp_new []) (Some (fb_new 100000)).

(** Two writers: topic 5 goes to the first, topic 6 to the second, which
    holds one unflushed packet. *)
Definition ex_multi_sender : PacketSender :=
  multi_channel_sender {| endpoint := 7 |} (<[5 := 0%nat]> (<[6 := 1%nat]> ∅))
    [writer_new; {| flushed := []; unflushed := [[Byte.x01]] |}]
    (pp_new []) (Some (fb_new 100000)).

(** ** Lemmas *)

Lemma select_channel_lt sel topic i :
  select_channel sel topic = Ok i -> (i < length (channels_of sel))%nat.
Proof.
  destruct sel as [w|tc chs]; cbn; [intros [= <-]; lia|].
  destruct (tc !! topic); cbn; [|done]. case_decide; [intros [= <-]; lia|done].
Qed.

Lemma channels_of_update sel i g :
  (i < length (channels_of sel))%nat ->
  channels_of (update_channel sel i g) = alter g i (channels_of sel).
Proof. destruct sel; cbn; [destruct i; [done|lia]|done]. Qed.

Lemma written_commit packet w : written (writer_commit packet w) = written w ++ [packet].
Proof. unfold written; cbn. by rewrite app_assoc. Qed.

Lemma written_flush w : written (writer_flush w) = written w.
Proof. unfold written; cbn. by rewrite app_nil_r. Qed.

Lemma written_at_with_channel s i j g :
  (i < length (channels_of (channel_selector s)))%nat ->
  written_at (with_channel s i g) j
  = if decide (i = j) then default [] (written ∘ g <$> channels_of (channel_selector s) !! j)
    else written_at s j.
Proof.
  intros Hi. unfold written_at; cbn. rewrite channels_of_update by done.
  rewrite list_lookup_alter. case_decide; [|done]. subst. by destruct (channels_of _ !! j).
Qed.

Lemma written_at_flush s i j :
  (i < length (channels_of (channel_selector s)))%nat ->
  written_at (with_channel s i writer_flush) j = written_at s j.
Proof.
  intros Hi. rewrite written_at_with_channel by done.
  case_decide; [subst; unfold written_at; destruct (channels_of _ !! j); cbn; [unfold written; cbn; by rewrite app_nil_r|done]|done].
Qed.

Lemma length_channels_with_channel s i g :
  (i < length (channels_of (channel_selector s)))%nat ->
  length (channels_of (channel_selector (with_channel s i g))) = length (channels_of (channel_selector s)).
Proof. intros Hi. cbn. rewrite channels_of_update by done. apply length_alter. Qed.

(** The flush policy moves no packet and leaves the processor alone. *)
Lemma after_send_written now i s j :
  (i < length (channels_of (channel_selector s)))%nat ->
  written_at (after_send now i s).1 j = written_at s j.
Proof.
  intros Hi. unfold after_send. destruct (flush_batcher s) as [fb|]; [|done].
  case_match; [by apply written_at_flush|]. by destruct (schedule_flush now fb).
Qed.

Lemma after_send_pp now i s : pp (after_send now i s).1 = pp s.
Proof.
  unfold after_send. destruct (flush_batcher s) as [fb|]; [|done].
  case_match; [done|]. by destruct (schedule_flush now fb).
Qed.

Lemma reserve_and_write_ok plane_id topic len f s i :
  select_channel (channel_selector s) topic = Ok i ->
  reserve_and_write plane_id topic len f s
  = Ok (i, packet_bytes (sent_packet s plane_id topic len f),
        with_channel s i (writer_commit (packet_bytes (sent_packet s plane_id topic len f)))).
Proof.
  intros Hsel. unfold reserve_and_write. rewrite Hsel. cbn [mbind result_bind].
  unfold writer_reserve. rewrite repeat_app, drop_app_length'; [done|].
  symmetry. apply repeat_length.
Qed.

Lemma send_raw_unfold now plane_id topic len f s i :
  select_channel (channel_selector s) topic = Ok i ->
  send_raw now plane_id topic len f s
  = st ← process_packet PACKET_PROCESSOR_SOURCE_NEW
           (packet_bytes (sent_packet s plane_id topic len f)) (pp s);
    Ok (after_send now i (with_pp (with_channel s i
          (writer_commit (packet_bytes (sent_packet s plane_id topic len f)))) st)).
Proof. intros Hsel. unfold send_raw. by rewrite (reserve_and_write_ok _ _ _ _ _ i). Qed.

Lemma sent_packet_wf s plane_id topic len f :
  length (f (repeat Byte.x00 len)) = len -> fits 32 plane_id = true -> fits 32 topic = true ->
  admissible (endpoint_addr s) = true ->
  wire_packet_wf (sent_packet s plane_id topic len f) = true <-> Z.of_nat len < 2 ^ 16.
Proof.
  intros Hf Hp Ht He. unfold wire_packet_wf, sent_packet, tx_header. cbn [wp_header wp_payload].
  rewrite Hf. change (admissible _) with
    (fits 16 (wrap 16 (Z.of_nat len)) && fits 16 0 && fits 32 plane_id && fits 32 topic
     && admissible (endpoint_addr s)).
  cbn [payload_length]. rewrite wrap_fits, Hp, Ht, He by lia. change (fits 16 0) with true.
  cbn [andb]. rewrite Z.eqb_eq. unfold wrap.
  split; [intros Hm; pose proof (Z.mod_pos_bound (Z.of_nat len) (2 ^ 16)); lia|].
  intros; apply Z.mod_small; lia.
Qed.

Lemma schedule_flush_sets_next now fb :
  now + max_flush_delay fb <= INSTANT_MAX -> next_flush_time (schedule_flush now fb).1 <> None.
Proof.
  intros Hle. unfold schedule_flush. destruct (next_flush_time fb) eqn:E; cbn; [by rewrite E|].
  case_decide; [done|]. unfold instant_checked_add. by rewrite (proj2 (Z.leb_le _ _) Hle).
Qed.

(** The flush task either fires, clearing the deadline, or leaves the batcher as it is. *)
Lemma handle_flush_cases now fb :
  handle_flush now fb = (set_next fb None, FlushNow)
  \/ exists st, st <> FlushNow /\ handle_flush now fb = (fb, st).
Proof.
  unfold handle_flush. destruct (next_flush_time fb) as [[t|]|]; [|by left|by right; exists DoNotFlush].
  destruct (t <=? now); [by left|by right; exists (Snooze (t - now))].
Qed.

Lemma flush_armed_single s w :
  channel_selector s = SingleChannelSelector w ->
  flush_armed s <-> forall fb, flush_batcher s = Some fb ->
    unflushed_bytes w < FLUSH_THRESHOLD /\ (unflushed w <> [] -> next_flush_time fb <> None).
Proof.
  intros Hs. unfold flush_armed. rewrite Hs. cbn [channels_of].
  split; intros H fb Hfb; specialize (H fb Hfb); [by inversion H|constructor; [exact H|constructor]].
Qed.

Lemma flush_armed_flushed s w fb :
  channel_selector s = SingleChannelSelector w -> flush_batcher s = Some fb ->
  flush_armed (with_flush_batcher (with_channel s 0 writer_flush) (cancel_flush fb)).
Proof.
  intros Hs _. apply (flush_armed_single _ (writer_flush w)); [cbn; by rewrite Hs|].
  intros ? _. unfold unflushed_bytes. cbn. split; [reflexivity|done].
Qed.

(** [send_raw] on a single channel leaves it armed, whatever came before. *)
Lemma send_raw_single_armed now plane_id topic len f s w s' woken :
  channel_selector s = SingleChannelSelector w -> clock_ok now s ->
  send_raw now plane_id topic len f s = Ok (s', woken) ->
  flush_armed s' /\ exists w', channel_selector s' = SingleChannelSelector w'.
Proof.
  intros Hs Hclk. rewrite (send_raw_unfold _ _ _ _ _ _ 0) by (by rewrite Hs).
  destruct (process_packet _ _ _) as [st|]; cbn [mbind result_bind]; [|done].
  intros [= Heq]. unfold after_send in Heq. cbn [flush_batcher with_pp with_channel] in Heq.
  destruct (flush_batcher s) as [fb|] eqn:Hfb.
  - case_match eqn:Hle; [injection Heq as <- _|].
    + split; [by eapply flush_armed_flushed; cbn; rewrite ?Hs|cbn; rewrite Hs; eauto].
    + destruct (schedule_flush now fb) as [fb' w'] eqn:Hsch. injection Heq as <- _.
      pose proof (schedule_flush_sets_next now fb (Hclk fb Hfb)) as Hnext. rewrite Hsch in Hnext.
      split; [|cbn; rewrite Hs; eauto].
      apply (flush_armed_single _ (writer_commit (packet_bytes (sent_packet s plane_id topic len f)) w));
        [cbn; by rewrite Hs|].
      intros ? [= <-]. apply Z.leb_gt in Hle. unfold channel_unflushed_bytes in Hle.
      cbn in Hle. rewrite Hs in Hle. cbn in Hle. done.
  - injection Heq as <- _. split; [intros fb; cbn; by rewrite Hfb|cbn; rewrite Hs; eauto].
Qed.

Lemma flush_task_single_armed now s w :
  channel_selector s = SingleChannelSelector w -> flush_armed s ->
  flush_armed (flush_task_turn now s) /\ is_single (flush_task_turn now s).
Proof.
  intros Hs Harm. unfold flush_task_turn, is_single.
  destruct (flush_batcher s) as [fb|] eqn:Hfb; [|rewrite Hs; eauto].
  destruct (handle_flush_cases now fb) as [->|(st & Hst & ->)].
  - split; [|cbn; rewrite Hs; eauto].
    apply (flush_armed_single _ (writer_flush w)); [cbn; by rewrite Hs|].
    intros ? _. unfold unflushed_bytes. cbn. split; [reflexivity|done].
  - destruct st; [| done |]; (split; [intros ? [= <-]; by apply Harm|cbn; rewrite Hs; eauto]).
Qed.

Lemma sender_step_single s s' :
  sender_step s s' -> is_single s -> flush_armed s -> flush_armed s' /\ is_single s'.
Proof.
  intros [now plane_id topic len f s0 s1 woken Hclk Hsend|now s0] [w Hs] Harm.
  - by eapply send_raw_single_armed.
  - by eapply flush_task_single_armed.
Qed.

Lemma written_at_commit s i packet :
  (i < length (channels_of (channel_selector s)))%nat ->
  written_at (with_channel s i (writer_commit packet)) i = written_at s i ++ [packet].
Proof.
  intros Hi. rewrite written_at_with_channel, decide_True by done.
  apply lookup_lt_is_Some in Hi as [w Hw]. unfold written_at. rewrite Hw. cbn.
  apply written_commit.
Qed.

Lemma channel_unflushed_bytes_commit s i packet :
  (i < length (channels_of (channel_selector s)))%nat ->
  channel_unflushed_bytes (with_channel s i (writer_commit packet)) i
  = channel_unflushed_bytes s i + Z.of_nat (length packet).
Proof.
  intros Hi. unfold channel_unflushed_bytes. cbn. rewrite channels_of_update, list_lookup_alter by done.
  apply lookup_lt_is_Some in Hi as [w Hw]. rewrite Hw, decide_True by done. cbn [fmap option_fmap option_map default id].
  unfold unflushed_bytes. cbn [unflushed writer_commit]. rewrite map_app, list_sum_app.
  change (list_sum (map length [packet])) with (length packet + 0)%nat.
  rewrite Nat.add_0_r. apply Nat2Z.inj_add.
Qed.

(** A channel holding unflushed packets while the batcher has no deadline is not armed. *)
Lemma unarmed_at s i w fb :
  flush_batcher s = Some fb -> next_flush_time fb = None ->
  channels_of (channel_selector s) !! i = Some w -> unflushed w <> [] -> ~ flush_armed s.
Proof.
  intros Hfb Hn Hw Hu Harm. specialize (Harm fb Hfb).
  apply (Forall_lookup_1 _ _ _ _ Harm) in Hw as [_ Hnext]. by apply Hnext.
Qed.

Lemma send_raw_ok now plane_id topic len f s i s' woken :
  select_channel (channel_selector s) topic = Ok i ->
  send_raw now plane_id topic len f s = Ok (s', woken) ->
  exists st, process_packet PACKET_PROCESSOR_SOURCE_NEW
               (packet_bytes (sent_packet s plane_id topic len f)) (pp s) = Ok st
    /\ (s', woken) = after_send now i (with_pp (with_channel s i
          (writer_commit (packet_bytes (sent_packet s plane_id topic len f)))) st).
Proof.
  intros Hsel. rewrite (send_raw_unfold _ _ _ _ _ _ i) by done.
  destruct (process_packet _ _ _) as [st|]; cbn [mbind result_bind]; [intros [= Heq]; by exists st|done].
Qed.

(** The packet [send_raw] appends to the selected writer. *)
Lemma send_raw_written_at now plane_id topic len f s i s' woken :
  select_channel (channel_selector s) topic = Ok i ->
  send_raw now plane_id topic len f s = Ok (s', woken) ->
  written_at s' i = written_at s i ++ [packet_bytes (sent_packet s plane_id topic len f)].
Proof.
  intros Hsel Hsend. pose proof (select_channel_lt _ _ _ Hsel) as Hi.
  destruct (send_raw_ok _ _ _ _ _ _ _ _ _ Hsel Hsend) as (st & _ & Heq).
  pose proof (length_channels_with_channel s i
    (writer_commit (packet_bytes (sent_packet s plane_id topic len f))) Hi) as Hl.
  assert (Hs' : s' = (after_send now i (with_pp (with_channel s i
    (writer_commit (packet_bytes (sent_packet s plane_id topic len f)))) st)).1) by (by rewrite <- Heq).
  subst s'. rewrite after_send_written by (cbn in *; lia). by apply written_at_commit.
Qed.

(** The header a sender writes is one its receivers decode. *)
Lemma tx_header_admissible s plane_id topic n :
  fits 32 plane_id = true -> fits 32 topic = true -> admissible (endpoint_addr s) = true ->
  admissible (tx_header s plane_id topic (wrap 16 n)) = true.
Proof.
  intros Hp Ht He. change (admissible _) with
    (fits 16 (wrap 16 n) && fits 16 0 && fits 32 plane_id && fits 32 topic
     && admissible (endpoint_addr s)).
  by rewrite wrap_fits, Hp, Ht, He by lia.
Qed.

(** ** Theorems *)

(** [send_raw] appends exactly one packet to the writer the selector
    picks for the topic -- the header with the plane, the topic, the
    sender's address, infra id 0 and the length, then the payload the
    caller wrote -- leaves every other writer as it was, and hands the
    same bytes to the local packet processor, whose new state the sender
    keeps. *)
Theorem send_raw_writes_and_dispatches now plane_id topic len f s i s' woken :
  select_channel (channel_selector s) topic = Ok i ->
  send_raw now plane_id topic len f s = Ok (s', woken) ->
  written_at s' i = written_at s i ++ [packet_bytes (sent_packet s plane_id topic len f)]
  /\ (forall j, j <> i -> written_at s' j = written_at s j)
  /\ process_packet PACKET_PROCESSOR_SOURCE_NEW
       (packet_bytes (sent_packet s plane_id topic len f)) (pp s) = Ok (pp s').
Proof.
  intros Hsel Hsend. pose proof (select_channel_lt _ _ _ Hsel) as Hi.
  destruct (send_raw_ok _ _ _ _ _ _ _ _ _ Hsel Hsend) as (st & Hpp & Heq).
  pose proof (length_channels_with_channel s i
    (writer_commit (packet_bytes (sent_packet s plane_id topic len f))) Hi) as Hl.
  assert (Hs' : s' = (after_send now i (with_pp (with_channel s i
    (writer_commit (packet_bytes (sent_packet s plane_id topic len f)))) st)).1) by (by rewrite <- Heq).
  subst s'. split_and!.
  - rewrite after_send_written by (cbn in *; lia). by apply written_at_commit.
  - intros j Hj. rewrite after_send_written by (cbn in *; lia).
    change (written_at (with_channel s i (writer_commit (packet_bytes (sent_packet s plane_id topic len f)))) j
            = written_at s j).
    by rewrite written_at_with_channel, decide_False.
  - by rewrite after_send_pp.
Qed.

(** the header [send_raw] writes frames its packet -- its length
    field is the payload's length, so the receiver's shatterer finds the
    next packet after it -- exactly when the payload is shorter than
    2^16 bytes: [len as u16] silently drops the high bits of a longer
    length. *)
Theorem send_raw_length_cast now plane_id topic len f s i s' woken :
  select_channel (channel_selector s) topic = Ok i ->
  send_raw now plane_id topic len f s = Ok (s', woken) ->
  length (f (repeat Byte.x00 len)) = len -> fits 32 plane_id = true -> fits 32 topic = true ->
  admissible (endpoint_addr s) = true ->
  exists p, written_at s' i = written_at s i ++ [packet_bytes p]
    /\ wp_payload p = f (repeat Byte.x00 len)
    /\ payload_length (wp_header p) = Z.of_nat len mod 2 ^ 16
    /\ (wire_packet_wf p = true <-> Z.of_nat len < 2 ^ 16).
Proof.
  intros Hsel Hsend Hf Hp Ht He. exists (sent_packet s plane_id topic len f). split_and!.
  - by apply (send_raw_writes_and_dispatches now plane_id topic len f s i s' woken).
  - done.
  - done.
  - by apply sent_packet_wf.
Qed.

(** for a sender over a single writer (the only kind rt.rs builds),
    every sequence of [send_raw] calls and turns of the writer's flush
    task keeps the invariant: fewer than 32000 unflushed bytes, and a
    flush deadline set whenever any byte is unflushed. *)
Theorem flush_armed_reachable s0 s :
  is_single s0 -> flush_armed s0 -> rtc sender_step s0 s -> flush_armed s.
Proof.
  intros Hs0 Harm Hrtc. revert Hs0 Harm.
  induction Hrtc as [|x y z Hxy _ IH]; intros Hs Harm; [done|].
  destruct (sender_step_single x y Hxy Hs Harm). by apply IH.
Qed.

(** when [try_send]'s single poll stops inside [pp.handle_packet]
    (its read lock not granted), [now_or_never] drops the future after
    the packet was written to the writer: [try_send] reports [false],
    the packet stays queued for the transport, and -- because the flush
    policy after the dispatch never runs -- no flush is scheduled for it. *)
Theorem try_send_dropped_mid_dispatch `{Codec A} now plane_id topic (payload : A) s fb i :
  flush_batcher s = Some fb -> next_flush_time fb = None ->
  select_channel (channel_selector s) topic = Ok i ->
  exists s', try_send now DispatchPending plane_id topic payload s = Ok (s', None, false)
    /\ written_at s' i
       = written_at s i ++ [packet_bytes (sent_packet s plane_id topic base_len (fun _ => encode payload))]
    /\ ~ flush_armed s'.
Proof.
  intros Hfb Hn Hsel. pose proof (select_channel_lt _ _ _ Hsel) as Hi.
  unfold try_send. rewrite (reserve_and_write_ok _ _ _ _ _ i) by done.
  eexists; split_and!; [reflexivity|by apply written_at_commit|].
  apply lookup_lt_is_Some in Hi as [w Hw].
  apply (unarmed_at _ i (writer_commit (packet_bytes (sent_packet s plane_id topic base_len
           (fun _ => encode payload))) w) fb); [done|done| |cbn [unflushed writer_commit]; by destruct (unflushed w)].
  cbn. rewrite channels_of_update, list_lookup_alter by (eapply lookup_lt_Some; done).
  by rewrite Hw, decide_True.
Qed.

(** with a writer per topic, a send that pushes one writer past the
    threshold flushes that writer and cancels the shared flush deadline,
    so another writer's unflushed packets are left with no flush
    scheduled. *)
Theorem multi_channel_flush_strands_other now plane_id topic len f s tc chs fb i j wj st :
  channel_selector s = MultiChannelSelector tc chs -> flush_batcher s = Some fb ->
  select_channel (channel_selector s) topic = Ok i -> i <> j ->
  chs !! j = Some wj -> unflushed wj <> [] ->
  FLUSH_THRESHOLD <= channel_unflushed_bytes s i
                     + Z.of_nat (length (packet_bytes (sent_packet s plane_id topic len f))) ->
  process_packet PACKET_PROCESSOR_SOURCE_NEW
    (packet_bytes (sent_packet s plane_id topic len f)) (pp s) = Ok st ->
  exists s', send_raw now plane_id topic len f s = Ok (s', None) /\ ~ flush_armed s'.
Proof.
  intros Hs Hfb Hsel Hij Hj Hu Hle Hpp. pose proof (select_channel_lt _ _ _ Hsel) as Hi.
  rewrite (send_raw_unfold _ _ _ _ _ _ i), Hpp by done. cbn [mbind result_bind].
  unfold after_send at 1. cbn [flush_batcher with_pp with_channel]. rewrite Hfb.
  rewrite (proj2 (Z.leb_le _ _)); [|by rewrite <- channel_unflushed_bytes_commit in Hle].
  eexists; split; [reflexivity|].
  apply (unarmed_at _ j wj (cancel_flush fb)); [done|done| |done].
  cbn. rewrite Hs. cbn. by rewrite !list_lookup_alter_ne.
Qed.

(** ** Witnesses *)

Lemma send_raw_writes_and_dispatches_witness :
  exists s' woken, send_raw 0 3 5 4 (fun _ => [Byte.x01; Byte.x02; Byte.x03; Byte.x04]) ex_sender
                   = Ok (s', woken)
  /\ written_at s' 0 = written_at ex_sender 0
       ++ [packet_bytes (sent_packet ex_sender 3 5 4 (fun _ => [Byte.x01; Byte.x02; Byte.x03; Byte.x04]))]
  /\ (forall j, j <> 0%nat -> written_at s' j = written_at ex_sender j)
  /\ process_packet PACKET_PROCESSOR_SOURCE_NEW
       (packet_bytes (sent_packet ex_sender 3 5 4 (fun _ => [Byte.x01; Byte.x02; Byte.x03; Byte.x04])))
       (pp ex_sender) = Ok (pp s').
Proof.
  destruct (send_raw 0 3 5 4 _ ex_sender) as [[s' woken]|] eqn:E; [|vm_compute in E; discriminate].
  exists s', woken. split; [reflexivity|].
  exact (send_raw_writes_and_dispatches 0 3 5 4 _ ex_sender 0 s' woken eq_refl E).
Defined.

Lemma send_raw_length_cast_witness :
  exists s' woken, send_raw 0 3 5 4 (fun _ => [Byte.x01; Byte.x02; Byte.x03; Byte.x04]) ex_sender
                   = Ok (s', woken)
  /\ exists p, written_at s' 0 = written_at ex_sender 0 ++ [packet_bytes p]
    /\ wp_payload p = [Byte.x01; Byte.x02; Byte.x03; Byte.x04]
    /\ payload_length (wp_header p) = Z.of_nat 4 mod 2 ^ 16
    /\ (wire_packet_wf p = true <-> Z.of_nat 4 < 2 ^ 16).
Proof.
  destruct (send_raw 0 3 5 4 _ ex_sender) as [[s' woken]|] eqn:E; [|vm_compute in E; discriminate].
  exists s', woken. split; [reflexivity|].
  apply (send_raw_length_cast 0 3 5 4 _ ex_sender 0 s' woken eq_refl E); reflexivity.
Defined.

Lemma flush_armed_reachable_witness : flush_armed (flush_task_turn 0 ex_sender).
Proof.
  apply (flush_armed_reachable ex_sender).
  - by exists writer_new.
  - intros fb _. constructor; [split; [reflexivity|done]|constructor].
  - apply rtc_once, StepFlushTask.
Defined.

Lemma try_send_dropped_mid_dispatch_witness :
  exists s', try_send 0 DispatchPending 3 5 {| endpoint := 9 |} ex_sender = Ok (s', None, false)
    /\ written_at s' 0 = written_at ex_sender 0
         ++ [packet_bytes (sent_packet ex_sender 3 5 (base_len (A := EndpointAddr)) (fun _ => encode {| endpoint := 9 |}))]
    /\ ~ flush_armed s'.
Proof. exact (try_send_dropped_mid_dispatch 0 3 5 _ ex_sender (fb_new 100000) 0 eq_refl eq_refl eq_refl). Defined.

Lemma multi_channel_flush_strands_other_witness :
  exists s', send_raw 0 3 5 (Z.to_nat 32000) id ex_multi_sender = Ok (s', None) /\ ~ flush_armed s'.
Proof.
  apply (multi_channel_flush_strands_other 0 3 5 (Z.to_nat 32000) id ex_multi_sender
           (<[5 := 0%nat]> (<[6 := 1%nat]> ∅))
           [writer_new; {| flushed := []; unflushed := [[Byte.x01]] |}] (fb_new 100000) 0 1
           {| flushed := []; unflushed := [[Byte.x01]] |} (pp_new []));
    [reflexivity|reflexivity|reflexivity|lia|reflexivity|done|vm_compute; discriminate
    |vm_compute; reflexivity].
Defined.
