(* ===== verification/RequestTracker.v ===== *)
(** * RequestTracker: correlation of requests and responses

    Models src/std-modrpc/rust/src/request_tracker.rs and the parts of
    role_impls/request_client.rs that drive it.  A worker's tracker has
    two tables:
    - the caller-await table [pending_requests], a [Slab] (see [Slab])
      of [PendingRequestState]s, one per [RequestClient::call] in
      flight, whose key is the request id;
    - the subscription table [subscription_pending_requests], keyed by
      (plane, requester, requester worker, request id), whose entries
      count the live [PendingRequestSubscription] handles of observers.

    The [Cell]s and [RefCell]s are fields of an explicit state record
    that each operation returns.  Wakers are task ids, and an operation
    returns the tasks it wakes.  A subscription callback is an id; the
    callbacks [handle_request] makes are returned as [Invocation]s that
    carry the handle each one receives.  The refpool that backs the
    subscription states only saves allocations and is not modelled. *)

From S2P Require Import Prelude Codec Slab.
Local Open Scope Z_scope.

Local Notation Packet := (list byte).

(** ** State *)

Record PendingRequestState := {
  response : option Packet;
  waker : option nat;
}.

(** (plane_id, requester, requester_worker, request_id) *)
Notation SubKey := (Z * Z * Z * Z)%type.

Record PendingRequestSubscriptionState := {
  sub_response : option Packet;
  pending_count : Z;  (* u32 *)
  waiters : list nat;
}.

Record RequestTracker := {
  pending_requests : Slab PendingRequestState;
  request_subscriptions : gmap (Z * Z) (list nat);
  subscription_pending_requests : gmap SubKey PendingRequestSubscriptionState;
}.

Definition rt_new : RequestTracker :=
  {| pending_requests := slab_new; request_subscriptions := ∅;
     subscription_pending_requests := ∅ |}.

Definition with_pending (s : Slab PendingRequestState) (st : RequestTracker) : RequestTracker :=
  {| pending_requests := s; request_subscriptions := request_subscriptions st;
     subscription_pending_requests := subscription_pending_requests st |}.

Definition with_subs (m : gmap SubKey PendingRequestSubscriptionState) (st : RequestTracker)
    : RequestTracker :=
  {| pending_requests := pending_requests st; request_subscriptions := request_subscriptions st;
     subscription_pending_requests := m |}.

(** A callback call of [handle_request]: [callback(packet.clone(), pending_request)]. *)
Record Invocation := {
  inv_callback : nat;
  inv_packet : Packet;
  inv_pending : SubKey;
}.

Inductive Poll := Ready (p : Packet) | Pending.

(** [<TransmitPacket as BaseLen>::BASE_LEN] *)
Definition PACKET_HEADER_LEN : nat := @base_len TransmitPacket _.

(** ** Operations *)

Definition subscribe (plane_id request_topic : Z) (callback : nat) (st : RequestTracker)
    : RequestTracker :=
  let callbacks := default [] (request_subscriptions st !! (plane_id, request_topic)) in
  {| pending_requests := pending_requests st;
     request_subscriptions :=
       <[(plane_id, request_topic) := callbacks ++ [callback]]> (request_subscriptions st);
     subscription_pending_requests := subscription_pending_requests st |}.

Definition new_subscription_state : PendingRequestSubscriptionState :=
  {| sub_response := None; pending_count := 0; waiters := [] |}.

Definition subscription_start_request (plane_id requester requester_worker request_id : Z)
    (st : RequestTracker) : RequestTracker * SubKey :=
  let key : SubKey := (plane_id, requester, requester_worker, request_id) in
  let s := default new_subscription_state (subscription_pending_requests st !! key) in
  (with_subs (<[key := {| sub_response := sub_response s; pending_count := pending_count s + 1;
                         waiters := waiters s |}]> (subscription_pending_requests st)) st,
   key).

(** The [for callback in callbacks] loop of [handle_request]. *)
Fixpoint start_subscriptions (callbacks : list nat) (plane_id source source_worker request_id : Z)
    (packet : Packet) (st : RequestTracker) : RequestTracker * list Invocation :=
  match callbacks with
  | [] => (st, [])
  | cb :: cbs =>
      let '(st, pending) := subscription_start_request plane_id source source_worker request_id st in
      let '(st, invs) := start_subscriptions cbs plane_id source source_worker request_id packet st in
      (st, {| inv_callback := cb; inv_packet := packet; inv_pending := pending |} :: invs)
  end.

Definition client_finish_request (request_id : Z) (response_packet : Packet) (st : RequestTracker)
    : RequestTracker * list nat :=
  let key := Z.to_nat request_id in
  match slab_get (pending_requests st) key with
  | None => (st, [])
  | Some pending_request =>
      (with_pending (slab_modify key (fun _ => {| response := Some response_packet; waker := None |})
                       (pending_requests st)) st,
       option_list (waker pending_request))
  end.

Definition subscription_finish_request (plane_id requester requester_worker request_id : Z)
    (response_packet : Packet) (st : RequestTracker) : RequestTracker * list nat :=
  let key : SubKey := (plane_id, requester, requester_worker, request_id) in
  match subscription_pending_requests st !! key with
  | None => (st, [])
  | Some s =>
      (with_subs (<[key := {| sub_response := Some response_packet; pending_count := pending_count s;
                              waiters := [] |}]> (subscription_pending_requests st)) st,
       waiters s)
  end.

Section Typed.
Context {T : Type} `{Codec T}.

(** [mproto::decode_value::<RequestLazy<T>>]: a view of the buffer, once
    it holds the wrapper's [BASE_LEN] bytes. *)
Definition decode_request_lazy (bs : list byte) : option (list byte) :=
  if decide (@base_len (Request T) _ <= length bs)%nat then Some bs else None.

Definition decode_response_lazy (bs : list byte) : option (list byte) :=
  if decide (@base_len (Response T) _ <= length bs)%nat then Some bs else None.

Definition handle_request (plane_id topic source : Z) (packet : Packet) (st : RequestTracker)
    : result (RequestTracker * list Invocation) :=
  bs ← slice_from packet PACKET_HEADER_LEN;
  Ok match decode_request_lazy bs with
  | None => (st, [])
  | Some request =>
      match request_lazy_request_id request with
      | None => (st, [])
      | Some request_id =>
          match request_lazy_worker request with
          | None => (st, [])
          | Some source_worker =>
              match request_subscriptions st !! (plane_id, topic) with
              | Some callbacks =>
                  start_subscriptions callbacks plane_id source source_worker request_id packet st
              | None => (st, [])
              end
          end
      end
  end.

Definition handle_response (plane_id local_addr local_worker : Z) (packet : Packet)
    (st : RequestTracker) : result (RequestTracker * list nat) :=
  bs ← slice_from packet PACKET_HEADER_LEN;
  Ok match decode_response_lazy bs with
  | None => (st, [])
  | Some resp =>
      match response_lazy_requester resp, response_lazy_requester_worker resp,
            response_lazy_request_id resp with
      | Some requester, Some requester_worker, Some request_id =>
          let '(st, woken1) :=
            if bool_decide (requester = local_addr /\ requester_worker = local_worker)
            then client_finish_request request_id packet st else (st, []) in
          let '(st, woken2) :=
            subscription_finish_request plane_id requester requester_worker request_id packet st in
          (st, woken1 ++ woken2)
      | _, _, _ => (st, [])
      end
  end.

(** The [route_to_worker] closure of [RequestClientBuilder::build]. *)
Definition route_response (local_addr local_worker_id : Z) (packet : Packet) : result (option Z) :=
  bs ← slice_from packet PACKET_HEADER_LEN;
  Ok match decode_response_lazy bs with
  | None => None
  | Some resp =>
      match response_lazy_requester resp, response_lazy_requester_worker resp with
      | Some requester, Some requester_worker =>
          if bool_decide (requester = local_addr /\ requester_worker <> local_worker_id)
          then Some requester_worker else None
      | _, _ => None
      end
  end.

(** The end of [RequestClient::call]: decode the response with [unwrap]. *)
Definition call_decode_response (response_buf : Packet) : result T :=
  bs ← slice_from response_buf PACKET_HEADER_LEN;
  '(response, _) ← expect "called `Result::unwrap()` on an `Err` value"
                     (@decode (Response T) _ bs);
  Ok (resp_payload response).
End Typed.

Definition client_start_request (st : RequestTracker) : result (RequestTracker * Z) :=
  '(key, s) ← slab_insert {| response := None; waker := None |} (pending_requests st);
  Ok (with_pending s st, wrap 32 (Z.of_nat key)).

(** [<PendingRequest as Future>::poll] by task [task]. *)
Definition pending_request_poll (request_id : Z) (task : nat) (st : RequestTracker)
    : result (RequestTracker * Poll) :=
  let key := Z.to_nat request_id in
  match slab_get (pending_requests st) key with
  | None => Panic "invalid key"
  | Some state =>
      match response state with
      | Some response_packet =>
          Ok (with_pending (slab_modify key (fun s => {| response := None; waker := waker s |})
                              (pending_requests st)) st, Ready response_packet)
      | None =>
          Ok (with_pending (slab_modify key (fun s => {| response := response s; waker := Some task |})
                              (pending_requests st)) st, Pending)
      end
  end.

(** [<PendingRequest as Drop>::drop] *)
Definition pending_request_drop (request_id : Z) (st : RequestTracker) : result RequestTracker :=
  '(_, s) ← slab_remove (Z.to_nat request_id) (pending_requests st);
  Ok (with_pending s st).

(** A poll of [PendingRequestSubscription::wait] by task [task]: the
    [WaiterQueue::wait_for] loop returns a clone of the response once it
    is set, and registers the task otherwise. *)
Definition subscription_wait_poll (key : SubKey) (task : nat) (st : RequestTracker)
    : result (RequestTracker * Poll) :=
  s ← expect "no entry found for key" (subscription_pending_requests st !! key);
  match sub_response s with
  | Some response_packet => Ok (st, Ready response_packet)
  | None =>
      Ok (with_subs (<[key := {| sub_response := None; pending_count := pending_count s;
                                 waiters := waiters s ++ [task] |}]>
                       (subscription_pending_requests st)) st, Pending)
  end.

(** [<PendingRequestSubscription as Drop>::drop] *)
Definition subscription_drop (key : SubKey) (st : RequestTracker) : result RequestTracker :=
  s ← expect "std_modrpc::RequestTracker missing pending subscription state"
        (subscription_pending_requests st !! key);
  let pending_count := pending_count s in
  Ok (with_subs
        (if decide (pending_count = 1) then delete key (subscription_pending_requests st)
         else <[key := {| sub_response := sub_response s; pending_count := pending_count - 1;
                          waiters := waiters s |}]> (subscription_pending_requests st)) st).

(** ** One worker's tracker and the handles its tasks hold *)

(** The tracker with the request ids of the [PendingRequest] futures
    alive ([call]s in flight) and the keys of the live
    [PendingRequestSubscription]s (one per observer callback still
    holding its handle). *)
Record TrackerSys := {
  tracker : RequestTracker;
  live_requests : list Z;
  live_subscriptions : list SubKey;
}.

Definition sys_init : TrackerSys :=
  {| tracker := rt_new; live_requests := []; live_subscriptions := [] |}.

Section Steps.
Context {Req Resp : Type} `{Codec Req} `{Codec Resp}.
Variables (local_addr local_worker : Z).

(** What the tasks of the worker and its inline handlers do with the
    tracker, in any interleaving.  A new call is only started while the
    slab holds fewer than 2^32 entries, the range in which the [as u32]
    cast of its key is exact. *)
Inductive tracker_step : TrackerSys -> TrackerSys -> Prop :=
| ts_start st st' id lr ls :
    Z.of_nat (length (entries (pending_requests st))) < 2 ^ 32 ->
    client_start_request st = Ok (st', id) ->
    tracker_step (Build_TrackerSys st lr ls) (Build_TrackerSys st' (lr ++ [id]) ls)
| ts_poll st st' id task p lr ls :
    id ∈ lr -> pending_request_poll id task st = Ok (st', p) ->
    tracker_step (Build_TrackerSys st lr ls) (Build_TrackerSys st' lr ls)
| ts_drop st st' id lr1 lr2 ls :
    pending_request_drop id st = Ok st' ->
    tracker_step (Build_TrackerSys st (lr1 ++ id :: lr2) ls) (Build_TrackerSys st' (lr1 ++ lr2) ls)
| ts_response plane_id packet st st' woken lr ls :
    handle_response (T := Resp) plane_id local_addr local_worker packet st = Ok (st', woken) ->
    tracker_step (Build_TrackerSys st lr ls) (Build_TrackerSys st' lr ls)
| ts_subscribe plane_id topic cb st lr ls :
    tracker_step (Build_TrackerSys st lr ls) (Build_TrackerSys (subscribe plane_id topic cb st) lr ls)
| ts_request plane_id topic source packet st st' invs lr ls :
    handle_request (T := Req) plane_id topic source packet st = Ok (st', invs) ->
    tracker_step (Build_TrackerSys st lr ls) (Build_TrackerSys st' lr (ls ++ map inv_pending invs))
| ts_sub_poll key task st st' p lr ls :
    key ∈ ls -> subscription_wait_poll key task st = Ok (st', p) ->
    tracker_step (Build_TrackerSys st lr ls) (Build_TrackerSys st' lr ls)
| ts_sub_drop key st st' lr ls1 ls2 :
    subscription_drop key st = Ok st' ->
    tracker_step (Build_TrackerSys st lr (ls1 ++ key :: ls2)) (Build_TrackerSys st' lr (ls1 ++ ls2)).

Definition reachable (S : TrackerSys) : Prop := rtc tracker_step sys_init S.
End Steps.

(** The number of live handles on a subscription key. *)
Definition handle_count (key : SubKey) (ls : list SubKey) : nat :=
  length (filter (fun k => k = key) ls).

(** The invariant of a worker's tracker: the slab is well formed, the
    live request ids are distinct and are exactly its occupied keys, and
    every subscription entry counts the live handles on its key and
    exists exactly while one is alive. *)
Record tracker_inv (S : TrackerSys) : Prop := {
  inv_slab : slab_wf (pending_requests (tracker S));
  inv_nodup : NoDup (live_requests S);
  inv_live k : is_Some (slab_get (pending_requests (tracker S)) k) <-> Z.of_nat k ∈ live_requests S;
  inv_nonneg id : id ∈ live_requests S -> 0 <= id;
  inv_subs key :
    match subscription_pending_requests (tracker S) !! key with
    | Some s => pending_count s = Z.of_nat (handle_count key (live_subscriptions S))
                /\ key ∈ live_subscriptions S
    | None => key ∉ live_subscriptions S
    end;
}.

(** [st'] has the occupied keys and the subscription counts of [st]:
    what the operations that only fill or take responses and wakers keep. *)
Definition same_shape (st st' : RequestTracker) : Prop :=
  (forall k, is_Some (slab_get (pending_requests st') k) <-> is_Some (slab_get (pending_requests st) k))
  /\ (slab_wf (pending_requests st) -> slab_wf (pending_requests st'))
  /\ (forall key, pending_count <$> subscription_pending_requests st' !! key
                  = pending_count <$> subscription_pending_requests st !! key).

(** ** Example states *)

(** A response or request packet of endpoint 7: plane 1, topic 2. *)
Definition ex_header : TransmitPacket :=
  {| payload_length := 14; infra_id := 0; plane_id := 1; topic := 2; source := {| endpoint := 7 |} |}.

Definition ex_response (requester requester_worker request_id : Z) : Response unit :=
  Build_Response request_id requester requester_worker tt.

Definition ex_request (worker request_id : Z) : Request unit := Build_Request request_id worker tt.

(** Worker 3 of endpoint 7 with one call in flight (id 0). *)
Definition rt_one_call : RequestTracker :=
  match client_start_request rt_new with Ok (st, _) => st | Panic _ => rt_new end.

(** The same worker after observer 9 subscribed to (plane 1, topic 2)
    and its own request 0 was seen on that topic. *)
Definition rt_observed : RequestTracker :=
  match handle_request (T := unit) 1 2 7 (encode ex_header ++ encode (ex_request 3 0) ++ [])
          (subscribe 1 2 9 rt_one_call) with
  | Ok (st, _) => st
  | Panic _ => rt_new
  end.

Definition ex_sys : TrackerSys :=
  {| tracker := rt_observed; live_requests := [0]; live_subscriptions := [(1, 7, 3, 0)] |}.

Arguments with_pending s st /.
Arguments with_subs m st /.
Arguments handle_count : simpl never.

(** ** Lemmas *)

Lemma same_shape_refl st : same_shape st st.
Proof. done. Qed.

Lemma same_shape_trans st1 st2 st3 : same_shape st1 st2 -> same_shape st2 st3 -> same_shape st1 st3.
Proof.
  intros (H1 & H2 & H3) (H1' & H2' & H3'). split_and!; [intros k; by rewrite H1', H1|tauto|].
  intros key. by rewrite H3', H3.
Qed.

Lemma same_shape_modify st k f : same_shape st (with_pending (slab_modify k f (pending_requests st)) st).
Proof.
  split_and!; cbn; [|apply slab_modify_wf|done].
  intros j. rewrite slab_modify_get. case_decide; subst; [|done].
  by destruct (slab_get _ k); simpl; split; intros; eauto.
Qed.

Lemma same_shape_subs st key s s' :
  subscription_pending_requests st !! key = Some s -> pending_count s' = pending_count s ->
  same_shape st (with_subs (<[key := s']> (subscription_pending_requests st)) st).
Proof.
  intros Hs Hc. split_and!; cbn; [done|done|]. intros key'.
  destruct (decide (key' = key)) as [->|]; [by rewrite lookup_insert_eq, Hs; simpl; rewrite Hc|].
  by rewrite lookup_insert_ne.
Qed.

#[local] Hint Resolve same_shape_refl same_shape_modify : core.

Lemma client_finish_shape id p st st' w : client_finish_request id p st = (st', w) -> same_shape st st'.
Proof. unfold client_finish_request. case_match; intros [= <- _]; [apply same_shape_modify|done]. Qed.

Lemma subscription_finish_shape pl r w id p st st' ws :
  subscription_finish_request pl r w id p st = (st', ws) -> same_shape st st'.
Proof.
  unfold subscription_finish_request. destruct (_ !! _) eqn:Hs; intros [= <- _]; [|done].
  by eapply same_shape_subs.
Qed.

Lemma handle_response_shape {T} `{Codec T} pl la lw packet st st' woken :
  handle_response (T := T) pl la lw packet st = Ok (st', woken) -> same_shape st st'.
Proof.
  unfold handle_response. intros Hr. destruct_ok Hr. injection Hr as Hr.
  repeat case_match; simplify_eq/=; try done;
    match goal with H : subscription_finish_request _ _ _ _ _ ?r = _ |- _ =>
      apply (same_shape_trans _ r); [|by eapply subscription_finish_shape] end;
    first [by eapply client_finish_shape|done].
Qed.

Lemma poll_shape id task st st' p : pending_request_poll id task st = Ok (st', p) -> same_shape st st'.
Proof. unfold pending_request_poll. repeat case_match; intros; simplify_eq; apply same_shape_modify. Qed.

Lemma subscription_wait_poll_shape key task st st' p :
  subscription_wait_poll key task st = Ok (st', p) -> same_shape st st'.
Proof.
  unfold subscription_wait_poll. intros Hr. destruct_ok Hr. apply expect_Ok in Ha.
  case_match; simplify_eq; [done|]. by eapply same_shape_subs.
Qed.

Lemma subscribe_shape pl t cb st : same_shape st (subscribe pl t cb st).
Proof. done. Qed.

Lemma handle_count_app key l1 l2 : handle_count key (l1 ++ l2) = (handle_count key l1 + handle_count key l2)%nat.
Proof. unfold handle_count. by rewrite filter_app, length_app. Qed.

Lemma handle_count_one key k : handle_count key [k] = if decide (k = key) then 1%nat else 0%nat.
Proof. unfold handle_count. case_decide; [rewrite filter_cons_True|rewrite filter_cons_False]; done. Qed.

Lemma handle_count_pos key l : key ∈ l <-> (0 < handle_count key l)%nat.
Proof.
  unfold handle_count. split.
  - intros Hin. assert (key ∈ filter (fun k => k = key) l) by (apply list_elem_of_filter; auto).
    destruct (filter _ l); [set_solver|simpl; lia].
  - intros Hl. destruct (filter (fun k => k = key) l) as [|k f] eqn:Hf; [simpl in Hl; lia|].
    assert (k ∈ filter (fun k => k = key) l) as [-> Hk]%list_elem_of_filter by (rewrite Hf; set_solver).
    done.
Qed.

Lemma handle_count_notin key l : key ∉ l <-> handle_count key l = 0%nat.
Proof. rewrite handle_count_pos. lia. Qed.

#[local] Hint Rewrite handle_count_app handle_count_one : modrpc_rw.

(** The invariant only depends on the shape of the tracker. *)
Lemma inv_same_shape st st' lr ls :
  tracker_inv (Build_TrackerSys st lr ls) -> same_shape st st' ->
  tracker_inv (Build_TrackerSys st' lr ls).
Proof.
  intros [Hwf Hnd Hlive Hnn Hsubs] (Hocc & Hwf' & Hcnt). split; simpl in *; auto.
  - intros k. rewrite Hocc. apply Hlive.
  - intros key. specialize (Hsubs key). specialize (Hcnt key).
    destruct (subscription_pending_requests st' !! key), (subscription_pending_requests st !! key);
      cbn [fmap option_fmap option_map] in Hcnt; try discriminate; [injection Hcnt as ->|]; done.
Qed.

Lemma subscription_start_request_inv st lr ls pl r w id st' key :
  tracker_inv (Build_TrackerSys st lr ls) ->
  subscription_start_request pl r w id st = (st', key) ->
  key = (pl, r, w, id) /\ tracker_inv (Build_TrackerSys st' lr (ls ++ [key])).
Proof.
  intros [Hwf Hnd Hlive Hnn Hsubs]. cbn [tracker live_requests live_subscriptions] in *.
  unfold subscription_start_request. intros [= <- <-].
  split; [done|]. split; simpl; auto.
  intros key. specialize (Hsubs key). autorewrite with modrpc_rw.
  destruct (decide (key = (pl, r, w, id))) as [->|Hne].
  - rewrite lookup_insert_eq, decide_True by done.
    revert Hsubs. destruct (subscription_pending_requests st !! (pl, r, w, id)) as [s|]; simpl; intros Hsubs.
    + destruct Hsubs as [-> _]. split; [lia|set_solver].
    + apply handle_count_notin in Hsubs as ->. split; [done|set_solver].
  - rewrite lookup_insert_ne by congruence. rewrite decide_False by congruence.
    revert Hsubs. destruct (subscription_pending_requests st !! key); intros Hsubs;
      [destruct Hsubs as [-> ?]; split; [lia|set_solver]|set_solver].
Qed.

Lemma start_subscriptions_inv cbs pl src w id packet st lr ls st' invs :
  tracker_inv (Build_TrackerSys st lr ls) ->
  start_subscriptions cbs pl src w id packet st = (st', invs) ->
  map inv_callback invs = cbs /\ Forall (fun i => inv_pending i = (pl, src, w, id) /\ inv_packet i = packet) invs
  /\ tracker_inv (Build_TrackerSys st' lr (ls ++ map inv_pending invs)).
Proof.
  revert st ls st' invs. induction cbs as [|cb cbs IH]; intros st ls st' invs Hinv;
    cbn [start_subscriptions].
  - intros [= <- <-]. by rewrite app_nil_r.
  - destruct (subscription_start_request pl src w id st) as [st1 k] eqn:E1.
    destruct (start_subscriptions cbs pl src w id packet st1) as [st2 invs2] eqn:E2.
    intros [= <- <-]. eapply subscription_start_request_inv in E1 as [-> Hinv1]; [|done].
    destruct (IH _ _ _ _ Hinv1 E2) as (Hcb & Hall & Hinv2).
    simpl. rewrite Hcb. split_and!; [done|by constructor|]. by rewrite <- app_assoc in Hinv2.
Qed.

Lemma handle_request_inv {T} `{Codec T} pl topic src packet st lr ls st' invs :
  tracker_inv (Build_TrackerSys st lr ls) ->
  handle_request (T := T) pl topic src packet st = Ok (st', invs) ->
  tracker_inv (Build_TrackerSys st' lr (ls ++ map inv_pending invs)).
Proof.
  intros Hinv Hr. unfold handle_request in Hr. destruct_ok Hr. injection Hr as Hr.
  repeat case_match; simplify_eq/=; try by rewrite app_nil_r.
  by eapply start_subscriptions_inv.
Qed.

Lemma client_start_request_inv st lr ls st' id :
  tracker_inv (Build_TrackerSys st lr ls) ->
  Z.of_nat (length (entries (pending_requests st))) < 2 ^ 32 ->
  client_start_request st = Ok (st', id) ->
  slab_get (pending_requests st) (Z.to_nat id) = None /\ 0 <= id < 2 ^ 32 /\
  slab_get (pending_requests st') (Z.to_nat id) = Some {| response := None; waker := None |} /\
  tracker_inv (Build_TrackerSys st' (lr ++ [id]) ls).
Proof.
  intros [Hwf Hnd Hlive Hnn Hsubs] Hlen Hr. cbn [tracker live_requests live_subscriptions] in *.
  unfold client_start_request in Hr. destruct_ok Hr. destruct a as [k s].
  destruct (slab_insert_spec (pending_requests st) {| response := None; waker := None |} Hwf)
    as (k' & s' & Hins & Hk & Hget & Hwf').
  rewrite Hins in Ha. injection Ha as <- <-. injection Hr as <- <-.
  pose proof (slab_insert_key_le _ _ _ _ Hins).
  rewrite wrap_small by (apply fits_iff; lia). rewrite Nat2Z.id.
  split_and!; [done|lia|lia|by rewrite Hget, decide_True|]. split; cbn; [done|..].
  - apply NoDup_app. split_and!; [done| |apply NoDup_singleton].
    intros x Hx ->%list_elem_of_singleton. apply Hlive in Hx. rewrite Hk in Hx. by destruct Hx.
  - intros j. rewrite Hget, elem_of_app, list_elem_of_singleton, <- Hlive. case_decide; subst.
    + split; [by right|by eauto].
    + split; [by left|]. intros [?|?%Nat2Z.inj]; done.
  - intros i. rewrite elem_of_app, list_elem_of_singleton. intros [? | ->]; [auto|lia].
  - apply Hsubs.
Qed.

Lemma pending_request_drop_inv st lr1 id lr2 ls st' :
  tracker_inv (Build_TrackerSys st (lr1 ++ id :: lr2) ls) ->
  pending_request_drop id st = Ok st' ->
  tracker_inv (Build_TrackerSys st' (lr1 ++ lr2) ls).
Proof.
  intros [Hwf Hnd Hlive Hnn Hsubs] Hr. cbn [tracker live_requests live_subscriptions] in *.
  assert (0 <= id) as Hid by (apply Hnn; set_solver).
  assert (is_Some (slab_get (pending_requests st) (Z.to_nat id))) as [v Hv]
    by (apply Hlive; rewrite Z2Nat.id by done; set_solver).
  pose proof (slab_remove_spec _ (Z.to_nat id) Hwf) as Hrem. rewrite Hv in Hrem.
  destruct Hrem as (s' & Hrem & _ & Hget & Hwf').
  unfold pending_request_drop in Hr. rewrite Hrem in Hr. injection Hr as <-.
  apply NoDup_app in Hnd as (Hnd1 & Hdisj & Hnd2). apply NoDup_cons in Hnd2 as [Hnin Hnd2].
  split; cbn; [done|..].
  - apply NoDup_app. split_and!; [done| |done]. intros x Hx1 Hx2. apply (Hdisj x Hx1). set_solver.
  - intros j. rewrite Hget. case_decide as Hj.
    + subst. rewrite Z2Nat.id by done. split; [by intros []|].
      intros [Hin|Hin]%elem_of_app; exfalso; [apply (Hdisj id Hin); left|done].
    + rewrite Hlive, !elem_of_app, elem_of_cons. split; [|tauto].
      intros [|[Heq|]]; [tauto| |tauto]. subst. by rewrite Nat2Z.id in Hj.
  - intros i Hi. apply Hnn. set_solver.
  - apply Hsubs.
Qed.

Lemma subscription_drop_inv st lr ls1 key ls2 st' :
  tracker_inv (Build_TrackerSys st lr (ls1 ++ key :: ls2)) ->
  subscription_drop key st = Ok st' ->
  tracker_inv (Build_TrackerSys st' lr (ls1 ++ ls2)).
Proof.
  intros [Hwf Hnd Hlive Hnn Hsubs] Hr. cbn [tracker live_requests live_subscriptions] in *.
  unfold subscription_drop in Hr. destruct_ok Hr. apply expect_Ok in Ha. injection Hr as <-.
  split; cbn; [done..|]. intros key'. pose proof (Hsubs key') as Hk'.
  assert (handle_count key (ls1 ++ key :: ls2) = S (handle_count key (ls1 ++ ls2))) as Hc.
  { rewrite <- (app_nil_l ls2) at 1. rewrite app_comm_cons, !handle_count_app, handle_count_one.
    rewrite decide_True by done. lia. }
  destruct (decide (key' = key)) as [->|Hne].
  - rewrite Ha in Hk'. destruct Hk' as [Hcnt _]. rewrite Hc in Hcnt.
    case_decide as H1.
    + rewrite lookup_delete_eq. apply handle_count_notin. lia.
    + rewrite lookup_insert_eq. cbn [pending_count]. split.
      * rewrite Hcnt, Nat2Z.inj_succ. lia.
      * apply handle_count_pos. lia.
  - assert (handle_count key' (ls1 ++ key :: ls2) = handle_count key' (ls1 ++ ls2)) as Hc'.
    { rewrite <- (app_nil_l ls2) at 1. rewrite app_comm_cons, !handle_count_app, handle_count_one.
      rewrite decide_False by congruence. lia. }
    case_decide; [rewrite lookup_delete_ne by congruence|rewrite lookup_insert_ne by congruence];
      destruct (subscription_pending_requests st !! key'); rewrite ?Hc' in Hk';
      [destruct Hk' as [? ?]; split; [done|set_solver]|set_solver|
       destruct Hk' as [? ?]; split; [done|set_solver]|set_solver].
Qed.

Section StepInv.
Context {Req Resp : Type} `{Codec Req} `{Codec Resp}.
Variables (local_addr local_worker : Z).

Lemma tracker_step_inv S S' :
  tracker_inv S -> tracker_step (Req := Req) (Resp := Resp) local_addr local_worker S S' ->
  tracker_inv S'.
Proof.
  intros Hinv Hstep. destruct Hstep as [? ? ? ? ? Hlen Hst|? ? ? ? ? ? ? ? Hp|? ? ? ? ? ? Hd|
    ? ? ? ? ? ? ? Hh| |? ? ? ? ? ? ? ? ? Hh|? ? ? ? ? ? ? ? Hp|? ? ? ? ? ? Hd].
  - by destruct (client_start_request_inv _ _ _ _ _ Hinv Hlen Hst) as (_ & _ & _ & ?).
  - eapply inv_same_shape; [done|]. by eapply poll_shape.
  - by eapply pending_request_drop_inv.
  - eapply inv_same_shape; [done|]. by eapply (handle_response_shape (T := Resp)).
  - eapply inv_same_shape; [done|]. apply subscribe_shape.
  - by eapply (handle_request_inv (T := Req)).
  - eapply inv_same_shape; [done|]. by eapply subscription_wait_poll_shape.
  - by eapply subscription_drop_inv.
Qed.

Lemma sys_init_inv : tracker_inv sys_init.
Proof.
  split; cbn; [apply slab_wf_new|apply NoDup_nil_2|..].
  - intros k. unfold slab_get. cbn. rewrite lookup_nil. split; [by intros []|set_solver].
  - set_solver.
  - intros key. rewrite lookup_empty. set_solver.
Qed.

Lemma reachable_inv S : reachable (Req := Req) (Resp := Resp) local_addr local_worker S -> tracker_inv S.
Proof.
  intros Hr. assert (tracker_inv sys_init) as Hinit by apply sys_init_inv. revert Hinit.
  induction Hr as [|S1 S2 S3 Hstep _ IH]; [done|]. eauto using tracker_step_inv.
Qed.
End StepInv.

Lemma client_finish_slab rid p st j :
  slab_get (pending_requests (fst (client_finish_request rid p st))) j
  = if decide (j = Z.to_nat rid)
    then (fun _ => {| response := Some p; waker := None |}) <$> slab_get (pending_requests st) j
    else slab_get (pending_requests st) j.
Proof.
  unfold client_finish_request. destruct (slab_get _ (Z.to_nat rid)) eqn:E; simpl.
  - rewrite slab_modify_get. by case_decide; subst.
  - by case_decide; subst; rewrite ?E.
Qed.

Lemma subscription_finish_slab pl r w id p st :
  pending_requests (fst (subscription_finish_request pl r w id p st)) = pending_requests st.
Proof. unfold subscription_finish_request. by case_match. Qed.

Lemma pending_request_poll_spec i task st r w :
  slab_get (pending_requests st) (Z.to_nat i) = Some {| response := r; waker := w |} ->
  snd <$> pending_request_poll i task st = Ok (match r with Some p => Ready p | None => Pending end).
Proof. intros Hs. unfold pending_request_poll. rewrite Hs. by destruct r. Qed.

Lemma slice_header (hdr : TransmitPacket) rest : slice_from (encode hdr ++ rest) PACKET_HEADER_LEN = Ok rest.
Proof.
  unfold slice_from. rewrite decide_True by (rewrite length_app, length_encode; unfold PACKET_HEADER_LEN; lia).
  f_equal.
Qed.

Section Encoded.
Context {T : Type} `{CodecLaws T}.

Lemma decode_response_lazy_encoded (resp : Response T) rest :
  decode_response_lazy (encode resp ++ rest) = Some (encode resp ++ rest).
Proof.
  unfold decode_response_lazy. rewrite decide_True; [done|].
  rewrite length_app, length_encode. lia.
Qed.

Lemma decode_request_lazy_encoded (req : Request T) rest :
  decode_request_lazy (encode req ++ rest) = Some (encode req ++ rest).
Proof.
  unfold decode_request_lazy. rewrite decide_True; [done|].
  rewrite length_app, length_encode. lia.
Qed.

(** [handle_response] on a packet carrying an encoded [Response]. *)
Lemma handle_response_encoded pl la lw (hdr : TransmitPacket) (resp : Response T) rest st :
  admissible resp = true ->
  handle_response (T := T) pl la lw (encode hdr ++ encode resp ++ rest) st
  = Ok (let packet := encode hdr ++ encode resp ++ rest in
        let '(st, woken1) :=
          if bool_decide (resp_requester resp = la /\ resp_requester_worker resp = lw)
          then client_finish_request (resp_request_id resp) packet st else (st, []) in
        let '(st, woken2) :=
          subscription_finish_request pl (resp_requester resp) (resp_requester_worker resp)
            (resp_request_id resp) packet st in
        (st, woken1 ++ woken2)).
Proof.
  intros Ha. unfold handle_response. rewrite slice_header. cbn [mbind result_bind].
  rewrite decode_response_lazy_encoded.
  destruct (response_lazy_fields resp rest Ha) as (-> & -> & ->). done.
Qed.

Lemma route_response_encoded la lw (hdr : TransmitPacket) (resp : Response T) rest :
  admissible resp = true ->
  route_response (T := T) la lw (encode hdr ++ encode resp ++ rest)
  = Ok (if bool_decide (resp_requester resp = la /\ resp_requester_worker resp <> lw)
        then Some (resp_requester_worker resp) else None).
Proof.
  intros Ha. unfold route_response. rewrite slice_header. cbn [mbind result_bind].
  rewrite decode_response_lazy_encoded.
  by destruct (response_lazy_fields resp rest Ha) as (_ & -> & ->).
Qed.
End Encoded.

Lemma response_admissible_fields {T} `{Codec T} (resp : Response T) :
  admissible resp = true ->
  0 <= resp_request_id resp < 2 ^ 32 /\ 0 <= resp_requester_worker resp < 2 ^ 16.
Proof.
  destruct resp as [i r w p]. cbn [admissible Response_codec resp_request_id resp_requester_worker].
  intros Ha. split_admissible. by rewrite <- !fits_iff.
Qed.

(** The caller's slot [i] after a response for [(rq, rw, rid)] reached
    the worker [(la, lw)]. *)
Lemma handle_response_slot {T} `{CodecLaws T} pl la lw i (hdr : TransmitPacket) (resp : Response T)
    rest st s :
  admissible resp = true -> 0 <= i ->
  slab_get (pending_requests st) (Z.to_nat i) = Some s ->
  let packet := encode hdr ++ encode resp ++ rest in
  let hit := bool_decide (resp_requester resp = la /\ resp_requester_worker resp = lw
                          /\ resp_request_id resp = i) in
  exists st' woken,
    handle_response (T := T) pl la lw packet st = Ok (st', woken) /\
    slab_get (pending_requests st') (Z.to_nat i)
      = Some (if hit then {| response := Some packet; waker := None |} else s) /\
    (hit = true -> option_list (waker s) ⊆ woken).
Proof.
  intros Ha Hi Hs packet hit. subst packet. rewrite handle_response_encoded by done. cbv zeta.
  destruct (response_admissible_fields resp Ha) as [Hrid _].
  assert (Z.to_nat i = Z.to_nat (resp_request_id resp) <-> resp_request_id resp = i) as Hinj
    by (split; [intros ?%Z2Nat.inj; lia|by intros ->]).
  subst hit. case_bool_decide as Hlocal.
  - destruct (client_finish_request _ _ st) as [st1 w1] eqn:E1.
    destruct (subscription_finish_request _ _ _ _ _ st1) as [st2 w2] eqn:E2.
    exists st2, (w1 ++ w2). split; [done|].
    pose proof (subscription_finish_slab pl (resp_requester resp) (resp_requester_worker resp)
                  (resp_request_id resp) (encode hdr ++ encode resp ++ rest) st1) as Hs2.
    pose proof (client_finish_slab (resp_request_id resp) (encode hdr ++ encode resp ++ rest) st
                  (Z.to_nat i)) as Hs1.
    rewrite E2 in Hs2. rewrite E1 in Hs1. cbn [fst] in Hs1, Hs2. rewrite Hs2, Hs1, Hs.
    destruct (decide (Z.to_nat i = Z.to_nat (resp_request_id resp))) as [Hj|Hj];
      case_bool_decide as Hhit; [|tauto|tauto|split; [done|intros [=]]].
    split; [done|]. intros _. unfold client_finish_request in E1. rewrite <- Hj, Hs in E1.
    injection E1 as _ <-. set_solver.
  - exists (fst (subscription_finish_request pl (resp_requester resp) (resp_requester_worker resp)
                (resp_request_id resp) (encode hdr ++ encode resp ++ rest) st)).
    destruct (subscription_finish_request _ _ _ _ _ st) as [st2 w2] eqn:E2.
    eexists. split; [done|]. rewrite bool_decide_false by tauto.
    pose proof (subscription_finish_slab pl (resp_requester resp) (resp_requester_worker resp)
                  (resp_request_id resp) (encode hdr ++ encode resp ++ rest) st) as Hs2.
    rewrite E2 in Hs2. cbn [fst] in Hs2 |- *. rewrite Hs2. split; [done|intros [=]].
Qed.

(** The callbacks of [handle_request]: each subscribed callback once, in
    subscription order, with the packet and a handle on the request's
    key, whose count goes up by one per callback. *)
Lemma start_subscriptions_calls cbs pl src w id packet st st' invs :
  start_subscriptions cbs pl src w id packet st = (st', invs) ->
  map inv_callback invs = cbs /\
  Forall (fun inv => inv_pending inv = (pl, src, w, id) /\ inv_packet inv = packet) invs /\
  pending_requests st' = pending_requests st /\
  pending_count <$> subscription_pending_requests st' !! (pl, src, w, id)
  = match cbs with
    | [] => pending_count <$> subscription_pending_requests st !! (pl, src, w, id)
    | _ => Some (default 0 (pending_count <$> subscription_pending_requests st !! (pl, src, w, id))
                 + Z.of_nat (length cbs))
    end.
Proof.
  revert st st' invs. induction cbs as [|cb cbs IH]; intros st st' invs; cbn [start_subscriptions].
  - by intros [= <- <-].
  - destruct (subscription_start_request pl src w id st) as [st1 k] eqn:E1.
    destruct (start_subscriptions cbs pl src w id packet st1) as [st2 invs2] eqn:E2.
    intros [= <- <-]. unfold subscription_start_request in E1. injection E1 as <- <-.
    destruct (IH _ _ _ E2) as (Hcb & Hall & Hpend & Hcnt). cbn [map]. rewrite Hcb.
    split_and!; [done|by constructor|done|]. rewrite Hcnt.
    cbn [with_subs subscription_pending_requests]. rewrite lookup_insert_eq.
    destruct (subscription_pending_requests st !! _); destruct cbs; cbn; f_equal; lia.
Qed.

Lemma handle_request_encoded {T} `{CodecLaws T} pl topic src (hdr : TransmitPacket) (req : Request T)
    rest st :
  admissible req = true ->
  handle_request (T := T) pl topic src (encode hdr ++ encode req ++ rest) st
  = Ok (match request_subscriptions st !! (pl, topic) with
        | Some cbs => start_subscriptions cbs pl src (req_worker req) (req_request_id req)
                        (encode hdr ++ encode req ++ rest) st
        | None => (st, [])
        end).
Proof.
  intros Ha. unfold handle_request. rewrite slice_header. cbn [mbind result_bind].
  rewrite decode_request_lazy_encoded.
  by destruct (request_lazy_fields req rest Ha) as (-> & ->).
Qed.

(** ** Properties *)

(** C11: Correlation of a response with the caller (spec, section 8): a
    response that reaches a worker's inline response handler completes
    the call in flight with id [i] on that worker exactly when the
    response's requester is this endpoint, its requester worker is this
    worker and its request id is [i].  The call's next poll then returns
    the response packet and its parked task is woken; otherwise the call
    stays pending. *)
Theorem response_delivered_iff {T} `{CodecLaws T} pl la lw i (hdr : TransmitPacket)
    (resp : Response T) rest st wk task :
  admissible resp = true -> 0 <= i ->
  slab_get (pending_requests st) (Z.to_nat i) = Some {| response := None; waker := wk |} ->
  let packet := encode hdr ++ encode resp ++ rest in
  exists st' woken,
    handle_response (T := T) pl la lw packet st = Ok (st', woken) /\
    snd <$> pending_request_poll i task st'
      = Ok (if bool_decide (resp_requester resp = la /\ resp_requester_worker resp = lw
                            /\ resp_request_id resp = i)
            then Ready packet else Pending) /\
    (resp_requester resp = la -> resp_requester_worker resp = lw -> resp_request_id resp = i ->
     option_list wk ⊆ woken).
Proof.
  intros Ha Hi Hs packet.
  destruct (handle_response_slot pl la lw i hdr resp rest st _ Ha Hi Hs) as (st' & woken & Hr & Hslot & Hwk).
  exists st', woken. split_and!; [done| |].
  - subst packet. revert Hslot. case_bool_decide; intros Hslot; by rewrite (pending_request_poll_spec _ _ _ _ _ Hslot).
  - intros ? ? ?. apply Hwk. by apply bool_decide_eq_true.
Qed.

(** Request ids are reused last-in first-out.  When a call in flight
    with id [i] is dropped before its response arrives (its future is
    cancelled) and the worker then starts another call, the new call gets
    the same id [i], and the late response to the first call completes
    the new call with that response. *)
Theorem stale_response_misdelivered {Req T} `{Codec Req} `{CodecLaws T} pl la lw S i
    (hdr : TransmitPacket) (resp : Response T) rest task :
  reachable (Req := Req) (Resp := T) la lw S -> i ∈ live_requests S ->
  Z.of_nat (length (entries (pending_requests (tracker S)))) < 2 ^ 32 ->
  admissible resp = true -> resp_requester resp = la -> resp_requester_worker resp = lw ->
  resp_request_id resp = i ->
  exists st1 st2 st3 woken,
    pending_request_drop i (tracker S) = Ok st1 /\
    client_start_request st1 = Ok (st2, i) /\
    handle_response (T := T) pl la lw (encode hdr ++ encode resp ++ rest) st2 = Ok (st3, woken) /\
    snd <$> pending_request_poll i task st3 = Ok (Ready (encode hdr ++ encode resp ++ rest)).
Proof.
  intros [Hwf _ Hlive Hnn _]%reachable_inv Hi Hlen Ha Hrq Hrw Hrid.
  destruct S as [st lr ls]. cbn [tracker live_requests] in *.
  assert (0 <= i) as Hi0 by auto.
  destruct (proj2 (Hlive (Z.to_nat i))) as [v Hv]; [by rewrite Z2Nat.id|].
  pose proof (slab_remove_spec _ (Z.to_nat i) Hwf) as Hrem. rewrite Hv in Hrem.
  destruct Hrem as (s1 & Hrem & _ & _ & Hwf1).
  destruct (slab_remove_insert _ _ _ _ {| response := None; waker := None |} Hwf Hrem) as [s2 Hins].
  destruct (slab_insert_spec s1 {| response := None; waker := None |} Hwf1)
    as (k & s2' & Hins' & _ & Hget & _).
  rewrite Hins in Hins'. injection Hins' as <- <-.
  assert (Z.to_nat i < length (entries st.(pending_requests)))%nat
    by (unfold slab_get in Hv; destruct (entries _ !! _) eqn:E; [by eapply lookup_lt_Some|done]).
  set (st2 := with_pending s2 (with_pending s1 st)).
  assert (slab_get (pending_requests st2) (Z.to_nat i) = Some {| response := None; waker := None |})
    as Hslot by (cbn; by rewrite Hget, decide_True).
  destruct (handle_response_slot pl la lw i hdr resp rest st2 _ Ha Hi0 Hslot)
    as (st3 & woken & Hr & Hslot3 & _).
  exists (with_pending s1 st), st2, st3, woken. split_and!.
  - unfold pending_request_drop. by rewrite Hrem.
  - unfold client_start_request. cbn [pending_requests with_pending]. rewrite Hins. cbn.
    rewrite Z2Nat.id, wrap_small by (try apply fits_iff; lia). done.
  - done.
  - rewrite bool_decide_true in Hslot3 by done. by rewrite (pending_request_poll_spec _ _ _ _ _ Hslot3).
Qed.

(** C12: No operation on a live handle panics: in every state a worker's
    tracker reaches, starting a call succeeds, and polling or dropping
    the future of any call in flight, or waiting on or dropping any live
    subscription handle, returns without the "invalid key", "no entry
    found for key" or "missing pending subscription state" panics. *)
Theorem tracker_never_panics {Req Resp} `{Codec Req} `{Codec Resp} la lw S :
  reachable (Req := Req) (Resp := Resp) la lw S ->
  (exists st' id, client_start_request (tracker S) = Ok (st', id)) /\
  (forall id, id ∈ live_requests S ->
     (forall task, exists st' p, pending_request_poll id task (tracker S) = Ok (st', p)) /\
     exists st', pending_request_drop id (tracker S) = Ok st') /\
  (forall key, key ∈ live_subscriptions S ->
     (forall task, exists st' p, subscription_wait_poll key task (tracker S) = Ok (st', p)) /\
     exists st', subscription_drop key (tracker S) = Ok st').
Proof.
  intros [Hwf _ Hlive Hnn Hsubs]%reachable_inv. split_and!.
  - destruct (slab_insert_spec _ {| response := None; waker := None |} Hwf) as (k & s' & Hins & _).
    unfold client_start_request. rewrite Hins. by eexists _, _.
  - intros id Hid. destruct (proj2 (Hlive (Z.to_nat id))) as [v Hv]; [by rewrite Z2Nat.id by auto|].
    split.
    + intros task. unfold pending_request_poll. rewrite Hv. destruct (response v); by eexists _, _.
    + pose proof (slab_remove_spec _ (Z.to_nat id) Hwf) as Hrem. rewrite Hv in Hrem.
      destruct Hrem as (s' & Hrem & _). unfold pending_request_drop. rewrite Hrem. by eexists.
  - intros key Hkey. specialize (Hsubs key).
    destruct (subscription_pending_requests (tracker S) !! key) as [s|] eqn:Hs; [|done].
    split.
    + intros task. unfold subscription_wait_poll. rewrite Hs. cbn [expect mbind result_bind].
      destruct (sub_response s); by eexists _, _.
    + unfold subscription_drop. rewrite Hs. by eexists.
Qed.

(** C13: Request ids of the calls in flight on a worker are distinct, and
    the occupied slots of the caller-await table are exactly those ids:
    two calls in flight never share a request id, and no slot outlives
    its call (a dropped call frees its slot). *)
Theorem request_ids_unique {Req Resp} `{Codec Req} `{Codec Resp} la lw S :
  reachable (Req := Req) (Resp := Resp) la lw S ->
  NoDup (live_requests S) /\
  forall k, is_Some (slab_get (pending_requests (tracker S)) k) <-> Z.of_nat k ∈ live_requests S.
Proof. intros [_ Hnd Hlive _ _]%reachable_inv. done. Qed.

(** Subscription entries are reference counted (spec, section 4.8):
    in every reachable state the entry of a key counts the live
    [PendingRequestSubscription] handles on it, and the entry exists
    exactly while one of them is alive, so it is freed when the last
    observer drops its handle. *)
Theorem subscription_refcount {Req Resp} `{Codec Req} `{Codec Resp} la lw S key :
  reachable (Req := Req) (Resp := Resp) la lw S ->
  match subscription_pending_requests (tracker S) !! key with
  | Some s => pending_count s = Z.of_nat (handle_count key (live_subscriptions S)) /\ 0 < pending_count s
  | None => handle_count key (live_subscriptions S) = 0%nat
  end.
Proof.
  intros [_ _ _ _ Hsubs]%reachable_inv. specialize (Hsubs key).
  destruct (_ !! key); [|by apply handle_count_notin].
  destruct Hsubs as [-> ?%handle_count_pos]. lia.
Qed.

(** An observer waiting for the response of a request it saw is
    woken by it: when a task polls [wait()] on a handle whose entry has
    no response yet, it is parked; the response to that request (same
    plane, requester, requester worker and request id) wakes it, and its
    next poll returns the response packet. *)
Theorem subscription_waiter_woken {T} `{CodecLaws T} pl la lw (hdr : TransmitPacket)
    (resp : Response T) rest st s task :
  admissible resp = true ->
  let key := (pl, resp_requester resp, resp_requester_worker resp, resp_request_id resp) in
  subscription_pending_requests st !! key = Some s -> sub_response s = None ->
  let packet := encode hdr ++ encode resp ++ rest in
  exists st1 st2 woken,
    subscription_wait_poll key task st = Ok (st1, Pending) /\
    handle_response (T := T) pl la lw packet st1 = Ok (st2, woken) /\ task ∈ woken /\
    subscription_wait_poll key task st2 = Ok (st2, Ready packet).
Proof.
  intros Ha key Hs Hnone packet. subst packet.
  unfold subscription_wait_poll at 1. rewrite Hs. cbn [expect mbind result_bind]. rewrite Hnone.
  set (s1 := {| sub_response := None; pending_count := pending_count s; waiters := waiters s ++ [task] |}).
  set (st1 := with_subs (<[key := s1]> (subscription_pending_requests st)) st).
  exists st1. rewrite handle_response_encoded by done. cbv zeta.
  destruct (if bool_decide _ then client_finish_request _ _ st1 else (st1, [])) as [st1' w1] eqn:E1.
  assert (subscription_pending_requests st1' = subscription_pending_requests st1) as Hsubs1.
  { case_bool_decide; [|by injection E1 as <-]. unfold client_finish_request in E1.
    case_match; by injection E1 as <-. }
  unfold subscription_finish_request. fold key. rewrite Hsubs1. unfold st1.
  cbn [with_subs subscription_pending_requests]. rewrite lookup_insert_eq. eexists _, _. split_and!; [done|done|set_solver|].
  unfold subscription_wait_poll. cbn [with_subs subscription_pending_requests].
  by rewrite lookup_insert_eq.
Qed.

(** A response for a call of this endpoint reaches the worker that
    made the call (spec, section 4.8): on every worker [v] of the
    endpoint, the [route_to_worker] handler forwards it to its requester
    worker when [v] is another worker, and on the requester worker it is
    not forwarded and completes the call it answers. *)
Theorem response_routed_to_requester {T} `{CodecLaws T} pl la v (hdr : TransmitPacket)
    (resp : Response T) rest st wk task :
  admissible resp = true -> resp_requester resp = la ->
  let packet := encode hdr ++ encode resp ++ rest in
  let i := resp_request_id resp in
  (v <> resp_requester_worker resp ->
     route_response (T := T) la v packet = Ok (Some (resp_requester_worker resp))) /\
  (v = resp_requester_worker resp ->
     route_response (T := T) la v packet = Ok None /\
     (slab_get (pending_requests st) (Z.to_nat i) = Some {| response := None; waker := wk |} ->
      exists st' woken, handle_response (T := T) pl la v packet st = Ok (st', woken) /\
        snd <$> pending_request_poll i task st' = Ok (Ready packet))).
Proof.
  intros Ha Hrq packet i. subst packet i. rewrite route_response_encoded by done.
  destruct (response_admissible_fields resp Ha) as [Hrid _]. split.
  - intros Hv. by rewrite bool_decide_true.
  - intros Hv. rewrite bool_decide_false by (intros [_ Hne]; congruence). split; [done|]. intros Hs.
    destruct (handle_response_slot pl la v _ hdr resp rest st _ Ha (proj1 Hrid) Hs)
      as (st' & woken & Hr & Hslot & _).
    rewrite bool_decide_true in Hslot by done. exists st', woken. split; [done|].
    by rewrite (pending_request_poll_spec _ _ _ _ _ Hslot).
Qed.

(** An incoming request is shown to every observer subscribed to its
    (plane, topic), once each and in subscription order: each callback
    gets the packet and a handle on (plane, source endpoint, requester
    worker, request id), and the entry of that key counts one more handle
    per callback. *)
Theorem handle_request_invokes_callbacks {T} `{CodecLaws T} pl topic src (hdr : TransmitPacket)
    (req : Request T) rest st cbs :
  admissible req = true -> request_subscriptions st !! (pl, topic) = Some cbs -> cbs <> [] ->
  let packet := encode hdr ++ encode req ++ rest in
  let key := (pl, src, req_worker req, req_request_id req) in
  exists st' invs,
    handle_request (T := T) pl topic src packet st = Ok (st', invs) /\
    map inv_callback invs = cbs /\
    Forall (fun inv => inv_pending inv = key /\ inv_packet inv = packet) invs /\
    pending_count <$> subscription_pending_requests st' !! key
      = Some (default 0 (pending_count <$> subscription_pending_requests st !! key)
              + Z.of_nat (length cbs)).
Proof.
  intros Ha Hcbs Hne packet key. subst packet key. rewrite handle_request_encoded, Hcbs by done.
  destruct (start_subscriptions _ _ _ _ _ _ st) as [st' invs] eqn:E.
  destruct (start_subscriptions_calls _ _ _ _ _ _ _ _ _ E) as (? & ? & _ & Hcnt).
  exists st', invs. split_and!; [done..|]. rewrite Hcnt. by destruct cbs.
Qed.


(** Starting a call refines an insert into the finite map of calls
    in flight: on a well-formed slab with fewer than 2^32 entries,
    [client_start_request] never panics, returns an id that is no call's
    id and fits a u32, and the map of calls gains exactly that id, with
    no response and no waker. *)
Theorem client_start_request_refines st :
  slab_wf (pending_requests st) -> Z.of_nat (length (entries (pending_requests st))) < 2 ^ 32 ->
  exists st' id, client_start_request st = Ok (st', id) /\ 0 <= id < 2 ^ 32 /\
    slab_view (pending_requests st) !! Z.to_nat id = None /\
    slab_view (pending_requests st')
      = <[Z.to_nat id := {| response := None; waker := None |}]> (slab_view (pending_requests st)) /\
    slab_wf (pending_requests st').
Proof.
  intros Hwf Hlen.
  destruct (slab_insert_refines _ {| response := None; waker := None |} Hwf) as (k & s' & Hins & Hk & Hv & Hwf').
  pose proof (slab_insert_key_le _ _ _ _ Hins).
  exists (with_pending s' st), (Z.of_nat k). unfold client_start_request. rewrite Hins. cbn.
  rewrite wrap_small by (apply fits_iff; lia). rewrite Nat2Z.id. split_and!; done || lia.
Qed.

(** Dropping a call's future refines a delete from the finite map of
    calls in flight: on a well-formed slab, dropping an id of the map
    removes exactly that id and keeps the slab well formed, and dropping
    any other id panics with "invalid key". *)
Theorem pending_request_drop_refines st id :
  slab_wf (pending_requests st) ->
  match slab_view (pending_requests st) !! Z.to_nat id with
  | Some _ => exists st', pending_request_drop id st = Ok st' /\
      slab_view (pending_requests st') = delete (Z.to_nat id) (slab_view (pending_requests st)) /\
      slab_wf (pending_requests st')
  | None => pending_request_drop id st = Panic "invalid key"
  end.
Proof.
  intros Hwf. pose proof (slab_remove_refines _ (Z.to_nat id) Hwf) as Hr.
  unfold pending_request_drop. destruct (slab_view _ !! _).
  - destruct Hr as (s' & -> & _ & Hv & Hwf'). by eexists.
  - by rewrite Hr.
Qed.

(** ** Witnesses *)

Lemma ex_sys_reachable : reachable (Req := unit) (Resp := unit) 7 3 ex_sys.
Proof.
  eapply rtc_l. { apply (ts_start _ _ rt_new rt_one_call 0 [] []); reflexivity. }
  eapply rtc_l. { apply (ts_subscribe _ _ 1 2 9 rt_one_call [0] []). }
  eapply rtc_l.
  { eapply (ts_request (Req := unit) _ _ 1 2 7 (encode ex_header ++ encode (ex_request 3 0) ++ []));
      reflexivity. }
  apply rtc_refl.
Qed.

Lemma response_delivered_iff_witness :
  exists st' woken,
    handle_response (T := unit) 1 7 3 (encode ex_header ++ encode (ex_response 7 3 0) ++ []) rt_one_call
      = Ok (st', woken) /\
    snd <$> pending_request_poll 0 5 st'
      = Ok (if bool_decide (resp_requester (ex_response 7 3 0) = 7 /\
                            resp_requester_worker (ex_response 7 3 0) = 3 /\
                            resp_request_id (ex_response 7 3 0) = 0)
            then Ready (encode ex_header ++ encode (ex_response 7 3 0) ++ []) else Pending) /\
    (resp_requester (ex_response 7 3 0) = 7 -> resp_requester_worker (ex_response 7 3 0) = 3 ->
     resp_request_id (ex_response 7 3 0) = 0 -> option_list None ⊆ woken).
Proof.
  apply (response_delivered_iff 1 7 3 0 ex_header (ex_response 7 3 0) [] rt_one_call None 5);
    [reflexivity | lia | reflexivity].
Defined.

Lemma stale_response_misdelivered_witness :
  exists st1 st2 st3 woken,
    pending_request_drop 0 (tracker ex_sys) = Ok st1 /\
    client_start_request st1 = Ok (st2, 0) /\
    handle_response (T := unit) 1 7 3 (encode ex_header ++ encode (ex_response 7 3 0) ++ []) st2
      = Ok (st3, woken) /\
    snd <$> pending_request_poll 0 5 st3 = Ok (Ready (encode ex_header ++ encode (ex_response 7 3 0) ++ [])).
Proof.
  apply (stale_response_misdelivered (Req := unit) 1 7 3 ex_sys 0 ex_header (ex_response 7 3 0) [] 5);
    [exact ex_sys_reachable | vm_compute; left | vm_compute; reflexivity | reflexivity..].
Defined.

Lemma tracker_never_panics_witness :
  (exists st' id, client_start_request (tracker ex_sys) = Ok (st', id)) /\
  (forall id, id ∈ live_requests ex_sys ->
     (forall task, exists st' p, pending_request_poll id task (tracker ex_sys) = Ok (st', p)) /\
     exists st', pending_request_drop id (tracker ex_sys) = Ok st') /\
  (forall key, key ∈ live_subscriptions ex_sys ->
     (forall task, exists st' p, subscription_wait_poll key task (tracker ex_sys) = Ok (st', p)) /\
     exists st', subscription_drop key (tracker ex_sys) = Ok st').
Proof. apply (tracker_never_panics (Req := unit) (Resp := unit) 7 3 ex_sys ex_sys_reachable). Defined.

Lemma request_ids_unique_witness :
  NoDup (live_requests ex_sys) /\
  forall k, is_Some (slab_get (pending_requests (tracker ex_sys)) k) <-> Z.of_nat k ∈ live_requests ex_sys.
Proof. apply (request_ids_unique (Req := unit) (Resp := unit) 7 3 ex_sys ex_sys_reachable). Defined.

Lemma subscription_refcount_witness :
  match subscription_pending_requests (tracker ex_sys) !! (1, 7, 3, 0) with
  | Some s => pending_count s = Z.of_nat (handle_count (1, 7, 3, 0) (live_subscriptions ex_sys))
              /\ 0 < pending_count s
  | None => handle_count (1, 7, 3, 0) (live_subscriptions ex_sys) = 0%nat
  end.
Proof. apply (subscription_refcount (Req := unit) (Resp := unit) 7 3 ex_sys (1, 7, 3, 0) ex_sys_reachable). Defined.

Lemma subscription_waiter_woken_witness :
  exists st1 st2 woken,
    subscription_wait_poll (1, 7, 3, 0) 4 rt_observed = Ok (st1, Pending) /\
    handle_response (T := unit) 1 7 5 (encode ex_header ++ encode (ex_response 7 3 0) ++ []) st1
      = Ok (st2, woken) /\ 4%nat ∈ woken /\
    subscription_wait_poll (1, 7, 3, 0) 4 st2
      = Ok (st2, Ready (encode ex_header ++ encode (ex_response 7 3 0) ++ [])).
Proof.
  eapply (subscription_waiter_woken 1 7 5 ex_header (ex_response 7 3 0) [] rt_observed);
    [reflexivity | vm_compute; reflexivity | reflexivity].
Defined.

Lemma response_routed_to_requester_witness :
  (4 <> 3 -> route_response (T := unit) 7 4 (encode ex_header ++ encode (ex_response 7 3 0) ++ [])
               = Ok (Some 3)) /\
  (3 = 3 -> route_response (T := unit) 7 3 (encode ex_header ++ encode (ex_response 7 3 0) ++ [])
              = Ok None /\
     (slab_get (pending_requests rt_one_call) (Z.to_nat 0) = Some {| response := None; waker := None |} ->
      exists st' woken,
        handle_response (T := unit) 1 7 3 (encode ex_header ++ encode (ex_response 7 3 0) ++ []) rt_one_call
          = Ok (st', woken) /\
        snd <$> pending_request_poll 0 5 st' = Ok (Ready (encode ex_header ++ encode (ex_response 7 3 0) ++ [])))).
Proof.
  split.
  - apply (response_routed_to_requester 1 7 4 ex_header (ex_response 7 3 0) [] rt_one_call None 5);
      reflexivity.
  - apply (response_routed_to_requester 1 7 3 ex_header (ex_response 7 3 0) [] rt_one_call None 5);
      reflexivity.
Defined.

Lemma handle_request_invokes_callbacks_witness :
  exists st' invs,
    handle_request (T := unit) 1 2 7 (encode ex_header ++ encode (ex_request 3 0) ++ [])
      (subscribe 1 2 9 rt_one_call) = Ok (st', invs) /\
    map inv_callback invs = [9%nat] /\
    Forall (fun inv => inv_pending inv = (1, 7, 3, 0) /\
                       inv_packet inv = encode ex_header ++ encode (ex_request 3 0) ++ []) invs /\
    pending_count <$> subscription_pending_requests st' !! (1, 7, 3, 0)
      = Some (default 0 (pending_count <$> subscription_pending_requests (subscribe 1 2 9 rt_one_call)
                                             !! (1, 7, 3, 0)) + Z.of_nat (length [9%nat])).
Proof.
  apply (handle_request_invokes_callbacks 1 2 7 ex_header (ex_request 3 0) [] (subscribe 1 2 9 rt_one_call));
    [reflexivity | reflexivity | discriminate].
Defined.

Lemma client_start_request_refines_witness :
  exists st' id, client_start_request rt_one_call = Ok (st', id) /\ 0 <= id < 2 ^ 32 /\
    slab_view (pending_requests rt_one_call) !! Z.to_nat id = None /\
    slab_view (pending_requests st')
      = <[Z.to_nat id := {| response := None; waker := None |}]> (slab_view (pending_requests rt_one_call)) /\
    slab_wf (pending_requests st').
Proof.
  apply client_start_request_refines; [|vm_compute; reflexivity].
  exact (inv_slab _ (reachable_inv (Req := unit) (Resp := unit) 7 3 _
           (rtc_l _ _ _ _ (ts_start 7 3 rt_new rt_one_call 0 [] [] eq_refl eq_refl) (rtc_refl _ _)))).
Defined.

Lemma pending_request_drop_refines_witness :
  match slab_view (pending_requests rt_one_call) !! Z.to_nat 0 with
  | Some _ => exists st', pending_request_drop 0 rt_one_call = Ok st' /\
      slab_view (pending_requests st') = delete (Z.to_nat 0) (slab_view (pending_requests rt_one_call)) /\
      slab_wf (pending_requests st')
  | None => pending_request_drop 0 rt_one_call = Panic "invalid key"
  end.
Proof.
  apply pending_request_drop_refines.
  exact (inv_slab _ (reachable_inv (Req := unit) (Resp := unit) 7 3 _
           (rtc_l _ _ _ _ (ts_start 7 3 rt_new rt_one_call 0 [] [] eq_refl eq_refl) (rtc_refl _ _)))).
Defined.
