(* ===== verification/Proto.v ===== *)
(** * Proto: the generated wire types of std-modrpc

    Models src/std-modrpc/rust/src/proto.rs, the code modrpc-codegen
    generates for the std-modrpc interfaces.  Every struct [X] of the
    file comes with the same items, and each has a definition here:
    - the owned [X] (a Record) with its [BaseLen]/[Encode]/[Decode] impls
      (a [Codec] instance, fields in declaration order, integers
      little-endian at fixed offsets);
    - [XGen<Payload>], the same fields with a payload of any type that
      encodes ([XGen_encode]);
    - [XLazy], a view of a buffer at an offset ([LazyView]) with one
      accessor per field that decodes at a fixed offset, an [Encode] impl
      that reads every field back ([unwrap]ping each) and encodes it
      again ([LazyEncode]), a [Decode] impl that only records the offset
      and advances the cursor ([lazy_decode]), and [TryFrom<XLazy> for X]
      that decodes the owned value at the view ([lazy_to_owned]).

    The [Clone], [Copy] and [Debug] impls of the views carry no logic and
    are not modelled.  [Option<T>] is encoded by mproto (not part of the
    sources) as a tag byte followed by the [BASE_LEN] bytes of [T]; that
    codec is modelled from the spec's fixed-size header layout. *)

From S2P Require Import Prelude Codec.
Local Open Scope Z_scope.

(** ** Lazy views *)

(** [XLazy { buffer, offset }] *)
Record LazyView := {
  lz_buffer : list byte;
  lz_offset : nat;
}.

(** [Result::unwrap] on a decode result. *)
Definition unwrap {A} (o : option A) : result A :=
  expect "called `Result::unwrap()` on an `Err` value" o.

(** [<XLazy as Decode>::decode]: remember the cursor's offset and advance
    it by [X::BASE_LEN]; the view and the new offset. *)
Definition lazy_decode {A} `{Codec A} (buffer : list byte) (offset : nat) : LazyView * nat :=
  ({| lz_buffer := buffer; lz_offset := offset |}, (offset + @base_len A _)%nat).

(** [TryFrom<XLazy> for X]: decode the owned value at the view's offset. *)
Definition lazy_to_owned {A} `{Codec A} (v : LazyView) : option A :=
  fst <$> decode (drop (lz_offset v) (lz_buffer v)).

(** An integer field of [n] bytes at offset [k] of a view. *)
Definition lazy_int (n : nat) (v : LazyView) (k : nat) : option Z :=
  lazy_field (lz_offset v + k) n (lz_buffer v).

(** A nested view at offset [k] of a view (the field's own [Decode] of its
    lazy type). *)
Definition lazy_sub {A} `{Codec A} (v : LazyView) (k : nat) : option LazyView :=
  Some (fst (lazy_decode (A := A) (lz_buffer v) (lz_offset v + k))).

(** [<A::Lazy as Encode>::encode]: the bytes a view of an [A] writes. *)
Class LazyEncode (A : Type) := lazy_encode : LazyView -> result (list byte).
Arguments lazy_encode A {_} v.

(** Forwarding a view of an encoded value writes exactly its bytes. *)
Class LazyEncodeLaws (A : Type) `{Codec A} `{LazyEncode A} :=
  lazy_encode_encode : forall v a rest,
    drop (lz_offset v) (lz_buffer v) = encode a ++ rest -> admissible a = true ->
    lazy_encode A v = Ok (encode a).

#[export] Instance unit_lazy : LazyEncode unit := fun _ => Ok [].

(** ** [StreamItem<T>] *)

Record StreamItem (T : Type) := {
  si_seq : Z;  (* u64 *)
  si_payload : T;
}.
Arguments si_seq {T}. Arguments si_payload {T}. Arguments Build_StreamItem {T}.

Section StreamItemDefs.
Context {T : Type} `{Codec T}.

#[export] Instance StreamItem_codec : Codec (StreamItem T) := {
  base_len := 8 + @base_len T _;
  admissible r := fits 64 (si_seq r) && admissible (si_payload r);
  encode r := le_bytes 8 (si_seq r) ++ encode (si_payload r);
  decode bs :=
    '(seq, bs) ← read_le 8 bs;
    '(payload, bs) ← decode bs;
    Some (Build_StreamItem seq payload, bs);
}.

Definition stream_item_lazy_seq (v : LazyView) : option Z := lazy_int 8 v 0.
Definition stream_item_lazy_payload (v : LazyView) : option LazyView := lazy_sub (A := T) v 8.

#[export] Instance StreamItem_lazy `{LazyEncode T} : LazyEncode (StreamItem T) := fun v =>
  seq ← unwrap (stream_item_lazy_seq v);
  payload ← unwrap (stream_item_lazy_payload v);
  payload ← lazy_encode T payload;
  Ok (le_bytes 8 seq ++ payload).
End StreamItemDefs.

(** [StreamItemGen<Payload>]: the fields of a [StreamItem] with a payload
    of any type [P] that encodes. *)
Definition StreamItemGen_encode {P} `{Codec P} (g : StreamItem P) : list byte :=
  le_bytes 8 (si_seq g) ++ encode (si_payload g).

(** ** [PropertyUpdate<T>] and [PropertyInitState<T>] *)

Record PropertyUpdate (T : Type) := { new_value : T }.
Arguments new_value {T}. Arguments Build_PropertyUpdate {T}.

Record PropertyInitState (T : Type) := { value : T }.
Arguments value {T}. Arguments Build_PropertyInitState {T}.

Section PropertyDefs.
Context {T : Type} `{Codec T}.

#[export] Instance PropertyUpdate_codec : Codec (PropertyUpdate T) := {
  base_len := @base_len T _;
  admissible r := admissible (new_value r);
  encode r := encode (new_value r);
  decode bs := '(new_value, bs) ← decode bs; Some (Build_PropertyUpdate new_value, bs);
}.

Definition property_update_lazy_new_value (v : LazyView) : option LazyView := lazy_sub (A := T) v 0.

#[export] Instance PropertyUpdate_lazy `{LazyEncode T} : LazyEncode (PropertyUpdate T) := fun v =>
  new_value ← unwrap (property_update_lazy_new_value v);
  lazy_encode T new_value.

#[export] Instance PropertyInitState_codec : Codec (PropertyInitState T) := {
  base_len := @base_len T _;
  admissible r := admissible (value r);
  encode r := encode (value r);
  decode bs := '(value, bs) ← decode bs; Some (Build_PropertyInitState value, bs);
}.

Definition property_init_state_lazy_value (v : LazyView) : option LazyView := lazy_sub (A := T) v 0.

#[export] Instance PropertyInitState_lazy `{LazyEncode T} : LazyEncode (PropertyInitState T) := fun v =>
  value ← unwrap (property_init_state_lazy_value v);
  lazy_encode T value.
End PropertyDefs.

Definition PropertyUpdateGen_encode {P} `{Codec P} (g : PropertyUpdate P) : list byte :=
  encode (new_value g).

Definition PropertyInitStateGen_encode {P} `{Codec P} (g : PropertyInitState P) : list byte :=
  encode (value g).

(** ** [MultiStreamId] *)

Record MultiStreamId := {
  owner : Z;  (* u64 *)
  id : Z;     (* u32 *)
}.

#[export] Instance MultiStreamId_eq_dec : EqDecision MultiStreamId.
Proof. solve_decision. Defined.

#[export] Instance MultiStreamId_codec : Codec MultiStreamId := {
  base_len := 12;
  admissible r := fits 64 (owner r) && fits 32 (id r);
  encode r := le_bytes 8 (owner r) ++ le_bytes 4 (id r);
  decode bs :=
    '(owner, bs) ← read_le 8 bs;
    '(id, bs) ← read_le 4 bs;
    Some ({| owner := owner; id := id |}, bs);
}.

Definition multi_stream_id_lazy_owner (v : LazyView) : option Z := lazy_int 8 v 0.
Definition multi_stream_id_lazy_id (v : LazyView) : option Z := lazy_int 4 v 8.

#[export] Instance MultiStreamId_lazy : LazyEncode MultiStreamId := fun v =>
  owner ← unwrap (multi_stream_id_lazy_owner v);
  id ← unwrap (multi_stream_id_lazy_id v);
  Ok (le_bytes 8 owner ++ le_bytes 4 id).

Definition MultiStreamIdGen_encode (g : MultiStreamId) : list byte :=
  le_bytes 8 (owner g) ++ le_bytes 4 (id g).

(** ** [Option<T>] (mproto) *)

(** The first [n] bytes, when there are that many. *)
Definition take_exact (n : nat) (bs : list byte) : option (list byte * list byte) :=
  if decide (n <= length bs)%nat then Some (take n bs, drop n bs) else None.

(** A tag byte, 0 for [None] and 1 for [Some], followed by the
    [BASE_LEN] bytes of the value, zero for [None]; another tag is a
    decode error. *)
#[export] Instance option_codec {A} `{Codec A} : Codec (option A) := {
  base_len := 1 + @base_len A _;
  admissible o := match o with Some a => admissible a | None => true end;
  encode o := match o with
              | None => le_bytes 1 0 ++ repeat Byte.x00 (@base_len A _)
              | Some a => le_bytes 1 1 ++ encode a
              end;
  decode bs :=
    '(tag, bs) ← read_le 1 bs;
    if decide (tag = 0) then '(_, bs) ← take_exact (@base_len A _) bs; Some (None, bs)
    else if decide (tag = 1) then '(a, bs) ← decode bs; Some (Some a, bs)
    else None;
}.

(** [<Option<A::Lazy> as Decode>] at offset [k] of a view. *)
Definition lazy_option {A} `{Codec A} (v : LazyView) (k : nat) : option (option LazyView) :=
  tag ← lazy_int 1 v k;
  if decide (tag = 0) then Some None
  else if decide (tag = 1) then Some (lazy_sub (A := A) v (k + 1))
  else None.

(** [<Option<A::Lazy> as Encode>]. *)
Definition lazy_option_encode {A} `{Codec A} `{LazyEncode A} (o : option LazyView) : result (list byte) :=
  match o with
  | None => Ok (le_bytes 1 0 ++ repeat Byte.x00 (@base_len A _))
  | Some l => bs ← lazy_encode A l; Ok (le_bytes 1 1 ++ bs)
  end.

(** ** [MultiStreamItem<T>] *)

Record MultiStreamItem (T : Type) := {
  stream_id : MultiStreamId;
  msi_seq : Z;  (* u64 *)
  msi_payload : option T;
}.
Arguments stream_id {T}. Arguments msi_seq {T}. Arguments msi_payload {T}.
Arguments Build_MultiStreamItem {T}.

Section MultiStreamItemDefs.
Context {T : Type} `{Codec T}.

#[export] Instance MultiStreamItem_codec : Codec (MultiStreamItem T) := {
  base_len := 21 + @base_len T _;
  admissible r := admissible (stream_id r) && fits 64 (msi_seq r) && admissible (msi_payload r);
  encode r := encode (stream_id r) ++ le_bytes 8 (msi_seq r) ++ encode (msi_payload r);
  decode bs :=
    '(stream_id, bs) ← decode bs;
    '(seq, bs) ← read_le 8 bs;
    '(payload, bs) ← decode bs;
    Some (Build_MultiStreamItem stream_id seq payload, bs);
}.

Definition multi_stream_item_lazy_stream_id (v : LazyView) : option LazyView :=
  lazy_sub (A := MultiStreamId) v 0.
Definition multi_stream_item_lazy_seq (v : LazyView) : option Z := lazy_int 8 v 12.
Definition multi_stream_item_lazy_payload (v : LazyView) : option (option LazyView) :=
  lazy_option (A := T) v 20.

#[export] Instance MultiStreamItem_lazy `{LazyEncode T} : LazyEncode (MultiStreamItem T) := fun v =>
  stream_id ← unwrap (multi_stream_item_lazy_stream_id v);
  seq ← unwrap (multi_stream_item_lazy_seq v);
  payload ← unwrap (multi_stream_item_lazy_payload v);
  stream_id ← lazy_encode MultiStreamId stream_id;
  payload ← lazy_option_encode (A := T) payload;
  Ok (stream_id ++ le_bytes 8 seq ++ payload).
End MultiStreamItemDefs.

Definition MultiStreamItemGen_encode {P} `{Codec P} (g : MultiStreamItem P) : list byte :=
  encode (stream_id g) ++ le_bytes 8 (msi_seq g) ++ encode (msi_payload g).

(** ** The lazy views and generators of [Request<T>] and [Response<T>] *)

Section WrapperLazy.
Context {T : Type} `{Codec T}.

Definition request_lazy_payload (v : LazyView) : option LazyView := lazy_sub (A := T) v 6.

#[export] Instance Request_lazy `{LazyEncode T} : LazyEncode (Request T) := fun v =>
  request_id ← unwrap (lazy_int 4 v 0);
  worker ← unwrap (lazy_int 2 v 4);
  payload ← unwrap (request_lazy_payload v);
  payload ← lazy_encode T payload;
  Ok (le_bytes 4 request_id ++ le_bytes 2 worker ++ payload).

Definition response_lazy_payload (v : LazyView) : option LazyView := lazy_sub (A := T) v 14.

#[export] Instance Response_lazy `{LazyEncode T} : LazyEncode (Response T) := fun v =>
  request_id ← unwrap (lazy_int 4 v 0);
  requester ← unwrap (lazy_int 8 v 4);
  requester_worker ← unwrap (lazy_int 2 v 12);
  payload ← unwrap (response_lazy_payload v);
  payload ← lazy_encode T payload;
  Ok (le_bytes 4 request_id ++ le_bytes 8 requester ++ le_bytes 2 requester_worker ++ payload).
End WrapperLazy.

Definition RequestGen_encode {P} `{Codec P} (g : Request P) : list byte :=
  le_bytes 4 (req_request_id g) ++ le_bytes 2 (req_worker g) ++ encode (req_payload g).

Definition ResponseGen_encode {P} `{Codec P} (g : Response P) : list byte :=
  le_bytes 4 (resp_request_id g) ++ le_bytes 8 (resp_requester g)
  ++ le_bytes 2 (resp_requester_worker g) ++ encode (resp_payload g).

(** ** Empty structs: the configs and init states of the roles *)

(** Every empty struct of proto.rs has [BASE_LEN = 0], writes nothing,
    and decodes from any buffer without consuming a byte; its view
    writes nothing either, and all its views are equal. *)
Section EmptyStruct.
Context {E : Type} (mk : E).

Definition empty_codec : Codec E := {|
  base_len := 0;
  admissible _ := true;
  encode _ := [];
  decode bs := Some (mk, bs);
|}.
End EmptyStruct.

Definition empty_lazy {E : Type} : LazyEncode E := fun _ => Ok [].

Record PropertyObserverConfig := mkPropertyObserverConfig {}.
#[export] Instance PropertyObserverConfig_codec : Codec PropertyObserverConfig := empty_codec mkPropertyObserverConfig.
Record PropertyObserverConfigGen := mkPropertyObserverConfigGen {}.
Definition PropertyObserverConfigGen_encode (_ : PropertyObserverConfigGen) : list byte := [].
#[export] Instance PropertyObserverConfig_lazy : LazyEncode PropertyObserverConfig := empty_lazy.
Definition PropertyObserverConfig_lazy_decode (buffer : list byte) (offset : nat) : LazyView * nat :=
  lazy_decode (A := PropertyObserverConfig) buffer offset.
Definition PropertyObserverConfig_try_from (v : LazyView) : option PropertyObserverConfig := lazy_to_owned (A := PropertyObserverConfig) v.
Definition PropertyObserverConfig_lazy_eq (_ _ : LazyView) : bool := true.

Record PropertyOwnerConfig := mkPropertyOwnerConfig {}.
#[export] Instance PropertyOwnerConfig_codec : Codec PropertyOwnerConfig := empty_codec mkPropertyOwnerConfig.
Record PropertyOwnerConfigGen := mkPropertyOwnerConfigGen {}.
Definition PropertyOwnerConfigGen_encode (_ : PropertyOwnerConfigGen) : list byte := [].
#[export] Instance PropertyOwnerConfig_lazy : LazyEncode PropertyOwnerConfig := empty_lazy.
Definition PropertyOwnerConfig_lazy_decode (buffer : list byte) (offset : nat) : LazyView * nat :=
  lazy_decode (A := PropertyOwnerConfig) buffer offset.
Definition PropertyOwnerConfig_try_from (v : LazyView) : option PropertyOwnerConfig := lazy_to_owned (A := PropertyOwnerConfig) v.
Definition PropertyOwnerConfig_lazy_eq (_ _ : LazyView) : bool := true.

Record RequestInitState := mkRequestInitState {}.
#[export] Instance RequestInitState_codec : Codec RequestInitState := empty_codec mkRequestInitState.
Record RequestInitStateGen := mkRequestInitStateGen {}.
Definition RequestInitStateGen_encode (_ : RequestInitStateGen) : list byte := [].
#[export] Instance RequestInitState_lazy : LazyEncode RequestInitState := empty_lazy.
Definition RequestInitState_lazy_decode (buffer : list byte) (offset : nat) : LazyView * nat :=
  lazy_decode (A := RequestInitState) buffer offset.
Definition RequestInitState_try_from (v : LazyView) : option RequestInitState := lazy_to_owned (A := RequestInitState) v.
Definition RequestInitState_lazy_eq (_ _ : LazyView) : bool := true.

Record RequestClientConfig := mkRequestClientConfig {}.
#[export] Instance RequestClientConfig_codec : Codec RequestClientConfig := empty_codec mkRequestClientConfig.
Record RequestClientConfigGen := mkRequestClientConfigGen {}.
Definition RequestClientConfigGen_encode (_ : RequestClientConfigGen) : list byte := [].
#[export] Instance RequestClientConfig_lazy : LazyEncode RequestClientConfig := empty_lazy.
Definition RequestClientConfig_lazy_decode (buffer : list byte) (offset : nat) : LazyView * nat :=
  lazy_decode (A := RequestClientConfig) buffer offset.
Definition RequestClientConfig_try_from (v : LazyView) : option RequestClientConfig := lazy_to_owned (A := RequestClientConfig) v.
Definition RequestClientConfig_lazy_eq (_ _ : LazyView) : bool := true.

Record RequestServerConfig := mkRequestServerConfig {}.
#[export] Instance RequestServerConfig_codec : Codec RequestServerConfig := empty_codec mkRequestServerConfig.
Record RequestServerConfigGen := mkRequestServerConfigGen {}.
Definition RequestServerConfigGen_encode (_ : RequestServerConfigGen) : list byte := [].
#[export] Instance RequestServerConfig_lazy : LazyEncode RequestServerConfig := empty_lazy.
Definition RequestServerConfig_lazy_decode (buffer : list byte) (offset : nat) : LazyView * nat :=
  lazy_decode (A := RequestServerConfig) buffer offset.
Definition RequestServerConfig_try_from (v : LazyView) : option RequestServerConfig := lazy_to_owned (A := RequestServerConfig) v.
Definition RequestServerConfig_lazy_eq (_ _ : LazyView) : bool := true.

Record StreamInitState := mkStreamInitState {}.
#[export] Instance StreamInitState_codec : Codec StreamInitState := empty_codec mkStreamInitState.
Record StreamInitStateGen := mkStreamInitStateGen {}.
Definition StreamInitStateGen_encode (_ : StreamInitStateGen) : list byte := [].
#[export] Instance StreamInitState_lazy : LazyEncode StreamInitState := empty_lazy.
Definition StreamInitState_lazy_decode (buffer : list byte) (offset : nat) : LazyView * nat :=
  lazy_decode (A := StreamInitState) buffer offset.
Definition StreamInitState_try_from (v : LazyView) : option StreamInitState := lazy_to_owned (A := StreamInitState) v.
Definition StreamInitState_lazy_eq (_ _ : LazyView) : bool := true.

Record StreamReceiverConfig := mkStreamReceiverConfig {}.
#[export] Instance StreamReceiverConfig_codec : Codec StreamReceiverConfig := empty_codec mkStreamReceiverConfig.
Record StreamReceiverConfigGen := mkStreamReceiverConfigGen {}.
Definition StreamReceiverConfigGen_encode (_ : StreamReceiverConfigGen) : list byte := [].
#[export] Instance StreamReceiverConfig_lazy : LazyEncode StreamReceiverConfig := empty_lazy.
Definition StreamReceiverConfig_lazy_decode (buffer : list byte) (offset : nat) : LazyView * nat :=
  lazy_decode (A := StreamReceiverConfig) buffer offset.
Definition StreamReceiverConfig_try_from (v : LazyView) : option StreamReceiverConfig := lazy_to_owned (A := StreamReceiverConfig) v.
Definition StreamReceiverConfig_lazy_eq (_ _ : LazyView) : bool := true.

Record StreamSenderConfig := mkStreamSenderConfig {}.
#[export] Instance StreamSenderConfig_codec : Codec StreamSenderConfig := empty_codec mkStreamSenderConfig.
Record StreamSenderConfigGen := mkStreamSenderConfigGen {}.
Definition StreamSenderConfigGen_encode (_ : StreamSenderConfigGen) : list byte := [].
#[export] Instance StreamSenderConfig_lazy : LazyEncode StreamSenderConfig := empty_lazy.
Definition StreamSenderConfig_lazy_decode (buffer : list byte) (offset : nat) : LazyView * nat :=
  lazy_decode (A := StreamSenderConfig) buffer offset.
Definition StreamSenderConfig_try_from (v : LazyView) : option StreamSenderConfig := lazy_to_owned (A := StreamSenderConfig) v.
Definition StreamSenderConfig_lazy_eq (_ _ : LazyView) : bool := true.

Record MultiStreamInitState := mkMultiStreamInitState {}.
#[export] Instance MultiStreamInitState_codec : Codec MultiStreamInitState := empty_codec mkMultiStreamInitState.
Record MultiStreamInitStateGen := mkMultiStreamInitStateGen {}.
Definition MultiStreamInitStateGen_encode (_ : MultiStreamInitStateGen) : list byte := [].
#[export] Instance MultiStreamInitState_lazy : LazyEncode MultiStreamInitState := empty_lazy.
Definition MultiStreamInitState_lazy_decode (buffer : list byte) (offset : nat) : LazyView * nat :=
  lazy_decode (A := MultiStreamInitState) buffer offset.
Definition MultiStreamInitState_try_from (v : LazyView) : option MultiStreamInitState := lazy_to_owned (A := MultiStreamInitState) v.
Definition MultiStreamInitState_lazy_eq (_ _ : LazyView) : bool := true.

Record MultiStreamReceiverConfig := mkMultiStreamReceiverConfig {}.
#[export] Instance MultiStreamReceiverConfig_codec : Codec MultiStreamReceiverConfig := empty_codec mkMultiStreamReceiverConfig.
Record MultiStreamReceiverConfigGen := mkMultiStreamReceiverConfigGen {}.
Definition MultiStreamReceiverConfigGen_encode (_ : MultiStreamReceiverConfigGen) : list byte := [].
#[export] Instance MultiStreamReceiverConfig_lazy : LazyEncode MultiStreamReceiverConfig := empty_lazy.
Definition MultiStreamReceiverConfig_lazy_decode (buffer : list byte) (offset : nat) : LazyView * nat :=
  lazy_decode (A := MultiStreamReceiverConfig) buffer offset.
Definition MultiStreamReceiverConfig_try_from (v : LazyView) : option MultiStreamReceiverConfig := lazy_to_owned (A := MultiStreamReceiverConfig) v.
Definition MultiStreamReceiverConfig_lazy_eq (_ _ : LazyView) : bool := true.

Record MultiStreamSenderConfig := mkMultiStreamSenderConfig {}.
#[export] Instance MultiStreamSenderConfig_codec : Codec MultiStreamSenderConfig := empty_codec mkMultiStreamSenderConfig.
Record MultiStreamSenderConfigGen := mkMultiStreamSenderConfigGen {}.
Definition MultiStreamSenderConfigGen_encode (_ : MultiStreamSenderConfigGen) : list byte := [].
#[export] Instance MultiStreamSenderConfig_lazy : LazyEncode MultiStreamSenderConfig := empty_lazy.
Definition MultiStreamSenderConfig_lazy_decode (buffer : list byte) (offset : nat) : LazyView * nat :=
  lazy_decode (A := MultiStreamSenderConfig) buffer offset.
Definition MultiStreamSenderConfig_try_from (v : LazyView) : option MultiStreamSenderConfig := lazy_to_owned (A := MultiStreamSenderConfig) v.
Definition MultiStreamSenderConfig_lazy_eq (_ _ : LazyView) : bool := true.

Record ByteStreamInitState := mkByteStreamInitState {}.
#[export] Instance ByteStreamInitState_codec : Codec ByteStreamInitState := empty_codec mkByteStreamInitState.
Record ByteStreamInitStateGen := mkByteStreamInitStateGen {}.
Definition ByteStreamInitStateGen_encode (_ : ByteStreamInitStateGen) : list byte := [].
#[export] Instance ByteStreamInitState_lazy : LazyEncode ByteStreamInitState := empty_lazy.
Definition ByteStreamInitState_lazy_decode (buffer : list byte) (offset : nat) : LazyView * nat :=
  lazy_decode (A := ByteStreamInitState) buffer offset.
Definition ByteStreamInitState_try_from (v : LazyView) : option ByteStreamInitState := lazy_to_owned (A := ByteStreamInitState) v.
Definition ByteStreamInitState_lazy_eq (_ _ : LazyView) : bool := true.

Record ByteStreamReceiverConfig := mkByteStreamReceiverConfig {}.
#[export] Instance ByteStreamReceiverConfig_codec : Codec ByteStreamReceiverConfig := empty_codec mkByteStreamReceiverConfig.
Record ByteStreamReceiverConfigGen := mkByteStreamReceiverConfigGen {}.
Definition ByteStreamReceiverConfigGen_encode (_ : ByteStreamReceiverConfigGen) : list byte := [].
#[export] Instance ByteStreamReceiverConfig_lazy : LazyEncode ByteStreamReceiverConfig := empty_lazy.
Definition ByteStreamReceiverConfig_lazy_decode (buffer : list byte) (offset : nat) : LazyView * nat :=
  lazy_decode (A := ByteStreamReceiverConfig) buffer offset.
Definition ByteStreamReceiverConfig_try_from (v : LazyView) : option ByteStreamReceiverConfig := lazy_to_owned (A := ByteStreamReceiverConfig) v.
Definition ByteStreamReceiverConfig_lazy_eq (_ _ : LazyView) : bool := true.

Record ByteStreamSenderConfig := mkByteStreamSenderConfig {}.
#[export] Instance ByteStreamSenderConfig_codec : Codec ByteStreamSenderConfig := empty_codec mkByteStreamSenderConfig.
Record ByteStreamSenderConfigGen := mkByteStreamSenderConfigGen {}.
Definition ByteStreamSenderConfigGen_encode (_ : ByteStreamSenderConfigGen) : list byte := [].
#[export] Instance ByteStreamSenderConfig_lazy : LazyEncode ByteStreamSenderConfig := empty_lazy.
Definition ByteStreamSenderConfig_lazy_decode (buffer : list byte) (offset : nat) : LazyView * nat :=
  lazy_decode (A := ByteStreamSenderConfig) buffer offset.
Definition ByteStreamSenderConfig_try_from (v : LazyView) : option ByteStreamSenderConfig := lazy_to_owned (A := ByteStreamSenderConfig) v.
Definition ByteStreamSenderConfig_lazy_eq (_ _ : LazyView) : bool := true.

(** ** [Decode], [TryFrom] and [PartialEq] of the views of the generic structs *)

(** [<A::Lazy as PartialEq>::eq]: views are compared field by field, each
    field read with [unwrap]. *)
Class LazyEq (A : Type) := lazy_eq : LazyView -> LazyView -> result bool.
Arguments lazy_eq A {_} v w.

#[export] Instance unit_lazy_eq : LazyEq unit := fun _ _ => Ok true.

(** [a == b && rest]: the right operand is only evaluated when the fields are equal. *)
Definition lazy_and_int (x y : option Z) (rest : result bool) : result bool :=
  x ← unwrap x; y ← unwrap y; if decide (x = y) then rest else Ok false.

Definition lazy_eq_sub {A} `{LazyEq A} (x y : option LazyView) : result bool :=
  x ← unwrap x; y ← unwrap y; lazy_eq A x y.

Section GenericViews.
Context {T : Type} `{Codec T} `{LazyEq T}.

Definition stream_item_lazy_decode (buffer : list byte) (offset : nat) : LazyView * nat :=
  lazy_decode (A := StreamItem T) buffer offset.
Definition stream_item_try_from (v : LazyView) : option (StreamItem T) := lazy_to_owned v.
#[export] Instance StreamItem_lazy_eq : LazyEq (StreamItem T) := fun v w =>
  lazy_and_int (stream_item_lazy_seq v) (stream_item_lazy_seq w)
    (lazy_eq_sub (A := T) (stream_item_lazy_payload (T := T) v) (stream_item_lazy_payload (T := T) w)).

Definition property_update_lazy_decode (buffer : list byte) (offset : nat) : LazyView * nat :=
  lazy_decode (A := PropertyUpdate T) buffer offset.
Definition property_update_try_from (v : LazyView) : option (PropertyUpdate T) := lazy_to_owned v.
#[export] Instance PropertyUpdate_lazy_eq : LazyEq (PropertyUpdate T) := fun v w =>
  lazy_eq_sub (A := T) (property_update_lazy_new_value (T := T) v) (property_update_lazy_new_value (T := T) w).

Definition property_init_state_lazy_decode (buffer : list byte) (offset : nat) : LazyView * nat :=
  lazy_decode (A := PropertyInitState T) buffer offset.
Definition property_init_state_try_from (v : LazyView) : option (PropertyInitState T) := lazy_to_owned v.
#[export] Instance PropertyInitState_lazy_eq : LazyEq (PropertyInitState T) := fun v w =>
  lazy_eq_sub (A := T) (property_init_state_lazy_value (T := T) v) (property_init_state_lazy_value (T := T) w).

Definition request_lazy_decode (buffer : list byte) (offset : nat) : LazyView * nat :=
  lazy_decode (A := Request T) buffer offset.
Definition request_try_from (v : LazyView) : option (Request T) := lazy_to_owned v.
#[export] Instance Request_lazy_eq : LazyEq (Request T) := fun v w =>
  lazy_and_int (lazy_int 4 v 0) (lazy_int 4 w 0)
    (lazy_and_int (lazy_int 2 v 4) (lazy_int 2 w 4)
       (lazy_eq_sub (A := T) (request_lazy_payload (T := T) v) (request_lazy_payload (T := T) w))).

Definition response_lazy_decode (buffer : list byte) (offset : nat) : LazyView * nat :=
  lazy_decode (A := Response T) buffer offset.
Definition response_try_from (v : LazyView) : option (Response T) := lazy_to_owned v.
#[export] Instance Response_lazy_eq : LazyEq (Response T) := fun v w =>
  lazy_and_int (lazy_int 4 v 0) (lazy_int 4 w 0)
    (lazy_and_int (lazy_int 8 v 4) (lazy_int 8 w 4)
       (lazy_and_int (lazy_int 2 v 12) (lazy_int 2 w 12)
          (lazy_eq_sub (A := T) (response_lazy_payload (T := T) v) (response_lazy_payload (T := T) w)))).

Definition multi_stream_item_lazy_decode (buffer : list byte) (offset : nat) : LazyView * nat :=
  lazy_decode (A := MultiStreamItem T) buffer offset.
Definition multi_stream_item_try_from (v : LazyView) : option (MultiStreamItem T) := lazy_to_owned v.
End GenericViews.

Definition multi_stream_id_lazy_decode (buffer : list byte) (offset : nat) : LazyView * nat :=
  lazy_decode (A := MultiStreamId) buffer offset.
Definition multi_stream_id_try_from (v : LazyView) : option MultiStreamId := lazy_to_owned v.
#[export] Instance MultiStreamId_lazy_eq : LazyEq MultiStreamId := fun v w =>
  lazy_and_int (multi_stream_id_lazy_owner v) (multi_stream_id_lazy_owner w)
    (lazy_and_int (multi_stream_id_lazy_id v) (multi_stream_id_lazy_id w) (Ok true)).

#[export] Instance MultiStreamItem_lazy_eq {T} `{Codec T} `{LazyEq T} : LazyEq (MultiStreamItem T) :=
  fun v w =>
    a ← unwrap (multi_stream_item_lazy_stream_id v);
    b ← unwrap (multi_stream_item_lazy_stream_id w);
    lazy_eq MultiStreamId a b ≫= fun same_id : bool =>
    if same_id then
      lazy_and_int (multi_stream_item_lazy_seq v) (multi_stream_item_lazy_seq w)
        (p ← unwrap (multi_stream_item_lazy_payload (T := T) v);
         q ← unwrap (multi_stream_item_lazy_payload (T := T) w);
         match p, q with
         | None, None => Ok true
         | Some p, Some q => lazy_eq T p q
         | _, _ => Ok false
         end)
    else Ok false.





(** What a view's [PartialEq] promises: two views of encoded values are
    equal exactly when the values are. *)
Class LazyEqLaws (A : Type) `{Codec A} `{LazyEq A} `{EqDecision A} :=
  lazy_eq_spec : forall v w a b ra rb,
    drop (lz_offset v) (lz_buffer v) = encode a ++ ra -> drop (lz_offset w) (lz_buffer w) = encode b ++ rb ->
    admissible a = true -> admissible b = true ->
    lazy_eq A v w = Ok (bool_decide (a = b)).

#[export] Instance Response_eq_dec {T} `{EqDecision T} : EqDecision (Response T).
Proof. solve_decision. Defined.



(** ** Lemmas *)

Lemma drop_field (buf mid tail : list byte) off :
  drop off buf = mid ++ tail -> drop (off + length mid) buf = tail.
Proof. intros H. by rewrite <- drop_drop, H, drop_app_length. Qed.

Lemma lazy_int_drop n v k z rest :
  drop (lz_offset v + k) (lz_buffer v) = le_bytes n z ++ rest -> fits (8 * Z.of_nat n) z = true ->
  lazy_int n v k = Some z.
Proof.
  intros Hd Hz. unfold lazy_int, lazy_field. rewrite Hd, read_le_bytes_fits by done. done.
Qed.

Section LazyFacts.
Context {A : Type} `{CodecLaws A}.

(** [TryFrom] on the view [Decode] makes of an encoded value gives it back. *)
Lemma lazy_to_owned_decode buf off a rest :
  drop off buf = encode a ++ rest -> admissible a = true ->
  lazy_to_owned (A := A) (fst (lazy_decode (A := A) buf off)) = Some a.
Proof.
  intros Hd Ha. unfold lazy_to_owned, lazy_decode. cbn [fst lz_buffer lz_offset].
  by rewrite Hd, decode_encode.
Qed.

(** [Decode] of a view advances the cursor past the value. *)
Lemma lazy_decode_advance buf off a rest :
  drop off buf = encode a ++ rest ->
  drop (snd (lazy_decode (A := A) buf off)) buf = rest.
Proof. intros Hd. cbn. rewrite <- (length_encode a). by apply drop_field. Qed.
End LazyFacts.

Ltac lazy_simpl := cbn [unwrap expect mbind result_bind lazy_sub lazy_decode fst lz_buffer lz_offset].

Section StreamItemLaws.
Context {T : Type} `{CodecLaws T}.

#[export] Instance StreamItem_laws : CodecLaws (StreamItem T).
Proof. codec_laws. Qed.

#[export] Instance StreamItem_lazy_laws `{!LazyEncode T} `{!LazyEncodeLaws T} :
  LazyEncodeLaws (StreamItem T).
Proof.
  intros v [seq p] rest Hd Ha. cbn in Ha, Hd. split_admissible.
  unfold lazy_encode, StreamItem_lazy, stream_item_lazy_seq, stream_item_lazy_payload.
  rewrite (lazy_int_drop 8 v 0 seq (encode p ++ rest)) by (rewrite ?Nat.add_0_r; done). lazy_simpl.
  rewrite (lazy_encode_encode _ p rest); [done| |done]. cbn.
  rewrite <- (length_le_bytes 8 seq). by apply drop_field.
Qed.
End StreamItemLaws.

Section EmptyLaws.
Context {E : Type} (mk : E) (Hmk : forall x : E, x = mk).

Lemma empty_laws : @CodecLaws E (empty_codec mk).
Proof.
  split; cbn; [done| |lia|by eexists|].
  - intros a rest _. by rewrite (Hmk a).
  - intros bs a rest [= <- <-]. by split.
Qed.

Lemma empty_lazy_laws : @LazyEncodeLaws E (empty_codec mk) empty_lazy.
Proof. done. Qed.
End EmptyLaws.

#[export] Instance PropertyObserverConfig_laws : CodecLaws PropertyObserverConfig.
Proof. apply empty_laws. by intros []. Qed.

#[export] Instance PropertyOwnerConfig_laws : CodecLaws PropertyOwnerConfig.
Proof. apply empty_laws. by intros []. Qed.

#[export] Instance RequestInitState_laws : CodecLaws RequestInitState.
Proof. apply empty_laws. by intros []. Qed.

#[export] Instance RequestClientConfig_laws : CodecLaws RequestClientConfig.
Proof. apply empty_laws. by intros []. Qed.

#[export] Instance RequestServerConfig_laws : CodecLaws RequestServerConfig.
Proof. apply empty_laws. by intros []. Qed.

#[export] Instance StreamInitState_laws : CodecLaws StreamInitState.
Proof. apply empty_laws. by intros []. Qed.

#[export] Instance StreamReceiverConfig_laws : CodecLaws StreamReceiverConfig.
Proof. apply empty_laws. by intros []. Qed.

#[export] Instance StreamSenderConfig_laws : CodecLaws StreamSenderConfig.
Proof. apply empty_laws. by intros []. Qed.

#[export] Instance MultiStreamInitState_laws : CodecLaws MultiStreamInitState.
Proof. apply empty_laws. by intros []. Qed.

#[export] Instance MultiStreamReceiverConfig_laws : CodecLaws MultiStreamReceiverConfig.
Proof. apply empty_laws. by intros []. Qed.

#[export] Instance MultiStreamSenderConfig_laws : CodecLaws MultiStreamSenderConfig.
Proof. apply empty_laws. by intros []. Qed.

#[export] Instance ByteStreamInitState_laws : CodecLaws ByteStreamInitState.
Proof. apply empty_laws. by intros []. Qed.

#[export] Instance ByteStreamReceiverConfig_laws : CodecLaws ByteStreamReceiverConfig.
Proof. apply empty_laws. by intros []. Qed.

#[export] Instance ByteStreamSenderConfig_laws : CodecLaws ByteStreamSenderConfig.
Proof. apply empty_laws. by intros []. Qed.

(** Reading a [u<8n>] field of a view whose bytes at the field's offset
    are its encoding. *)
Lemma lazy_int_at n v k z tail :
  drop (lz_offset v + k) (lz_buffer v) = le_bytes n z ++ tail -> fits (8 * Z.of_nat n) z = true ->
  unwrap (lazy_int n v k) = Ok z.
Proof. intros Hd Hz. unfold unwrap. by rewrite (lazy_int_drop n v k z tail). Qed.

(** The bytes after a prefix [mid] of the bytes at a view's offset. *)
Lemma drop_at (v : LazyView) k (mid tail : list byte) :
  drop (lz_offset v) (lz_buffer v) = mid ++ tail -> length mid = k ->
  drop (lz_offset v + k) (lz_buffer v) = tail.
Proof. intros Hd <-. by apply drop_field. Qed.

Section GenericLaws.
Context {T : Type} `{CodecLaws T}.

#[export] Instance PropertyUpdate_laws : CodecLaws (PropertyUpdate T).
Proof. codec_laws. Qed.

#[export] Instance PropertyInitState_laws : CodecLaws (PropertyInitState T).
Proof. codec_laws. Qed.

Context `{!LazyEncode T} `{!LazyEncodeLaws T}.

#[export] Instance PropertyUpdate_lazy_laws : LazyEncodeLaws (PropertyUpdate T).
Proof.
  intros v [a] rest Hd Ha. unfold lazy_encode, PropertyUpdate_lazy, property_update_lazy_new_value.
  lazy_simpl. apply (lazy_encode_encode _ a rest); [|done]. cbn. by rewrite Nat.add_0_r.
Qed.

#[export] Instance PropertyInitState_lazy_laws : LazyEncodeLaws (PropertyInitState T).
Proof.
  intros v [a] rest Hd Ha. unfold lazy_encode, PropertyInitState_lazy, property_init_state_lazy_value.
  lazy_simpl. apply (lazy_encode_encode _ a rest); [|done]. cbn. by rewrite Nat.add_0_r.
Qed.

#[export] Instance Request_lazy_laws : LazyEncodeLaws (Request T).
Proof.
  intros v [i w p] rest Hd Ha. cbn in Ha, Hd. split_admissible.
  unfold lazy_encode, Request_lazy, request_lazy_payload.
  rewrite (lazy_int_at 4 v 0 i (le_bytes 2 w ++ encode p ++ rest)) by (rewrite ?Nat.add_0_r; done).
  lazy_simpl.
  rewrite (lazy_int_at 2 v 4 w (encode p ++ rest)) by (done || (apply (drop_at v 4 (le_bytes 4 i)); done)).
  lazy_simpl. rewrite (lazy_encode_encode _ p rest); [done| |done]. cbn.
  apply (drop_at v 6 (le_bytes 4 i ++ le_bytes 2 w)); [by rewrite <- app_assoc|done].
Qed.

#[export] Instance Response_lazy_laws : LazyEncodeLaws (Response T).
Proof.
  intros v [i r w p] rest Hd Ha. cbn in Ha, Hd. split_admissible.
  unfold lazy_encode, Response_lazy, response_lazy_payload.
  rewrite (lazy_int_at 4 v 0 i (le_bytes 8 r ++ le_bytes 2 w ++ encode p ++ rest))
    by (rewrite ?Nat.add_0_r; done).
  lazy_simpl.
  rewrite (lazy_int_at 8 v 4 r (le_bytes 2 w ++ encode p ++ rest))
    by (done || (apply (drop_at v 4 (le_bytes 4 i)); done)).
  lazy_simpl.
  rewrite (lazy_int_at 2 v 12 w (encode p ++ rest))
    by (done || (apply (drop_at v 12 (le_bytes 4 i ++ le_bytes 8 r)); [by rewrite <- app_assoc|done])).
  lazy_simpl. rewrite (lazy_encode_encode _ p rest); [done| |done]. cbn.
  apply (drop_at v 14 (le_bytes 4 i ++ le_bytes 8 r ++ le_bytes 2 w)); [by rewrite <- !app_assoc|done].
Qed.
End GenericLaws.

#[export] Instance MultiStreamId_laws : CodecLaws MultiStreamId.
Proof. codec_laws. Qed.

#[export] Instance MultiStreamId_lazy_laws : LazyEncodeLaws MultiStreamId.
Proof.
  intros v [o i] rest Hd Ha. cbn in Ha, Hd. split_admissible.
  unfold lazy_encode, MultiStreamId_lazy, multi_stream_id_lazy_owner, multi_stream_id_lazy_id.
  rewrite (lazy_int_at 8 v 0 o (le_bytes 4 i ++ rest)) by (rewrite ?Nat.add_0_r; done).
  lazy_simpl.
  by rewrite (lazy_int_at 4 v 8 i rest) by (done || (apply (drop_at v 8 (le_bytes 8 o)); done)).
Qed.

Section OptionLaws.
Context {A : Type} `{CodecLaws A}.

Lemma option_decode_encode (o : option A) rest :
  admissible o = true -> decode (encode o ++ rest) = Some (o, rest).
Proof.
  destruct o as [a|]; cbn -[read_le le_bytes take_exact]; intros Ha;
    rewrite <- app_assoc, read_le_bytes_fits by done; cbn -[read_le le_bytes take_exact].
  - by rewrite decode_encode.
  - unfold take_exact. rewrite !decide_True by (rewrite ?length_app, ?repeat_length; lia).
    cbn -[drop]. by rewrite drop_app_length' by (symmetry; apply repeat_length).
Qed.

Lemma length_option_encode (o : option A) : length (encode o) = (1 + @base_len A _)%nat.
Proof. destruct o; cbn -[le_bytes]; by rewrite length_app, ?length_encode, ?repeat_length. Qed.

Context `{!LazyEncode A} `{!LazyEncodeLaws A}.

(** Reading an [Option<A::Lazy>] field and writing it again gives its bytes. *)
Lemma lazy_option_at v k (o : option A) tail :
  drop (lz_offset v + k) (lz_buffer v) = encode o ++ tail -> admissible o = true ->
  exists lo, lazy_option (A := A) v k = Some lo /\ lazy_option_encode (A := A) lo = Ok (encode o).
Proof.
  intros Hd Ha. unfold lazy_option.
  destruct o as [a|]; cbn -[le_bytes lazy_int] in Hd |- *; rewrite <- app_assoc in Hd;
    rewrite (lazy_int_drop 1 v k _ _ Hd) by done; cbn [mbind option_bind].
  - rewrite decide_False, decide_True by lia. eexists. split; [reflexivity|].
    cbn [lazy_option_encode lazy_sub lazy_decode fst].
    rewrite (lazy_encode_encode _ a tail); [done| |done]. cbn.
    rewrite Nat.add_assoc. by apply (drop_field _ (le_bytes 1 1)).
  - rewrite decide_True by done. by eexists.
Qed.
End OptionLaws.

Section MultiStreamItemLaws.
Context {T : Type} `{CodecLaws T}.

Lemma multi_stream_item_decode_encode (m : MultiStreamItem T) rest :
  admissible m = true -> decode (encode m ++ rest) = Some (m, rest).
Proof.
  destruct m as [sid seq p].
  cbn [encode decode admissible MultiStreamItem_codec msi_seq msi_payload stream_id]. intros Ha.
  split_admissible. rewrite <- !app_assoc, decode_encode by done. cbn [mbind option_bind].
  rewrite read_le_bytes_fits by done. cbn [mbind option_bind].
  by rewrite option_decode_encode.
Qed.

Context `{!LazyEncode T} `{!LazyEncodeLaws T}.

Lemma multi_stream_item_lazy_encode (v : LazyView) (m : MultiStreamItem T) rest :
  drop (lz_offset v) (lz_buffer v) = encode m ++ rest -> admissible m = true ->
  lazy_encode (MultiStreamItem T) v = Ok (encode m).
Proof.
  destruct m as [sid seq p].
  cbn [encode admissible MultiStreamItem_codec msi_seq msi_payload stream_id]. intros Hd Ha. split_admissible.
  rewrite <- !app_assoc in Hd.
  unfold lazy_encode at 1, MultiStreamItem_lazy, multi_stream_item_lazy_stream_id,
    multi_stream_item_lazy_seq, multi_stream_item_lazy_payload.
  lazy_simpl.
  rewrite (lazy_int_at 8 v 12 seq (encode p ++ rest))
    by (done || (apply (drop_at v 12 (encode sid)); [done|by rewrite length_encode])).
  lazy_simpl.
  destruct (lazy_option_at (A := T) v 20 p rest) as (lo & -> & Hlo);
    [apply (drop_at v 20 (encode sid ++ le_bytes 8 seq)); [by rewrite <- app_assoc|
      by rewrite length_app, length_encode, length_le_bytes]|done|].
  lazy_simpl.
  rewrite (lazy_encode_encode _ sid (le_bytes 8 seq ++ encode p ++ rest)); [|by rewrite Nat.add_0_r|done].
  cbn [mbind result_bind]. by rewrite Hlo.
Qed.
End MultiStreamItemLaws.

#[export] Instance unit_lazy_laws : LazyEncodeLaws unit.
Proof. intros v [] rest _ _. done. Qed.

#[export] Instance unit_lazy_eq_laws : LazyEqLaws unit.
Proof. intros v w [] [] *. done. Qed.

Lemma lazy_and_int_at n v w k x y tv tw rest :
  drop (lz_offset v + k) (lz_buffer v) = le_bytes n x ++ tv ->
  drop (lz_offset w + k) (lz_buffer w) = le_bytes n y ++ tw ->
  fits (8 * Z.of_nat n) x = true -> fits (8 * Z.of_nat n) y = true ->
  lazy_and_int (lazy_int n v k) (lazy_int n w k) rest = if decide (x = y) then rest else Ok false.
Proof.
  intros Hv Hw Hx Hy. unfold lazy_and_int.
  by rewrite (lazy_int_at n v k x tv), (lazy_int_at n w k y tw).
Qed.

Section ResponseEq.
Context {T : Type} `{CodecLaws T} `{!EqDecision T} `{!LazyEq T} `{!LazyEqLaws T}.

#[export] Instance Response_lazy_eq_laws : LazyEqLaws (Response T).
Proof.
  intros v w [i r q p] [i' r' q' p'] ra rb Hv Hw Ha Hb. codec_simpl in *. split_admissible.
  rewrite <- ?app_assoc in Hv, Hw.
  unfold lazy_eq at 1, Response_lazy_eq, response_lazy_payload.
  assert (drop (lz_offset v + 0) (lz_buffer v) = le_bytes 4 i ++ le_bytes 8 r ++ le_bytes 2 q ++ encode p ++ ra)
    as Hv0 by (by rewrite Nat.add_0_r).
  assert (drop (lz_offset w + 0) (lz_buffer w) = le_bytes 4 i' ++ le_bytes 8 r' ++ le_bytes 2 q' ++ encode p' ++ rb)
    as Hw0 by (by rewrite Nat.add_0_r).
  pose proof (drop_at v 4 _ _ Hv (length_le_bytes 4 i)) as Hv4.
  pose proof (drop_at w 4 _ _ Hw (length_le_bytes 4 i')) as Hw4.
  pose proof (drop_at v 12 (le_bytes 4 i ++ le_bytes 8 r) _ ltac:(by rewrite <- app_assoc) eq_refl) as Hv12.
  pose proof (drop_at w 12 (le_bytes 4 i' ++ le_bytes 8 r') _ ltac:(by rewrite <- app_assoc) eq_refl) as Hw12.
  pose proof (drop_at v 14 (le_bytes 4 i ++ le_bytes 8 r ++ le_bytes 2 q) _
                ltac:(by rewrite <- !app_assoc) eq_refl) as Hv14.
  pose proof (drop_at w 14 (le_bytes 4 i' ++ le_bytes 8 r' ++ le_bytes 2 q') _
                ltac:(by rewrite <- !app_assoc) eq_refl) as Hw14.
  rewrite (lazy_and_int_at 4 v w 0 i i' _ _ _ Hv0 Hw0), (lazy_and_int_at 8 v w 4 r r' _ _ _ Hv4 Hw4),
    (lazy_and_int_at 2 v w 12 q q' _ _ _ Hv12 Hw12) by done.
  assert (lazy_eq_sub (A := T) (lazy_sub (A := T) v 14) (lazy_sub (A := T) w 14)
          = Ok (bool_decide (p = p'))) as ->.
  { unfold lazy_eq_sub. lazy_simpl. by apply (lazy_eq_spec _ _ p p' ra rb). }
  destruct (decide (i = i')) as [->|Hi]; [|rewrite bool_decide_false; [done|congruence]].
  destruct (decide (r = r')) as [->|Hr]; [|rewrite bool_decide_false; [done|congruence]].
  destruct (decide (q = q')) as [->|Hq]; [|rewrite bool_decide_false; [done|congruence]].
  f_equal. apply bool_decide_ext. split; [by intros ->|by intros [=]].
Qed.
End ResponseEq.

Lemma length_multi_stream_item_encode {T} `{CodecLaws T} (m : MultiStreamItem T) :
  length (encode m) = @base_len (MultiStreamItem T) _.
Proof.
  destruct m as [sid seq p]. cbn [encode base_len MultiStreamItem_codec msi_seq msi_payload stream_id].
  rewrite !length_app, length_le_bytes, length_option_encode, length_encode. cbn. lia.
Qed.

(** ** Properties *)

(** Zero-copy forwarding of a multi-stream item: the view that
    [Decode] makes of a [MultiStreamItem] encoded at any offset of a
    buffer writes back exactly the item's bytes when it is encoded again,
    [TryFrom] on it gives back the item, and the cursor moves past it. *)
Theorem multi_stream_item_lazy_forward {T} `{CodecLaws T} `{!LazyEncode T} `{!LazyEncodeLaws T}
    (buffer : list byte) (offset : nat) (m : MultiStreamItem T) rest :
  drop offset buffer = encode m ++ rest -> admissible m = true ->
  lazy_encode (MultiStreamItem T) (fst (multi_stream_item_lazy_decode buffer offset)) = Ok (encode m) /\
  multi_stream_item_try_from (fst (multi_stream_item_lazy_decode buffer offset)) = Some m /\
  drop (snd (multi_stream_item_lazy_decode buffer offset)) buffer = rest.
Proof.
  intros Hd Ha. unfold multi_stream_item_lazy_decode, multi_stream_item_try_from, lazy_decode, lazy_to_owned.
  cbn [fst snd lz_buffer lz_offset]. split_and!.
  - by apply (multi_stream_item_lazy_encode _ m rest).
  - by rewrite Hd, multi_stream_item_decode_encode.
  - rewrite <- (length_multi_stream_item_encode m). by apply drop_field.
Qed.

(** The [PartialEq] of [ResponseLazy] agrees with equality of the
    responses: two views of encoded responses compare equal exactly when
    the responses [TryFrom] decodes from them are equal (for a payload
    type whose views compare the same way). *)
Theorem response_views_equal_iff {T} `{CodecLaws T} `{!EqDecision T} `{!LazyEq T} `{!LazyEqLaws T}
    (v w : LazyView) (a b : Response T) ra rb :
  drop (lz_offset v) (lz_buffer v) = encode a ++ ra -> drop (lz_offset w) (lz_buffer w) = encode b ++ rb ->
  admissible a = true -> admissible b = true ->
  lazy_eq (Response T) v w = Ok true <-> response_try_from (T := T) v = response_try_from (T := T) w.
Proof.
  intros Hv Hw Ha Hb. rewrite (lazy_eq_spec v w a b ra rb) by done.
  unfold response_try_from, lazy_to_owned. rewrite Hv, Hw, !decode_encode by done. cbn.
  split.
  - intros [= Heq]. apply bool_decide_eq_true in Heq. by subst.
  - intros [= ->]. by rewrite bool_decide_true.
Qed.

(** [ResponseSender::send] writes a [ResponseGen] whose payload is of
    any type compatible with the response type: when the payload encodes
    to the bytes of a response payload [t], the receiver decodes the
    [Response] with the same request id, requester and requester worker
    and payload [t]. *)
Theorem response_gen_compatible {P T} `{Codec P} `{CodecLaws T} (g : Response P) (t : T) rest :
  encode (resp_payload g) = encode t -> admissible t = true ->
  fits 32 (resp_request_id g) = true -> fits 64 (resp_requester g) = true ->
  fits 16 (resp_requester_worker g) = true ->
  decode (ResponseGen_encode g ++ rest)
  = Some (Build_Response (resp_request_id g) (resp_requester g) (resp_requester_worker g) t, rest).
Proof.
  intros Hp Ht Hi Hr Hw. unfold ResponseGen_encode. rewrite Hp.
  assert (admissible (Build_Response (resp_request_id g) (resp_requester g) (resp_requester_worker g) t)
          = true) as Ha.
  { change (fits 32 (resp_request_id g) && fits 64 (resp_requester g) && fits 16 (resp_requester_worker g)
            && admissible t = true). by rewrite Hi, Hr, Hw, Ht. }
  rewrite <- (decode_encode _ rest Ha). f_equal.
Qed.

(** ** Witnesses *)

(** Item 9 of stream (5, 2), carrying a unit payload, one byte into a buffer. *)
Lemma multi_stream_item_lazy_forward_witness :
  let m := Build_MultiStreamItem {| owner := 5; id := 2 |} 9 (Some tt) in
  let buffer := [Byte.x07] ++ encode m ++ [Byte.x09] in
  lazy_encode (MultiStreamItem unit) (fst (multi_stream_item_lazy_decode (T := unit) buffer 1)) = Ok (encode m) /\
  multi_stream_item_try_from (T := unit) (fst (multi_stream_item_lazy_decode (T := unit) buffer 1)) = Some m /\
  drop (snd (multi_stream_item_lazy_decode (T := unit) buffer 1)) buffer = [Byte.x09].
Proof.
  intros m buffer. apply (multi_stream_item_lazy_forward buffer 1 m [Byte.x09]); reflexivity.
Defined.

Lemma response_views_equal_iff_witness :
  lazy_eq (Response unit) {| lz_buffer := encode (Build_Response 3 7 1 tt); lz_offset := 0 |}
    {| lz_buffer := [Byte.x00] ++ encode (Build_Response 3 7 2 tt); lz_offset := 1 |} = Ok true
  <-> response_try_from (T := unit) {| lz_buffer := encode (Build_Response 3 7 1 tt); lz_offset := 0 |}
      = response_try_from (T := unit) {| lz_buffer := [Byte.x00] ++ encode (Build_Response 3 7 2 tt); lz_offset := 1 |}.
Proof.
  apply (response_views_equal_iff _ _ (Build_Response 3 7 1 tt) (Build_Response 3 7 2 tt) [] []);
    [by rewrite app_nil_r|by rewrite app_nil_r|reflexivity|reflexivity].
Defined.

Lemma response_gen_compatible_witness :
  decode (A := Response unit) (ResponseGen_encode (Build_Response 3 7 1 tt) ++ [Byte.x05])
  = Some (Build_Response 3 7 1 tt, [Byte.x05]).
Proof. apply (response_gen_compatible (Build_Response 3 7 1 tt) tt); reflexivity. Defined.

