(* ===== verification/Streams.v ===== *)
(** * Streams: the stream and multi-stream roles of std-modrpc

    Models src/std-modrpc/rust/src/role_impls/multi_stream_receiver.rs,
    multi_stream_sender.rs and stream_receiver.rs.  A multi-stream
    sender numbers the items of a stream 0, 1, ... and ends it with an
    item whose payload is [None].  The receiver's inline handler puts
    each arriving item in the reordering heap of its stream
    ([StreamState::handle_item]), hands the next item in sequence to the
    stream's one-slot local queue, and drops the stream from the broker
    once every item up to the end marker has arrived; the consumer
    ([ReceiveMultiStream]) takes the queued packet or pops the heap
    ([try_pop]).  The single-stream [StreamReceiver] has its own heap and
    a 64-slot queue drained by a spawned task.

    [BinaryHeap<Reverse<_>>] is a list sorted by sequence number
    ([heap_push] inserts after the items with the same number; the order
    of equal items is not specified by [BinaryHeap]).  The
    [Rc<StreamState>] shared by the broker and the consumer is a cell of
    a store ([ms_store]), so that the broker can forget a stream that
    its consumer still drains.  Sequence numbers are [u64]; they stay far
    below 2^64 and are unbounded integers here. *)

From Stdlib Require Import Sorted.
From S2P Require Import Prelude Codec PacketProcessor PacketSender Proto.
Local Open Scope Z_scope.

(** ** Reordering heaps *)

(** [BinaryHeap::push] on a min-heap ordered by [key]. *)
Fixpoint heap_push {A} (key : A -> Z) (x : A) (h : list A) : list A :=
  match h with
  | [] => [x]
  | y :: h' => if key x <? key y then x :: h else y :: heap_push key x h'
  end.

(** [localq::mpsc::Sender::try_send] on a channel of [capacity] slots:
    the new buffer, or [None] when it is full. *)
Definition queue_try_send (capacity : nat) (queue : list Packet) (p : Packet)
    : option (list Packet) :=
  if decide (length queue < capacity)%nat then Some (queue ++ [p]) else None.

(** ** Multi-stream receiver: the state of one stream *)

Record OrderedItem := { oi_seq : Z; oi_shutdown : bool; oi_packet : Packet }.

(** [new_stream] makes a channel of one slot. *)
Definition STREAM_QUEUE_CAPACITY : nat := 1.

Record StreamState := {
  heap : list OrderedItem;
  first_seq : Z;
  last_seq : option Z;
  received_count : Z;
  next_seq : option Z;
  local_queue : list Packet;  (* the buffer of the channel behind local_queue_tx *)
}.

Definition stream_state_new (next_seq : option Z) : StreamState :=
  {| heap := []; first_seq := 0; last_seq := None; received_count := 0;
     next_seq := next_seq; local_queue := [] |}.

Definition with_first_seq (st : StreamState) (first : Z) : StreamState :=
  {| heap := heap st; first_seq := first; last_seq := last_seq st;
     received_count := received_count st; next_seq := next_seq st; local_queue := local_queue st |}.

(** The [while let] loop of [handle_item]: [nseq] is the local copy of
    the next sequence number, read once before the loop. *)
Fixpoint deliver (nseq : Z) (h : list OrderedItem) (queue : list Packet) (nx : option Z)
    : list OrderedItem * list Packet * option Z :=
  match h with
  | it :: rest =>
      if decide (oi_seq it = nseq) then
        match queue_try_send STREAM_QUEUE_CAPACITY queue (oi_packet it) with
        | None => (heap_push oi_seq it rest, queue, nx)
        | Some queue' => deliver nseq rest queue' (Some (nseq + 1))
        end
      else (h, queue, nx)
  | [] => (h, queue, nx)
  end.

(** [StreamState::handle_item]; the flag says the stream is finished. *)
Definition handle_item (seq : Z) (shutdown : bool) (packet : Packet) (st : StreamState)
    : StreamState * bool :=
  let '(nseq, st) :=
    match next_seq st with
    | Some n => (n, st)
    | None => (seq, with_first_seq st seq)
    end in
  if seq <? nseq then (st, false)
  else
    let h := heap_push oi_seq {| oi_seq := seq; oi_shutdown := shutdown; oi_packet := packet |}
               (heap st) in
    let received := received_count st + 1 in
    let last := if shutdown then Some seq else last_seq st in
    let '(h, queue, nx) := deliver nseq h (local_queue st) (next_seq st) in
    ({| heap := h; first_seq := first_seq st; last_seq := last; received_count := received;
        next_seq := nx; local_queue := queue |},
     match last with
     | Some l => bool_decide (l - first_seq st + 1 = received)
     | None => false
     end).

(** [StreamState::try_pop]. *)
Definition try_pop (st : StreamState) : StreamState * option Packet :=
  match heap st with
  | [] => (st, None)
  | it :: rest =>
      let '(n, st) :=
        match next_seq st with
        | Some n => (n, st)
        | None => (oi_seq it, with_first_seq st (oi_seq it))
        end in
      if decide (oi_seq it = n) then
        ({| heap := rest; first_seq := first_seq st; last_seq := last_seq st;
            received_count := received_count st; next_seq := Some (n + 1);
            local_queue := local_queue st |}, Some (oi_packet it))
      else (st, None)
  end.

(** [ReceiveMultiStream::try_next_packet]: the queued packet, else the
    heap.  The first poll of [next_packet] does the same and is pending
    when both are empty. *)
Definition try_next_packet (st : StreamState) : StreamState * option Packet :=
  match local_queue st with
  | p :: q =>
      ({| heap := heap st; first_seq := first_seq st; last_seq := last_seq st;
          received_count := received_count st; next_seq := next_seq st; local_queue := q |},
       Some p)
  | [] => try_pop st
  end.

(** ** Multi-stream receiver: the broker and its handler *)

Record MultiStreamReceiver := {
  ms_streams : gmap Z nat;          (* BrokerState.streams: stream id -> Rc<StreamState> *)
  ms_store : gmap nat StreamState;  (* the Rc<StreamState> cells *)
  ms_next_cell : nat;
}.

Definition multi_stream_receiver_new : MultiStreamReceiver :=
  {| ms_streams := ∅; ms_store := ∅; ms_next_cell := 0 |}.

(** [ReceiveMultiStream]: the stream id and its cell. *)
Record ReceiveMultiStream := { rms_stream_id : MultiStreamId; rms_state : nat }.

(** [MultiStreamReceiver::new_stream]; a stream of the same id already
    in the broker is replaced. *)
Definition new_stream (stream_id : MultiStreamId) (next_seq : option Z) (r : MultiStreamReceiver)
    : MultiStreamReceiver * ReceiveMultiStream :=
  let cell := ms_next_cell r in
  ({| ms_streams := <[Proto.id stream_id := cell]> (ms_streams r);
      ms_store := <[cell := stream_state_new next_seq]> (ms_store r);
      ms_next_cell := S cell |},
   {| rms_stream_id := stream_id; rms_state := cell |}).

Section Handler.
Context {T : Type} `{Codec T}.

(** The closure [MultiStreamReceiverBuilder::build] installs with
    [inline_untyped]: it gets the whole packet, header included. *)
Definition multi_stream_receiver_handle (packet : Packet) (r : MultiStreamReceiver)
    : result MultiStreamReceiver :=
  if decide (length packet < header_length)%nat
  then Panic "range start index out of range for slice"
  else
    let v := fst (lazy_decode (A := MultiStreamItem T) (drop header_length packet) 0) in
    match multi_stream_item_lazy_seq v,
          multi_stream_item_lazy_stream_id v ≫= multi_stream_id_lazy_id,
          multi_stream_item_lazy_payload (T := T) v with
    | Some seq, Some stream_id, Some payload =>
        match ms_streams r !! stream_id ≫= fun cell => (cell,.) <$> ms_store r !! cell with
        | None => Ok r
        | Some (cell, st) =>
            let '(st, done) := handle_item seq (bool_decide (payload = None)) packet st in
            Ok {| ms_streams := if done then delete stream_id (ms_streams r) else ms_streams r;
                  ms_store := <[cell := st]> (ms_store r);
                  ms_next_cell := ms_next_cell r |}
        end
    | _, _, _ => Ok r
    end.

(** [ReceiveMultiStream::next] on the packet [next_packet] returned: the
    item's payload decoded to an owned value, [None] at the end marker,
    or a decode error ([None] here). *)
Definition receive_next (packet : Packet) : option (option T) :=
  let v := fst (lazy_decode (A := MultiStreamItem T) (drop header_length packet) 0) in
  payload ← multi_stream_item_lazy_payload (T := T) v;
  match payload with
  | None => Some None
  | Some pv => Some <$> lazy_to_owned (A := T) pv
  end.

(** [ReceiveMultiStream::collect] over the packets [next] returns in turn. *)
Fixpoint collect (packets : list Packet) : option (list T) :=
  match packets with
  | [] => Some []
  | p :: ps =>
      item ← receive_next p;
      match item with
      | None => Some []
      | Some x => (x ::.) <$> collect ps
      end
  end.

End Handler.

(** ** Multi-stream sender *)

Record SendMultiStream := { sms_stream_id : MultiStreamId; sms_next_seq : Z }.

(** [MultiStreamSender::new_stream]. *)
Definition sender_new_stream (stream_id : MultiStreamId) : SendMultiStream :=
  {| sms_stream_id := stream_id; sms_next_seq := 0 |}.

(** [SendMultiStream::send] ([try_send], [send_ok], [send_err] alike)
    with [Some input], and [end] with [None]: the item put on the event
    Tx, and the stream with its counter advanced. *)
Definition send_item {T} (payload : option T) (s : SendMultiStream)
    : SendMultiStream * MultiStreamItem T :=
  ({| sms_stream_id := sms_stream_id s; sms_next_seq := sms_next_seq s + 1 |},
   Build_MultiStreamItem (sms_stream_id s) (sms_next_seq s) payload).

(** ** Single-stream sender (stream_sender.rs) *)

(** [State]'s [next_seq] cell. *)
Record StreamSenderState := { ss_next_seq : Z }.

(** [StreamSenderBuilder::new]. *)
Definition stream_sender_new : StreamSenderState := {| ss_next_seq := 0 |}.

(** [StreamSender::send]: take the next sequence number before the
    await, then send [StreamItemGen { seq, payload }] on the event Tx. *)
Definition stream_sender_send {T} (payload : T) (st : StreamSenderState)
    : StreamSenderState * StreamItem T :=
  let seq := ss_next_seq st in
  ({| ss_next_seq := seq + 1 |}, Build_StreamItem seq payload).

(** ** Single-stream receiver *)

Record SRItem := { item_seq : Z; item_packet : Packet }.

(** [localq::mpsc::channel::<Packet>(64)]. *)
Definition STREAM_RECEIVER_QUEUE_CAPACITY : nat := 64.

Record StreamReceiverState := { sr_heap : list SRItem; sr_queue : list Packet }.

(** The drain loop of the handler: [next_seq] starts at 0 on every call;
    a packet the full queue refuses is dropped ([let _ = try_send]). *)
Fixpoint sr_drain (next_seq : Z) (h : list SRItem) (queue : list Packet)
    : list SRItem * list Packet :=
  match h with
  | it :: rest =>
      if decide (item_seq it = next_seq) then
        sr_drain (next_seq + 1) rest
          (default queue (queue_try_send STREAM_RECEIVER_QUEUE_CAPACITY queue (item_packet it)))
      else (h, queue)
  | [] => (h, queue)
  end.

Section StreamReceiver.
Context {T : Type} `{Codec T}.

(** The closure [StreamReceiverBuilder::build] installs with
    [inline_untyped]: it decodes the [StreamItemLazy] from the packet as
    it gets it ([decode_value] of a lazy view fails on fewer than
    [BASE_LEN] bytes), reads its [seq], pushes the packet and drains the
    heap from a [next_seq] of 0. *)
Definition stream_receiver_handle (packet : Packet) (st : StreamReceiverState)
    : StreamReceiverState :=
  if decide (base_len (A := StreamItem T) <= length packet)%nat then
    let v := fst (lazy_decode (A := StreamItem T) packet 0) in
    match stream_item_lazy_seq v with
    | None => st
    | Some seq =>
        let '(h, q) := sr_drain 0 (heap_push item_seq {| item_seq := seq; item_packet := packet |}
                                    (sr_heap st)) (sr_queue st) in
        {| sr_heap := h; sr_queue := q |}
    end
  else st.

(** The handler run on each packet of [packets] in turn, from the empty
    state [build] starts with. *)
Definition stream_receiver_run (packets : list Packet) : StreamReceiverState :=
  foldl (fun st p => stream_receiver_handle p st) {| sr_heap := []; sr_queue := [] |} packets.

(** One turn of the task spawned by [build]: the source and payload view
    handed to the handler, or [None] when a decode fails ([continue]). *)
Definition stream_receiver_consume (packet : Packet) : option (EndpointAddr * LazyView) :=
  '(header, _) ← decode (A := TransmitPacket) packet;
  let v := fst (lazy_decode (A := StreamItem T) (drop header_length packet) 0) in
  payload ← stream_item_lazy_payload (T := T) v;
  Some (source header, payload).

End StreamReceiver.

(** ** The consumer's view of one stream *)

Definition by_seq (a b : OrderedItem) : Prop := oi_seq a < oi_seq b.

(** Arrivals of items with fresh sequence numbers (the sender numbers
    them 0, 1, ...) interleaved with the consumer's pulls; the state
    records the items arrived so far (latest first) and the packets the
    consumer got. *)
Inductive ms_step : StreamState * list OrderedItem * list Packet ->
                    StreamState * list OrderedItem * list Packet -> Prop :=
| MsArrive st arr d seq shutdown packet :
    seq ∉ map oi_seq arr ->
    ms_step (st, arr, d)
      ((handle_item seq shutdown packet st).1,
       {| oi_seq := seq; oi_shutdown := shutdown; oi_packet := packet |} :: arr, d)
| MsPull st arr d st' p :
    try_next_packet st = (st', Some p) -> ms_step (st, arr, d) (st', arr, d ++ [p]).

(** [ps] holds the packets of the items [s0], [s0 + 1], ... in order. *)
Definition in_sequence (s0 : Z) (arr : list OrderedItem) (ps : list Packet) : Prop :=
  forall k, (k < length ps)%nat ->
  exists it, it ∈ arr /\ oi_seq it = s0 + Z.of_nat k /\ ps !! k = Some (oi_packet it).

(** The stream started at [s0]: what the consumer got and what waits in
    the queue are the items from [s0] on in order, and the heap holds
    exactly the arrived items past them, sorted. *)
Record ms_inv (s0 : Z) (st : StreamState) (arr : list OrderedItem) (d : list Packet) : Prop := {
  inv_next : next_seq st = Some (s0 + Z.of_nat (length (d ++ local_queue st)));
  inv_seq : in_sequence s0 arr (d ++ local_queue st);
  inv_heap : heap st ≡ₚ filter (fun it => s0 + Z.of_nat (length (d ++ local_queue st)) <= oi_seq it) arr;
  inv_sorted : StronglySorted by_seq (heap st);
  inv_nodup : NoDup (map oi_seq arr);
}.

(** The end marker [handle_item] last accepted, for a stream started at [s0]. *)
Fixpoint last_shutdown (s0 : Z) (arr : list OrderedItem) : option Z :=
  match arr with
  | [] => None
  | it :: arr' =>
      if oi_shutdown it && bool_decide (s0 <= oi_seq it) then Some (oi_seq it)
      else last_shutdown s0 arr'
  end.

(** The counters of a stream started by [new_stream(_, Some s0)]:
    [first_seq] keeps its initial 0, [received_count] counts the items
    accepted (those from [s0] on) and [last_seq] is the end marker. *)
Record ms_count_inv (s0 : Z) (st : StreamState) (arr : list OrderedItem) : Prop := {
  cnt_first : first_seq st = 0;
  cnt_received : received_count st = Z.of_nat (length (filter (fun it => s0 <= oi_seq it) arr));
  cnt_last : last_seq st = last_shutdown s0 arr;
}.

(** ** Examples *)

(** A stream started at 0 receives item 1 before item 0; its consumer
    then pulls twice. *)
(** The item [seq = 1] of a stream of [()] as [StreamSender] encodes it. *)
Definition ex_stream_item : list byte :=
  encode (A := StreamItem unit) {| si_seq := 1; si_payload := tt |}.

Definition ex_item (n : Z) (shutdown : bool) : OrderedItem :=
  {| oi_seq := n; oi_shutdown := shutdown; oi_packet := [byte_of n] |}.

Definition ex_ms_arrived : StreamState :=
  (handle_item 0 false [byte_of 0] (handle_item 1 false [byte_of 1] (stream_state_new (Some 0))).1).1.

Definition ex_ms_pulled : StreamState :=
  (try_next_packet (try_next_packet ex_ms_arrived).1).1.

(** ** Lemmas *)

(** *** Heaps *)

Lemma heap_push_perm {A} (key : A -> Z) x h : heap_push key x h ≡ₚ x :: h.
Proof.
  induction h as [|y h IH]; cbn; [done|]. case_match; [done|].
  rewrite IH. apply perm_swap.
Qed.

Lemma heap_push_min {A} (key : A -> Z) x h :
  Forall (fun y => key x < key y) h -> heap_push key x h = x :: h.
Proof. destruct h as [|y h]; cbn; [done|]. inversion 1; subst. by rewrite (proj2 (Z.ltb_lt _ _)). Qed.

Lemma heap_push_sorted {A} (key : A -> Z) x h :
  StronglySorted (fun a b => key a < key b) h -> Forall (fun y => key y <> key x) h ->
  StronglySorted (fun a b => key a < key b) (heap_push key x h).
Proof.
  induction 1 as [|y h Hh IH Hy]; intros Hne; cbn; [repeat constructor|].
  inversion Hne as [|? ? Hyx Hne']; subst. destruct (Z.ltb_spec (key x) (key y)).
  - constructor; [by constructor|]. constructor; [done|].
    eapply Forall_impl; [exact Hy|]. cbn. lia.
  - constructor; [by apply IH|]. rewrite (heap_push_perm key x h).
    constructor; [lia|done].
Qed.

(** The loop of [handle_item] on a sorted heap of distinct numbers moves
    at most the head to the queue. *)
Lemma deliver_sorted n it rest q nx :
  StronglySorted by_seq (it :: rest) ->
  deliver n (it :: rest) q nx
  = if decide (oi_seq it = n) then
      match q with
      | [] => (rest, [oi_packet it], Some (n + 1))
      | _ => (it :: rest, q, nx)
      end
    else (it :: rest, q, nx).
Proof.
  inversion 1 as [|? ? Hrest Hall]; subst. cbn. case_decide as Hn; [|done].
  unfold queue_try_send, STREAM_QUEUE_CAPACITY. destruct q as [|p q]; cbn.
  - rewrite decide_True by lia. destruct rest as [|it' rest']; cbn; [done|].
    inversion Hall as [|? ? Hlt]; subst. unfold by_seq in Hlt. by rewrite decide_False by lia.
  - rewrite decide_False by lia. by rewrite heap_push_min.
Qed.

(** *** The invariant *)

Lemma in_sequence_cons s0 arr ps it : in_sequence s0 arr ps -> in_sequence s0 (it :: arr) ps.
Proof. intros Hs k Hk. destruct (Hs k Hk) as (x & ? & ? & ?). exists x. split_and!; [by right|done|done]. Qed.

(** The item next in sequence leaves the heap for the consumer. *)
Lemma ms_advance s0 arr ps it rest :
  in_sequence s0 arr ps ->
  it :: rest ≡ₚ filter (fun x => s0 + Z.of_nat (length ps) <= oi_seq x) arr ->
  StronglySorted by_seq (it :: rest) ->
  oi_seq it = s0 + Z.of_nat (length ps) ->
  in_sequence s0 arr (ps ++ [oi_packet it])
  /\ rest ≡ₚ filter (fun x => s0 + Z.of_nat (length (ps ++ [oi_packet it])) <= oi_seq x) arr.
Proof.
  intros Hs Hperm Hsort Hit. rewrite length_app. cbn [length]. split.
  - intros k Hk. rewrite length_app in Hk. cbn in Hk. destruct (decide (k < length ps)%nat).
    + destruct (Hs k) as (x & ? & ? & ?); [done|]. exists x. by rewrite lookup_app_l.
    + assert (k = length ps) as -> by lia. exists it. split_and!; [|done|].
      * assert (it ∈ filter (fun x => s0 + Z.of_nat (length ps) <= oi_seq x) arr) as Hin
          by (rewrite <- Hperm; left). by apply list_elem_of_filter in Hin as [_ ?].
      * by rewrite list_lookup_middle.
  - inversion Hsort as [|? ? _ Hall]; subst.
    rewrite <- (list_filter_filter_l (fun x => s0 + Z.of_nat (length ps + 1) <= oi_seq x)
                 (fun x => s0 + Z.of_nat (length ps) <= oi_seq x)) by lia.
    rewrite <- Hperm, filter_cons_False by lia.
    rewrite filter_Forall_id; [done|]. eapply Forall_impl; [exact Hall|]. unfold by_seq. lia.
Qed.

Lemma ms_inv_init s0 : ms_inv s0 (stream_state_new (Some s0)) [] [].
Proof.
  split; cbn; [f_equal; lia|intros k Hk; cbn in Hk; lia|done|constructor|constructor].
Qed.

Lemma heap_fresh s0 st arr d seq :
  ms_inv s0 st arr d -> seq ∉ map oi_seq arr -> Forall (fun y => oi_seq y <> seq) (heap st).
Proof.
  intros Hinv Hfresh. apply Forall_forall. intros y Hy Heq. apply Hfresh.
  rewrite (inv_heap _ _ _ _ Hinv), list_elem_of_filter in Hy. apply list_elem_of_fmap.
  exists y. split; [done|]. apply Hy.
Qed.

Lemma ms_inv_arrive s0 st arr d seq shutdown packet :
  ms_inv s0 st arr d -> seq ∉ map oi_seq arr ->
  ms_inv s0 (handle_item seq shutdown packet st).1
    ({| oi_seq := seq; oi_shutdown := shutdown; oi_packet := packet |} :: arr) d.
Proof.
  intros Hinv Hfresh. pose proof (heap_fresh _ _ _ _ _ Hinv Hfresh) as Hfr.
  destruct Hinv as [Hn Hs Hh Hsort Hnd].
  set (it := {| oi_seq := seq; oi_shutdown := shutdown; oi_packet := packet |}).
  assert (Hnd' : NoDup (map oi_seq (it :: arr))) by (cbn; by constructor).
  unfold handle_item. rewrite Hn. cbn [fst]. fold it.
  destruct (Z.ltb_spec seq (s0 + Z.of_nat (length (d ++ local_queue st)))) as [Hlt|Hge].
  - split; [done|by apply in_sequence_cons| |done|done].
    rewrite filter_cons_False by (cbn; lia). done.
  - pose proof (heap_push_perm oi_seq it (heap st)) as Hp.
    pose proof (heap_push_sorted oi_seq it (heap st) Hsort Hfr) as Hsort'.
    assert (Hh' : heap_push oi_seq it (heap st)
                  ≡ₚ filter (fun x => s0 + Z.of_nat (length (d ++ local_queue st)) <= oi_seq x)
                       (it :: arr)) by (rewrite Hp, filter_cons_True by (cbn; lia); by rewrite Hh).
    destruct (heap_push oi_seq it (heap st)) as [|h0 rest] eqn:E;
      [by apply Permutation_nil_cons in Hp|].
    rewrite deliver_sorted by done.
    destruct (decide (oi_seq h0 = _)) as [Hh0|Hh0];
      [destruct (local_queue st) as [|q0 q] eqn:Hq|]; cbn [fst].
    + rewrite app_nil_r in *.
      destruct (ms_advance s0 (it :: arr) d h0 rest) as [Hs' Hr'];
        [by apply in_sequence_cons|done|done|done|].
      split; cbn; [f_equal; rewrite length_app; cbn; lia|done|done|by inversion Hsort'|done].
    + split; cbn; [done|by apply in_sequence_cons|done|done|done].
    + split; cbn; [done|by apply in_sequence_cons|done|done|done].
Qed.

Lemma ms_inv_pull s0 st arr d st' p :
  ms_inv s0 st arr d -> try_next_packet st = (st', Some p) -> ms_inv s0 st' arr (d ++ [p]).
Proof.
  intros [Hn Hs Hh Hsort Hnd]. unfold try_next_packet.
  destruct (local_queue st) as [|q0 q] eqn:Hq.
  - unfold try_pop. destruct (heap st) as [|h0 rest] eqn:Eh; [done|]. rewrite Hn. cbn.
    case_decide as Hh0; [|done]. intros [= <- <-]. rewrite app_nil_r in *.
    destruct (ms_advance s0 arr d h0 rest) as [Hs' Hr']; [done|done|done|done|].
    split; cbn; rewrite ?Hq, ?app_nil_r;
      [f_equal; rewrite length_app; cbn; lia|done|done|by inversion Hsort|done].
  - intros [= <- <-]. assert (E : (d ++ [q0]) ++ q = d ++ q0 :: q) by (by rewrite <- app_assoc).
    split; cbn; rewrite ?E; done.
Qed.

Lemma ms_step_inv s0 x y :
  ms_step x y -> ms_inv s0 x.1.1 x.1.2 x.2 -> ms_inv s0 y.1.1 y.1.2 y.2.
Proof. destruct 1; cbn; intros; [by apply ms_inv_arrive|by eapply ms_inv_pull]. Qed.

Lemma ms_reachable_inv s0 x :
  rtc ms_step (stream_state_new (Some s0), [], []) x -> ms_inv s0 x.1.1 x.1.2 x.2.
Proof.
  assert (Hgen : forall x y, rtc ms_step x y -> ms_inv s0 x.1.1 x.1.2 x.2 -> ms_inv s0 y.1.1 y.1.2 y.2).
  { induction 1 as [|a b c Hab _ IH]; [done|]. intros Hx. by eapply IH, ms_step_inv. }
  intros Hr. apply (Hgen _ _ Hr), ms_inv_init.
Qed.

(** The consumer never waits while the next item in sequence has arrived. *)
Lemma ms_progress s0 st arr d it :
  ms_inv s0 st arr d -> it ∈ arr -> oi_seq it = s0 + Z.of_nat (length d) ->
  exists st' p, try_next_packet st = (st', Some p).
Proof.
  intros [Hn Hs Hh Hsort Hnd] Hit Hseq. unfold try_next_packet.
  destruct (local_queue st) as [|q0 q] eqn:Hq; [|eauto]. rewrite app_nil_r in *.
  assert (Hin : it ∈ heap st) by (rewrite Hh; apply list_elem_of_filter; split; [lia|done]).
  unfold try_pop. destruct (heap st) as [|h0 rest] eqn:Eh; [inversion Hin|]. rewrite Hn. cbn.
  assert (Hh0 : h0 ∈ filter (fun x => s0 + Z.of_nat (length d) <= oi_seq x) arr)
    by (rewrite <- Hh; left).
  apply list_elem_of_filter in Hh0 as [Hge _].
  inversion Hsort as [|? ? _ Hall]; subst.
  rewrite decide_True; [eauto|].
  apply elem_of_cons in Hin as [->|Hin]; [lia|].
  eapply Forall_forall in Hall; [|exact Hin]. unfold by_seq in Hall. lia.
Qed.

Lemma in_sequence_app_l s0 arr d q : in_sequence s0 arr (d ++ q) -> in_sequence s0 arr d.
Proof.
  intros Hs k Hk. destruct (Hs k) as (x & ? & ? & ?); [rewrite length_app; lia|].
  exists x. by rewrite <- (lookup_app_l d q).
Qed.

(** *** Counting the items of a stream *)

Lemma ms_fresh_ge s0 st arr d seq :
  ms_inv s0 st arr d -> seq ∉ map oi_seq arr -> s0 <= seq ->
  s0 + Z.of_nat (length (d ++ local_queue st)) <= seq.
Proof.
  intros Hinv Hfresh Hs0. destruct (Z.le_gt_cases (s0 + Z.of_nat (length (d ++ local_queue st))) seq)
    as [|Hlt]; [done|exfalso].
  destruct (inv_seq _ _ _ _ Hinv (Z.to_nat (seq - s0))) as (it & Hit & Hseq & _); [lia|].
  apply Hfresh, list_elem_of_fmap. exists it. split; [lia|done].
Qed.

Lemma ms_count_arrive s0 st arr d seq shutdown packet :
  ms_inv s0 st arr d -> ms_count_inv s0 st arr -> seq ∉ map oi_seq arr ->
  ms_count_inv s0 (handle_item seq shutdown packet st).1
    ({| oi_seq := seq; oi_shutdown := shutdown; oi_packet := packet |} :: arr)
  /\ (handle_item seq shutdown packet st).2
     = if bool_decide (s0 <= seq) then
         match last_shutdown s0 ({| oi_seq := seq; oi_shutdown := shutdown; oi_packet := packet |} :: arr) with
         | Some l => bool_decide (l - 0 + 1 = Z.of_nat (length (filter (fun it => s0 <= oi_seq it)
                       ({| oi_seq := seq; oi_shutdown := shutdown; oi_packet := packet |} :: arr))))
         | None => false
         end
       else false.
Proof.
  intros Hinv [Hf Hr Hl] Hfresh. pose proof (inv_next _ _ _ _ Hinv) as Hn.
  unfold handle_item. rewrite Hn. cbn [fst snd last_shutdown oi_shutdown oi_seq].
  destruct (Z.ltb_spec seq (s0 + Z.of_nat (length (d ++ local_queue st)))) as [Hlt|Hge].
  - assert (seq < s0) by (destruct (Z.lt_ge_cases seq s0); [done|];
      pose proof (ms_fresh_ge _ _ _ _ _ Hinv Hfresh); lia).
    rewrite (bool_decide_false (s0 <= seq)) by lia. cbn [fst snd].
    split; [|done]. split; [done|by rewrite filter_cons_False by (cbn; lia)|].
    cbn. rewrite bool_decide_false by lia. by rewrite andb_false_r.
  - assert (s0 <= seq) by (destruct Hinv as [_ _ _ _ _]; lia).
    rewrite filter_cons_True, !bool_decide_true by (cbn; lia).
    destruct (deliver _ _ _ _) as [[h q] nx]. cbn [fst snd].
    rewrite andb_true_r, Hf, Hr, Hl, length_cons. split.
    + split; cbn; [done|rewrite decide_True by done; rewrite length_cons, Nat2Z.inj_succ; reflexivity|].
      rewrite bool_decide_true by lia. by rewrite andb_true_r.
    + destruct shutdown; [|destruct (last_shutdown s0 arr)]; try done; apply bool_decide_ext; lia.
Qed.

Lemma ms_count_pull s0 st arr d st' p :
  ms_inv s0 st arr d -> ms_count_inv s0 st arr -> try_next_packet st = (st', Some p) ->
  ms_count_inv s0 st' arr.
Proof.
  intros Hinv [Hf Hr Hl]. pose proof (inv_next _ _ _ _ Hinv) as Hn. unfold try_next_packet.
  destruct (local_queue st) as [|q0 q]; [|intros [= <- _]; by split].
  unfold try_pop. destruct (heap st) as [|h0 rest]; [done|]. rewrite Hn. cbn.
  case_decide; [|done]. intros [= <- _]. by split.
Qed.

Lemma ms_reachable_count s0 x :
  rtc ms_step (stream_state_new (Some s0), [], []) x ->
  ms_inv s0 x.1.1 x.1.2 x.2 /\ ms_count_inv s0 x.1.1 x.1.2.
Proof.
  assert (Hgen : forall a b, rtc ms_step a b ->
            ms_inv s0 a.1.1 a.1.2 a.2 /\ ms_count_inv s0 a.1.1 a.1.2 ->
            ms_inv s0 b.1.1 b.1.2 b.2 /\ ms_count_inv s0 b.1.1 b.1.2).
  { induction 1 as [|a b c Hab _ IH]; [done|]. intros [Hi Hc]. apply IH.
    destruct Hab as [st arr d seq sd p Hfresh|st arr d st' p Hpull]; cbn in *.
    - split; [by apply ms_inv_arrive|]. by apply (ms_count_arrive s0 st arr d).
    - split; [by eapply ms_inv_pull|]. by eapply ms_count_pull. }
  intros Hr. apply (Hgen _ _ Hr). split; [apply ms_inv_init|]. split; cbn; done.
Qed.

(** Distinct numbers in [a..b] are at most [b - a + 1], and all of them
    when they are that many. *)
Lemma range_count (L : list Z) a b :
  NoDup L -> (forall x, x ∈ L -> a <= x <= b) ->
  (length L <= Z.to_nat (b - a + 1))%nat
  /\ (length L = Z.to_nat (b - a + 1) -> forall k, a <= k <= b -> k ∈ L).
Proof.
  intros Hnd Hin. assert (Hsub : L ⊆+ seqZ a (b - a + 1)).
  { apply NoDup_submseteq; [done|]. intros x Hx. apply elem_of_seqZ. specialize (Hin x Hx). lia. }
  pose proof (submseteq_length _ _ Hsub) as Hle. rewrite length_seqZ in Hle. split; [done|].
  intros Heq k Hk.
  assert (Hp : L ≡ₚ seqZ a (b - a + 1))
    by (apply submseteq_length_Permutation; [done|rewrite length_seqZ; lia]).
  rewrite Hp. apply elem_of_seqZ. lia.
Qed.

Lemma range_full (L : list Z) a b :
  NoDup L -> (forall x, x ∈ L -> a <= x <= b) -> (forall k, a <= k <= b -> k ∈ L) ->
  length L = Z.to_nat (b - a + 1).
Proof.
  intros Hnd Hin Hall. destruct (range_count L a b Hnd Hin) as [Hle _].
  assert (Hsub : seqZ a (b - a + 1) ⊆+ L).
  { apply NoDup_submseteq; [apply NoDup_seqZ|]. intros x Hx%elem_of_seqZ. apply Hall. lia. }
  apply submseteq_length in Hsub. rewrite length_seqZ in Hsub. lia.
Qed.

Lemma NoDup_map_filter {A B} (f : A -> B) (P : A -> Prop) `{!forall x, Decision (P x)} l :
  NoDup (map f l) -> NoDup (map f (filter P l)).
Proof.
  induction l as [|x l IH]; [done|]. cbn [map]. inversion 1 as [|? ? Hx Hnd]; subst.
  rewrite filter_cons. case_decide; cbn [map]; [|by apply IH]. constructor; [|by apply IH].
  intros Hin. apply Hx. apply list_elem_of_fmap in Hin as (y & -> & Hy).
  apply list_elem_of_fmap. exists y. split; [done|]. by apply list_elem_of_filter in Hy as [_ ?].
Qed.

Lemma last_shutdown_stream s0 m arr :
  Forall (fun it => oi_shutdown it = true <-> oi_seq it = m) arr ->
  last_shutdown s0 arr = (if bool_decide (s0 <= m /\ m ∈ map oi_seq arr) then Some m else None).
Proof.
  induction 1 as [|it arr Hit _ IH]; cbn; [by rewrite bool_decide_false by set_solver|].
  destruct (oi_shutdown it) eqn:E; cbn.
  - assert (oi_seq it = m) as -> by (by apply Hit). destruct (decide (s0 <= m)).
    + rewrite (bool_decide_true (s0 <= m)) by done. rewrite bool_decide_true; [done|].
      split; [done|left].
    + rewrite (bool_decide_false (s0 <= m)) by done. cbn. rewrite IH.
      rewrite !bool_decide_false by (intros [? _]; lia). done.
  - rewrite IH. assert (oi_seq it <> m) by (intros Hm; apply Hit in Hm; congruence).
    rewrite (bool_decide_ext (s0 <= m /\ m ∈ oi_seq it :: map oi_seq arr) (s0 <= m /\ m ∈ map oi_seq arr)); [done|].
    split; intros [? Hin]; split; try done; [|by right].
    apply elem_of_cons in Hin as [?|?]; [lia|done].
Qed.

(** ** Theorems *)

(** C15: whatever the order in which the items of a stream arrive and
    however the consumer's pulls interleave with them, the k-th packet
    the consumer of a stream started at [s0] gets is the packet of the
    item numbered [s0 + k] -- in order, without gaps or repeats -- and the
    consumer never waits while the next item in sequence has arrived. *)
Theorem multi_stream_in_order s0 st arr d :
  rtc ms_step (stream_state_new (Some s0), [], []) (st, arr, d) ->
  in_sequence s0 arr d
  /\ (forall it, it ∈ arr -> oi_seq it = s0 + Z.of_nat (length d) ->
      exists st' p, try_next_packet st = (st', Some p)).
Proof.
  intros Hr. pose proof (ms_reachable_inv s0 _ Hr) as Hinv. cbn in Hinv. split.
  - eapply in_sequence_app_l, inv_seq, Hinv.
  - intros it. by apply ms_progress.
Qed.

(** *** The single-stream receiver *)

Lemma Forall_heap_push {A} (key : A -> Z) (P : A -> Prop) x h :
  P x -> Forall P h -> Forall P (heap_push key x h).
Proof. intros Hx. induction 1; cbn; [by constructor|]. case_match; [constructor; [done|by constructor]|by constructor]. Qed.

Lemma length_heap_push {A} (key : A -> Z) x h : length (heap_push key x h) = S (length h).
Proof. by rewrite (Permutation_length (heap_push_perm key x h)). Qed.

(** The 8 bytes at the start of a packet, read as a [u64], are at least
    the header's [payload_length] (its first two bytes). *)
Lemma packet_seq_field w :
  wire_packet_wf w = true ->
  exists seq, lazy_field 0 8 (packet_bytes w) = Some seq /\ payload_length (wp_header w) <= seq.
Proof.
  intros [Ha Hpl]%wire_packet_wf_spec.
  destruct (read_le_total 8 (packet_bytes w)) as (z & r & Hz); [rewrite length_packet_bytes; lia|].
  exists z. unfold lazy_field. rewrite drop_0. rewrite Hz. split; [done|].
  destruct (read_le_split 2 6 _ _ _ Hz) as (z1 & z2 & r1 & H1 & H2 & ->).
  apply read_le_inv in H2 as [[Hz2 _] _].
  change (admissible (wp_header w)) with
    (fits 16 (payload_length (wp_header w)) && fits 16 (infra_id (wp_header w))
     && fits 32 (plane_id (wp_header w)) && fits 32 (topic (wp_header w))
     && admissible (source (wp_header w))) in Ha.
  apply andb_prop in Ha as [Ha _]. apply andb_prop in Ha as [Ha _].
  apply andb_prop in Ha as [Ha _]. apply andb_prop in Ha as [Ha _].
  unfold packet_bytes in H1.
  change (encode (wp_header w)) with
    (le_bytes 2 (payload_length (wp_header w)) ++ le_bytes 2 (infra_id (wp_header w))
     ++ le_bytes 4 (plane_id (wp_header w)) ++ le_bytes 4 (topic (wp_header w))
     ++ encode (source (wp_header w))) in H1.
  rewrite <- app_assoc, read_le_bytes_fits in H1 by exact Ha. injection H1 as <- _. lia.
Qed.

Lemma sr_drain_stuck h q : Forall (fun it => item_seq it <> 0) h -> sr_drain 0 h q = (h, q).
Proof. destruct h; cbn; [done|]. inversion 1; subst. by rewrite decide_False. Qed.

Lemma stream_receiver_handle_stuck `{Codec T} st p :
  sr_queue st = [] -> Forall (fun it => item_seq it <> 0) (sr_heap st) ->
  (exists w, p = packet_bytes w /\ wire_packet_wf w = true /\
     (base_len (A := StreamItem T) <= length (wp_payload w))%nat) ->
  sr_queue (stream_receiver_handle (T := T) p st) = []
  /\ Forall (fun it => item_seq it <> 0) (sr_heap (stream_receiver_handle (T := T) p st))
  /\ length (sr_heap (stream_receiver_handle (T := T) p st)) = S (length (sr_heap st)).
Proof.
  intros Hq Hh (w & -> & Hwf & Hlen). destruct (packet_seq_field w Hwf) as (seq & Hseq & Hge).
  apply wire_packet_wf_spec in Hwf as [_ Hpl]. cbn [base_len StreamItem_codec] in Hlen.
  assert (Hseq0 : seq <> 0) by (destruct (wp_payload w); [cbn in Hlen; lia|cbn in Hpl; lia]).
  unfold stream_receiver_handle. rewrite decide_True by (rewrite length_packet_bytes; cbn; lia).
  unfold stream_item_lazy_seq, lazy_int. cbn [fst lazy_decode lz_offset lz_buffer].
  change (0 + 0)%nat with 0%nat. rewrite Hseq. rewrite sr_drain_stuck by (apply Forall_heap_push; [done|done]).
  cbn. rewrite Hq. split_and!; [done|by apply Forall_heap_push|apply length_heap_push].
Qed.

Lemma stream_receiver_fold_stuck `{Codec T} st packets :
  sr_queue st = [] -> Forall (fun it => item_seq it <> 0) (sr_heap st) ->
  Forall (fun p => exists w, p = packet_bytes w /\ wire_packet_wf w = true /\
    (base_len (A := StreamItem T) <= length (wp_payload w))%nat)
    packets ->
  sr_queue (foldl (fun st p => stream_receiver_handle (T := T) p st) st packets) = []
  /\ length (sr_heap (foldl (fun st p => stream_receiver_handle (T := T) p st) st packets))
     = (length (sr_heap st) + length packets)%nat.
Proof.
  intros Hq Hh Hps. revert st Hq Hh.
  induction Hps as [|p ps Hp _ IH]; intros st Hq Hh; cbn; [split; [done|lia]|].
  destruct (stream_receiver_handle_stuck (T := T) st p Hq Hh Hp) as (Hq' & Hh' & Hl).
  destruct (IH _ Hq' Hh') as [IH1 IH2]. split; [done|]. rewrite IH2, Hl. lia.
Qed.

(** C16: [StreamReceiver]'s handler decodes its [StreamItemLazy] from the
    packet as [inline_untyped] hands it over, header included, so the
    [seq] it reads is the first 8 bytes of the [TransmitPacket] header
    (at least the payload length), and its [next_seq] restarts at 0 on
    every packet.  On any sequence of well-formed packets whose payload
    is at least a stream item's [BASE_LEN] long -- every stream item is --
    it forwards nothing to the task that
    calls the handler, and its heap keeps every packet. *)
Theorem stream_receiver_never_forwards `{Codec T} packets :
  Forall (fun p => exists w, p = packet_bytes w /\ wire_packet_wf w = true /\
    (base_len (A := StreamItem T) <= length (wp_payload w))%nat)
    packets ->
  sr_queue (stream_receiver_run (T := T) packets) = []
  /\ length (sr_heap (stream_receiver_run (T := T) packets)) = length packets.
Proof. intros Hps. by apply (stream_receiver_fold_stuck {| sr_heap := []; sr_queue := [] |}). Qed.

(** for a stream whose items are numbered 0 to [m] with the end
    marker last, [handle_item] reports the stream finished -- and the
    broker drops it -- on the arrival that completes the items 0 to [m],
    provided the stream was started at 0; started at [s0 > 0] by
    [new_stream(_, Some s0)] it never does, because [first_seq] is then
    left at 0 while only the items from [s0] on are counted. *)
Theorem multi_stream_done_iff_complete s0 m st arr d seq shutdown packet :
  0 <= s0 ->
  rtc ms_step (stream_state_new (Some s0), [], []) (st, arr, d) ->
  Forall (fun it => 0 <= oi_seq it <= m /\ (oi_shutdown it = true <-> oi_seq it = m)) arr ->
  seq ∉ map oi_seq arr -> 0 <= seq <= m -> (shutdown = true <-> seq = m) ->
  (handle_item seq shutdown packet st).2 = true
  <-> s0 = 0 /\ (forall k, 0 <= k <= m -> k ∈ seq :: map oi_seq arr).
Proof.
  intros Hs0 Hr Harr Hfresh Hseq Hsd.
  destruct (ms_reachable_count s0 _ Hr) as [Hinv Hcnt]. cbn in Hinv, Hcnt.
  rewrite (proj2 (ms_count_arrive s0 st arr d seq shutdown packet Hinv Hcnt Hfresh)).
  set (it := {| oi_seq := seq; oi_shutdown := shutdown; oi_packet := packet |}).
  assert (HA : Forall (fun x => 0 <= oi_seq x <= m /\ (oi_shutdown x = true <-> oi_seq x = m))
                 (it :: arr)) by (constructor; [done|done]).
  rewrite (last_shutdown_stream s0 m (it :: arr))
    by (eapply Forall_impl; [exact HA|]; intros ? [_ ?]; done).
  assert (Hnd : NoDup (map oi_seq (it :: arr))) by (constructor; [done|apply (inv_nodup _ _ _ _ Hinv)]).
  set (F := filter (fun x => s0 <= oi_seq x) (it :: arr)).
  assert (HL : forall x, x ∈ map oi_seq F -> s0 <= x <= m).
  { intros x (y & -> & Hy)%list_elem_of_fmap. apply list_elem_of_filter in Hy as [Hy1 Hy2].
    eapply Forall_forall in HA; [|exact Hy2]. cbn in HA. lia. }
  destruct (range_count (map oi_seq F) s0 m (NoDup_map_filter _ _ _ Hnd) HL) as [Hle Hall].
  rewrite length_map in Hle, Hall. cbn [map].
  split.
  - case_bool_decide; [|done]. case_bool_decide as Hm; [|done]. intros Heq%bool_decide_eq_true.
    assert (s0 = 0) as -> by lia. split; [done|]. intros k Hk.
    specialize (Hall ltac:(lia) k Hk). apply list_elem_of_fmap in Hall as (y & -> & Hy).
    change (seq :: map oi_seq arr) with (map oi_seq (it :: arr)). apply list_elem_of_fmap. exists y. split; [done|]. by apply list_elem_of_filter in Hy as [_ ?].
  - intros [-> Hk]. rewrite bool_decide_true by lia.
    rewrite bool_decide_true by (split; [lia|apply Hk; lia]).
    apply bool_decide_eq_true_2.
    assert (HF : F = it :: arr).
    { apply filter_Forall_id. eapply Forall_impl; [exact HA|]. intros ? [? _]; lia. }
    rewrite HF. rewrite <- (length_map oi_seq).
    rewrite (range_full (map oi_seq (it :: arr)) 0 m Hnd); [lia| |done].
    intros x (y & -> & Hy)%list_elem_of_fmap. eapply Forall_forall in HA; [|exact Hy]. lia.
Qed.

(** ** Witnesses *)

Lemma ex_ms_run :
  rtc ms_step (stream_state_new (Some 0), [], [])
    (ex_ms_pulled, [ex_item 0 false; ex_item 1 false], [[byte_of 0]; [byte_of 1]]).
Proof.
  eapply rtc_l; [apply (MsArrive _ [] [] 1 false [byte_of 1]); set_solver|].
  eapply rtc_l; [apply (MsArrive _ [ex_item 1 false] [] 0 false [byte_of 0]); set_solver|].
  eapply rtc_l; [apply (MsPull _ _ _ (try_next_packet ex_ms_arrived).1 [byte_of 0]);
                 vm_compute; reflexivity|].
  eapply rtc_l; [apply (MsPull _ _ _ ex_ms_pulled [byte_of 1]); vm_compute; reflexivity|].
  apply rtc_refl.
Qed.

Lemma multi_stream_in_order_witness :
  in_sequence 0 [ex_item 0 false; ex_item 1 false] [[byte_of 0]; [byte_of 1]]
  /\ (forall it, it ∈ [ex_item 0 false; ex_item 1 false] ->
       oi_seq it = 0 + Z.of_nat (length [[byte_of 0]; [byte_of 1]]) ->
       exists st' p, try_next_packet ex_ms_pulled = (st', Some p)).
Proof. exact (multi_stream_in_order 0 _ _ _ ex_ms_run). Defined.

Lemma stream_receiver_never_forwards_witness :
  sr_queue (stream_receiver_run (T := unit) [packet_bytes (example_packet 8 ex_stream_item)]) = []
  /\ length (sr_heap (stream_receiver_run (T := unit) [packet_bytes (example_packet 8 ex_stream_item)]))
     = length [packet_bytes (example_packet 8 ex_stream_item)].
Proof.
  apply (stream_receiver_never_forwards (T := unit)). constructor; [|constructor].
  exists (example_packet 8 ex_stream_item). split_and!; [done|vm_compute; reflexivity|vm_compute; lia].
Defined.

(** Item 0 has arrived; the end marker 1 completes the stream. *)
Lemma multi_stream_done_iff_complete_witness :
  (handle_item 1 true [byte_of 1]
     (handle_item 0 false [byte_of 0] (stream_state_new (Some 0))).1).2 = true
  <-> 0 = 0 /\ (forall k, 0 <= k <= 1 -> k ∈ 1 :: map oi_seq [ex_item 0 false]).
Proof.
  apply (multi_stream_done_iff_complete 0 1 _ [ex_item 0 false] []).
  - lia.
  - eapply rtc_l; [apply (MsArrive _ [] [] 0 false [byte_of 0]); set_solver|]. apply rtc_refl.
  - repeat constructor; cbn; lia || done.
  - set_solver.
  - lia.
  - done.
Defined.
