(* ===== verification/EndpointProto.v ===== *)
(** * EndpointProto: the generated views of endpoint_proto.rs

    src/crates/modrpc/src/endpoint_proto.rs is generated code of the same
    shape as std-modrpc's proto.rs (see Proto.v): for [EndpointAddr],
    [PacketBundle], [TransmitPacket] and [PlaneHandshake<T>] it has the
    owned struct and codec (the first three are in Codec.v), a [...Gen]
    struct whose fields may be any compatible encoders, and a [...Lazy]
    view with field accessors, an [Encode] that re-reads every field,
    a [Decode] that only advances the cursor, [TryFrom] and [PartialEq].
    This file models the views, the generators and [PlaneHandshake], and
    proves the view laws: re-encoding a view of an encoded value writes
    exactly its bytes, and two views are equal exactly when the values
    they decode to are. *)

From S2P Require Import Prelude Codec Proto.
Local Open Scope Z_scope.

(** ** [EndpointAddr] *)

Definition endpoint_addr_lazy_endpoint (v : LazyView) : option Z := lazy_int 8 v 0.

#[export] Instance EndpointAddr_lazy : LazyEncode EndpointAddr := fun v =>
  endpoint ← unwrap (endpoint_addr_lazy_endpoint v);
  Ok (le_bytes 8 endpoint).

Definition EndpointAddrGen_encode (g : EndpointAddr) : list byte := le_bytes 8 (endpoint g).

Definition endpoint_addr_lazy_decode (buffer : list byte) (offset : nat) : LazyView * nat :=
  lazy_decode (A := EndpointAddr) buffer offset.
Definition endpoint_addr_try_from (v : LazyView) : option EndpointAddr := lazy_to_owned v.

#[export] Instance EndpointAddr_lazy_eq : LazyEq EndpointAddr := fun v w =>
  lazy_and_int (endpoint_addr_lazy_endpoint v) (endpoint_addr_lazy_endpoint w) (Ok true).

(** ** [PacketBundle] *)

Definition packet_bundle_lazy_channel_id (v : LazyView) : option Z := lazy_int 4 v 0.
Definition packet_bundle_lazy_length (v : LazyView) : option Z := lazy_int 2 v 4.

#[export] Instance PacketBundle_lazy : LazyEncode PacketBundle := fun v =>
  channel_id ← unwrap (packet_bundle_lazy_channel_id v);
  length ← unwrap (packet_bundle_lazy_length v);
  Ok (le_bytes 4 channel_id ++ le_bytes 2 length).

Definition PacketBundleGen_encode (g : PacketBundle) : list byte :=
  le_bytes 4 (channel_id g) ++ le_bytes 2 (bundle_length g).

Definition packet_bundle_lazy_decode (buffer : list byte) (offset : nat) : LazyView * nat :=
  lazy_decode (A := PacketBundle) buffer offset.
Definition packet_bundle_try_from (v : LazyView) : option PacketBundle := lazy_to_owned v.

#[export] Instance PacketBundle_lazy_eq : LazyEq PacketBundle := fun v w =>
  lazy_and_int (packet_bundle_lazy_channel_id v) (packet_bundle_lazy_channel_id w)
    (lazy_and_int (packet_bundle_lazy_length v) (packet_bundle_lazy_length w) (Ok true)).

(** ** [TransmitPacket] *)

Definition transmit_packet_lazy_payload_length (v : LazyView) : option Z := lazy_int 2 v 0.
Definition transmit_packet_lazy_infra_id (v : LazyView) : option Z := lazy_int 2 v 2.
Definition transmit_packet_lazy_plane_id (v : LazyView) : option Z := lazy_int 4 v 4.
Definition transmit_packet_lazy_topic (v : LazyView) : option Z := lazy_int 4 v 8.
Definition transmit_packet_lazy_source (v : LazyView) : option LazyView :=
  lazy_sub (A := EndpointAddr) v 12.

#[export] Instance TransmitPacket_lazy : LazyEncode TransmitPacket := fun v =>
  payload_length ← unwrap (transmit_packet_lazy_payload_length v);
  infra_id ← unwrap (transmit_packet_lazy_infra_id v);
  plane_id ← unwrap (transmit_packet_lazy_plane_id v);
  topic ← unwrap (transmit_packet_lazy_topic v);
  source ← unwrap (transmit_packet_lazy_source v);
  source ← lazy_encode EndpointAddr source;
  Ok (le_bytes 2 payload_length ++ le_bytes 2 infra_id ++ le_bytes 4 plane_id
      ++ le_bytes 4 topic ++ source).

(** [TransmitPacketGen<Source>]: the source may be any encoder compatible
    with [EndpointAddr]. *)
Record TransmitPacketGen (S : Type) := {
  tpg_payload_length : Z;
  tpg_infra_id : Z;
  tpg_plane_id : Z;
  tpg_topic : Z;
  tpg_source : S;
}.
Arguments tpg_payload_length {S}. Arguments tpg_infra_id {S}. Arguments tpg_plane_id {S}.
Arguments tpg_topic {S}. Arguments tpg_source {S}. Arguments Build_TransmitPacketGen {S}.

Definition TransmitPacketGen_encode {S} `{Codec S} (g : TransmitPacketGen S) : list byte :=
  le_bytes 2 (tpg_payload_length g) ++ le_bytes 2 (tpg_infra_id g) ++ le_bytes 4 (tpg_plane_id g)
  ++ le_bytes 4 (tpg_topic g) ++ encode (tpg_source g).

Definition transmit_packet_lazy_decode (buffer : list byte) (offset : nat) : LazyView * nat :=
  lazy_decode (A := TransmitPacket) buffer offset.
Definition transmit_packet_try_from (v : LazyView) : option TransmitPacket := lazy_to_owned v.

#[export] Instance TransmitPacket_lazy_eq : LazyEq TransmitPacket := fun v w =>
  lazy_and_int (transmit_packet_lazy_payload_length v) (transmit_packet_lazy_payload_length w)
    (lazy_and_int (transmit_packet_lazy_infra_id v) (transmit_packet_lazy_infra_id w)
      (lazy_and_int (transmit_packet_lazy_plane_id v) (transmit_packet_lazy_plane_id w)
        (lazy_and_int (transmit_packet_lazy_topic v) (transmit_packet_lazy_topic w)
          (lazy_eq_sub (A := EndpointAddr) (transmit_packet_lazy_source v)
             (transmit_packet_lazy_source w))))).

(** ** [PlaneHandshake<T>] *)

Record PlaneHandshake (T : Type) := {
  ph_plane_id : Z;  (* u32 *)
  ph_endpoint_addr : EndpointAddr;
  ph_init : T;
}.
Arguments ph_plane_id {T}. Arguments ph_endpoint_addr {T}. Arguments ph_init {T}.
Arguments Build_PlaneHandshake {T}.

Section PlaneHandshakeDefs.
Context {T : Type} `{Codec T}.

#[export] Instance PlaneHandshake_codec : Codec (PlaneHandshake T) := {
  base_len := 12 + @base_len T _;
  admissible h := fits 32 (ph_plane_id h) && admissible (ph_endpoint_addr h) && admissible (ph_init h);
  encode h := le_bytes 4 (ph_plane_id h) ++ encode (ph_endpoint_addr h) ++ encode (ph_init h);
  decode bs :=
    '(plane_id, bs) ← read_le 4 bs;
    '(endpoint_addr, bs) ← decode bs;
    '(init, bs) ← decode bs;
    Some (Build_PlaneHandshake plane_id endpoint_addr init, bs);
}.

Definition plane_handshake_lazy_plane_id (v : LazyView) : option Z := lazy_int 4 v 0.
Definition plane_handshake_lazy_endpoint_addr (v : LazyView) : option LazyView :=
  lazy_sub (A := EndpointAddr) v 4.
Definition plane_handshake_lazy_init (v : LazyView) : option LazyView := lazy_sub (A := T) v 12.

#[export] Instance PlaneHandshake_lazy `{LazyEncode T} : LazyEncode (PlaneHandshake T) := fun v =>
  plane_id ← unwrap (plane_handshake_lazy_plane_id v);
  endpoint_addr ← unwrap (plane_handshake_lazy_endpoint_addr v);
  init ← unwrap (plane_handshake_lazy_init v);
  endpoint_addr ← lazy_encode EndpointAddr endpoint_addr;
  init ← lazy_encode T init;
  Ok (le_bytes 4 plane_id ++ endpoint_addr ++ init).

Definition plane_handshake_lazy_decode (buffer : list byte) (offset : nat) : LazyView * nat :=
  lazy_decode (A := PlaneHandshake T) buffer offset.
Definition plane_handshake_try_from (v : LazyView) : option (PlaneHandshake T) := lazy_to_owned v.

#[export] Instance PlaneHandshake_lazy_eq `{LazyEq T} : LazyEq (PlaneHandshake T) := fun v w =>
  lazy_and_int (plane_handshake_lazy_plane_id v) (plane_handshake_lazy_plane_id w)
    (lazy_eq_sub (A := EndpointAddr) (plane_handshake_lazy_endpoint_addr v)
       (plane_handshake_lazy_endpoint_addr w) ≫= fun same : bool =>
     if same then lazy_eq_sub (A := T) (plane_handshake_lazy_init v) (plane_handshake_lazy_init w)
     else Ok false).
End PlaneHandshakeDefs.

(** [PlaneHandshakeGen<TEndpointAddr, Init>]. *)
Record PlaneHandshakeGen (E I : Type) := {
  phg_plane_id : Z;
  phg_endpoint_addr : E;
  phg_init : I;
}.
Arguments phg_plane_id {E I}. Arguments phg_endpoint_addr {E I}. Arguments phg_init {E I}.
Arguments Build_PlaneHandshakeGen {E I}.

Definition PlaneHandshakeGen_encode {E I} `{Codec E} `{Codec I} (g : PlaneHandshakeGen E I)
    : list byte :=
  le_bytes 4 (phg_plane_id g) ++ encode (phg_endpoint_addr g) ++ encode (phg_init g).

(** ** Lemmas *)

#[export] Instance TransmitPacket_eq_dec : EqDecision TransmitPacket.
Proof. solve_decision. Defined.

#[export] Instance EndpointAddr_lazy_laws : LazyEncodeLaws EndpointAddr.
Proof.
  intros v [e] rest Hd Ha. cbn in Ha, Hd.
  unfold lazy_encode, EndpointAddr_lazy, endpoint_addr_lazy_endpoint.
  by rewrite (lazy_int_at 8 v 0 e rest) by (rewrite ?Nat.add_0_r; done).
Qed.

#[export] Instance PacketBundle_lazy_laws : LazyEncodeLaws PacketBundle.
Proof.
  intros v [c l] rest Hd Ha. cbn in Ha, Hd. split_admissible.
  unfold lazy_encode, PacketBundle_lazy, packet_bundle_lazy_channel_id, packet_bundle_lazy_length.
  rewrite (lazy_int_at 4 v 0 c (le_bytes 2 l ++ rest)) by (rewrite ?Nat.add_0_r; done).
  lazy_simpl.
  by rewrite (lazy_int_at 2 v 4 l rest) by (done || (apply (drop_at v 4 (le_bytes 4 c)); done)).
Qed.

#[export] Instance TransmitPacket_lazy_laws : LazyEncodeLaws TransmitPacket.
Proof.
  intros v [pl ii pi t s] rest Hd Ha. codec_simpl in *. split_admissible.
  rewrite <- ?app_assoc in Hd.
  unfold lazy_encode at 1, TransmitPacket_lazy, transmit_packet_lazy_payload_length,
    transmit_packet_lazy_infra_id, transmit_packet_lazy_plane_id, transmit_packet_lazy_topic,
    transmit_packet_lazy_source.
  rewrite (lazy_int_at 2 v 0 pl (le_bytes 2 ii ++ le_bytes 4 pi ++ le_bytes 4 t ++ encode s ++ rest))
    by (rewrite ?Nat.add_0_r; done).
  lazy_simpl.
  rewrite (lazy_int_at 2 v 2 ii (le_bytes 4 pi ++ le_bytes 4 t ++ encode s ++ rest))
    by (done || (apply (drop_at v 2 (le_bytes 2 pl)); done)).
  lazy_simpl.
  rewrite (lazy_int_at 4 v 4 pi (le_bytes 4 t ++ encode s ++ rest))
    by (done || (apply (drop_at v 4 (le_bytes 2 pl ++ le_bytes 2 ii)); [by rewrite <- app_assoc|done])).
  lazy_simpl.
  rewrite (lazy_int_at 4 v 8 t (encode s ++ rest))
    by (done || (apply (drop_at v 8 (le_bytes 2 pl ++ le_bytes 2 ii ++ le_bytes 4 pi));
                 [by rewrite <- !app_assoc|done])).
  lazy_simpl. rewrite (lazy_encode_encode _ s rest); [done| |done]. cbn.
  apply (drop_at v 12 (le_bytes 2 pl ++ le_bytes 2 ii ++ le_bytes 4 pi ++ le_bytes 4 t));
    [by rewrite <- !app_assoc|done].
Qed.

#[export] Instance EndpointAddr_lazy_eq_laws : LazyEqLaws EndpointAddr.
Proof.
  intros v w [e] [e'] ra rb Hv Hw Ha Hb. cbn in Ha, Hb, Hv, Hw.
  unfold lazy_eq, EndpointAddr_lazy_eq, endpoint_addr_lazy_endpoint.
  rewrite (lazy_and_int_at 8 v w 0 e e' ra rb) by (rewrite ?Nat.add_0_r; done).
  destruct (decide (e = e')) as [->|He]; [by rewrite bool_decide_true|].
  rewrite bool_decide_false; [done|congruence].
Qed.

Section PlaneHandshakeLaws.
Context {T : Type} `{CodecLaws T}.

#[export] Instance PlaneHandshake_laws : CodecLaws (PlaneHandshake T).
Proof. codec_laws. Qed.

#[export] Instance PlaneHandshake_lazy_laws `{!LazyEncode T} `{!LazyEncodeLaws T}
  : LazyEncodeLaws (PlaneHandshake T).
Proof.
  intros v [pi e i] rest Hd Ha. codec_simpl in *. split_admissible.
  rewrite <- ?app_assoc in Hd.
  unfold lazy_encode at 1, PlaneHandshake_lazy, plane_handshake_lazy_plane_id,
    plane_handshake_lazy_endpoint_addr, plane_handshake_lazy_init.
  rewrite (lazy_int_at 4 v 0 pi (encode e ++ encode i ++ rest)) by (rewrite ?Nat.add_0_r; done).
  lazy_simpl.
  rewrite (lazy_encode_encode _ e (encode i ++ rest)); [|by apply (drop_at v 4 (le_bytes 4 pi))|done].
  lazy_simpl. rewrite (lazy_encode_encode _ i rest); [done| |done]. cbn.
  apply (drop_at v 12 (le_bytes 4 pi ++ encode e)); [by rewrite <- app_assoc|].
  by rewrite length_app, length_le_bytes, length_encode.
Qed.
End PlaneHandshakeLaws.

#[export] Instance PacketBundle_eq_dec : EqDecision PacketBundle.
Proof. solve_decision. Defined.

#[export] Instance PacketBundle_lazy_eq_laws : LazyEqLaws PacketBundle.
Proof.
  intros v w [c l] [c' l'] ra rb Hv Hw Ha Hb. codec_simpl in *. split_admissible.
  unfold lazy_eq, PacketBundle_lazy_eq, packet_bundle_lazy_channel_id, packet_bundle_lazy_length.
  rewrite <- ?app_assoc in Hv, Hw.
  pose proof (drop_at v 4 _ _ Hv (length_le_bytes 4 c)) as Hv4.
  pose proof (drop_at w 4 _ _ Hw (length_le_bytes 4 c')) as Hw4.
  rewrite (lazy_and_int_at 4 v w 0 c c' (le_bytes 2 l ++ ra) (le_bytes 2 l' ++ rb))
    by (rewrite ?Nat.add_0_r; done).
  rewrite (lazy_and_int_at 2 v w 4 l l' ra rb _ Hv4 Hw4) by done.
  destruct (decide (c = c')) as [->|Hc]; [|rewrite bool_decide_false; [done|congruence]].
  destruct (decide (l = l')) as [->|Hl]; [by rewrite bool_decide_true|].
  rewrite bool_decide_false; [done|congruence].
Qed.

(** Two [TransmitPacketLazy] views of encoded headers are equal exactly
    when the headers are. *)
#[export] Instance TransmitPacket_lazy_eq_laws : LazyEqLaws TransmitPacket.
Proof.
  intros v w [pl ii pi t s] [pl' ii' pi' t' s'] ra rb Hv Hw Ha Hb. codec_simpl in *.
  split_admissible. rewrite <- ?app_assoc in Hv, Hw.
  unfold lazy_eq at 1, TransmitPacket_lazy_eq, transmit_packet_lazy_payload_length,
    transmit_packet_lazy_infra_id, transmit_packet_lazy_plane_id, transmit_packet_lazy_topic,
    transmit_packet_lazy_source.
  assert (Hv0 : drop (lz_offset v + 0) (lz_buffer v)
                = le_bytes 2 pl ++ le_bytes 2 ii ++ le_bytes 4 pi ++ le_bytes 4 t ++ encode s ++ ra)
    by (by rewrite Nat.add_0_r).
  assert (Hw0 : drop (lz_offset w + 0) (lz_buffer w)
                = le_bytes 2 pl' ++ le_bytes 2 ii' ++ le_bytes 4 pi' ++ le_bytes 4 t' ++ encode s' ++ rb)
    by (by rewrite Nat.add_0_r).
  pose proof (drop_at v 2 _ _ Hv (length_le_bytes 2 pl)) as Hv2.
  pose proof (drop_at w 2 _ _ Hw (length_le_bytes 2 pl')) as Hw2.
  pose proof (drop_at v 4 (le_bytes 2 pl ++ le_bytes 2 ii) _ ltac:(by rewrite <- app_assoc) eq_refl) as Hv4.
  pose proof (drop_at w 4 (le_bytes 2 pl' ++ le_bytes 2 ii') _ ltac:(by rewrite <- app_assoc) eq_refl) as Hw4.
  pose proof (drop_at v 8 (le_bytes 2 pl ++ le_bytes 2 ii ++ le_bytes 4 pi) _
                ltac:(by rewrite <- !app_assoc) eq_refl) as Hv8.
  pose proof (drop_at w 8 (le_bytes 2 pl' ++ le_bytes 2 ii' ++ le_bytes 4 pi') _
                ltac:(by rewrite <- !app_assoc) eq_refl) as Hw8.
  pose proof (drop_at v 12 (le_bytes 2 pl ++ le_bytes 2 ii ++ le_bytes 4 pi ++ le_bytes 4 t) _
                ltac:(by rewrite <- !app_assoc) eq_refl) as Hv12.
  pose proof (drop_at w 12 (le_bytes 2 pl' ++ le_bytes 2 ii' ++ le_bytes 4 pi' ++ le_bytes 4 t') _
                ltac:(by rewrite <- !app_assoc) eq_refl) as Hw12.
  rewrite (lazy_and_int_at 2 v w 0 pl pl' _ _ _ Hv0 Hw0), (lazy_and_int_at 2 v w 2 ii ii' _ _ _ Hv2 Hw2),
    (lazy_and_int_at 4 v w 4 pi pi' _ _ _ Hv4 Hw4), (lazy_and_int_at 4 v w 8 t t' _ _ _ Hv8 Hw8) by done.
  assert (lazy_eq_sub (A := EndpointAddr) (lazy_sub (A := EndpointAddr) v 12)
            (lazy_sub (A := EndpointAddr) w 12) = Ok (bool_decide (s = s'))) as ->.
  { unfold lazy_eq_sub. lazy_simpl. by apply (lazy_eq_spec _ _ s s' ra rb). }
  destruct (decide (pl = pl')) as [->|?]; [|rewrite bool_decide_false; [done|congruence]].
  destruct (decide (ii = ii')) as [->|?]; [|rewrite bool_decide_false; [done|congruence]].
  destruct (decide (pi = pi')) as [->|?]; [|rewrite bool_decide_false; [done|congruence]].
  destruct (decide (t = t')) as [->|?]; [|rewrite bool_decide_false; [done|congruence]].
  f_equal. apply bool_decide_ext. split; [by intros ->|by intros [=]].
Qed.
