(* ===== verification/RoleSetup.v ===== *)
(** * Role setup (role_setup.rs) and the worker context it drives (worker.rs, rt.rs)

    A role's [RoleSetup] hands out [EventTx]s, which send through the
    role's [PacketSender], and [EventRxBuilder]s, whose router setups
    install nodes on the packet processor of the role's worker.  The
    receiving side ([handle_events_async], [handle_untyped_async], the
    closure of [inline]) decodes the packets those nodes deliver.
    [subscribe] also calls [add_topic_subscription], which records in the
    runtime's global context map, under the key (plane, topic), a [u64]
    mask of the workers subscribed to the topic, and installs on every
    other worker a redirect of new packets of the topic to this worker.

    The runtime is a record of the shared global context map and the
    packet processor of each worker, by index.  [run_on_all_other_workers]
    runs the redirect on each other worker in index order; the concurrent
    version of it, in which each worker thread blocks until the other
    workers have run its command, is the step relation [sub_step] at the
    end of the file. *)
From S2P Require Import Prelude Codec ContextMap PacketProcessor PacketSender Proto.
Local Open Scope Z_scope.

(** ** [RoleSetup] *)

(** [InterfaceEvent<T> { name, topic }] (interface_builder.rs). *)
Record InterfaceEvent := { ev_name : string; ev_topic : Z }.

(** The fields of [RoleSetup] the model uses: the spawner and the shutdown
    signal only run tasks. *)
Record RoleSetup := {
  rs_packet_sender : PacketSender;
  rs_plane_id : Z;
  rs_role_id : Z;
  rs_endpoint_addr : EndpointAddr;
  rs_worker_id : WorkerId;
  rs_object_path : list string;
}.

Definition role_setup_new (root_object_name : string) (worker_id : WorkerId)
    (packet_sender : PacketSender) (plane_id role_id : Z) (endpoint_addr : EndpointAddr)
    : RoleSetup :=
  {| rs_packet_sender := packet_sender; rs_plane_id := plane_id; rs_role_id := role_id;
     rs_endpoint_addr := endpoint_addr; rs_worker_id := worker_id;
     rs_object_path := [root_object_name] |}.

Definition with_object_path (s : RoleSetup) (path : list string) : RoleSetup :=
  {| rs_packet_sender := rs_packet_sender s; rs_plane_id := rs_plane_id s;
     rs_role_id := rs_role_id s; rs_endpoint_addr := rs_endpoint_addr s;
     rs_worker_id := rs_worker_id s; rs_object_path := path |}.

Definition push_object_path (s : RoleSetup) (name : string) : RoleSetup :=
  with_object_path s (rs_object_path s ++ [name]).

(** [Vec::pop] drops the last name, and does nothing on an empty path. *)
Definition pop_object_path (s : RoleSetup) : RoleSetup :=
  with_object_path s (removelast (rs_object_path s)).

(** Each name of the path followed by a dot, then [end]. *)
Definition get_object_path (s : RoleSetup) (end_ : string) : string :=
  String.append
    (foldl (fun path object_name => String.append path (String.append object_name "."))
       EmptyString (rs_object_path s))
    end_.

(** ** [EventTx] *)

Record EventTx := { etx_packet_sender : PacketSender; etx_plane_id : Z; etx_topic : Z }.

Definition event_tx (s : RoleSetup) (spec : InterfaceEvent) : EventTx :=
  {| etx_packet_sender := rs_packet_sender s; etx_plane_id := rs_plane_id s;
     etx_topic := ev_topic spec |}.

Definition event_tx_try_send `{Codec A} (now : Z) (p : SendPoll) (tx : EventTx) (payload : A)
    : result (PacketSender * option nat * bool) :=
  try_send now p (etx_plane_id tx) (etx_topic tx) payload (etx_packet_sender tx).

Definition event_tx_send `{Codec A} (now : Z) (tx : EventTx) (payload : A)
    : result (PacketSender * option nat) :=
  send now (etx_plane_id tx) (etx_topic tx) payload (etx_packet_sender tx).

Definition event_tx_send_buffer (now : Z) (tx : EventTx) (buffer : list byte)
    : result (PacketSender * option nat) :=
  send_buffer now (etx_plane_id tx) (etx_topic tx) buffer (etx_packet_sender tx).

Definition event_tx_send_raw (now : Z) (tx : EventTx) (len : nat) (f : list byte -> list byte)
    : result (PacketSender * option nat) :=
  send_raw now (etx_plane_id tx) (etx_topic tx) len f (etx_packet_sender tx).

(** ** Receiving events *)

Section Events.
Context {T : Type} `{Codec T}.

(** One turn of the loop of [handle_events_async]: decode the header, skip
    [encoded_len(&header)] bytes and decode a lazy view of the payload;
    a packet that fails either decode is dropped. *)
Definition handle_event_packet (payload_buf : Packet) : option (EndpointAddr * LazyView) :=
  '(header, _) ← decode (A := TransmitPacket) payload_buf;
  let header_len := length (encode header) in
  let bs := drop header_len payload_buf in
  if decide (base_len (A := T) <= length bs)%nat
  then Some (source header, fst (lazy_decode (A := T) bs 0))
  else None.

(** The handler calls of [handle_events_async] on the packets of its queue. *)
Definition handle_events_async (rx : list Packet) : list (EndpointAddr * LazyView) :=
  omap handle_event_packet rx.

(** The closure [inline] installs: decode the owned payload after the
    header's [BASE_LEN] bytes, or return. *)
Definition inline_packet (packet : Packet) : option T :=
  fst <$> decode (A := T) (drop (base_len (A := TransmitPacket)) packet).

End Events.

(** [handle_untyped_async]: only the header is decoded; the handler gets
    the whole packet. *)
Definition handle_untyped_packet (packet : Packet) : option (EndpointAddr * Packet) :=
  '(header, _) ← decode (A := TransmitPacket) packet;
  Some (source header, packet).

Definition handle_untyped_async (rx : list Packet) : list (EndpointAddr * Packet) :=
  omap handle_untyped_packet rx.

(** ** The runtime *)

(** [struct TopicSubscriptions { worker_mask: u64 }] and its [ContextClass::new]. *)
Record TopicSubscriptions := { ts_worker_mask : Z }.

Definition topic_subscriptions_new : TopicSubscriptions := {| ts_worker_mask := 0 |}.

(** [TypeId::of::<TopicSubscriptions>()]: the model's globals hold only
    this class, keyed by (plane id, topic). *)
Definition TOPIC_SUBSCRIPTIONS_TYPE_ID : nat := 0.

Definition Globals : Type := @ContextMapPrivate (Z * Z) TopicSubscriptions _ _.

(** The runtime's [globals] and the packet processor of each worker, by
    worker index (rt.rs, [RuntimeBuilder::start]). *)
Record Runtime := { rt_globals : Globals; rt_pps : list PacketProcessor }.

(** [WorkerContext::with_global]: the tag is the calling worker's. *)
Definition with_global {U} (w : WorkerId) (key : Z * Z)
    (f : TopicSubscriptions -> TopicSubscriptions * U) (g : Globals) : Globals * U :=
  with_inner (Worker w) TOPIC_SUBSCRIPTIONS_TYPE_ID key topic_subscriptions_new f g.

(** Run [f] on the packet processor of worker [i]; a worker the runtime
    does not have runs nothing. *)
Definition with_worker_pp (i : nat) (f : PacketProcessor -> result PacketProcessor)
    (rt : Runtime) : result Runtime :=
  match rt_pps rt !! i with
  | None => Ok rt
  | Some pp => pp' ← f pp; Ok {| rt_globals := rt_globals rt; rt_pps := <[i := pp']> (rt_pps rt) |}
  end.

(** The [WorkerContext] methods that install packet processor nodes. *)
Definition worker_add_handler (i : nat) sf plane_id topic hid handler :=
  with_worker_pp i (fun pp => add_handler pp sf plane_id topic hid handler).
Definition worker_add_local_queue (i : nat) sf plane_id topic queue :=
  with_worker_pp i (fun pp => add_local_queue pp sf plane_id topic queue).
Definition worker_route_to_local_queue (i : nat) sf plane_id topic handler :=
  with_worker_pp i (fun pp => add_route_to_local_queue pp sf plane_id topic handler).
Definition worker_add_redirect_to_worker (i : nat) sf plane_id topic to_worker_id :=
  with_worker_pp i (fun pp => to_worker pp sf plane_id topic to_worker_id).
Definition worker_route_to_worker (i : nat) sf plane_id topic handler :=
  with_worker_pp i (fun pp => add_route_to_worker pp sf plane_id topic handler).

(** [RuntimeHandle::run_on_all_other_workers]: the worker handles in index
    order, skipping the local worker's. *)
Fixpoint run_on_all_other_workers_from (local : Z) (i : nat)
    (f : PacketProcessor -> result PacketProcessor) (pps : list PacketProcessor)
    : result (list PacketProcessor) :=
  match pps with
  | [] => Ok []
  | pp :: pps' =>
      pp' ← (if decide (local = Z.of_nat i) then Ok pp else f pp);
      pps'' ← run_on_all_other_workers_from local (S i) f pps';
      Ok (pp' :: pps'')
  end.

Definition run_on_all_other_workers (local : WorkerId)
    (f : PacketProcessor -> result PacketProcessor) (rt : Runtime) : result Runtime :=
  pps ← run_on_all_other_workers_from (worker_index local) 0 f (rt_pps rt);
  Ok {| rt_globals := rt_globals rt; rt_pps := pps |}.

(** [1 << worker_id.0] on a [u64]: the release build masks the shift
    amount to its low six bits (the debug build panics from 64 on). *)
Definition local_worker_mask (w : WorkerId) : Z := bit (worker_index w mod 64).

(** The callback [add_topic_subscription] runs on the topic's
    [TopicSubscriptions]: whether this worker still needs its redirects. *)
Definition subscribe_mask (w : WorkerId) (ts : TopicSubscriptions)
    : TopicSubscriptions * bool :=
  let local_worker_mask := local_worker_mask w in
  if decide (Z.land (ts_worker_mask ts) local_worker_mask <> 0) then (ts, false)
  else ({| ts_worker_mask := Z.lor (ts_worker_mask ts) local_worker_mask |}, true).

(** The closure run on each other worker. *)
Definition add_redirect (w : WorkerId) (plane_id topic : Z) (pp : PacketProcessor)
    : result PacketProcessor :=
  to_worker pp PACKET_PROCESSOR_SOURCE_NEW plane_id topic w.

Definition add_topic_subscription (w : WorkerId) (plane_id topic : Z) (rt : Runtime)
    : result Runtime :=
  let '(globals, needs_handler) :=
    with_global w (plane_id, topic) (subscribe_mask w) (rt_globals rt) in
  let rt := {| rt_globals := globals; rt_pps := rt_pps rt |} in
  if needs_handler then run_on_all_other_workers w (add_redirect w plane_id topic) rt
  else Ok rt.

(** ** Router setups *)

Definition worker_of (s : RoleSetup) : nat := Z.to_nat (worker_index (rs_worker_id s)).

(** [QueuedEventRxRouterSetup::subscribe] and [::local]; [queue_tx] names
    the local queue [queued] created. *)
Definition queued_subscribe (s : RoleSetup) (topic : Z) (queue_tx : nat) (rt : Runtime)
    : result Runtime :=
  rt ← worker_add_local_queue (worker_of s) PACKET_PROCESSOR_SOURCE_ANY (rs_plane_id s) topic
         queue_tx rt;
  add_topic_subscription (rs_worker_id s) (rs_plane_id s) topic rt.

Definition queued_local (s : RoleSetup) (topic : Z) (queue_tx : nat) (rt : Runtime)
    : result Runtime :=
  worker_add_local_queue (worker_of s) PACKET_PROCESSOR_SOURCE_ANY (rs_plane_id s) topic
    queue_tx rt.

(** [InlineRxRouterSetup::subscribe], [::local] and [::from_inter_worker]. *)
Definition inline_subscribe (s : RoleSetup) (topic : Z) (hid : nat)
    (f : EndpointAddr -> Packet -> list HandlerAction) (rt : Runtime) : result Runtime :=
  rt ← worker_add_handler (worker_of s) PACKET_PROCESSOR_SOURCE_ANY (rs_plane_id s) topic hid f rt;
  add_topic_subscription (rs_worker_id s) (rs_plane_id s) topic rt.

Definition inline_local (s : RoleSetup) (topic : Z) (hid : nat)
    (f : EndpointAddr -> Packet -> list HandlerAction) (rt : Runtime) : result Runtime :=
  worker_add_handler (worker_of s) PACKET_PROCESSOR_SOURCE_ANY (rs_plane_id s) topic hid f rt.

Definition inline_from_inter_worker (s : RoleSetup) (topic : Z) (hid : nat)
    (f : EndpointAddr -> Packet -> list HandlerAction) (rt : Runtime) : result Runtime :=
  worker_add_handler (worker_of s) PACKET_PROCESSOR_SOURCE_INTER_WORKER (rs_plane_id s) topic
    hid f rt.

(** [EventRxBuilder::route_to_local_queue] and [::route_to_worker]; the
    latter only routes packets new to this endpoint. *)
Definition event_rx_route_to_local_queue (s : RoleSetup) (topic : Z)
    (handler : EndpointAddr -> Packet -> option nat) (rt : Runtime) : result Runtime :=
  worker_route_to_local_queue (worker_of s) PACKET_PROCESSOR_SOURCE_ANY (rs_plane_id s) topic
    handler rt.

Definition event_rx_route_to_worker (s : RoleSetup) (topic : Z)
    (handler : EndpointAddr -> Packet -> option WorkerId) (rt : Runtime) : result Runtime :=
  worker_route_to_worker (worker_of s) PACKET_PROCESSOR_SOURCE_NEW (rs_plane_id s) topic
    handler rt.

(** The future [run_role_worker] hands to [role_spawner.on_shutdown]
    (role.rs): [pp.remove_plane(plane_id)] on the packet processor of the
    role's worker [w], then [locals.shutdown_tag(Role(role_id))] on that
    worker's locals. *)
Definition role_teardown {K V} `{Countable K} (w : nat) (plane_id role_id : Z)
    (locals : @ContextMapPrivate K V _ _) (rt : Runtime)
    : result (Runtime * @ContextMapPrivate K V _ _) :=
  rt ← with_worker_pp w (fun pp => remove_plane pp plane_id) rt;
  locals ← shutdown_tag (Role role_id) locals;
  Ok (rt, locals).

(** The teardown of the role a [RoleSetup] was made for. *)
Definition role_on_shutdown {K V} `{Countable K} (s : RoleSetup)
    (locals : @ContextMapPrivate K V _ _) (rt : Runtime)
    : result (Runtime * @ContextMapPrivate K V _ _) :=
  role_teardown (worker_of s) (rs_plane_id s) (rs_role_id s) locals rt.

(** [RoleSetup::with_local], [::with_local_fn] and [::with_global]: the
    worker's locals or the runtime's globals, under the role's tag. *)
Section RoleContext.
Context {K V : Type} `{Countable K}.

Definition role_with_local {U} (s : RoleSetup) (type_id : nat) (key : K) (ctor : V)
    (f : V -> V * U) (locals : @ContextMapPrivate K V _ _) : @ContextMapPrivate K V _ _ * U :=
  with_inner (Role (rs_role_id s)) type_id key ctor f locals.

Definition role_with_local_fn {U} (s : RoleSetup) (type_id : nat) (key : K)
    (constructor : unit -> V) (f : V -> V * U) (locals : @ContextMapPrivate K V _ _)
    : @ContextMapPrivate K V _ _ * U :=
  with_inner_fn (Role (rs_role_id s)) type_id key constructor f locals.

Definition role_with_global {U} (s : RoleSetup) (type_id : nat) (key : K) (ctor : V)
    (f : V -> V * U) (globals : @ContextMapPrivate K V _ _) : @ContextMapPrivate K V _ _ * U :=
  with_inner (Role (rs_role_id s)) type_id key ctor f globals.

End RoleContext.

(** ** Concurrent subscriptions *)

(** A [WorkerCommand] [run_once] queues for the redirect: the closure's
    plane and topic, and the worker whose [block_on] awaits its result
    (the redirect points to that worker). *)
Record Cmd := { cmd_from : nat; cmd_plane_id : Z; cmd_topic : Z }.

(** Where a worker thread is: free to poll its tasks, including the one
    that runs its command queue (worker.rs, [spawn_worker]); or blocked in
    [pollster::block_on(run_on_all_other_workers(..))] with [targets] the
    workers it has not yet sent its command to, or awaiting the result of
    [target]. *)
Inductive Phase :=
| Running
| Sending (plane_id topic : Z) (targets : list nat)
| Awaiting (plane_id topic : Z) (target : nat) (targets : list nat).

Record Conc := {
  cs_globals : Globals;
  cs_pps : list PacketProcessor;
  cs_phase : gmap nat Phase;
  cs_cmds : gmap nat (list Cmd);
}.

Definition worker_id_of (i : nat) : WorkerId := {| worker_index := Z.of_nat i |}.

Definition cmds_of (s : Conc) (j : nat) : list Cmd := default [] (cs_cmds s !! j).

(** The handles [run_on_all_other_workers] visits, in order. *)
Definition other_workers (n i : nat) : list nat := filter (fun j => j <> i) (seq 0 n).

Definition conc_of (rt : Runtime) : Conc :=
  {| cs_globals := rt_globals rt; cs_pps := rt_pps rt;
     cs_phase := map_seq 0 (replicate (length (rt_pps rt)) Running); cs_cmds := ∅ |}.

Definition set_phase (i : nat) (ph : Phase) (s : Conc) : Conc :=
  {| cs_globals := cs_globals s; cs_pps := cs_pps s; cs_phase := <[i := ph]> (cs_phase s);
     cs_cmds := cs_cmds s |}.

(** The oneshot result of [j]'s run of the command wakes the worker
    awaiting it, which goes on with its next target. *)
Definition reply (j : nat) (ph : Phase) : Phase :=
  match ph with
  | Awaiting p t j' ts => if decide (j = j') then Sending p t ts else ph
  | _ => ph
  end.

(** [add_topic_subscription] on worker [i], the sending and the awaiting
    of [run_once], and worker [j]'s command task running a command. *)
Inductive sub_step : Conc -> Conc -> Prop :=
| SubBegin s i p t g needs_handler :
    cs_phase s !! i = Some Running ->
    with_global (worker_id_of i) (p, t) (subscribe_mask (worker_id_of i)) (cs_globals s)
      = (g, needs_handler) ->
    sub_step s {| cs_globals := g; cs_pps := cs_pps s; cs_cmds := cs_cmds s;
                  cs_phase := <[i := if needs_handler
                                     then Sending p t (other_workers (length (cs_pps s)) i)
                                     else Running]> (cs_phase s) |}
| SubSend s i p t j ts :
    cs_phase s !! i = Some (Sending p t (j :: ts)) ->
    sub_step s {| cs_globals := cs_globals s; cs_pps := cs_pps s;
                  cs_phase := <[i := Awaiting p t j ts]> (cs_phase s);
                  cs_cmds := <[j := cmds_of s j ++ [{| cmd_from := i; cmd_plane_id := p;
                                                         cmd_topic := t |}]]> (cs_cmds s) |}
| SubReturn s i p t :
    cs_phase s !! i = Some (Sending p t []) ->
    sub_step s (set_phase i Running s)
| SubExec s j c cs pp pp' :
    cs_phase s !! j = Some Running ->
    cmds_of s j = c :: cs ->
    cs_pps s !! j = Some pp ->
    add_redirect (worker_id_of (cmd_from c)) (cmd_plane_id c) (cmd_topic c) pp = Ok pp' ->
    sub_step s {| cs_globals := cs_globals s; cs_pps := <[j := pp']> (cs_pps s);
                  cs_phase := alter (reply j) (cmd_from c) (cs_phase s);
                  cs_cmds := <[j := cs]> (cs_cmds s) |}.

(** ** What a subscription promises *)

(** The mask the globals hold for (plane, topic). *)
Definition subscribed_mask (g : Globals) (plane_id topic : Z) : Z :=
  ts_worker_mask (current_value g (TOPIC_SUBSCRIPTIONS_TYPE_ID, (plane_id, topic))
                    topic_subscriptions_new).

(** The node [add_redirect_to_worker] installs. *)
Definition redirect_node (w : WorkerId) : Node :=
  {| source_filter := PACKET_PROCESSOR_SOURCE_NEW; body := ToWorker w |}.

Definition redirects (pp : PacketProcessor) (plane_id topic : Z) (w : WorkerId) : Prop :=
  redirect_node w ∈ from_option nodes [] (handlers pp !! (plane_id, topic)).

(** Every packet processor is well formed and idle, there are at most 64
    workers (one bit each), and a worker whose bit is set for a topic is
    the target of a redirect of the topic on every other worker. *)
Record rt_wf (rt : Runtime) : Prop := {
  rt_pp_wf i pp : rt_pps rt !! i = Some pp -> pp_wf pp;
  rt_workers : (length (rt_pps rt) <= 64)%nat;
  rt_subscribed plane_id topic (i j : nat) pp :
    Z.testbit (subscribed_mask (rt_globals rt) plane_id topic) (Z.of_nat i) = true ->
    i <> j -> rt_pps rt !! j = Some pp -> redirects pp plane_id topic (worker_id_of i);
}.

(** A role of worker [worker_of s] of the runtime. *)
Definition on_worker (rt : Runtime) (s : RoleSetup) : Prop :=
  rs_worker_id s = worker_id_of (worker_of s) /\ (worker_of s < length (rt_pps rt))%nat.

(** The router setups a role runs while it sets up (role shutdown aside). *)
Inductive setup_step : Runtime -> Runtime -> Prop :=
| SetupQueuedSubscribe rt rt' s topic q :
    on_worker rt s -> queued_subscribe s topic q rt = Ok rt' -> setup_step rt rt'
| SetupQueuedLocal rt rt' s topic q :
    on_worker rt s -> queued_local s topic q rt = Ok rt' -> setup_step rt rt'
| SetupInlineSubscribe rt rt' s topic hid f :
    on_worker rt s -> inline_subscribe s topic hid f rt = Ok rt' -> setup_step rt rt'
| SetupInlineLocal rt rt' s topic hid f :
    on_worker rt s -> inline_local s topic hid f rt = Ok rt' -> setup_step rt rt'
| SetupFromInterWorker rt rt' s topic hid f :
    on_worker rt s -> inline_from_inter_worker s topic hid f rt = Ok rt' -> setup_step rt rt'
| SetupRouteToLocalQueue rt rt' s topic handler :
    on_worker rt s -> event_rx_route_to_local_queue s topic handler rt = Ok rt' -> setup_step rt rt'
| SetupRouteToWorker rt rt' s topic handler :
    on_worker rt s -> event_rx_route_to_worker s topic handler rt = Ok rt' -> setup_step rt rt'.

(** ** Examples *)

Definition ok_or_rt (d : Runtime) (r : result Runtime) : Runtime :=
  match r with Ok rt => rt | Panic _ => d end.

(** Two idle workers, and a role on plane 7 on each. *)
Definition ex_rt : Runtime :=
  {| rt_globals := new_inner; rt_pps := [pp_new [true; true]; pp_new [true; true]] |}.

Definition ex_role (i : nat) : RoleSetup :=
  role_setup_new "ex" (worker_id_of i) ex_sender 7 (Z.of_nat i) {| endpoint := 7 |}.

Definition ex_handler : EndpointAddr -> Packet -> list HandlerAction := fun _ _ => [].

(** Worker 0 subscribes to topic 3, worker 1's role stops, worker 0
    subscribes again. *)
Definition ex_rt1 : Runtime := ok_or_rt ex_rt (inline_subscribe (ex_role 0) 3 0 ex_handler ex_rt).
Definition ex_locals : @ContextMapPrivate Z Z _ _ := new_inner.
Definition ex_rt2 : Runtime :=
  match role_on_shutdown (ex_role 1) ex_locals ex_rt1 with Ok r => r.1 | Panic _ => ex_rt1 end.
Definition ex_rt3 : Runtime := ok_or_rt ex_rt2 (inline_subscribe (ex_role 0) 3 1 ex_handler ex_rt2).

(** Worker 0 subscribes to topic 3 of plane 7. *)
Definition ex_sub0 : Runtime :=
  ok_or_rt ex_rt (add_topic_subscription (worker_id_of 0) 7 3 ex_rt).

(** An event of topic 3 sent by the role of worker 0. *)
Definition ex_tx : EventTx := event_tx (ex_role 0) {| ev_name := "ev"; ev_topic := 3 |}.

Definition ex_payload : EndpointAddr := {| endpoint := 5 |}.

Definition ex_sent : PacketSender * option nat :=
  match event_tx_send 0 ex_tx ex_payload with
  | Ok r => r
  | Panic _ => (ex_sender, None)
  end.

(** ** Lemmas *)

Lemma subscribe_mask_spec w ts :
  0 <= worker_index w ->
  snd (subscribe_mask w ts) = negb (Z.testbit (ts_worker_mask ts) (worker_index w mod 64))
  /\ forall n, 0 <= n ->
     Z.testbit (ts_worker_mask (fst (subscribe_mask w ts))) n
     = Z.testbit (ts_worker_mask ts) n || (n =? worker_index w mod 64).
Proof.
  intros Hw. assert (Hm : 0 <= worker_index w mod 64) by (apply Z.mod_pos_bound; lia).
  unfold subscribe_mask, local_worker_mask.
  pose proof (land_bit_zero (ts_worker_mask ts) _ Hm) as Hz.
  destruct (Z.eqb_spec (Z.land (ts_worker_mask ts) (bit (worker_index w mod 64))) 0) as [Hl|Hl];
    destruct (Z.testbit (ts_worker_mask ts) (worker_index w mod 64)) eqn:E; try discriminate Hz.
  - rewrite decide_False by lia. split; [done|]. intros n Hn. simpl.
    by rewrite Z.lor_spec, testbit_bit, (Z.eqb_sym _ n) by lia.
  - rewrite decide_True by done. split; [done|]. intros n Hn. simpl.
    destruct (Z.eqb_spec n (worker_index w mod 64)) as [->|]; [by rewrite E|by rewrite orb_false_r].
Qed.

Lemma subscribed_mask_with_global w plane_id topic g pl tp :
  0 <= worker_index w ->
  forall n, 0 <= n ->
  Z.testbit (subscribed_mask (fst (with_global w (plane_id, topic) (subscribe_mask w) g)) pl tp) n
  = Z.testbit (subscribed_mask g pl tp) n
    || bool_decide ((pl, tp) = (plane_id, topic)) && (n =? worker_index w mod 64).
Proof.
  intros Hw n Hn. unfold subscribed_mask, with_global. pose proof (@with_inner_current (Z * Z) TopicSubscriptions _ _ bool) as Hc. rewrite Hc.
  case_decide as Hk; [injection Hk as -> ->|].
  - rewrite bool_decide_eq_true_2 by done. by apply subscribe_mask_spec.
  - rewrite bool_decide_eq_false_2 by congruence. by rewrite orb_false_r.
Qed.

Lemma with_global_needs w plane_id topic g :
  0 <= worker_index w ->
  snd (with_global w (plane_id, topic) (subscribe_mask w) g)
  = negb (Z.testbit (subscribed_mask g plane_id topic) (worker_index w mod 64)).
Proof.
  intros Hw. unfold with_global, subscribed_mask.
  pose proof (@with_inner_result (Z * Z) TopicSubscriptions _ _ bool) as Hr.
  rewrite (proj1 (Hr _ _ _ _ _ _)). by apply subscribe_mask_spec.
Qed.

(** [add_node] on a well-formed table succeeds, installs its node and
    removes no redirect. *)
Lemma add_node_keeps_redirects pp sf p t b :
  pp_wf pp ->
  exists pp', add_node pp sf p t b = Ok pp' /\ pp_wf pp'
    /\ {| source_filter := sf; body := b |} ∈ from_option nodes [] (handlers pp' !! (p, t))
    /\ forall pl tp w, redirects pp pl tp w -> redirects pp' pl tp w.
Proof.
  intros Hwf. destruct (add_node_ok pp sf p t b Hwf) as (pp' & Hadd & Hhd & Hother & Hwf').
  exists pp'. unfold redirects.
  destruct (handlers pp' !! (p, t)) as [c|] eqn:E; simpl in Hhd; [|discriminate].
  injection Hhd as Hn. split_and!; [done|done|simpl; rewrite Hn; apply elem_of_cons; by left|].
  intros pl tp w Hr. destruct (decide ((pl, tp) = (p, t))) as [[= -> ->]|Hne].
  - rewrite E. simpl. rewrite Hn. apply elem_of_cons. by right.
  - by rewrite Hother.
Qed.

Lemma redirect_installed pp w p t :
  pp_wf pp ->
  exists pp', add_redirect w p t pp = Ok pp' /\ pp_wf pp' /\ redirects pp' p t w
    /\ forall pl tp w', redirects pp pl tp w' -> redirects pp' pl tp w'.
Proof.
  intros Hwf.
  destruct (add_node_keeps_redirects pp PACKET_PROCESSOR_SOURCE_NEW p t (ToWorker w) Hwf)
    as (pp' & ? & ? & ? & ?).
  by exists pp'.
Qed.

(** What [run_on_all_other_workers] does with the redirect. *)
Lemma run_on_all_other_workers_from_spec local w p t : forall pps k,
  (forall j pp, pps !! j = Some pp -> pp_wf pp) ->
  exists pps', run_on_all_other_workers_from local k (add_redirect w p t) pps = Ok pps'
    /\ length pps' = length pps
    /\ forall j pp, pps !! j = Some pp ->
       exists pp', pps' !! j = Some pp' /\ pp_wf pp'
         /\ (forall pl tp w', redirects pp pl tp w' -> redirects pp' pl tp w')
         /\ (local <> Z.of_nat (k + j) -> redirects pp' p t w)
         /\ (local = Z.of_nat (k + j) -> pp' = pp).
Proof.
  induction pps as [|pp pps IH]; intros k Hwf; simpl.
  { exists []. split_and!; [done|done|]. intros j pp Hj. by rewrite lookup_nil in Hj. }
  destruct (IH (S k)) as (pps' & Hrun & Hlen & Hpps); [intros j; apply (Hwf (S j))|].
  assert (exists pp', (if decide (local = Z.of_nat k) then Ok pp else add_redirect w p t pp) = Ok pp'
    /\ pp_wf pp' /\ (forall pl tp w', redirects pp pl tp w' -> redirects pp' pl tp w')
    /\ (local <> Z.of_nat k -> redirects pp' p t w) /\ (local = Z.of_nat k -> pp' = pp))
    as (pp' & Hpp & Hwf' & Hkeep & Hred & Hsame).
  { case_decide as Hk.
    - exists pp. split_and!; [done|apply (Hwf 0%nat); done|done|done|done].
    - destruct (redirect_installed pp w p t) as (pp' & ? & ? & ? & ?); [apply (Hwf 0%nat); done|].
      exists pp'. split_and!; done. }
  rewrite Hpp. cbn [mbind result_bind]. rewrite Hrun. cbn [mbind result_bind].
  exists (pp' :: pps'). split_and!; [done|simpl; lia|].
  intros [|j] pp0 Hj; simpl in Hj.
  - injection Hj as <-. exists pp'. rewrite Nat.add_0_r. split_and!; done.
  - destruct (Hpps j pp0 Hj) as (pp1 & ? & ? & ? & Hr & Hs). exists pp1.
    rewrite Nat.add_succ_r. split_and!; done.
Qed.

Lemma lookup_same_length {A B} (l1 : list A) (l2 : list B) j y :
  length l2 = length l1 -> l2 !! j = Some y -> exists x, l1 !! j = Some x.
Proof.
  intros Hlen Hj. apply lookup_lt_Some in Hj. apply lookup_lt_is_Some_2. lia.
Qed.

(** The invariant survives a change that keeps every redirect and sets no
    bit without its redirects. *)
Lemma rt_wf_update rt rt' :
  rt_wf rt -> length (rt_pps rt') = length (rt_pps rt) ->
  (forall j pp', rt_pps rt' !! j = Some pp' -> exists pp, rt_pps rt !! j = Some pp /\ pp_wf pp'
     /\ forall pl tp w', redirects pp pl tp w' -> redirects pp' pl tp w') ->
  (forall pl tp (i j : nat) pp',
     Z.testbit (subscribed_mask (rt_globals rt') pl tp) (Z.of_nat i) = true -> i <> j ->
     rt_pps rt' !! j = Some pp' ->
     Z.testbit (subscribed_mask (rt_globals rt) pl tp) (Z.of_nat i) = true
     \/ redirects pp' pl tp (worker_id_of i)) ->
  rt_wf rt'.
Proof.
  intros Hwf Hlen Hpps Hnew. constructor.
  - intros i pp' Hi. by destruct (Hpps i pp' Hi) as (? & ? & ? & ?).
  - rewrite Hlen. apply Hwf.
  - intros pl tp i j pp' Hbit Hij Hj. destruct (Hnew pl tp i j pp' Hbit Hij Hj) as [Hold|]; [|done].
    destruct (Hpps j pp' Hj) as (pp & Hpp & _ & Hkeep). apply Hkeep. by eapply (rt_subscribed _ Hwf).
Qed.

(** The [WorkerContext] methods that add a node keep the invariant. *)
Lemma with_worker_pp_add_node i sf p t b rt :
  rt_wf rt ->
  exists rt', with_worker_pp i (fun pp => add_node pp sf p t b) rt = Ok rt' /\ rt_wf rt'
    /\ rt_globals rt' = rt_globals rt /\ length (rt_pps rt') = length (rt_pps rt).
Proof.
  intros Hwf. unfold with_worker_pp. destruct (rt_pps rt !! i) as [pp|] eqn:Ei; [|by exists rt].
  destruct (add_node_keeps_redirects pp sf p t b (rt_pp_wf _ Hwf _ _ Ei))
    as (pp' & Hadd & Hwf' & _ & Hkeep).
  rewrite Hadd. cbn [mbind result_bind]. eexists. split; [reflexivity|].
  split_and!; [|done|apply length_insert]. apply (rt_wf_update rt); [done|apply length_insert|..].
  - intros j pp0 Hj. apply list_lookup_insert_Some in Hj as [(<- & <- & _)|(_ & Hj)].
    + by exists pp.
    + exists pp0. split_and!; [done|by eapply (rt_pp_wf _ Hwf)|done].
  - intros. by left.
Qed.

Lemma subscribed_bit_after w p t g pl tp n :
  0 <= worker_index w -> 0 <= n ->
  Z.testbit (subscribed_mask (fst (with_global w (p, t) (subscribe_mask w) g)) pl tp) n = true ->
  Z.testbit (subscribed_mask g pl tp) n = true \/ ((pl, tp) = (p, t) /\ n = worker_index w mod 64).
Proof.
  intros Hw Hn. rewrite subscribed_mask_with_global by done.
  rewrite orb_true_iff, andb_true_iff, bool_decide_eq_true, Z.eqb_eq. tauto.
Qed.

Lemma subscribed_bit_own w p t g :
  0 <= worker_index w ->
  Z.testbit (subscribed_mask (fst (with_global w (p, t) (subscribe_mask w) g)) p t)
    (worker_index w mod 64) = true.
Proof.
  intros Hw. rewrite subscribed_mask_with_global by (try apply Z.mod_pos_bound; lia).
  rewrite bool_decide_eq_true_2, Z.eqb_refl by done. apply orb_true_r.
Qed.

(** [add_topic_subscription] on a worker of a well-formed runtime: it
    never panics, keeps the invariant, sets the worker's bit, leaves the
    worker's own table alone and keeps every redirect. *)
Lemma add_topic_subscription_ok w p t rt :
  rt_wf rt -> 0 <= worker_index w < Z.of_nat (length (rt_pps rt)) ->
  exists rt', add_topic_subscription w p t rt = Ok rt' /\ rt_wf rt'
    /\ length (rt_pps rt') = length (rt_pps rt)
    /\ Z.testbit (subscribed_mask (rt_globals rt') p t) (worker_index w) = true
    /\ rt_pps rt' !! Z.to_nat (worker_index w) = rt_pps rt !! Z.to_nat (worker_index w)
    /\ (forall j pp', rt_pps rt' !! j = Some pp' -> exists pp, rt_pps rt !! j = Some pp
          /\ forall pl tp w', redirects pp pl tp w' -> redirects pp' pl tp w').
Proof.
  intros Hwf Hw. pose proof (rt_workers _ Hwf) as H64.
  assert (Hmod : worker_index w mod 64 = worker_index w) by (apply Z.mod_small; lia).
  pose proof (with_global_needs w p t (rt_globals rt) ltac:(lia)) as Hneeds.
  pose proof (subscribed_bit_own w p t (rt_globals rt) ltac:(lia)) as Hown.
  pose proof (fun pl tp n => subscribed_bit_after w p t (rt_globals rt) pl tp n ltac:(lia)) as Hbits.
  unfold add_topic_subscription.
  destruct (with_global w (p, t) (subscribe_mask w) (rt_globals rt)) as [g needs] eqn:Eg.
  simpl in Hneeds, Hown, Hbits. rewrite Hmod in *. destruct w as [iw]. simpl in *.
  destruct needs.
  - destruct (run_on_all_other_workers_from_spec iw {| worker_index := iw |} p t (rt_pps rt) 0
                (rt_pp_wf _ Hwf)) as (pps' & Hrun & Hlen & Hpps).
    unfold run_on_all_other_workers. simpl. rewrite Hrun. cbn [mbind result_bind].
    assert (Hback : forall j pp', pps' !! j = Some pp' -> exists pp, rt_pps rt !! j = Some pp
      /\ pp_wf pp' /\ (forall pl tp w', redirects pp pl tp w' -> redirects pp' pl tp w')
      /\ (iw <> Z.of_nat j -> redirects pp' p t {| worker_index := iw |})).
    { intros j pp' Hj. destruct (lookup_same_length _ _ _ _ Hlen Hj) as [pp Hpp].
      destruct (Hpps j pp Hpp) as (pp'' & Hj' & ? & ? & ? & _). rewrite Hj in Hj'.
      injection Hj' as <-. by exists pp. }
    eexists. split; [reflexivity|]. split_and!; [|done|done| |].
    + apply (rt_wf_update rt); [done|done|..].
      * intros j pp' Hj. destruct (Hback j pp' Hj) as (pp & ? & ? & ? & _). by exists pp.
      * intros pl tp i j pp' Hbit Hij Hj. simpl in Hbit.
        destruct (Hbits pl tp (Z.of_nat i) ltac:(lia) Hbit) as [|([= -> ->] & Hi)]; [by left|right].
        destruct (Hback j pp' Hj) as (_ & _ & _ & _ & Hr). unfold worker_id_of. rewrite Hi.
        apply Hr. lia.
    + destruct (lookup_lt_is_Some_2 (rt_pps rt) (Z.to_nat iw)) as [pp Hpp]; [lia|].
      simpl. destruct (Hpps _ _ Hpp) as (pp' & -> & _ & _ & _ & Hsame). rewrite Hpp. f_equal.
      apply Hsame. lia.
    + intros j pp' Hj. destruct (Hback j pp' Hj) as (pp & ? & _ & ? & _). by exists pp.
  - eexists. split; [reflexivity|]. simpl. split_and!; [|done|by destruct (Z.testbit _ _)|done|].
    + apply (rt_wf_update rt); [done|done|..].
      * intros j pp' Hj. exists pp'. split_and!; [done|by eapply (rt_pp_wf _ Hwf)|done].
      * intros pl tp i j pp' Hbit Hij Hj. left. simpl in Hbit.
        destruct (Hbits pl tp (Z.of_nat i) ltac:(lia) Hbit) as [|([= -> ->] & Hi)]; [done|].
        rewrite Hi. by destruct (Z.testbit _ iw).
    + intros j pp' Hj. by exists pp'.
Qed.

(** A worker whose bit is already set installs nothing. *)
Lemma add_topic_subscription_subscribed w p t rt :
  0 <= worker_index w ->
  Z.testbit (subscribed_mask (rt_globals rt) p t) (worker_index w mod 64) = true ->
  add_topic_subscription w p t rt
  = Ok {| rt_globals := fst (with_global w (p, t) (subscribe_mask w) (rt_globals rt));
          rt_pps := rt_pps rt |}.
Proof.
  intros Hw Hbit. pose proof (with_global_needs w p t (rt_globals rt) Hw) as Hneeds.
  rewrite Hbit in Hneeds. unfold add_topic_subscription.
  destruct (with_global w (p, t) (subscribe_mask w) (rt_globals rt)) as [g needs].
  simpl in Hneeds. by subst.
Qed.

Lemma add_topic_subscription_globals w p t rt rt' :
  add_topic_subscription w p t rt = Ok rt' ->
  rt_globals rt' = fst (with_global w (p, t) (subscribe_mask w) (rt_globals rt)).
Proof.
  unfold add_topic_subscription, run_on_all_other_workers.
  destruct (with_global w (p, t) (subscribe_mask w) (rt_globals rt)) as [g []]; simpl;
    [destruct (run_on_all_other_workers_from _ _ _ _)|]; by intros [= <-].
Qed.

Lemma with_worker_pp_other i f rt rt' j :
  with_worker_pp i f rt = Ok rt' -> j <> i ->
  rt_globals rt' = rt_globals rt /\ rt_pps rt' !! j = rt_pps rt !! j.
Proof.
  unfold with_worker_pp. destruct (rt_pps rt !! i); [|by intros [= <-]].
  destruct (f p); [|done]. intros [= <-] Hj. simpl. by rewrite list_lookup_insert_ne.
Qed.

Lemma on_worker_index rt s :
  on_worker rt s ->
  worker_index (rs_worker_id s) = Z.of_nat (worker_of s)
  /\ 0 <= worker_index (rs_worker_id s) < Z.of_nat (length (rt_pps rt)).
Proof. intros [-> Hi]. simpl. lia. Qed.

(** The router setups keep the invariant. *)
Lemma setup_step_wf rt rt' : rt_wf rt -> setup_step rt rt' -> rt_wf rt'.
Proof.
  intros Hwf Hstep.
  destruct Hstep as [? ? s topic ? Hon Hop|? ? s topic ? Hon Hop|? ? s topic ? ? Hon Hop
                    |? ? s topic ? ? Hon Hop|? ? s topic ? ? Hon Hop|? ? s topic ? Hon Hop
                    |? ? s topic ? Hon Hop];
  unfold queued_subscribe, queued_local, inline_subscribe, inline_local, inline_from_inter_worker,
    event_rx_route_to_local_queue, event_rx_route_to_worker, worker_add_handler,
    worker_add_local_queue, worker_route_to_local_queue, worker_route_to_worker, add_handler,
    add_local_queue, add_route_to_local_queue, add_route_to_worker in Hop;
  match type of Hop with
  | context [with_worker_pp ?i (fun pp => add_node pp ?sf ?p ?t ?b) ?r] =>
      destruct (with_worker_pp_add_node i sf p t b r Hwf) as (rt1 & E1 & Hwf1 & _ & Hlen1);
      rewrite E1 in Hop; cbn [mbind result_bind] in Hop
  end;
  [|by injection Hop as <-|..|by injection Hop as <-|by injection Hop as <-|by injection Hop as <-
   |by injection Hop as <-];
  destruct (on_worker_index _ _ Hon) as [_ Hi];
  (destruct (add_topic_subscription_ok (rs_worker_id s) (rs_plane_id s) topic rt1 Hwf1)
     as (rt2 & E2 & Hwf2 & _); [lia|]);
  congruence.
Qed.

Lemma rt_wf_new pps :
  (length pps <= 64)%nat -> Forall pp_wf pps -> rt_wf {| rt_globals := new_inner; rt_pps := pps |}.
Proof.
  intros Hlen Hpps. constructor; simpl; [|done|].
  - intros i pp Hi. rewrite Forall_lookup in Hpps. by apply (Hpps i).
  - intros pl tp i j pp Hbit. by rewrite Z.testbit_0_l in Hbit.
Qed.

Lemma inline_subscribe_inv s topic hid f rt rt' :
  inline_subscribe s topic hid f rt = Ok rt' ->
  exists rta, with_worker_pp (worker_of s)
                (fun pp => add_node pp PACKET_PROCESSOR_SOURCE_ANY (rs_plane_id s) topic (Inline hid f)) rt
              = Ok rta
    /\ add_topic_subscription (rs_worker_id s) (rs_plane_id s) topic rta = Ok rt'.
Proof.
  unfold inline_subscribe, worker_add_handler, add_handler.
  destruct (with_worker_pp _ _ rt) as [rta|]; [|done]. intros H. by exists rta.
Qed.

(** The first handle [run_on_all_other_workers] visits from worker 0 is
    worker 1's, and from worker 1 it is worker 0's. *)
Lemma other_workers_01 n :
  (2 <= n)%nat -> exists r0 r1, other_workers n 0 = 1%nat :: r0 /\ other_workers n 1 = 0%nat :: r1.
Proof.
  intros Hn. destruct n as [|[|n]]; [lia|lia|]. unfold other_workers. cbn [seq].
  do 2 eexists. split; [rewrite filter_cons_False, filter_cons_True by lia|
                        rewrite filter_cons_True by lia]; reflexivity.
Qed.

(** Two workers each awaiting the other are stuck: their command tasks
    only run while their threads are not blocked. *)
Lemma mutual_wait_step s s' i j p t ts p' t' ts' :
  i <> j ->
  cs_phase s !! i = Some (Awaiting p t j ts) -> cs_phase s !! j = Some (Awaiting p' t' i ts') ->
  sub_step s s' -> cs_phase s' !! i = cs_phase s !! i /\ cs_phase s' !! j = cs_phase s !! j.
Proof.
  intros Hij Hi Hj Hstep.
  destruct Hstep as [s k q r g nh Hk _|s k q r l ts0 Hk|s k q r Hk|s k c cs pp pp' Hk _ _ _];
    unfold set_phase; simpl; assert (k <> i) by congruence; assert (k <> j) by congruence.
  1-3: by rewrite !lookup_insert_ne.
  rewrite !lookup_alter. split; case_decide as Hc; try done; rewrite Hc; [rewrite Hi|rewrite Hj];
    simpl; by rewrite decide_False.
Qed.

Lemma mutual_wait_rtc s s' i j p t ts p' t' ts' :
  i <> j ->
  cs_phase s !! i = Some (Awaiting p t j ts) -> cs_phase s !! j = Some (Awaiting p' t' i ts') ->
  rtc sub_step s s' -> cs_phase s' !! i = cs_phase s !! i /\ cs_phase s' !! j = cs_phase s !! j.
Proof.
  intros Hij Hi Hj Hrtc. revert Hi Hj.
  induction Hrtc as [s|s1 s2 s3 Hst _ IH]; intros Hi Hj; [done|].
  destruct (mutual_wait_step _ _ _ _ _ _ _ _ _ _ Hij Hi Hj Hst) as [E1 E2].
  rewrite <- E1 in Hi |- *. rewrite <- E2 in Hj |- *. by apply IH.
Qed.

(** One target of a lone subscription: worker [i] sends its command to
    the free worker [k], which runs it and wakes [i]. *)
Lemma solo_send_exec s i p t k ts pp pp' :
  i <> k ->
  cs_phase s !! i = Some (Sending p t (k :: ts)) -> cs_phase s !! k = Some Running ->
  cmds_of s k = [] -> cs_pps s !! k = Some pp ->
  add_redirect (worker_id_of i) p t pp = Ok pp' ->
  rtc sub_step s {| cs_globals := cs_globals s; cs_pps := <[k := pp']> (cs_pps s);
                    cs_phase := <[i := Sending p t ts]> (cs_phase s);
                    cs_cmds := <[k := []]> (cs_cmds s) |}.
Proof.
  intros Hik Hi Hk Hc Hpp Hadd.
  eapply rtc_l; [apply (SubSend s i p t k ts Hi)|].
  set (c := {| cmd_from := i; cmd_plane_id := p; cmd_topic := t |}).
  eapply rtc_l.
  { apply (SubExec _ k c [] pp pp'); simpl; [by rewrite lookup_insert_ne| |done|done].
    unfold cmds_of in *. simpl. rewrite lookup_insert_eq. simpl. by rewrite Hc. }
  simpl. rewrite alter_insert_eq, insert_insert_eq. simpl. rewrite decide_True by done.
  apply rtc_refl.
Qed.

(** The loop of [run_on_all_other_workers] of a lone subscriber [i] over
    the handles from [length pre] on, the others' threads free. *)
Lemma solo_run_from i p t : forall suf pre s suf',
  cs_pps s = pre ++ suf ->
  cs_phase s !! i = Some (Sending p t (filter (fun j => j <> i) (seq (length pre) (length suf)))) ->
  (forall j, (length pre <= j < length pre + length suf)%nat -> j <> i ->
     cs_phase s !! j = Some Running /\ cmds_of s j = []) ->
  run_on_all_other_workers_from (Z.of_nat i) (length pre) (add_redirect (worker_id_of i) p t) suf
    = Ok suf' ->
  exists s', rtc sub_step s s' /\ cs_pps s' = pre ++ suf' /\ cs_globals s' = cs_globals s
    /\ cs_phase s' = <[i := Sending p t []]> (cs_phase s) /\ forall j, cmds_of s' j = cmds_of s j.
Proof.
  induction suf as [|pp suf IH]; intros pre s suf' Hpps Hi Hfree Hrun.
  { injection Hrun as <-. exists s. split_and!; [done|by rewrite Hpps|done| |done].
    by rewrite insert_id. }
  cbn [length seq] in Hi, Hfree. cbn [run_on_all_other_workers_from] in Hrun.
  case_decide as Hk.
  - assert (i = length pre) as -> by lia. cbn [mbind result_bind] in Hrun.
    destruct (run_on_all_other_workers_from _ (S (length pre)) _ suf) as [suf0|] eqn:Er; [|done].
    injection Hrun as <-. rewrite filter_cons_False in Hi by lia.
    destruct (IH (pre ++ [pp]) s suf0) as (s' & ? & Hp' & ? & ? & ?);
      rewrite ?length_app, ?Nat.add_1_r; [by rewrite Hpps, <- app_assoc|done| |done|].
    + intros j Hj. apply Hfree. simpl in Hj. lia.
    + exists s'. split_and!; try done. by rewrite Hp', <- app_assoc.
  - destruct (add_redirect (worker_id_of i) p t pp) as [pp'|] eqn:Ea; [|done].
    cbn [mbind result_bind] in Hrun.
    destruct (run_on_all_other_workers_from _ (S (length pre)) _ suf) as [suf0|] eqn:Er; [|done].
    injection Hrun as <-. rewrite filter_cons_True in Hi by lia.
    destruct (Hfree (length pre)) as [Hkr Hkc]; [lia|lia|].
    pose proof (solo_send_exec s i p t (length pre) _ pp pp' ltac:(lia) Hi Hkr Hkc
                  ltac:(rewrite Hpps; by apply list_lookup_middle) Ea) as Hsteps.
    match type of Hsteps with rtc _ _ ?s2 =>
      destruct (IH (pre ++ [pp']) s2 suf0) as (s' & Hr' & Hp' & Hg' & Hph' & Hc') end;
      rewrite ?length_app, ?Nat.add_1_r; simpl; [| |intros j Hj Hji|done|].
    + rewrite Hpps, insert_app_r_alt, Nat.sub_diag by lia. simpl. by rewrite <- app_assoc.
    + by rewrite lookup_insert_eq.
    + destruct (Hfree j) as [Hj1 Hj2]; [lia|lia|]. rewrite lookup_insert_ne by lia.
      split; [done|]. unfold cmds_of in *. simpl. by rewrite lookup_insert_ne by lia.
    + exists s'. split_and!; [by eapply rtc_trans|by rewrite Hp', <- app_assoc|done| |].
      * rewrite Hph'. simpl. by rewrite insert_insert_eq.
      * intros j. rewrite Hc'. unfold cmds_of in *. simpl. rewrite lookup_insert.
        case_decide; [subst; by rewrite Hkc|done].
Qed.

(** ** Theorems *)

(** C17: Subscriptions (spec, section 4.6): on every runtime the router
    setups of roles build from a well-formed one, a worker whose bit is
    set in a topic's subscription mask is the target of a redirect of the
    topic's new packets on every other worker. *)
Theorem setup_reachable_subscribed rt0 rt :
  rt_wf rt0 -> rtc setup_step rt0 rt ->
  forall p t (i j : nat) pp,
    Z.testbit (subscribed_mask (rt_globals rt) p t) (Z.of_nat i) = true -> i <> j ->
    rt_pps rt !! j = Some pp -> redirects pp p t (worker_id_of i).
Proof.
  intros Hwf Hrtc. assert (Hwf' : rt_wf rt) by (induction Hrtc; eauto using setup_step_wf).
  apply (rt_subscribed _ Hwf').
Qed.

(** C18: the subscription mask is never cleared, while the redirects it
    stands for are: when a role of another worker on the same plane stops,
    its worker's packet processor drops the whole plane, the redirect to
    the subscriber with it, and a later [subscribe] of the subscriber
    finds its bit set and installs nothing, so new packets of the topic
    that arrive on that other worker no longer reach it. *)
Theorem subscription_lost_after_role_shutdown {K V} `{Countable K} rt s0 s1 topic hid f hid' f'
    rt1 rt2 rt3 (locals locals' : @ContextMapPrivate K V _ _) :
  rt_wf rt -> on_worker rt s0 -> on_worker rt s1 -> worker_of s0 <> worker_of s1 ->
  rs_plane_id s1 = rs_plane_id s0 ->
  inline_subscribe s0 topic hid f rt = Ok rt1 ->
  role_on_shutdown s1 locals rt1 = Ok (rt2, locals') ->
  inline_subscribe s0 topic hid' f' rt2 = Ok rt3 ->
  (exists pp1, rt_pps rt1 !! worker_of s1 = Some pp1
     /\ redirects pp1 (rs_plane_id s0) topic (rs_worker_id s0))
  /\ Z.testbit (subscribed_mask (rt_globals rt3) (rs_plane_id s0) topic)
       (Z.of_nat (worker_of s0)) = true
  /\ exists pp3, rt_pps rt3 !! worker_of s1 = Some pp3
     /\ ~ redirects pp3 (rs_plane_id s0) topic (rs_worker_id s0).
Proof.
  intros Hwf Hon0 Hon1 Hne Hplane Hs1 Hsd Hs3.
  destruct (on_worker_index _ _ Hon0) as [Hidx0 Hr0]. pose proof (rt_workers _ Hwf) as H64.
  assert (Hmod : Z.of_nat (worker_of s0) mod 64 = Z.of_nat (worker_of s0)) by (apply Z.mod_small; lia).
  apply inline_subscribe_inv in Hs1 as (rta & Ea & Eb).
  destruct (with_worker_pp_add_node (worker_of s0) PACKET_PROCESSOR_SOURCE_ANY (rs_plane_id s0)
              topic (Inline hid f) rt Hwf) as (rta' & Ea' & Hwfa & _ & Hlena).
  rewrite Ea' in Ea. injection Ea as <-.
  destruct (add_topic_subscription_ok (rs_worker_id s0) (rs_plane_id s0) topic rta' Hwfa)
    as (rt1' & Eb' & Hwf1 & Hlen1 & Hbit1 & _); [lia|].
  rewrite Eb' in Eb. injection Eb as <-.
  destruct (lookup_lt_is_Some_2 (rt_pps rt1') (worker_of s1)) as [pp1 Hpp1]; [destruct Hon1; lia|].
  assert (Hred1 : redirects pp1 (rs_plane_id s0) topic (rs_worker_id s0)).
  { destruct Hon0 as [Hw0 _]. rewrite Hw0. eapply (rt_subscribed _ Hwf1); [|done|done].
    by rewrite <- Hidx0. }
  unfold role_on_shutdown, role_teardown, with_worker_pp in Hsd. rewrite Hpp1 in Hsd.
  destruct (remove_plane_ok pp1 (rs_plane_id s1) (rt_pp_wf _ Hwf1 _ _ Hpp1)) as (pp2 & Erm & Hh2 & _).
  rewrite Erm in Hsd. cbn [mbind result_bind] in Hsd.
  destruct (shutdown_tag _ locals); [|done]. injection Hsd as <- _.
  apply inline_subscribe_inv in Hs3 as (rtc & Ec & Ed).
  destruct (with_worker_pp_other _ _ _ _ (worker_of s1) Ec) as [Hgc Hpc]; [done|].
  rewrite add_topic_subscription_subscribed in Ed;
    [|lia|rewrite Hgc; simpl; rewrite Hidx0, Hmod, <- Hidx0; exact Hbit1].
  injection Ed as <-. simpl. split_and!; [by exists pp1| |].
  - rewrite <- Hmod, <- Hidx0. apply subscribed_bit_own. lia.
  - exists pp2. rewrite Hpc. simpl. rewrite list_lookup_insert, decide_True by (destruct Hon1; lia).
    split; [done|]. unfold redirects. rewrite Hh2, decide_True by (simpl; congruence).
    apply not_elem_of_nil.
Qed.

(** [1 << worker_id.0] on a [u64] gives worker [i + 64] the bit of
    worker [i]: once worker [i] subscribed to a topic, the subscription
    of worker [i + 64] installs no redirect on any worker (in a debug
    build the shift panics instead). *)
Theorem subscription_mask_aliases w1 w2 p t rt rt1 :
  0 <= worker_index w1 -> worker_index w2 = worker_index w1 + 64 ->
  add_topic_subscription w1 p t rt = Ok rt1 ->
  exists g, add_topic_subscription w2 p t rt1 = Ok {| rt_globals := g; rt_pps := rt_pps rt1 |}.
Proof.
  intros Hw1 Hw2 H1. exists (fst (with_global w2 (p, t) (subscribe_mask w2) (rt_globals rt1))).
  apply add_topic_subscription_subscribed; [lia|].
  rewrite (add_topic_subscription_globals _ _ _ _ _ H1), Hw2.
  replace (worker_index w1 + 64) with (worker_index w1 + 1 * 64) by lia.
  rewrite Z_mod_plus_full.
  by apply subscribed_bit_own.
Qed.

(** C19: [add_topic_subscription] blocks its worker thread in
    [pollster::block_on] until every other worker has run its redirect
    from its command queue; a worker runs its queue only while its thread
    is free.  When workers 0 and 1 subscribe at the same time, each to a
    topic it has not subscribed to, each sends its first command to the
    other and waits for it: from then on neither thread ever runs again,
    whatever the other workers do. *)
Theorem concurrent_subscriptions_deadlock s p0 t0 p1 t1 :
  (2 <= length (cs_pps s))%nat ->
  cs_phase s !! 0%nat = Some Running -> cs_phase s !! 1%nat = Some Running ->
  Z.testbit (subscribed_mask (cs_globals s) p0 t0) 0 = false ->
  Z.testbit (subscribed_mask (cs_globals s) p1 t1) 1 = false ->
  exists s', rtc sub_step s s'
    /\ cs_phase s' !! 0%nat <> Some Running /\ cs_phase s' !! 1%nat <> Some Running
    /\ forall s'', rtc sub_step s' s'' ->
         cs_phase s'' !! 0%nat = cs_phase s' !! 0%nat /\ cs_phase s'' !! 1%nat = cs_phase s' !! 1%nat.
Proof.
  intros Hn H0 H1 Hb0 Hb1.
  destruct (other_workers_01 (length (cs_pps s)) Hn) as (r0 & r1 & Ho0 & Ho1).
  pose proof (with_global_needs (worker_id_of 0) p0 t0 (cs_globals s) ltac:(simpl; lia)) as Hn0.
  pose proof (subscribed_mask_with_global (worker_id_of 0) p0 t0 (cs_globals s) p1 t1
                ltac:(simpl; lia) 1 ltac:(lia)) as Hg1.
  destruct (with_global (worker_id_of 0) (p0, t0) _ (cs_globals s)) as [g1 n0] eqn:E0.
  change (worker_index (worker_id_of 0) mod 64) with 0 in Hn0, Hg1.
  cbn [fst snd] in Hn0, Hg1. rewrite Hb0 in Hn0. rewrite Hb1, andb_false_r in Hg1. subst n0.
  pose proof (with_global_needs (worker_id_of 1) p1 t1 g1 ltac:(simpl; lia)) as Hn1.
  destruct (with_global (worker_id_of 1) (p1, t1) _ g1) as [g2 n1] eqn:E1.
  change (worker_index (worker_id_of 1) mod 64) with 1 in Hn1. cbn [fst snd] in Hn1.
  rewrite Hg1 in Hn1. subst n1.
  eexists. split.
  { eapply rtc_l; [apply (SubBegin s 0 p0 t0 g1 true); done|].
    eapply rtc_l; [apply (SubBegin _ 1 p1 t1 g2 true); [simpl; by rewrite lookup_insert_ne|done]|].
    eapply rtc_l; [apply (SubSend _ 0 p0 t0 1 r0); simpl;
                   by rewrite lookup_insert_ne, lookup_insert_eq, Ho0 by lia|].
    eapply rtc_l; [apply (SubSend _ 1 p1 t1 0 r1); simpl;
                   by rewrite lookup_insert_ne, lookup_insert_eq, Ho1 by lia|].
    apply rtc_refl. }
  split_and!; [simpl; by rewrite lookup_insert_ne, lookup_insert_eq by lia|
               simpl; by rewrite lookup_insert_eq|]. intros s'' Hrtc.
  eapply (mutual_wait_rtc _ _ 0 1); [lia| | |exact Hrtc]; simpl;
    by rewrite ?lookup_insert_ne, ?lookup_insert_eq by lia.
Qed.

(** the sequential [add_topic_subscription] is what a lone
    subscription does in the concurrent runtime: when worker [i]
    subscribes while every other thread is free, the run of its
    [block_on] -- one command per other worker, each run by that worker's
    command task -- ends with all threads free again, no command queued,
    and the globals and the packet processors [add_topic_subscription]
    computes. *)
Theorem solo_subscription_refines rt i p t rt' :
  (i < length (rt_pps rt))%nat ->
  add_topic_subscription (worker_id_of i) p t rt = Ok rt' ->
  exists s', rtc sub_step (conc_of rt) s' /\ cs_globals s' = rt_globals rt'
    /\ cs_pps s' = rt_pps rt' /\ cs_phase s' = cs_phase (conc_of rt) /\ forall j, cmds_of s' j = [].
Proof.
  intros Hi Hadd. unfold add_topic_subscription in Hadd.
  assert (Hrun : cs_phase (conc_of rt) !! i = Some Running).
  { simpl. rewrite lookup_map_seq_0. by apply lookup_replicate_2. }
  destruct (with_global (worker_id_of i) (p, t) (subscribe_mask (worker_id_of i)) (rt_globals rt))
    as [g needs] eqn:Eg.
  pose proof (SubBegin (conc_of rt) i p t g needs Hrun Eg) as Hbegin.
  destruct needs.
  - unfold run_on_all_other_workers in Hadd. simpl in Hadd.
    destruct (run_on_all_other_workers_from (Z.of_nat i) 0 _ (rt_pps rt)) as [pps'|] eqn:Er;
      [|done].
    injection Hadd as <-.
    match type of Hbegin with sub_step _ ?s1 =>
      destruct (solo_run_from i p t (rt_pps rt) [] s1 pps') as (s' & Hr' & Hp' & Hg' & Hph' & Hc')
    end; simpl; [done|by rewrite lookup_insert_eq| |done|].
    + intros j Hj Hji. rewrite lookup_insert_ne, lookup_map_seq_0, lookup_replicate_2 by lia.
      split; [done|]. unfold cmds_of. simpl. by rewrite lookup_empty.
    + exists (set_phase i Running s'). split_and!.
      * eapply rtc_l; [exact Hbegin|]. eapply rtc_r; [exact Hr'|]. apply (SubReturn _ i p t).
        by rewrite Hph', lookup_insert_eq.
      * done.
      * done.
      * simpl. rewrite Hph'. simpl. by rewrite !insert_insert_eq, insert_id.
      * intros j. unfold cmds_of in *. simpl. rewrite Hc'. simpl. by rewrite lookup_empty.
  - injection Hadd as <-. eexists. split_and!; [by apply rtc_once|done|done| |].
    + simpl. by rewrite insert_id.
    + intros j. unfold cmds_of. simpl. by rewrite lookup_empty.
Qed.

(** end to end, an event arrives as sent: the packet
    [EventTx::send] appends to the writer of its topic is decoded by every
    receiving path of a role -- [handle_events_async] (queued), the
    closure of [inline] and [handle_untyped_async] -- into the sender's
    address and the payload that was sent. *)
Theorem event_tx_send_delivers `{CodecLaws T} now (tx : EventTx) (payload : T) i s' woken :
  select_channel (channel_selector (etx_packet_sender tx)) (etx_topic tx) = Ok i ->
  event_tx_send now tx payload = Ok (s', woken) ->
  admissible payload = true -> fits 32 (etx_plane_id tx) = true -> fits 32 (etx_topic tx) = true ->
  admissible (endpoint_addr (etx_packet_sender tx)) = true ->
  exists packet v, written_at s' i = written_at (etx_packet_sender tx) i ++ [packet]
    /\ handle_events_async (T := T) [packet] = [(endpoint_addr (etx_packet_sender tx), v)]
    /\ lazy_to_owned (A := T) v = Some payload
    /\ inline_packet packet = Some payload
    /\ handle_untyped_async [packet] = [(endpoint_addr (etx_packet_sender tx), packet)].
Proof.
  intros Hsel Hsend Hpl Hp Ht He. unfold event_tx_send, send in Hsend.
  pose proof (send_raw_written_at _ _ _ _ _ _ _ _ _ Hsel Hsend) as Hw.
  set (hdr := tx_header (etx_packet_sender tx) (etx_plane_id tx) (etx_topic tx)
                (wrap 16 (Z.of_nat (base_len (A := T))))).
  assert (Hdec : decode (A := TransmitPacket) (encode hdr ++ encode payload)
                 = Some (hdr, encode payload)) by (apply decode_encode, tx_header_admissible; done).
  assert (Hpay : decode (A := T) (encode payload) = Some (payload, [])).
  { rewrite <- (app_nil_r (encode payload)). by apply decode_encode. }
  exists (encode hdr ++ encode payload), (fst (lazy_decode (A := T) (encode payload) 0)).
  rewrite Hw. split_and!; [done| | | |].
  - unfold handle_events_async, handle_event_packet. cbn [omap list_omap].
    rewrite Hdec. cbn [mbind option_bind]. rewrite drop_app_length.
    rewrite decide_True by (rewrite length_encode; lia). reflexivity.
  - unfold lazy_to_owned. cbn [lazy_decode fst lz_offset lz_buffer]. by rewrite drop_0, Hpay.
  - unfold inline_packet. rewrite <- (length_encode hdr), drop_app_length. by rewrite Hpay.
  - unfold handle_untyped_async, handle_untyped_packet. cbn [omap list_omap].
    by rewrite Hdec.
Qed.

(** ** Witnesses *)

Lemma ex_rt_wf : rt_wf ex_rt.
Proof.
  apply rt_wf_new; [simpl; lia|].
  constructor; [apply pp_new_wf|constructor; [apply pp_new_wf|constructor]].
Qed.

Lemma setup_reachable_subscribed_witness :
  redirects (default (pp_new []) (rt_pps ex_rt1 !! 1%nat)) 7 3 (worker_id_of 0).
Proof.
  refine (setup_reachable_subscribed ex_rt ex_rt1 ex_rt_wf _ 7 3 0 1 _ _ _ _).
  - apply rtc_once. apply (SetupInlineSubscribe _ _ (ex_role 0) 3 0 ex_handler).
    + split; [reflexivity|vm_compute; lia].
    + vm_compute. reflexivity.
  - vm_compute. reflexivity.
  - lia.
  - vm_compute. reflexivity.
Defined.

Lemma subscription_lost_after_role_shutdown_witness :
  (exists pp1, rt_pps ex_rt1 !! worker_of (ex_role 1) = Some pp1
     /\ redirects pp1 (rs_plane_id (ex_role 0)) 3 (rs_worker_id (ex_role 0)))
  /\ Z.testbit (subscribed_mask (rt_globals ex_rt3) (rs_plane_id (ex_role 0)) 3)
       (Z.of_nat (worker_of (ex_role 0))) = true
  /\ exists pp3, rt_pps ex_rt3 !! worker_of (ex_role 1) = Some pp3
     /\ ~ redirects pp3 (rs_plane_id (ex_role 0)) 3 (rs_worker_id (ex_role 0)).
Proof.
  apply (subscription_lost_after_role_shutdown ex_rt (ex_role 0) (ex_role 1) 3 0 ex_handler
           1 ex_handler ex_rt1 ex_rt2 ex_rt3 ex_locals ex_locals).
  - exact ex_rt_wf.
  - split; [reflexivity|vm_compute; lia].
  - split; [reflexivity|vm_compute; lia].
  - vm_compute. lia.
  - reflexivity.
  - vm_compute. reflexivity.
  - vm_compute. reflexivity.
  - vm_compute. reflexivity.
Defined.

Lemma subscription_mask_aliases_witness :
  exists g, add_topic_subscription {| worker_index := 64 |} 7 3 ex_sub0
            = Ok {| rt_globals := g; rt_pps := rt_pps ex_sub0 |}.
Proof.
  apply (subscription_mask_aliases (worker_id_of 0) {| worker_index := 64 |} 7 3 ex_rt).
  - simpl. lia.
  - reflexivity.
  - vm_compute. reflexivity.
Defined.

Lemma concurrent_subscriptions_deadlock_witness :
  exists s', rtc sub_step (conc_of ex_rt) s'
    /\ cs_phase s' !! 0%nat <> Some Running /\ cs_phase s' !! 1%nat <> Some Running
    /\ forall s'', rtc sub_step s' s'' ->
         cs_phase s'' !! 0%nat = cs_phase s' !! 0%nat /\ cs_phase s'' !! 1%nat = cs_phase s' !! 1%nat.
Proof.
  apply (concurrent_subscriptions_deadlock (conc_of ex_rt) 7 3 7 4);
    vm_compute; first [reflexivity|lia].
Defined.

Lemma solo_subscription_refines_witness :
  exists s', rtc sub_step (conc_of ex_rt) s' /\ cs_globals s' = rt_globals ex_sub0
    /\ cs_pps s' = rt_pps ex_sub0 /\ cs_phase s' = cs_phase (conc_of ex_rt)
    /\ forall j, cmds_of s' j = [].
Proof.
  apply (solo_subscription_refines ex_rt 0 7 3 ex_sub0).
  - vm_compute. lia.
  - vm_compute. reflexivity.
Defined.

Lemma event_tx_send_delivers_witness :
  exists packet v, written_at (fst ex_sent) 0 = written_at (etx_packet_sender ex_tx) 0 ++ [packet]
    /\ handle_events_async (T := EndpointAddr) [packet] = [(endpoint_addr (etx_packet_sender ex_tx), v)]
    /\ lazy_to_owned (A := EndpointAddr) v = Some ex_payload
    /\ inline_packet packet = Some ex_payload
    /\ handle_untyped_async [packet] = [(endpoint_addr (etx_packet_sender ex_tx), packet)].
Proof.
  apply (event_tx_send_delivers 0 ex_tx ex_payload 0 (fst ex_sent) (snd ex_sent));
    vm_compute; reflexivity.
Defined.
