(* ===== verification/Hub.v ===== *)
(** * The hub's broadcaster (modrpc-hub/src/broadcaster.rs)

    The hub relays packet bundles between endpoints.  Each transport it
    serves (TCP, WebSocket, browser WebSocket, or a local queue) lives in
    a slot map of its kind; [next_hops] maps a local channel to the
    transports (with their remote channel ids) that bundles arriving on
    the channel are broadcast to, and [transport_local_channel_ids]
    remembers, per transport, the channels it was added to so that
    removing it can clean up.  The broadcaster's task serves two queues:
    incoming bundles ([handle_in_packet]) and requests
    ([handle_request]).

    A transport is modelled by its sink: whether the peer still accepts
    writes, and what it has been sent (one bundle message per send on a
    socket; one packet per send on a local queue).  The four slot maps
    are one finite map keyed by [TransportIndex] (kind and key), with a
    counter for the fresh keys [SlotMap::insert] returns. *)
From S2P Require Import Prelude Codec.
Local Open Scope Z_scope.

(** ** Data *)

Inductive TransportType := Tcp | WebSocket | GlooWebSocket | Local.

#[export] Instance TransportType_eq_dec : EqDecision TransportType.
Proof. solve_decision. Defined.
#[export] Instance TransportType_countable : Countable TransportType.
Proof.
  apply (inj_countable'
           (fun t => match t with Tcp => 0%nat | WebSocket => 1%nat | GlooWebSocket => 2%nat
                             | Local => 3%nat end)
           (fun n => match n with 0%nat => Tcp | 1%nat => WebSocket | 2%nat => GlooWebSocket
                             | _ => Local end)).
  by intros [].
Defined.

(** [TransportIndex { transport_type, transport }]: the slot map key is
    a fresh number. *)
Record TransportIndex := { transport_type : TransportType; transport : nat }.

#[export] Instance TransportIndex_eq_dec : EqDecision TransportIndex.
Proof. solve_decision. Defined.
#[export] Instance TransportIndex_countable : Countable TransportIndex.
Proof.
  apply (inj_countable' (fun t => (transport_type t, transport t))
           (fun p => {| transport_type := p.1; transport := p.2 |})).
  by intros [].
Defined.

(** [ChannelId { channel_id: u32 }]. *)
Record ChannelId := { ch_id : Z }.

#[export] Instance ChannelId_eq_dec : EqDecision ChannelId.
Proof. solve_decision. Defined.
#[export] Instance ChannelId_countable : Countable ChannelId.
Proof. by apply (inj_countable' ch_id (fun z => {| ch_id := z |})); intros []. Defined.

Record NextHop := { remote_channel_id : ChannelId; hop_transport : TransportIndex }.

#[export] Instance NextHop_eq_dec : EqDecision NextHop.
Proof. solve_decision. Defined.

(** [InPacket { transport, channel_id, packet }]: a bundle body received
    on [transport] for the local channel [channel_id]. *)
Record InPacket := { in_transport : TransportIndex; in_channel_id : Z; in_packet : list byte }.

(** The sink of a transport. *)
Record Transport := { tr_open : bool; tr_sent : list (list byte) }.

Definition transport_new : Transport := {| tr_open := true; tr_sent := [] |}.

Definition with_sent (t : Transport) (msg : list byte) : Transport :=
  {| tr_open := tr_open t; tr_sent := tr_sent t ++ [msg] |}.

(** [BroadcasterRequest]; the streams, sinks and queues of the [Add*]
    requests are new open sinks, and each request's [response_tx] is the
    value [handle_request] returns. *)
Inductive BroadcasterRequest :=
| AddTcp
| AddWs
| AddGlooWs
| AddLocal
| Remove (transport : TransportIndex)
| AddNextHopToChannels (next_hop_transport : TransportIndex)
    (channel_ids : list (ChannelId * ChannelId)).

Record Broadcaster := {
  next_hops : gmap ChannelId (list NextHop);
  transport_local_channel_ids : gmap TransportIndex (list ChannelId);
  transports : gmap TransportIndex Transport;
  next_key : nat;
}.

Definition broadcaster_new : Broadcaster :=
  {| next_hops := ∅; transport_local_channel_ids := ∅; transports := ∅; next_key := 0 |}.

Definition with_transports (st : Broadcaster) (ts : gmap TransportIndex Transport) : Broadcaster :=
  {| next_hops := next_hops st; transport_local_channel_ids := transport_local_channel_ids st;
     transports := ts; next_key := next_key st |}.

Definition BUNDLE_HEADER_LEN : nat := base_len (A := PacketBundle).

(** ** Operations *)

(** [SlotMap::insert] of a new transport of kind [ty], and the index the
    request answers with. *)
Definition insert_transport (ty : TransportType) (st : Broadcaster) : Broadcaster * TransportIndex :=
  let idx := {| transport_type := ty; transport := next_key st |} in
  ({| next_hops := next_hops st; transport_local_channel_ids := transport_local_channel_ids st;
      transports := <[idx := transport_new]> (transports st); next_key := S (next_key st) |}, idx).

Definition add_local_transport (st : Broadcaster) : Broadcaster * TransportIndex :=
  insert_transport Local st.

(** The message a socket next hop is sent: a [PacketBundle] header with the
    remote channel and [bundle_payload.len() as u16], then the payload. *)
Definition bundle_message (remote : ChannelId) (bundle_payload : list byte) : list byte :=
  encode {| channel_id := ch_id remote;
            bundle_length := wrap 16 (Z.of_nat (length bundle_payload)) |}
  ++ bundle_payload.

(** The loop over the shattered packets of a local next hop: each is sent
    in turn, and the first failed send removes the transport. *)
Fixpoint send_local (packets : list (list byte)) (t : Transport) : option Transport :=
  match packets with
  | [] => Some t
  | packet :: packets' => if tr_open t then send_local packets' (with_sent t packet) else None
  end.

(** One turn of the loop of [broadcast]. *)
Definition broadcast_hop (in_packet_ : InPacket) (next_hop : NextHop)
    (ts : gmap TransportIndex Transport) : gmap TransportIndex Transport :=
  let transport_index := hop_transport next_hop in
  if decide (transport_index = in_transport in_packet_) then ts
  else match transport_type transport_index with
  | Local =>
      match ts !! transport_index with
      | None => ts
      | Some local_transport =>
          match send_local (shatter_packet_bundle_iter (in_packet in_packet_)) local_transport with
          | Some t => <[transport_index := t]> ts
          | None => delete transport_index ts
          end
      end
  | _ =>
      match ts !! transport_index with
      | None => ts
      | Some t =>
          if tr_open t
          then <[transport_index := with_sent t
                   (bundle_message (remote_channel_id next_hop) (in_packet in_packet_))]> ts
          else delete transport_index ts
      end
  end.

Definition broadcast (in_packet_ : InPacket) (next_hops_ : list NextHop)
    (ts : gmap TransportIndex Transport) : gmap TransportIndex Transport :=
  foldl (fun ts next_hop => broadcast_hop in_packet_ next_hop ts) ts next_hops_.

Definition handle_in_packet (st : Broadcaster) (in_packet_ : InPacket) : Broadcaster :=
  match next_hops st !! {| ch_id := in_channel_id in_packet_ |} with
  | Some next_hops_ => with_transports st (broadcast in_packet_ next_hops_ (transports st))
  | None => st
  end.

(** [remove_transport]: the slot, the transport's list of channels, and
    the transport from the next hops of each of those channels. *)
Definition remove_from_channels (transport_ : TransportIndex) (local_channel_ids : list ChannelId)
    (nh : gmap ChannelId (list NextHop)) : gmap ChannelId (list NextHop) :=
  foldl (fun nh local_channel_id =>
           alter (filter (fun next_hop => hop_transport next_hop <> transport_)) local_channel_id nh)
    nh local_channel_ids.

Definition remove_transport (st : Broadcaster) (transport_ : TransportIndex) : Broadcaster :=
  let ts := delete transport_ (transports st) in
  match transport_local_channel_ids st !! transport_ with
  | Some local_channel_ids =>
      {| next_hops := remove_from_channels transport_ local_channel_ids (next_hops st);
         transport_local_channel_ids := delete transport_ (transport_local_channel_ids st);
         transports := ts; next_key := next_key st |}
  | None => with_transports st ts
  end.

(** [AddNextHopToChannels]: push a next hop on each local channel's list
    (creating it), then extend the transport's list of channels. *)
Definition add_next_hops (next_hop_transport : TransportIndex)
    (channel_ids : list (ChannelId * ChannelId)) (nh : gmap ChannelId (list NextHop))
    : gmap ChannelId (list NextHop) :=
  foldl (fun nh '(local_channel_id, remote_channel_id) =>
           <[local_channel_id := default [] (nh !! local_channel_id)
                                 ++ [{| remote_channel_id := remote_channel_id;
                                        hop_transport := next_hop_transport |}]]> nh)
    nh channel_ids.

Definition add_next_hop_to_channels (st : Broadcaster) (next_hop_transport : TransportIndex)
    (channel_ids : list (ChannelId * ChannelId)) : Broadcaster :=
  {| next_hops := add_next_hops next_hop_transport channel_ids (next_hops st);
     transport_local_channel_ids :=
       <[next_hop_transport := default [] (transport_local_channel_ids st !! next_hop_transport)
                               ++ map fst channel_ids]> (transport_local_channel_ids st);
     transports := transports st; next_key := next_key st |}.

(** [Broadcaster::handle_request]; in a module of its own, apart from the
    request tracker's [handle_request]. *)
Module Broadcaster.
Definition handle_request (st : Broadcaster) (request : BroadcasterRequest)
    : Broadcaster * option TransportIndex :=
  match request with
  | AddTcp => let '(st, idx) := insert_transport Tcp st in (st, Some idx)
  | AddWs => let '(st, idx) := insert_transport WebSocket st in (st, Some idx)
  | AddGlooWs => let '(st, idx) := insert_transport GlooWebSocket st in (st, Some idx)
  | AddLocal => let '(st, idx) := insert_transport Local st in (st, Some idx)
  | Remove transport_ => (remove_transport st transport_, None)
  | AddNextHopToChannels next_hop_transport channel_ids =>
      (add_next_hop_to_channels st next_hop_transport channel_ids, None)
  end.
End Broadcaster.
Import Broadcaster.

(** What [Broadcaster::run]'s [select!] takes from either queue. *)
Inductive Event := InPkt (in_packet_ : InPacket) | Req (request : BroadcasterRequest).

Definition run_step (st : Broadcaster) (ev : Event) : Broadcaster :=
  match ev with
  | InPkt in_packet_ => handle_in_packet st in_packet_
  | Req request => fst (handle_request st request)
  end.

Definition run (st : Broadcaster) (evs : list Event) : Broadcaster := foldl run_step st evs.

(** [BroadcasterHandle]'s calls: send the request, await the response;
    both [unwrap]s panic once the broadcaster's task is gone. *)
Definition handle_call (running : bool) (st : Broadcaster) (request : BroadcasterRequest)
    : result (Broadcaster * option TransportIndex) :=
  if running then Ok (handle_request st request)
  else Panic "called `Result::unwrap()` on an `Err` value".

Definition add_tcp running st := handle_call running st AddTcp.
Definition add_ws running st := handle_call running st AddWs.
Definition add_gloo_ws running st := handle_call running st AddGlooWs.
Definition add_local running st := handle_call running st AddLocal.
Definition handle_add_next_hop_to_channels running st next_hop_transport channel_ids :=
  handle_call running st (AddNextHopToChannels next_hop_transport channel_ids).
Definition handle_remove_transport running st transport_ :=
  handle_call running st (Remove transport_).

(** ** Specification *)

(** What one next hop does to its transport's sink, if the sink exists. *)
Definition hop_result (in_packet_ : InPacket) (next_hop : NextHop) (t : Transport)
    : option Transport :=
  match transport_type (hop_transport next_hop) with
  | Local => send_local (shatter_packet_bundle_iter (in_packet in_packet_)) t
  | _ => if tr_open t
         then Some (with_sent t (bundle_message (remote_channel_id next_hop) (in_packet in_packet_)))
         else None
  end.

(** The sink of transport [t] after the next hops that name it, in order. *)
Definition broadcast_to (in_packet_ : InPacket) (hops : list NextHop) (o : option Transport)
    : option Transport :=
  foldl (fun o next_hop => o ≫= hop_result in_packet_ next_hop) o hops.

Definition hops_of (t : TransportIndex) (next_hops_ : list NextHop) : list NextHop :=
  filter (fun next_hop => hop_transport next_hop = t) next_hops_.

(** Every next hop of a channel is recorded among its transport's channels. *)
Definition hops_recorded (st : Broadcaster) : Prop :=
  forall ch nhs nh, next_hops st !! ch = Some nhs -> nh ∈ nhs ->
    exists chs, transport_local_channel_ids st !! hop_transport nh = Some chs /\ ch ∈ chs.

(** ** Examples *)

(** A TCP transport and a local one, both next hops of channel 1 (as
    remote channels 5 and 6), and a bundle of two packets arriving on the
    TCP transport for channel 1, then on a third transport. *)
Definition ex_hub : Broadcaster :=
  let '(st, tcp) := insert_transport Tcp broadcaster_new in
  let '(st, local) := insert_transport Local st in
  let '(st, ws) := insert_transport WebSocket st in
  add_next_hop_to_channels
    (add_next_hop_to_channels
       (add_next_hop_to_channels st tcp [({| ch_id := 1 |}, {| ch_id := 5 |})])
       local [({| ch_id := 1 |}, {| ch_id := 6 |})])
    ws [({| ch_id := 2 |}, {| ch_id := 7 |})].

Definition ex_tcp : TransportIndex := {| transport_type := Tcp; transport := 0 |}.
Definition ex_local : TransportIndex := {| transport_type := Local; transport := 1 |}.
Definition ex_ws : TransportIndex := {| transport_type := WebSocket; transport := 2 |}.

Definition ex_bundle : list WirePacket :=
  [example_packet 2 [Byte.x01; Byte.x02]; example_packet 1 [Byte.x03]].

Definition ex_in (from : TransportIndex) : InPacket :=
  {| in_transport := from; in_channel_id := 1; in_packet := bundle_body ex_bundle |}.

(** ** Lemmas *)

(** One next hop touches only its own transport's sink, and never the
    sink of the transport the bundle came from. *)
Lemma broadcast_hop_lookup ip nh ts t :
  broadcast_hop ip nh ts !! t
  = if decide (hop_transport nh = t /\ t <> in_transport ip) then ts !! t ≫= hop_result ip nh
    else ts !! t.
Proof.
  unfold broadcast_hop, hop_result.
  destruct (decide (hop_transport nh = in_transport ip)) as [Ho|Ho].
  { rewrite decide_False by (intros [? ?]; congruence). done. }
  destruct (decide (hop_transport nh = t)) as [Ht|Ht].
  - subst t. rewrite decide_True by done.
    destruct (ts !! hop_transport nh) as [tr|] eqn:E; simpl;
      destruct (transport_type (hop_transport nh)); rewrite ?E; try done;
      repeat case_match; by rewrite ?lookup_insert_eq, ?lookup_delete_eq.
  - rewrite decide_False by naive_solver.
    destruct (ts !! hop_transport nh) eqn:E; destruct (transport_type (hop_transport nh));
      repeat case_match; by rewrite ?lookup_insert_ne, ?lookup_delete_ne.
Qed.

(** The loop of [broadcast], seen from one transport. *)
Lemma broadcast_lookup ip nhs : forall ts t,
  broadcast ip nhs ts !! t
  = if decide (t = in_transport ip) then ts !! t else broadcast_to ip (hops_of t nhs) (ts !! t).
Proof.
  induction nhs as [|nh nhs IH]; intros ts t; simpl.
  { by case_decide. }
  rewrite IH, broadcast_hop_lookup. unfold hops_of. rewrite filter_cons.
  case_decide as Ho; [by rewrite decide_False by naive_solver|].
  destruct (decide (hop_transport nh = t)) as [Ht|Ht].
  - by rewrite decide_True by done.
  - by rewrite decide_False by naive_solver.
Qed.

Lemma remove_from_channels_lookup t lcids : forall nh ch,
  remove_from_channels t lcids nh !! ch
  = if decide (ch ∈ lcids) then filter (fun next_hop => hop_transport next_hop <> t) <$> nh !! ch
    else nh !! ch.
Proof.
  induction lcids as [|c lcids IH]; intros nh ch.
  { rewrite decide_False by set_solver. reflexivity. }
  change (remove_from_channels t (c :: lcids) nh) with (remove_from_channels t lcids
    (alter (filter (fun next_hop => hop_transport next_hop <> t)) c nh)).
  rewrite IH, lookup_alter.
  destruct (decide (c = ch)) as [<-|Hc].
  - rewrite (decide_True (P := c ∈ c :: lcids)) by set_solver.
    destruct (nh !! c) as [l|]; simpl; [|by case_decide].
    case_decide; [|done]. rewrite list_filter_filter_l; [done|tauto].
  - destruct (decide (ch ∈ lcids)).
    + by rewrite (decide_True (P := ch ∈ c :: lcids)) by set_solver.
    + by rewrite (decide_False (P := ch ∈ c :: lcids)) by set_solver.
Qed.

(** Under the invariant, removing a transport takes it out of every
    channel's next hops and keeps every other next hop. *)
Lemma remove_transport_hops st t ch :
  hops_recorded st ->
  next_hops (remove_transport st t) !! ch
  = filter (fun next_hop => hop_transport next_hop <> t) <$> next_hops st !! ch.
Proof.
  intros Hinv. unfold remove_transport.
  assert (Hkeep : forall l, next_hops st !! ch = Some l ->
    (forall chs, transport_local_channel_ids st !! t = Some chs -> ch ∉ chs) ->
    filter (fun next_hop => hop_transport next_hop <> t) l = l).
  { intros l Hl Hnot. apply filter_Forall_id, Forall_forall. intros nh Hnh <-.
    destruct (Hinv _ _ _ Hl Hnh) as (chs & Hchs & Hin). by apply (Hnot chs). }
  destruct (transport_local_channel_ids st !! t) as [lcids|] eqn:E; simpl.
  - rewrite remove_from_channels_lookup. case_decide as Hin; [done|].
    destruct (next_hops st !! ch) eqn:Ech; simpl; [|done].
    f_equal. symmetry. apply Hkeep; [done|]. intros chs [= <-]. done.
  - destruct (next_hops st !! ch) eqn:Ech; simpl; [|done].
    f_equal. symmetry. by apply Hkeep.
Qed.

Lemma add_next_hops_in t cids : forall m ch nhs nh,
  add_next_hops t cids m !! ch = Some nhs -> nh ∈ nhs ->
  (exists l, m !! ch = Some l /\ nh ∈ l) \/ (hop_transport nh = t /\ ch ∈ map fst cids).
Proof.
  induction cids as [|[lc rc] cids IH]; intros m ch nhs nh Hl Hin; simpl in *; [by left; eauto|].
  destruct (IH _ _ _ _ Hl Hin) as [(l & Hm & Hl')|[? ?]]; [|right; set_solver].
  rewrite lookup_insert in Hm. case_decide as Hc; [subst lc|by left; eauto].
  injection Hm as <-. apply elem_of_app in Hl' as [Hold|Hnew].
  - left. destruct (m !! ch); [by eauto|set_solver].
  - right. apply list_elem_of_singleton in Hnew as ->. set_solver.
Qed.

Lemma run_step_hops_recorded st ev : hops_recorded st -> hops_recorded (run_step st ev).
Proof.
  intros Hinv. destruct ev as [ip|[| | | |t|t cids]]; simpl.
  - unfold handle_in_packet. by case_match.
  - exact Hinv.
  - exact Hinv.
  - exact Hinv.
  - exact Hinv.
  - intros ch nhs nh Hch Hin. rewrite remove_transport_hops in Hch by done.
    destruct (next_hops st !! ch) as [l|] eqn:El; [|done]. injection Hch as <-.
    apply list_elem_of_filter in Hin as [Hne Hin].
    destruct (Hinv _ _ _ El Hin) as (chs & Hchs & Hc). exists chs. split; [|done].
    unfold remove_transport. destruct (transport_local_channel_ids st !! t); simpl; [|done].
    by rewrite lookup_delete_ne by congruence.
  - intros ch nhs nh Hch Hin. simpl in Hch.
    destruct (add_next_hops_in _ _ _ _ _ _ Hch Hin) as [(l & Hl & Hin')|[<- Hc]]; simpl.
    + destruct (Hinv _ _ _ Hl Hin') as (chs & Hchs & Hc). rewrite lookup_insert.
      case_decide as Ht; [subst t; rewrite Hchs; eexists; split; [done|set_solver]|by eauto].
    + rewrite lookup_insert_eq. eexists. split; [done|set_solver].
Qed.

Lemma run_hops_recorded evs : forall st, hops_recorded st -> hops_recorded (run st evs).
Proof.
  induction evs as [|ev evs IH]; intros st Hinv; [done|]. apply IH. by apply run_step_hops_recorded.
Qed.

Lemma hops_recorded_new : hops_recorded broadcaster_new.
Proof. intros ch nhs nh Hch. simpl in Hch. by rewrite lookup_empty in Hch. Qed.

Lemma hops_of_single t nhs nh : hops_of t nhs = [nh] -> hop_transport nh = t.
Proof.
  intros H. assert (Hin : nh ∈ hops_of t nhs) by (rewrite H; left).
  by apply list_elem_of_filter in Hin as [? _].
Qed.

(** ** Theorems *)

(** C20: [broadcast] walks a channel's next hops in order, sending to
    every transport in turn; seen from any one transport this is exactly
    the sends of that transport's own next hops, in order, applied to its
    sink (a failed send removes it and later hops skip it).  The transport
    the bundle arrived on is never sent to, and a transport that is no
    next hop of the channel is left as it was. *)
Theorem handle_in_packet_per_transport st ip t :
  transports (handle_in_packet st ip) !! t
  = match next_hops st !! {| ch_id := in_channel_id ip |} with
    | Some nhs => if decide (t = in_transport ip) then transports st !! t
                  else broadcast_to ip (hops_of t nhs) (transports st !! t)
    | None => transports st !! t
    end.
Proof.
  unfold handle_in_packet. destruct (next_hops st !! _); [|done]. apply broadcast_lookup.
Qed.

(** C21: a bundle body of well-formed packets that arrives on one
    transport reaches a socket next hop on another as one message that
    the receiving endpoint's [shatter_packet_bundle] splits back into the
    same packets, under the next hop's remote channel id. *)
Theorem hub_relays_bundle st ip nhs nh t tr ps :
  next_hops st !! {| ch_id := in_channel_id ip |} = Some nhs -> hops_of t nhs = [nh] ->
  t <> in_transport ip -> transport_type t <> Local ->
  transports st !! t = Some tr -> tr_open tr = true ->
  in_packet ip = bundle_body ps -> Forall (fun p => wire_packet_wf p = true) ps ->
  fits 32 (ch_id (remote_channel_id nh)) = true -> Z.of_nat (length (bundle_body ps)) < 2 ^ 16 ->
  exists msg offsets, transports (handle_in_packet st ip) !! t = Some (with_sent tr msg)
    /\ shatter_packet_bundle msg
       = Ok ({| channel_id := ch_id (remote_channel_id nh);
                bundle_length := Z.of_nat (length (bundle_body ps)) |}, offsets)
    /\ shatter_into msg offsets = map packet_bytes ps.
Proof.
  intros Hnh Hhops Hne Hty Htr Hopen Hbody Hwf Hch Hlen.
  assert (Hfits : fits 16 (Z.of_nat (length (bundle_body ps))) = true) by (apply fits_iff; lia).
  destruct (shatter_bundle_bytes (ch_id (remote_channel_id nh)) ps Hwf Hch Hfits)
    as (offsets & Hsh & Hinto).
  exists (bundle_bytes (ch_id (remote_channel_id nh)) ps), offsets. split_and!; [|done|done].
  unfold handle_in_packet. rewrite Hnh. simpl. rewrite broadcast_lookup, decide_False by done.
  rewrite Hhops, Htr. simpl. unfold hop_result. rewrite (hops_of_single _ _ _ Hhops), Hopen.
  unfold bundle_message, bundle_bytes. rewrite Hbody, wrap_small by done.
  by destruct (transport_type t).
Qed.

(** the next-hop tables stay consistent (every next hop of a channel
    is recorded among its transport's channels) on every broadcaster the
    task's events build, so [Remove] of a transport takes it out of every
    channel's next hops, keeps every other next hop, and frees its slot. *)
Theorem hub_remove_clears_hops evs t :
  let st := run broadcaster_new evs in
  (forall ch, next_hops (remove_transport st t) !! ch
              = filter (fun next_hop => hop_transport next_hop <> t) <$> next_hops st !! ch)
  /\ (forall ch nhs, next_hops (remove_transport st t) !! ch = Some nhs ->
        Forall (fun next_hop => hop_transport next_hop <> t) nhs)
  /\ transports (remove_transport st t) !! t = None.
Proof.
  intros st. pose proof (run_hops_recorded evs _ hops_recorded_new) as Hinv. fold st in Hinv.
  split_and!.
  - intros ch. by apply remove_transport_hops.
  - intros ch nhs Hch. rewrite remove_transport_hops in Hch by done.
    destruct (next_hops st !! ch); [|done]. injection Hch as <-.
    apply Forall_forall. intros nh Hin. by apply list_elem_of_filter in Hin as [? _].
  - unfold remove_transport. destruct (transport_local_channel_ids st !! t); simpl;
      apply lookup_delete_eq.
Qed.

(** ** Witnesses *)

Lemma hub_relays_bundle_witness :
  exists msg offsets,
    transports (handle_in_packet ex_hub (ex_in ex_local)) !! ex_tcp
    = Some (with_sent transport_new msg)
    /\ shatter_packet_bundle msg
       = Ok ({| channel_id := 5; bundle_length := Z.of_nat (length (bundle_body ex_bundle)) |},
             offsets)
    /\ shatter_into msg offsets = map packet_bytes ex_bundle.
Proof.
  apply (hub_relays_bundle ex_hub (ex_in ex_local)
           [{| remote_channel_id := {| ch_id := 5 |}; hop_transport := ex_tcp |};
            {| remote_channel_id := {| ch_id := 6 |}; hop_transport := ex_local |}]
           {| remote_channel_id := {| ch_id := 5 |}; hop_transport := ex_tcp |}
           ex_tcp transport_new ex_bundle).
  - vm_compute. reflexivity.
  - vm_compute. reflexivity.
  - vm_compute. discriminate.
  - vm_compute. discriminate.
  - vm_compute. reflexivity.
  - reflexivity.
  - vm_compute. reflexivity.
  - repeat constructor.
  - reflexivity.
  - vm_compute. reflexivity.
Defined.
