(* ===== verification/LoadBalancer.v ===== *)
(** * LoadBalancer: the spill queue of a load-balanced topic

    Models src/crates/modrpc/src/load_balancer.rs together with the
    global-queue helpers of src/crates/modrpc/src/worker.rs that it uses
    ([get_global_queue_sender], [get_global_queue_receiver],
    [run_burstq_batcher], the [GlobalQueue] context class).

    All workers that install a load balancer (or a proxy) for the same
    [(plane_id, topic)] share one [burstq::mpmc(64)] queue, obtained
    through [with_global] under the [LoadBalancerKey]; the model holds one
    such key, so the shared queue is the field [lb_shared] of the system.
    Each worker has, as in the code,

    - the bounded local queue [local_queue_tx] feeding the queued Rx
      (a [localq::mpsc] channel: [Chan]),
    - the [is_flushing_overflow] cell,
    - the overflow task of [spawn_load_balancer], either waiting in
      [shared_rx.recv] (its [overflow] buffer empty) or sending
      [overflow[i..n]] to the local queue,
    - the [localq] channel of its [run_burstq_batcher] task (capacity
      [tx_burst_size]) and the batch that task is sending to the shared
      queue ([first_packet], [batch_size]),
    - the dispatches of the packet processor suspended in
      [queue.send(packet).await] on that channel.

    Every await point is a step ([lb_exec] returns [None] while the
    awaited operation cannot complete), so interleavings of the tasks of
    all workers are sequences of steps.  burstq is an external crate; the
    model uses the contract its callers rely on: [send(n, f)] waits for
    at least one free slot and hands [f] a writer of [min n free] slots,
    [recv(m, f)] waits for at least one packet and hands over
    [min m len] of them, oldest first.  The [ghost] fields record every
    packet routed, handled (with the worker that handled it) or lost. *)

From S2P Require Import Prelude.

(** ** Constants of load_balancer.rs *)

Definition LB_CAPACITY : nat := 64.          (* let capacity = 64 *)
Definition PROXY_TX_BURST_SIZE : nat := 32.  (* proxy_load_balancer *)

Record LoadBalancerConfig := {
  rx_burst_size : nat;
  tx_burst_size : nat;
}.

(** ** localq::mpsc channels *)

Module Mpsc.
Section Mpsc.
Context {A : Type}.

Record Chan := {
  ch_cap : nat;
  ch_items : list A;
  ch_rx_alive : bool;   (* the Receiver has not been dropped *)
}.

Definition channel (cap : nat) : Chan := {| ch_cap := cap; ch_items := []; ch_rx_alive := true |}.

Definition with_items (c : Chan) (xs : list A) : Chan :=
  {| ch_cap := ch_cap c; ch_items := xs; ch_rx_alive := ch_rx_alive c |}.

Inductive TrySendError := Full | Shutdown.

Definition try_send (c : Chan) (x : A) : Chan + TrySendError :=
  if negb (ch_rx_alive c) then inr Shutdown
  else if length (ch_items c) <? ch_cap c then inl (with_items c (ch_items c ++ [x]))
  else inr Full.

(** [send(x).await]: [None] while it is pending (the queue is full),
    [Some (inr ())] when the receiver is gone. *)
Definition send (c : Chan) (x : A) : option (Chan + unit) :=
  if negb (ch_rx_alive c) then Some (inr ())
  else if length (ch_items c) <? ch_cap c then Some (inl (with_items c (ch_items c ++ [x])))
  else None.

(** [for i in 1..k { local_rx.try_recv().unwrap() }]: [None] is the
    panic of [unwrap] on an empty queue. *)
Definition try_recv_n (k : nat) (c : Chan) : option (list A * Chan) :=
  if k <=? length (ch_items c) then Some (take k (ch_items c), with_items c (drop k (ch_items c)))
  else None.

End Mpsc.
Arguments Chan : clear implicits.
End Mpsc.
Import Mpsc.

Section LoadBalancer.
Context {A : Type}.
#[local] Notation Chan := (Mpsc.Chan A).

(** ** Per-worker state *)

Record LbWorker := {
  lw_balanced : bool;              (* spawn_load_balancer, not proxy_load_balancer *)
  lw_local : Chan;                 (* local_queue_tx / the queued Rx *)
  lw_flushing : bool;              (* is_flushing_overflow *)
  lw_rx_burst : nat;               (* config.rx_burst_size *)
  lw_overflow : list A;            (* overflow[i..n] the task still has to send *)
  lw_task_alive : bool;            (* 'recv_loop has not been broken out of *)
  lw_pending : list A;             (* dispatches in queue.send(packet).await *)
  lw_batch : Chan;                 (* local_tx / local_rx of run_burstq_batcher *)
  lw_batcher : option (A * nat);   (* (first_packet, batch_size) in shared_tx.send *)
}.

Definition mk_worker b l f rb ov t p bt br : LbWorker :=
  {| lw_balanced := b; lw_local := l; lw_flushing := f; lw_rx_burst := rb; lw_overflow := ov;
     lw_task_alive := t; lw_pending := p; lw_batch := bt; lw_batcher := br |}.

Definition set_local w l := let '(Build_LbWorker b _ f rb ov t p bt br) := w in mk_worker b l f rb ov t p bt br.
Definition set_flushing w f := let '(Build_LbWorker b l _ rb ov t p bt br) := w in mk_worker b l f rb ov t p bt br.
Definition set_overflow w ov := let '(Build_LbWorker b l f rb _ t p bt br) := w in mk_worker b l f rb ov t p bt br.
Definition set_task_alive w t := let '(Build_LbWorker b l f rb ov _ p bt br) := w in mk_worker b l f rb ov t p bt br.
Definition set_pending w p := let '(Build_LbWorker b l f rb ov t _ bt br) := w in mk_worker b l f rb ov t p bt br.
Definition set_batch w bt := let '(Build_LbWorker b l f rb ov t p _ br) := w in mk_worker b l f rb ov t p bt br.
Definition set_batcher w br := let '(Build_LbWorker b l f rb ov t p bt _) := w in mk_worker b l f rb ov t p bt br.

(** [get_global_queue_sender]: a batcher channel of [tx_burst_size]
    whose [run_burstq_batcher] task is idle. *)
Definition global_queue_sender (tx_burst : nat) : Chan := channel tx_burst.

(** [spawn_load_balancer setup config plane_id topic _ local_queue_tx]
    on a worker whose local queue has capacity [local_cap]. *)
Definition spawn_load_balancer (config : LoadBalancerConfig) (local_cap : nat) : LbWorker :=
  mk_worker true (channel local_cap) false (rx_burst_size config) [] true []
            (global_queue_sender (tx_burst_size config)) None.

(** [proxy_load_balancer]: every arrival goes to the shared queue; the
    worker has no local queue and no overflow task. *)
Definition proxy_load_balancer : LbWorker :=
  mk_worker false {| ch_cap := 0; ch_items := []; ch_rx_alive := false |} false 0 [] false []
            (global_queue_sender PROXY_TX_BURST_SIZE) None.

(** ** The system *)

Record LbSystem := {
  lb_workers : list LbWorker;
  lb_shared : list A;             (* GlobalQueue<LoadBalancerKey>'s burstq *)
  lb_routed : list A;             (* ghost: packets dispatched to the topic *)
  lb_handled : list (nat * A);    (* ghost: (worker, packet) taken by the queued Rx *)
  lb_dropped : list A;            (* ghost: packets lost with a dropped receiver *)
}.

Definition lb_new (ws : list LbWorker) : LbSystem :=
  {| lb_workers := ws; lb_shared := []; lb_routed := []; lb_handled := []; lb_dropped := [] |}.

Definition lb_set (s : LbSystem) (i : nat) (w : LbWorker) (shared : list A) : LbSystem :=
  {| lb_workers := <[i := w]> (lb_workers s); lb_shared := shared; lb_routed := lb_routed s;
     lb_handled := lb_handled s; lb_dropped := lb_dropped s |}.

Definition lb_log (s : LbSystem) (routed : list A) (handled : list (nat * A)) (dropped : list A) :=
  {| lb_workers := lb_workers s; lb_shared := lb_shared s; lb_routed := lb_routed s ++ routed;
     lb_handled := lb_handled s ++ handled; lb_dropped := lb_dropped s ++ dropped |}.

(** ** Operations *)

(** The closure [spawn_load_balancer] installs with [route_to_local_queue]:
    [None] when the packet went to the local queue, [Some tt] for
    [Some(shared_tx.clone())]. *)
Definition load_balancer_route (w : LbWorker) (packet : A) : LbWorker * option unit :=
  if negb (lw_flushing w) then
    match try_send (lw_local w) packet with
    | inl l => (set_local w l, None)
    | inr Full | inr Shutdown => (w, Some tt)
    end
  else (w, Some tt).

(** A new packet of the topic dispatched on worker [i]: the
    [RouteToLocalQueue] node of a load balancer (the [LocalQueue] node of
    a proxy) starts [queue.send(packet).await] on the batcher channel
    when it gets a queue. *)
Definition lb_route (i : nat) (packet : A) (s : LbSystem) : option LbSystem :=
  w ← lb_workers s !! i;
  let s := lb_log s [packet] [] [] in
  if lw_balanced w then
    let '(w, maybe_queue) := load_balancer_route w packet in
    match maybe_queue with
    | Some _ => Some (lb_set s i (set_pending w (lw_pending w ++ [packet])) (lb_shared s))
    | None => Some (lb_set s i w (lb_shared s))
    end
  else Some (lb_set s i (set_pending w (lw_pending w ++ [packet])) (lb_shared s)).

(** The oldest suspended [queue.send(packet).await] completes; its error
    is ignored ([let _ =]). *)
Definition lb_complete_send (i : nat) (s : LbSystem) : option LbSystem :=
  w ← lb_workers s !! i;
  match lw_pending w with
  | [] => None
  | p :: ps =>
      match send (lw_batch w) p with
      | Some (inl bt) => Some (lb_set s i (set_pending (set_batch w bt) ps) (lb_shared s))
      | Some (inr _) => Some (lb_set (lb_log s [] [] [p]) i (set_pending w ps) (lb_shared s))
      | None => None
      end
  end.

(** [run_burstq_batcher]: [local_rx.recv().await] returns the first
    packet, and [batch_size = local_rx.len() + 1]. *)
Definition lb_batcher_recv (i : nat) (s : LbSystem) : option LbSystem :=
  w ← lb_workers s !! i;
  match lw_batcher w, ch_items (lw_batch w) with
  | None, first_packet :: rest =>
      let batch_size := length rest + 1 in
      Some (lb_set s i (set_batcher (set_batch w (with_items (lw_batch w) rest))
                                    (Some (first_packet, batch_size))) (lb_shared s))
  | _, _ => None
  end.

(** [shared_tx.send(batch_size, ..).await]: the writer has
    [min batch_size free] slots; slot 0 gets [first_packet], the others
    [local_rx.try_recv().unwrap()]. *)
Definition lb_batcher_send (i : nat) (s : LbSystem) : option (result LbSystem) :=
  w ← lb_workers s !! i;
  '(first_packet, batch_size) ← lw_batcher w;
  let free := LB_CAPACITY - length (lb_shared s) in
  if free =? 0 then None else
  let len := Nat.min batch_size free in
  Some (match try_recv_n (len - 1) (lw_batch w) with
        | Some (rest, bt) =>
            Ok (lb_set s i (set_batcher (set_batch w bt) None) (lb_shared s ++ first_packet :: rest))
        | None => Panic "called `Result::unwrap()` on an `Err` value"
        end).

(** The overflow task at [shared_rx.recv(rx_burst_size, ..).await]. *)
Definition lb_overflow_recv (i : nat) (s : LbSystem) : option LbSystem :=
  w ← lb_workers s !! i;
  if lw_balanced w && lw_task_alive w && bool_decide (lw_overflow w = []) then
    match lb_shared s with
    | [] => None
    | _ =>
        let n := Nat.min (lw_rx_burst w) (length (lb_shared s)) in
        let w := set_overflow w (take n (lb_shared s)) in
        Some (lb_set s i (if 0 <? n then set_flushing w true else w) (drop n (lb_shared s)))
    end
  else None.

(** The overflow task at [local_queue_tx.send(overflow[i]).await]; after
    the last one the loop starts over with [is_flushing_overflow = false];
    a send error breaks out of ['recv_loop], and [overflow[i+1..n]] are
    never sent. *)
Definition lb_overflow_push (i : nat) (s : LbSystem) : option LbSystem :=
  w ← lb_workers s !! i;
  match lw_overflow w with
  | [] => None
  | x :: rest =>
      match send (lw_local w) x with
      | None => None
      | Some (inl l) =>
          let w := set_overflow (set_local w l) rest in
          Some (lb_set s i (if bool_decide (rest = []) then set_flushing w false else w) (lb_shared s))
      | Some (inr _) =>
          Some (lb_set (lb_log s [] [] (x :: rest)) i (set_task_alive (set_overflow w []) false)
                       (lb_shared s))
      end
  end.

(** The environment: the queued Rx of worker [i] takes the oldest packet
    of its local queue, or is dropped (its buffered packets with it). *)
Definition lb_handle (i : nat) (s : LbSystem) : option LbSystem :=
  w ← lb_workers s !! i;
  match ch_items (lw_local w) with
  | x :: rest =>
      if ch_rx_alive (lw_local w)
      then Some (lb_set (lb_log s [] [(i, x)] []) i (set_local w (with_items (lw_local w) rest))
                        (lb_shared s))
      else None
  | [] => None
  end.

Definition lb_close (i : nat) (s : LbSystem) : option LbSystem :=
  w ← lb_workers s !! i;
  if ch_rx_alive (lw_local w) then
    Some (lb_set (lb_log s [] [] (ch_items (lw_local w))) i
                 (set_local w {| ch_cap := ch_cap (lw_local w); ch_items := []; ch_rx_alive := false |})
                 (lb_shared s))
  else None.

Inductive LbOp :=
| Route (i : nat) (packet : A)
| CompleteSend (i : nat)
| BatcherRecv (i : nat)
| BatcherSend (i : nat)
| OverflowRecv (i : nat)
| OverflowPush (i : nat)
| Handle (i : nat)
| CloseRx (i : nat).

(** [None]: the operation is not enabled (its await is pending). *)
Definition lb_exec (op : LbOp) (s : LbSystem) : option (result LbSystem) :=
  match op with
  | Route i p => Ok <$> lb_route i p s
  | CompleteSend i => Ok <$> lb_complete_send i s
  | BatcherRecv i => Ok <$> lb_batcher_recv i s
  | BatcherSend i => lb_batcher_send i s
  | OverflowRecv i => Ok <$> lb_overflow_recv i s
  | OverflowPush i => Ok <$> lb_overflow_push i s
  | Handle i => Ok <$> lb_handle i s
  | CloseRx i => Ok <$> lb_close i s
  end.

Inductive lb_step : LbSystem -> LbSystem -> Prop :=
| lb_step_exec op s s' : lb_exec op s = Some (Ok s') -> lb_step s s'.

(** Each worker of the role runs [spawn_load_balancer] or
    [proxy_load_balancer] for the topic. *)
Inductive LbRole :=
| Balanced (config : LoadBalancerConfig) (local_cap : nat)
| Proxy.

(** The two router setups of role_setup.rs: [queued(..).load_balance()]
    over the queued Rx's [localq::mpsc::channel(64)], and
    [proxy_load_balance]. *)
Definition QUEUED_CAPACITY : nat := 64.
Definition load_balance_config : LoadBalancerConfig := {| rx_burst_size := 32; tx_burst_size := 32 |}.
Definition queued_load_balance : LbRole := Balanced load_balance_config QUEUED_CAPACITY.
Definition proxy_load_balance : LbRole := Proxy.

Definition lb_worker_of (r : LbRole) : LbWorker :=
  match r with
  | Balanced config local_cap => spawn_load_balancer config local_cap
  | Proxy => proxy_load_balancer
  end.

Definition lb_start (roles : list LbRole) : LbSystem := lb_new (lb_worker_of <$> roles).

(** ** Specification *)

(** Where a packet can be on its way: the local queue, the overflow
    buffer, the batcher, the batcher channel, a suspended dispatch, or
    the shared queue. *)
Definition batcher_items (br : option (A * nat)) : list A :=
  match br with Some (first_packet, _) => [first_packet] | None => [] end.

Definition lw_contents (w : LbWorker) : list A :=
  ch_items (lw_local w) ++ lw_overflow w ++ batcher_items (lw_batcher w) ++ ch_items (lw_batch w)
  ++ lw_pending w.

Definition lb_in_flight (s : LbSystem) : list A :=
  concat (map lw_contents (lb_workers s)) ++ lb_shared s.

Definition lb_total (s : LbSystem) : list A :=
  lb_in_flight s ++ map snd (lb_handled s) ++ lb_dropped s.

(** No queued Rx of a load balancer has been dropped. *)
Definition lw_open (w : LbWorker) : Prop :=
  lw_balanced w = true -> ch_rx_alive (lw_local w) = true.

Definition all_open (s : LbSystem) : Prop := Forall lw_open (lb_workers s).

Record lw_wf (w : LbWorker) : Prop := {
  wf_batcher : forall f n, lw_batcher w = Some (f, n) ->
    1 <= n /\ n - 1 <= length (ch_items (lw_batch w));
  wf_closed : ch_rx_alive (lw_local w) = false -> ch_items (lw_local w) = [];
  wf_overflow : lw_overflow w <> [] -> lw_balanced w = true;
  wf_alive : lw_balanced w = true -> ch_rx_alive (lw_local w) = true -> lw_task_alive w = true;
  wf_batch_open : ch_rx_alive (lw_batch w) = true;
  wf_proxy : lw_balanced w = false -> ch_rx_alive (lw_local w) = false;
}.

(** What no step changes: the kind of each worker and its capacities. *)
Definition lw_caps (w : LbWorker) : bool * nat * nat * nat :=
  (lw_balanced w, ch_cap (lw_local w), lw_rx_burst w, ch_cap (lw_batch w)).

Record lb_wf (caps : list (bool * nat * nat * nat)) (s : LbSystem) : Prop := {
  wf_workers : Forall lw_wf (lb_workers s);
  wf_conserve : lb_routed s ≡ₚ lb_total s;
  wf_dropped : all_open s -> lb_dropped s = [];
  wf_caps : lw_caps <$> lb_workers s = caps;
}.

(** The sizes a drain needs: non-empty channels and bursts. *)
Definition lw_sized (w : LbWorker) : Prop :=
  1 <= ch_cap (lw_batch w) /\
  (lw_balanced w = true -> 1 <= ch_cap (lw_local w) /\ 1 <= lw_rx_burst w).

Definition caps_sized (c : bool * nat * nat * nat) : Prop :=
  let '(balanced, local_cap, rx_burst, tx_burst) := c in
  1 <= tx_burst /\ (balanced = true -> 1 <= local_cap /\ 1 <= rx_burst).

(** What no step but [CloseRx] changes. *)
Definition lw_shape (w : LbWorker) : bool * nat * bool * nat * nat :=
  (lw_balanced w, ch_cap (lw_local w), ch_rx_alive (lw_local w), lw_rx_burst w, ch_cap (lw_batch w)).

(** A measure that every step of the drain decreases: the number of
    hops each packet still has to make, weighted by position. *)
Definition lw_pot (w : LbWorker) : nat :=
  length (ch_items (lw_local w)) + 2 * length (lw_overflow w)
  + 4 * length (batcher_items (lw_batcher w)) + 5 * length (ch_items (lw_batch w))
  + 6 * length (lw_pending w).

Definition lb_pot (s : LbSystem) : nat :=
  sum_list_with lw_pot (lb_workers s) + 3 * length (lb_shared s).


(** A load balancer whose queued Rx is alive (and so is its overflow task). *)
Definition lw_live (w : LbWorker) : Prop :=
  lw_balanced w = true /\ ch_rx_alive (lw_local w) = true.


(** What a drain step keeps: the packets routed and the shape of every worker. *)
Definition lb_drain_post (s s' : LbSystem) : Prop :=
  lb_routed s' = lb_routed s /\ fmap lw_shape (lb_workers s') = fmap lw_shape (lb_workers s) /\
  lb_pot s' < lb_pot s.

(** The sizes the code may be configured with for a drain to finish. *)
Definition role_sized (r : LbRole) : Prop :=
  match r with
  | Balanced config local_cap =>
      1 <= rx_burst_size config /\ 1 <= tx_burst_size config /\ 1 <= local_cap
  | Proxy => True
  end.

(** Run a sequence of operations, as long as each one is enabled. *)
Fixpoint lb_run (ops : list LbOp) (s : LbSystem) : option LbSystem :=
  match ops with
  | [] => Some s
  | op :: ops' => match lb_exec op s with Some (Ok s') => lb_run ops' s' | _ => None end
  end.

End LoadBalancer.
Arguments LbWorker : clear implicits.
Arguments LbSystem : clear implicits.
Arguments LbOp : clear implicits.

(** ** Examples *)

(** Worker 0 balances with a local queue of one packet, worker 1 balances
    with bursts of one, worker 2 is a proxy. *)
Definition ex_cfg : LoadBalancerConfig := {| rx_burst_size := 1; tx_burst_size := 1 |}.
Definition ex_roles : list LbRole := [Balanced ex_cfg 1; Balanced ex_cfg 1; Proxy].

(** Three packets routed on worker 0: the first fills its local queue,
    the other two spill; worker 1 pulls one of them. *)
Definition ex_ops : list (LbOp nat) :=
  [Route 0 10; Route 0 11; Route 0 12; CompleteSend 0; BatcherRecv 0; BatcherSend 0;
   OverflowRecv 1; OverflowPush 1; Handle 1].

Definition ex_lb : LbSystem nat :=
  match lb_run ex_ops (lb_start ex_roles) with Some s => s | None => lb_start ex_roles end.

Section LoadBalancerFacts.
Context {A : Type}.
Implicit Types (s : LbSystem A) (w : LbWorker A) (c : Chan A).

#[local] Arguments lb_set : simpl never.
#[local] Arguments try_send : simpl never.
#[local] Arguments send : simpl never.
#[local] Arguments try_recv_n : simpl never.
#[local] Arguments Nat.ltb : simpl never.
#[local] Arguments lw_shape : simpl never.
#[local] Arguments lb_log : simpl never.

(** ** Lemmas: channels *)

Lemma try_send_inl c x c' :
  try_send c x = inl c' ->
  ch_rx_alive c = true /\ length (ch_items c) < ch_cap c /\ c' = with_items c (ch_items c ++ [x]).
Proof.
  unfold try_send. destruct (ch_rx_alive c), (Nat.ltb_spec (length (ch_items c)) (ch_cap c));
    naive_solver.
Qed.

Lemma send_inl c x c' :
  send c x = Some (inl c') ->
  ch_rx_alive c = true /\ length (ch_items c) < ch_cap c /\ c' = with_items c (ch_items c ++ [x]).
Proof.
  unfold send. destruct (ch_rx_alive c), (Nat.ltb_spec (length (ch_items c)) (ch_cap c));
    naive_solver.
Qed.

Lemma send_inr c x u : send c x = Some (inr u) -> ch_rx_alive c = false.
Proof. unfold send. destruct (ch_rx_alive c), (_ <? _); naive_solver. Qed.

(** A send to an open channel with room completes; to a closed one it fails. *)
Lemma send_ready c x :
  ch_rx_alive c = true -> length (ch_items c) < ch_cap c ->
  send c x = Some (inl (with_items c (ch_items c ++ [x]))).
Proof. unfold send. intros -> ?. by destruct (Nat.ltb_spec (length (ch_items c)) (ch_cap c)); [|lia]. Qed.

Lemma send_closed c x : ch_rx_alive c = false -> send c x = Some (inr ()).
Proof. unfold send. by intros ->. Qed.

Lemma try_recv_n_Some k c xs c' :
  try_recv_n k c = Some (xs, c') ->
  k <= length (ch_items c) /\ xs = take k (ch_items c) /\ c' = with_items c (drop k (ch_items c)).
Proof. unfold try_recv_n. destruct (Nat.leb_spec k (length (ch_items c))); naive_solver. Qed.

Lemma try_recv_n_ready k c :
  k <= length (ch_items c) -> try_recv_n k c = Some (take k (ch_items c), with_items c (drop k (ch_items c))).
Proof. unfold try_recv_n. by destruct (Nat.leb_spec k (length (ch_items c))); [|lia]. Qed.

(** ** Lemmas: one worker's step *)

Lemma lw_wf_open_balanced w : lw_wf w -> ch_rx_alive (lw_local w) = true -> lw_balanced w = true.
Proof. intros Hw ?. destruct (lw_balanced w) eqn:Hb; [done|]. rewrite wf_proxy in * by done. done. Qed.


Lemma lb_set_workers_lookup s i w w' sh :
  lb_workers s !! i = Some w -> lb_workers (lb_set s i w' sh) !! i = Some w'.
Proof. intros Hi. apply list_lookup_insert_eq. eauto using lookup_lt_Some. Qed.

Lemma lb_set_total s i w w' r h d sh' :
  lb_workers s !! i = Some w ->
  lw_contents w ++ lb_shared s ++ r ≡ₚ lw_contents w' ++ sh' ++ map snd h ++ d ->
  lb_total s ++ r ≡ₚ lb_total (lb_set (lb_log s r h d) i w' sh').
Proof.
  intros Hi Hperm. apply (Permutation_app_inv_r (lw_contents w)).
  unfold lb_total, lb_in_flight, lb_set, lb_log; cbn. rewrite map_app.
  pose proof (concat_map_insert_perm lw_contents (lb_workers s) i w w' Hi) as Hc.
  transitivity (concat (map lw_contents (lb_workers s)) ++ map snd (lb_handled s) ++ lb_dropped s
                ++ (lw_contents w ++ lb_shared s ++ r)); [solve_Permutation|].
  rewrite Hperm.
  transitivity ((concat (map lw_contents (lb_workers s)) ++ lw_contents w') ++ sh'
                ++ map snd (lb_handled s) ++ map snd h ++ lb_dropped s ++ d); [solve_Permutation|].
  rewrite <- Hc. solve_Permutation.
Qed.

Lemma lb_set_wf caps s i w w' r h d sh' :
  lb_wf caps s -> lb_workers s !! i = Some w -> lw_wf w' ->
  lw_contents w ++ lb_shared s ++ r ≡ₚ lw_contents w' ++ sh' ++ map snd h ++ d ->
  lw_balanced w' = lw_balanced w -> lw_caps w' = lw_caps w ->
  (ch_rx_alive (lw_local w') = true -> ch_rx_alive (lw_local w) = true) ->
  (d <> [] -> lw_balanced w' = true /\ ch_rx_alive (lw_local w') = false) ->
  lb_wf caps (lb_set (lb_log s r h d) i w' sh').
Proof.
  intros [Hws Hc Hd Hcaps] Hi Hw' Hperm Hb Hcw Halive Hdrop. split.
  - by apply Forall_insert.
  - transitivity (lb_total s ++ r); [|by eapply lb_set_total].
    unfold lb_set, lb_log; cbn. by rewrite Hc.
  - unfold lb_set, lb_log; cbn. intros Hopen. unfold all_open in Hopen; cbn in Hopen.
    assert (lw_open w') as Hw'o.
    { eapply Forall_lookup_1; [exact Hopen|]. exact (lb_set_workers_lookup (lb_log s r h d) i w w' sh' Hi). }
    destruct d as [|x d]; [|destruct Hdrop as [Hb' Ha']; [done|]; rewrite Hw'o in Ha' by done; done].
    rewrite Hd; [done|]. apply Forall_lookup. intros j u Hj.
    destruct (decide (j = i)) as [->|Hne].
    + simplify_eq. intros Hbu. apply Halive, Hw'o. congruence.
    + eapply Forall_lookup_1; [exact Hopen|]. by rewrite list_lookup_insert_ne.
  - unfold lb_set, lb_log; cbn. rewrite list_fmap_insert, Hcw, <- Hcaps.
    apply list_insert_id. by rewrite list_lookup_fmap, Hi.
Qed.

Lemma lb_set_log_nil s i w sh : lb_set s i w sh = lb_set (lb_log s [] [] []) i w sh.
Proof. unfold lb_set, lb_log; cbn. by rewrite !app_nil_r. Qed.

(** Open the worker [i] an operation reads. *)
Ltac open_worker Hs :=
  match type of Hs with
  | context [lb_workers ?s !! ?i] =>
      let w := fresh "w" in let Hi := fresh "Hi" in
      destruct (lb_workers s !! i) as [w|] eqn:Hi; cbn in Hs; [|discriminate];
      let Hw := fresh "Hw" in
      assert (Hw : lw_wf w) by (eapply Forall_lookup_1; [eapply wf_workers; eassumption|exact Hi]);
      destruct w as [wb wl fl wrb wov wt wpd wbt wbr]; cbn in Hs
  end.

(** The side conditions of [lb_set_wf] for a concrete new worker. *)
Ltac lb_set_side :=
  lazymatch goal with
  | |- lw_wf _ =>
      match goal with Hw : lw_wf _ |- _ => destruct Hw as [Hw1 Hw2 Hw3 Hw4 Hw5 Hw6] end;
      constructor; cbn in *; intros; simplify_eq;
      rewrite ?length_app, ?length_drop, ?length_take in *;
      first [done | congruence | solve [eauto] | naive_solver lia]
  | |- _ ≡ₚ _ =>
      unfold lw_contents, lb_log; cbn;
      repeat match goal with
      | H : ch_items ?c = _ |- context [ch_items ?c] => rewrite H
      | H : lb_shared ?s = _ |- context [lb_shared ?s] => rewrite H
      end;
      try match goal with |- context [drop ?k ?l] => rewrite <- (take_drop k l) at 1 end;
      rewrite ?app_nil_r; solve_Permutation
  | _ =>
      try match goal with Hw : lw_wf _ |- _ => destruct Hw as [Hw1 Hw2 Hw3 Hw4 Hw5 Hw6] end;
      unfold lb_log; cbn in *; first [done | congruence | naive_solver]
  end.

Ltac lb_set_apply :=
  first [ eapply lb_set_wf; [eassumption|eassumption|..]
        | rewrite lb_set_log_nil; eapply lb_set_wf; [eassumption|eassumption|..] ];
  lb_set_side.

Lemma lb_route_wf caps i p s s' : lb_wf caps s -> lb_route i p s = Some s' -> lb_wf caps s'.
Proof.
  intros Hwf Hs. unfold lb_route in Hs. open_worker Hs.
  destruct wb; cbn in Hs; [|simplify_eq; lb_set_apply].
  unfold load_balancer_route in Hs. destruct fl; cbn in Hs; [simplify_eq; lb_set_apply|].
  destruct (try_send wl p) as [l|[]] eqn:Ht; cbn in Hs; simplify_eq; [|lb_set_apply..].
  apply try_send_inl in Ht as (? & ? & ->). lb_set_apply.
Qed.

Lemma lb_complete_send_wf caps i s s' : lb_wf caps s -> lb_complete_send i s = Some s' -> lb_wf caps s'.
Proof.
  intros Hwf Hs. unfold lb_complete_send in Hs. open_worker Hs.
  destruct wpd as [|x xs]; [done|].
  destruct (send wbt x) as [[bt|u]|] eqn:Ht; simplify_eq.
  - apply send_inl in Ht as (? & ? & ->). lb_set_apply.
  - apply send_inr in Ht. destruct Hw; cbn in *; congruence.
Qed.

Lemma lb_batcher_recv_wf caps i s s' : lb_wf caps s -> lb_batcher_recv i s = Some s' -> lb_wf caps s'.
Proof.
  intros Hwf Hs. unfold lb_batcher_recv in Hs. open_worker Hs.
  destruct wbr, (ch_items wbt) as [|x xs] eqn:Hb; simplify_eq. lb_set_apply.
Qed.

Lemma lb_batcher_send_wf caps i s s' : lb_wf caps s -> lb_batcher_send i s = Some (Ok s') -> lb_wf caps s'.
Proof.
  intros Hwf Hs. unfold lb_batcher_send in Hs. open_worker Hs.
  destruct wbr as [[f n]|]; cbn in Hs; [|done]. destruct (_ =? 0); [done|].
  destruct (try_recv_n _ wbt) as [[xs bt]|] eqn:Ht; simplify_eq.
  apply try_recv_n_Some in Ht as (? & -> & ->). lb_set_apply.
Qed.

Lemma lb_overflow_recv_wf caps i s s' : lb_wf caps s -> lb_overflow_recv i s = Some s' -> lb_wf caps s'.
Proof.
  intros Hwf Hs. unfold lb_overflow_recv in Hs. open_worker Hs.
  destruct wb, wt; cbn in Hs; try done. case_bool_decide; [subst wov|done].
  destruct (lb_shared s) as [|x xs] eqn:Hsh; [done|]. simplify_eq.
  case_match; lb_set_apply.
Qed.

Lemma lb_overflow_push_wf caps i s s' : lb_wf caps s -> lb_overflow_push i s = Some s' -> lb_wf caps s'.
Proof.
  intros Hwf Hs. unfold lb_overflow_push in Hs. open_worker Hs.
  destruct wov as [|x rest]; [done|].
  destruct (send wl x) as [[l|u]|] eqn:Ht; simplify_eq.
  - apply send_inl in Ht as (? & ? & ->). case_bool_decide; lb_set_apply.
  - apply send_inr in Ht. lb_set_apply.
Qed.

Lemma lb_handle_wf caps i s s' : lb_wf caps s -> lb_handle i s = Some s' -> lb_wf caps s'.
Proof.
  intros Hwf Hs. unfold lb_handle in Hs. open_worker Hs.
  destruct (ch_items wl) as [|x rest] eqn:Hl; [done|].
  destruct (ch_rx_alive wl) eqn:?; simplify_eq. lb_set_apply.
Qed.

Lemma lb_close_wf caps i s s' : lb_wf caps s -> lb_close i s = Some s' -> lb_wf caps s'.
Proof.
  intros Hwf Hs. unfold lb_close in Hs. open_worker Hs.
  destruct (ch_rx_alive wl) eqn:?; simplify_eq.
  apply lw_wf_open_balanced in Hw as Hb; [|done]. cbn in Hb; subst wb. lb_set_apply.
Qed.

Lemma fmap_Ok_Some {B} (o : option B) b : Ok <$> o = Some (Ok b) -> o = Some b.
Proof. destruct o; cbn; congruence. Qed.

Lemma lb_exec_wf caps op s s' : lb_wf caps s -> lb_exec op s = Some (Ok s') -> lb_wf caps s'.
Proof.
  intros Hwf Hs. destruct op; cbn in Hs; try apply fmap_Ok_Some in Hs;
    [ eapply lb_route_wf | eapply lb_complete_send_wf | eapply lb_batcher_recv_wf
    | eapply lb_batcher_send_wf | eapply lb_overflow_recv_wf | eapply lb_overflow_push_wf
    | eapply lb_handle_wf | eapply lb_close_wf ]; eassumption.
Qed.

Lemma lb_start_wf roles : lb_wf (lw_caps <$> (lb_worker_of (A:=A) <$> roles)) (lb_start (A:=A) roles).
Proof.
  split; cbn; [|unfold lb_total, lb_in_flight; cbn|done|done].
  - apply Forall_forall. intros w (r & -> & _)%list_elem_of_fmap.
    destruct r; split; cbn; naive_solver.
  - induction roles as [|[] roles IH]; cbn; auto.
Qed.

Lemma lb_steps_wf caps s s' : lb_wf caps s -> rtc lb_step s s' -> lb_wf caps s'.
Proof. intros Hwf Hr. induction Hr as [|x y z [op ? ? Hxy] _ IH]; eauto using lb_exec_wf. Qed.

Lemma lb_reachable_wf roles s :
  rtc lb_step (lb_start roles) s -> lb_wf (lw_caps <$> (lb_worker_of (A:=A) <$> roles)) s.
Proof. apply lb_steps_wf, lb_start_wf. Qed.

(** ** Lemmas: the batcher's [unwrap] *)

Lemma lb_batcher_send_ok caps i s : lb_wf caps s -> forall msg, lb_batcher_send i s <> Some (Panic msg).
Proof.
  intros Hwf msg Hs. unfold lb_batcher_send in Hs. open_worker Hs.
  destruct wbr as [[f n]|]; cbn in Hs; [|done]. destruct (_ =? 0); [done|].
  destruct Hw as [Hb _ _ _ _ _]; cbn in Hb. destruct (Hb f n eq_refl).
  rewrite try_recv_n_ready in Hs by lia. done.
Qed.

(** ** Lemmas: the drain *)

Lemma lb_pot_set s i w w' r h d sh :
  lb_workers s !! i = Some w ->
  lb_pot (lb_set (lb_log s r h d) i w' sh) + lw_pot w + 3 * length (lb_shared s)
  = lb_pot s + lw_pot w' + 3 * length sh.
Proof.
  intros Hi. unfold lb_pot, lb_set, lb_log; cbn.
  pose proof (sum_list_with_insert lw_pot (lb_workers s) i w w' Hi). lia.
Qed.

Lemma lb_pot_lt s i w w' r h d sh :
  lb_workers s !! i = Some w ->
  lw_pot w' + 3 * length sh < lw_pot w + 3 * length (lb_shared s) ->
  lb_pot (lb_set (lb_log s r h d) i w' sh) < lb_pot s.
Proof. intros Hi. pose proof (lb_pot_set s i w w' r h d sh Hi). lia. Qed.

Lemma lw_shape_set s i w w' r h d sh :
  lb_workers s !! i = Some w -> lw_shape w' = lw_shape w ->
  fmap lw_shape (lb_workers (lb_set (lb_log s r h d) i w' sh)) = fmap lw_shape (lb_workers s).
Proof.
  intros Hi Hsh. unfold lb_set, lb_log; cbn. rewrite list_fmap_insert.
  rewrite Hsh. apply list_insert_id. by rewrite list_lookup_fmap, Hi.
Qed.

Lemma lb_drain_set s i w w' h d sh :
  lb_workers s !! i = Some w -> lw_shape w' = lw_shape w ->
  lw_pot w' + 3 * length sh < lw_pot w + 3 * length (lb_shared s) ->
  lb_drain_post s (lb_set (lb_log s [] h d) i w' sh).
Proof.
  intros Hi Hsh Hlt. split_and!; eauto using lw_shape_set, lb_pot_lt.
  unfold lb_set, lb_log; cbn. by rewrite app_nil_r.
Qed.

(** Close a drain step: the new worker keeps its shape and its measure drops. *)
Ltac drain_close :=
  eexists; split; [reflexivity|];
  first [eapply lb_drain_set | rewrite lb_set_log_nil; eapply lb_drain_set];
  [eassumption|reflexivity|];
  subst; unfold lw_pot; cbn;
  repeat match goal with
  | H : ch_items ?c = _ |- context [ch_items ?c] => rewrite H
  | H : lb_shared ?s = _ |- context [lb_shared ?s] => rewrite H
  end;
  rewrite ?length_app, ?length_take, ?length_drop; cbn [length]; lia.

Lemma handle_progress s i w x rest :
  lb_workers s !! i = Some w -> lw_wf w -> ch_items (lw_local w) = x :: rest ->
  exists s', lb_handle i s = Some s' /\ lb_drain_post s s'.
Proof.
  intros Hi Hw Hl. unfold lb_handle. rewrite Hi; cbn. rewrite Hl.
  destruct (ch_rx_alive (lw_local w)) eqn:Ha; [|by rewrite (wf_closed _ Hw Ha) in Hl].
  destruct w; cbn in *; drain_close.
Qed.

Lemma overflow_push_progress s i w x rest :
  lb_workers s !! i = Some w -> lw_wf w -> lw_sized w ->
  ch_items (lw_local w) = [] -> lw_overflow w = x :: rest ->
  exists s', lb_overflow_push i s = Some s' /\ lb_drain_post s s'.
Proof.
  intros Hi Hw [_ Hsz] Hl Ho. unfold lb_overflow_push. rewrite Hi; cbn. rewrite Ho.
  assert (lw_balanced w = true) as Hb by (apply (wf_overflow _ Hw); by rewrite Ho).
  destruct (Hsz Hb) as [Hcap _].
  destruct (ch_rx_alive (lw_local w)) eqn:Ha.
  - rewrite send_ready by first [done | rewrite Hl; cbn; lia]. destruct w; cbn in *.
    case_bool_decide; drain_close.
  - rewrite send_closed by done. destruct w; cbn in *; drain_close.
Qed.

Lemma overflow_recv_progress s i w y ys :
  lb_workers s !! i = Some w -> lw_wf w -> lw_sized w -> lw_live w ->
  lw_overflow w = [] -> lb_shared s = y :: ys ->
  exists s', lb_overflow_recv i s = Some s' /\ lb_drain_post s s'.
Proof.
  intros Hi Hw [_ Hsz] [Hb Ha] Ho Hsh. unfold lb_overflow_recv. rewrite Hi; cbn.
  rewrite Hb, (wf_alive _ Hw Hb Ha), Ho, Hsh; cbn.
  destruct (Hsz Hb) as [_ Hrb].
  destruct w; cbn in *; subst. rewrite (proj2 (Nat.ltb_lt 0 _)) by lia. drain_close.
Qed.

Lemma batcher_send_progress s i w f n :
  lb_workers s !! i = Some w -> lw_wf w -> lw_batcher w = Some (f, n) -> lb_shared s = [] ->
  exists s', lb_batcher_send i s = Some (Ok s') /\ lb_drain_post s s'.
Proof.
  intros Hi Hw Hbr Hsh. destruct (wf_batcher _ Hw f n Hbr).
  unfold lb_batcher_send. rewrite Hi; cbn. rewrite Hbr, Hsh; cbn.
  rewrite try_recv_n_ready by lia. destruct w; cbn in *; subst. drain_close.
Qed.

Lemma batcher_recv_progress s i w x rest :
  lb_workers s !! i = Some w -> lw_batcher w = None -> ch_items (lw_batch w) = x :: rest ->
  exists s', lb_batcher_recv i s = Some s' /\ lb_drain_post s s'.
Proof.
  intros Hi Hbr Hb. unfold lb_batcher_recv. rewrite Hi; cbn. rewrite Hbr, Hb.
  destruct w; cbn in *; subst. drain_close.
Qed.

Lemma complete_send_progress s i w x xs :
  lb_workers s !! i = Some w -> lw_wf w -> lw_sized w ->
  ch_items (lw_batch w) = [] -> lw_pending w = x :: xs ->
  exists s', lb_complete_send i s = Some s' /\ lb_drain_post s s'.
Proof.
  intros Hi Hw [Hcap _] Hb Hp. unfold lb_complete_send. rewrite Hi; cbn. rewrite Hp.
  rewrite send_ready by first [by apply wf_batch_open | rewrite Hb; cbn; lia].
  destruct w; cbn in *; subst. drain_close.
Qed.

Lemma lb_wf_sized caps s : lb_wf caps s -> Forall caps_sized caps -> Forall lw_sized (lb_workers s).
Proof.
  intros Hwf Hc. rewrite <- (wf_caps _ _ Hwf), Forall_fmap in Hc.
  eapply Forall_impl; [exact Hc|]. by intros [? [] ? ? ? ? ? [] ?].
Qed.

Lemma lw_live_shape w w' : lw_shape w = lw_shape w' -> lw_live w -> lw_live w'.
Proof. destruct w, w'. unfold lw_shape, lw_live; cbn. intros [= -> _ -> _ _]. done. Qed.

Lemma Exists_live_shape (l l' : list (LbWorker A)) :
  lw_shape <$> l = lw_shape <$> l' -> Exists lw_live l -> Exists lw_live l'.
Proof.
  revert l'. induction l as [|w l IH]; intros [|w' l'] Heq Hl; cbn in Heq;
    try discriminate; [by inversion Hl|].
  assert (lw_shape w = lw_shape w' /\ lw_shape <$> l = lw_shape <$> l') as [Hw Hl']
    by (split; congruence).
  inversion Hl; subst; [left; by eapply lw_live_shape | right; by apply IH].
Qed.

Lemma find_none_nil {B} (f : LbWorker A -> list B) ws i w :
  Forall (fun w => ~ 0 < length (f w)) ws -> ws !! i = Some w -> f w = [].
Proof.
  intros Hf Hi. pose proof (Forall_lookup_1 _ _ _ _ Hf Hi) as H; cbn in H.
  destruct (f w); cbn in *; [done|lia].
Qed.

Lemma find_some_cons {B} (l : list B) : 0 < length l -> exists x xs, l = x :: xs.
Proof. destruct l; cbn; [lia|eauto]. Qed.

(** The drain scheduler: if packets are in flight, some step that
    neither adds a packet nor drops a receiver makes progress. *)
Lemma lb_progress caps s :
  lb_wf caps s -> Forall lw_sized (lb_workers s) -> Exists lw_live (lb_workers s) ->
  lb_in_flight s = [] \/ exists s', lb_step s s' /\ lb_drain_post s s'.
Proof.
  intros Hwf Hsz Hlive.
  assert (Hget : forall i w, lb_workers s !! i = Some w -> lw_wf w /\ lw_sized w).
  { intros i w Hi. split;
      [exact (Forall_lookup_1 _ _ _ _ (wf_workers _ _ Hwf) Hi) | exact (Forall_lookup_1 _ _ _ _ Hsz Hi)]. }
  destruct (list_find (fun w => 0 < length (ch_items (lw_local w))) (lb_workers s))
    as [[i w]|] eqn:F1.
  { apply list_find_Some in F1 as (Hi & (x & xs & Hl)%find_some_cons & _).
    destruct (Hget i w Hi). edestruct handle_progress as (s' & Hs & Hp); eauto.
    right. exists s'. split; [apply (lb_step_exec (Handle i)); cbn; by rewrite Hs|done]. }
  apply list_find_None in F1.
  destruct (list_find (fun w => 0 < length (lw_overflow w)) (lb_workers s)) as [[i w]|] eqn:F2.
  { apply list_find_Some in F2 as (Hi & (x & xs & Ho)%find_some_cons & _).
    destruct (Hget i w Hi).
    edestruct overflow_push_progress as (s' & Hs & Hp);
      [eassumption..|exact (find_none_nil (fun w => ch_items (lw_local w)) _ i w F1 Hi)|eassumption|].
    right. exists s'. split; [apply (lb_step_exec (OverflowPush i)); cbn; by rewrite Hs|done]. }
  apply list_find_None in F2.
  destruct (lb_shared s) as [|y ys] eqn:Hsh.
  2:{ apply Exists_exists in Hlive as (w & (i & Hi)%list_elem_of_lookup & Hw).
      destruct (Hget i w Hi).
      edestruct overflow_recv_progress as (s' & Hs & Hp);
        [eassumption..|exact (find_none_nil lw_overflow _ i w F2 Hi)|eassumption|].
      right. exists s'. split; [apply (lb_step_exec (OverflowRecv i)); cbn; by rewrite Hs|done]. }
  destruct (list_find (fun w => is_Some (lw_batcher w)) (lb_workers s)) as [[i w]|] eqn:F3.
  { apply list_find_Some in F3 as (Hi & [[f n] Hbr] & _).
    destruct (Hget i w Hi). edestruct batcher_send_progress as (s' & Hs & Hp); eauto.
    right. exists s'. split; [apply (lb_step_exec (BatcherSend i)); cbn; by rewrite Hs|done]. }
  apply list_find_None in F3.
  destruct (list_find (fun w => 0 < length (ch_items (lw_batch w))) (lb_workers s))
    as [[i w]|] eqn:F4.
  { apply list_find_Some in F4 as (Hi & (x & xs & Hb)%find_some_cons & _).
    assert (lw_batcher w = None) by (apply eq_None_not_Some, (Forall_lookup_1 _ _ _ _ F3 Hi)).
    edestruct batcher_recv_progress as (s' & Hs & Hp); eauto.
    right. exists s'. split; [apply (lb_step_exec (BatcherRecv i)); cbn; by rewrite Hs|done]. }
  apply list_find_None in F4.
  destruct (list_find (fun w => 0 < length (lw_pending w)) (lb_workers s)) as [[i w]|] eqn:F5.
  { apply list_find_Some in F5 as (Hi & (x & xs & Hp)%find_some_cons & _).
    destruct (Hget i w Hi).
    edestruct complete_send_progress as (s' & Hs & Hp');
      [eassumption..|exact (find_none_nil (fun w => ch_items (lw_batch w)) _ i w F4 Hi)|eassumption|].
    right. exists s'. split; [apply (lb_step_exec (CompleteSend i)); cbn; by rewrite Hs|done]. }
  apply list_find_None in F5.
  left. unfold lb_in_flight. rewrite Hsh, app_nil_r. apply concat_nil_Forall, Forall_map.
  apply Forall_lookup. intros i w Hi. unfold lw_contents.
  rewrite (find_none_nil (fun w => ch_items (lw_local w)) _ i w F1 Hi),
    (find_none_nil lw_overflow _ i w F2 Hi), (find_none_nil (fun w => ch_items (lw_batch w)) _ i w F4 Hi),
    (find_none_nil lw_pending _ i w F5 Hi).
  assert (lw_batcher w = None) as -> by (apply eq_None_not_Some, (Forall_lookup_1 _ _ _ _ F3 Hi)).
  done.
Qed.

(** Repeating the scheduler empties the system: by induction on [lb_pot]. *)
Lemma lb_drain caps s :
  lb_wf caps s -> Forall caps_sized caps -> Exists lw_live (lb_workers s) ->
  exists s', rtc lb_step s s' /\ lb_in_flight s' = [] /\ lb_routed s' = lb_routed s /\
             lw_shape <$> lb_workers s' = lw_shape <$> lb_workers s.
Proof.
  intros Hwf Hc. remember (lb_pot s) as n eqn:En. revert s En Hwf.
  induction n as [n IH] using (well_founded_induction lt_wf). intros s -> Hwf Hlive.
  destruct (lb_progress caps s Hwf (lb_wf_sized _ _ Hwf Hc) Hlive)
    as [Hnil|(s1 & Hstep & Hr & Hsh & Hlt)]; [exists s; by split_and!|].
  destruct (IH (lb_pot s1) Hlt s1 eq_refl) as (s' & Hrtc & Hnil & Hr' & Hsh');
    [by destruct Hstep; eapply lb_exec_wf | by eapply Exists_live_shape|].
  exists s'. split_and!; [by eapply rtc_l | done | congruence | congruence].
Qed.

Lemma lb_start_sized roles :
  Forall role_sized roles ->
  Forall caps_sized (lw_caps <$> (lb_worker_of (A:=A) <$> roles)).
Proof.
  intros Hr. rewrite !Forall_fmap. eapply Forall_impl; [exact Hr|].
  intros [] H; cbn in *; unfold PROXY_TX_BURST_SIZE; lia || naive_solver lia.
Qed.

Lemma lb_run_rtc ops s s' : lb_run ops s = Some s' -> rtc lb_step s s'.
Proof.
  revert s. induction ops as [|op ops IH]; intros s Hs; cbn in Hs; [by simplify_eq|].
  destruct (lb_exec op s) as [[s1|]|] eqn:E; try done.
  eapply rtc_l; [by econstructor|]. by apply IH.
Qed.

(** A reachable state in which every load balancer still has its
    receiver has at least one live worker when the role has one. *)
Lemma lb_live_of_role roles s j config local_cap :
  rtc lb_step (lb_start roles) s -> roles !! j = Some (Balanced config local_cap) ->
  all_open s -> Exists lw_live (lb_workers s).
Proof.
  intros Hr Hj Hopen. pose proof (wf_caps _ _ (lb_reachable_wf roles s Hr)) as Hc.
  assert ((lw_caps <$> lb_workers s) !! j = Some (lw_caps (spawn_load_balancer (A:=A) config local_cap)))
    as Hcj by (rewrite Hc, !list_lookup_fmap, Hj; reflexivity).
  rewrite list_lookup_fmap in Hcj. apply fmap_Some in Hcj as (w & Hw & Hcw).
  apply Exists_exists. exists w. split; [by eapply list_elem_of_lookup_2|].
  assert (lw_balanced w = true) as Hb by (unfold lw_caps in Hcw; cbn in Hcw; congruence).
  split; [done|]. by apply (Forall_lookup_1 _ _ _ _ Hopen Hw).
Qed.

Lemma lb_open_shape w w' : lw_shape w = lw_shape w' -> lw_open w -> lw_open w'.
Proof. destruct w, w'. unfold lw_shape, lw_open; cbn. intros [= -> _ -> _ _]. done. Qed.

Lemma Forall_open_shape (l l' : list (LbWorker A)) :
  lw_shape <$> l = lw_shape <$> l' -> Forall lw_open l -> Forall lw_open l'.
Proof.
  revert l'. induction l as [|w l IH]; intros [|w' l'] Heq Hl; cbn in Heq; try discriminate; [done|].
  assert (lw_shape w = lw_shape w' /\ lw_shape <$> l = lw_shape <$> l') as [Hw Hl']
    by (split; congruence).
  inversion Hl; subst. constructor; [by eapply lb_open_shape | by apply IH].
Qed.

End LoadBalancerFacts.

(** ** Properties *)

Lemma ex_lb_reachable : rtc lb_step (lb_start ex_roles) ex_lb.
Proof. apply (lb_run_rtc ex_ops). vm_compute. reflexivity. Qed.

(** C22: Exactly once.  In every state the load balancers of a role can
    reach, the packets dispatched to the topic so far are, up to order,
    exactly the packets on their way (local queues, overflow buffers,
    batchers, suspended dispatches, the shared queue), those handled, and
    those lost with a dropped receiver: no packet is duplicated or
    forgotten. *)
Theorem lb_packets_conserved {A} (roles : list LbRole) (s : LbSystem A) :
  rtc lb_step (lb_start roles) s ->
  lb_routed s ≡ₚ lb_in_flight s ++ map snd (lb_handled s) ++ lb_dropped s.
Proof. intros Hr. exact (wf_conserve _ _ (lb_reachable_wf roles s Hr)). Qed.

Lemma lb_packets_conserved_witness :
  rtc lb_step (lb_start ex_roles) ex_lb /\
  lb_routed ex_lb ≡ₚ lb_in_flight ex_lb ++ map snd (lb_handled ex_lb) ++ lb_dropped ex_lb.
Proof. split; [exact ex_lb_reachable | exact (lb_packets_conserved ex_roles ex_lb ex_lb_reachable)]. Defined.

(** C23: In every reachable state, [run_burstq_batcher]'s
    [local_rx.try_recv().unwrap()] never panics: the batch size it asks
    the shared queue for is at most the packets its channel holds. *)
Theorem lb_batcher_never_panics {A} roles (s : LbSystem A) i msg :
  rtc lb_step (lb_start roles) s -> lb_exec (BatcherSend i) s <> Some (Panic msg).
Proof. intros Hr. exact (lb_batcher_send_ok _ i s (lb_reachable_wf roles s Hr) msg). Qed.

Lemma lb_batcher_never_panics_witness :
  rtc lb_step (lb_start ex_roles) ex_lb /\
  lb_exec (BatcherSend 0) ex_lb <> Some (Panic "called `Result::unwrap()` on an `Err` value").
Proof. split; [exact ex_lb_reachable | exact (lb_batcher_never_panics ex_roles ex_lb 0 _ ex_lb_reachable)]. Defined.

(** C24: As long as no queued Rx of a load balancer has been dropped, no
    packet has been lost. *)
Theorem lb_no_loss_while_open {A} roles (s : LbSystem A) :
  rtc lb_step (lb_start roles) s -> all_open s -> lb_dropped s = [].
Proof. intros Hr. exact (wf_dropped _ _ (lb_reachable_wf roles s Hr)). Qed.

Lemma ex_lb_open : all_open ex_lb.
Proof. apply (bool_decide_unpack _). vm_compute. reflexivity. Qed.

Lemma lb_no_loss_while_open_witness :
  rtc lb_step (lb_start ex_roles) ex_lb /\ all_open ex_lb /\ lb_dropped ex_lb = [].
Proof.
  split_and!; [exact ex_lb_reachable | exact ex_lb_open |].
  exact (lb_no_loss_while_open ex_roles ex_lb ex_lb_reachable ex_lb_open).
Defined.

(** C25: Spill liveness (spec 4.7; integration test 4).  From every
    reachable state of a role with at least one load balancer, sized as
    the code needs, whose receivers are all alive, the tasks of the
    workers can run on to a state where every packet ever dispatched has
    been handled, each exactly once, by some worker. *)
Theorem lb_every_packet_handled {A} roles (s : LbSystem A) j config local_cap :
  rtc lb_step (lb_start roles) s -> Forall role_sized roles ->
  roles !! j = Some (Balanced config local_cap) -> all_open s ->
  exists s', rtc lb_step s s' /\ map snd (lb_handled s') ≡ₚ lb_routed s.
Proof.
  intros Hr Hsz Hj Hopen. pose proof (lb_reachable_wf roles s Hr) as Hwf.
  destruct (lb_drain _ s Hwf (lb_start_sized roles Hsz) (lb_live_of_role roles s j _ _ Hr Hj Hopen))
    as (s' & Hrtc & Hnil & Hr' & Hsh).
  exists s'. split; [done|]. pose proof (lb_steps_wf _ _ _ Hwf Hrtc) as Hwf'.
  rewrite <- Hr', (wf_conserve _ _ Hwf'). unfold lb_total. rewrite Hnil.
  rewrite (wf_dropped _ _ Hwf'), app_nil_r; [done|].
  unfold all_open. by eapply Forall_open_shape.
Qed.

Lemma lb_every_packet_handled_witness :
  exists s', rtc lb_step ex_lb s' /\ map snd (lb_handled s') ≡ₚ lb_routed ex_lb.
Proof.
  apply (lb_every_packet_handled ex_roles ex_lb 0 ex_cfg 1 ex_lb_reachable);
    [repeat constructor | reflexivity | exact ex_lb_open].
Defined.

(** The route of a new packet on a worker ([load_balancer_route]
    followed by the packet processor's [queue.send]): a load balancer
    that is not flushing its overflow and whose local queue is open and
    not full takes the packet on that queue; otherwise the dispatch
    sends it to the batcher of the shared queue. *)
Theorem lb_route_spec {A} i (p : A) s w :
  lb_workers s !! i = Some w ->
  lb_route i p s =
    Some (lb_set (lb_log s [p] [] []) i
      (if lw_balanced w && negb (lw_flushing w) && ch_rx_alive (lw_local w)
          && (length (ch_items (lw_local w)) <? ch_cap (lw_local w))
       then set_local w (with_items (lw_local w) (ch_items (lw_local w) ++ [p]))
       else set_pending w (lw_pending w ++ [p]))
      (lb_shared s)).
Proof.
  intros Hi. unfold lb_route. rewrite Hi. cbn [mbind option_bind].
  destruct w as [[] l [] ? ? ? ? ? ?]; try reflexivity.
  unfold load_balancer_route, try_send. cbn [lw_flushing lw_local negb lw_balanced andb].
  by destruct (ch_rx_alive l), (length (ch_items l) <? ch_cap l).
Qed.

Lemma lb_route_spec_witness :
  let w := spawn_load_balancer (A:=nat) ex_cfg 1 in
  lb_workers (lb_start ex_roles) !! 0 = Some w /\
  lb_route 0 7 (lb_start ex_roles) =
    Some (lb_set (lb_log (lb_start ex_roles) [7] [] []) 0
      (if lw_balanced w && negb (lw_flushing w) && ch_rx_alive (lw_local w)
          && (length (ch_items (lw_local w)) <? ch_cap (lw_local w))
       then set_local w (with_items (lw_local w) (ch_items (lw_local w) ++ [7]))
       else set_pending w (lw_pending w ++ [7]))
      (lb_shared (lb_start ex_roles))).
Proof. intros w. split; [reflexivity | apply lb_route_spec; reflexivity]. Defined.
