(* ===== verification/RuntimeBuilder.v ===== *)
(** * RuntimeBuilder: worker groups, runtime start-up and role start

    Models the start-up code of src/crates/modrpc/src/rt.rs:
    [RuntimeBuilder] ([new_no_local], [new_with_local],
    [new_worker_group]), [RuntimeBuilder::start] (the worker count, the
    per-worker command and inter-worker receivers that each worker takes
    once, and the packet processor each worker gets, whose inter-worker
    senders come from [build_inter_worker_batchers] of worker.rs), and
    [StartRoleHandle::on_worker_group] / [StartRoleHandle::local] (which
    worker runs the role and which one spawns the globals shutdown task).

    Worker indices are [u16]: the additions of the builder and of [start]
    are written out with [wrap 16] (a release build; a debug build panics
    at the same additions).  Threads, executors, shutdown signals and the
    probius components only start tasks and are not modelled; the
    receivers are modelled by whether they are still in their slot. *)

From S2P Require Import Prelude ContextMap PacketProcessor RoleSetup.
Local Open Scope Z_scope.

(** ** The builder *)

Record WorkerGroup := {
  first_worker_index : Z;   (* u16 *)
  worker_count : Z;         (* u16 *)
}.

Record RuntimeBuilder := {
  worker_groups : list WorkerGroup;
  local_worker : bool;      (* local_worker.is_some() *)
  next_worker_index : Z;    (* u16 *)
}.

Definition new_no_local : RuntimeBuilder :=
  {| worker_groups := []; local_worker := false; next_worker_index := 0 |}.

(** The local worker takes index 0. *)
Definition new_with_local : RuntimeBuilder :=
  {| worker_groups := []; local_worker := true; next_worker_index := 1 |}.

Definition new_worker_group (b : RuntimeBuilder) (count : Z) : RuntimeBuilder * WorkerGroup :=
  let g := {| first_worker_index := next_worker_index b; worker_count := count |} in
  ({| worker_groups := worker_groups b ++ [g]; local_worker := local_worker b;
      next_worker_index := wrap 16 (next_worker_index b + count) |}, g).

(** ** Start-up *)

(** [self.worker_groups.iter().map(|g| g.worker_count).sum::<u16>()]. *)
Definition remote_worker_count (b : RuntimeBuilder) : Z :=
  foldl (fun acc g => wrap 16 (acc + worker_count g)) 0 (worker_groups b).

Definition start_worker_count (b : RuntimeBuilder) : Z :=
  if local_worker b then wrap 16 (1 + remote_worker_count b) else remote_worker_count b.

(** [build_inter_worker_batchers spawner local_worker_id _ global_senders]:
    a sender ([true]) for every other worker, [None] for itself. *)
Definition build_inter_worker_batchers (local_worker_id : Z) (n : nat) : list bool :=
  (fun worker_index => negb (Z.of_nat worker_index =? local_worker_id)) <$> seq 0 n.

(** [receivers[worker_index as usize].take().expect(what)]. *)
Definition take_receiver (what : string) (rxs : list bool) (worker_index : Z) : result (list bool) :=
  match rxs !! Z.to_nat worker_index with
  | None => Panic "index out of bounds"
  | Some false => Panic what
  | Some true => Ok (<[Z.to_nat worker_index := false]> rxs)
  end.

Record StartState := {
  ss_cmd : list bool;                          (* worker_command_receivers *)
  ss_inter : list bool;                        (* inter_worker_receivers *)
  ss_workers : list (Z * PacketProcessor);     (* the workers started, in order *)
}.

(** Start worker [worker_index] of a runtime of [n] workers: take its
    receivers and give it a packet processor. *)
Definition start_worker (n : nat) (st : StartState) (worker_index : Z) : result StartState :=
  cmd ← take_receiver "worker command receiver" (ss_cmd st) worker_index;
  inter ← take_receiver "inter-worker packet receiver" (ss_inter st) worker_index;
  Ok {| ss_cmd := cmd; ss_inter := inter;
        ss_workers := ss_workers st ++
          [(worker_index, pp_new (build_inter_worker_batchers worker_index n))] |}.

Fixpoint start_workers (n : nat) (st : StartState) (indices : list Z) : result StartState :=
  match indices with
  | [] => Ok st
  | i :: rest => st ← start_worker n st i; start_workers n st rest
  end.

(** [for i in 0..worker_group.worker_count { first_worker_index + i }]. *)
Definition group_indices (g : WorkerGroup) : list Z :=
  map (fun i => wrap 16 (first_worker_index g + Z.of_nat i)) (seq 0 (Z.to_nat (worker_count g))).

(** [RuntimeBuilder::start]: one worker handle for the local worker and
    one per remote worker, [worker_count] inter-worker queues, then the
    local worker and every worker of every group, in order. *)
Definition start (b : RuntimeBuilder) : result (list (Z * PacketProcessor)) :=
  let n := Z.to_nat (start_worker_count b) in
  let handles := ((if local_worker b then 1 else 0) + Z.to_nat (remote_worker_count b))%nat in
  let st := {| ss_cmd := replicate handles true; ss_inter := replicate n true; ss_workers := [] |} in
  st ← (if local_worker b then start_worker n st 0 else Ok st);
  st ← start_workers n st (concat (map group_indices (worker_groups b)));
  Ok (ss_workers st).

(** The runtime the role setups see: the globals and the packet
    processors in worker order. *)
Definition runtime_of (workers : list (Z * PacketProcessor)) : Runtime :=
  {| rt_globals := new_inner; rt_pps := map snd workers |}.

(** ** Starting a role *)

Record StartRoleHandle := {
  has_spawned_globals_shutdown : bool;
  role_runs : list (Z * bool);   (* (worker, spawned the globals shutdown task) *)
}.

Definition start_role_handle : StartRoleHandle :=
  {| has_spawned_globals_shutdown := false; role_runs := [] |}.

(** One turn of the loop of [on_worker_group] on a runtime with
    [handles] worker handles: [worker_handles[worker_index as usize]],
    then [run_once] of the role there; the first worker to run the role
    spawns the task that shuts the role's globals down. *)
Definition run_role_on (h : StartRoleHandle) (worker_index : Z) : StartRoleHandle :=
  let spawn_globals_shutdown := negb (has_spawned_globals_shutdown h) in
  {| has_spawned_globals_shutdown := true;
     role_runs := role_runs h ++ [(worker_index, spawn_globals_shutdown)] |}.

Definition run_role_on_handle (handles : nat) (h : StartRoleHandle) (worker_index : Z)
    : result StartRoleHandle :=
  if (Z.to_nat worker_index <? handles)%nat then Ok (run_role_on h worker_index)
  else Panic "index out of bounds".

Fixpoint run_role_on_all (handles : nat) (h : StartRoleHandle) (indices : list Z)
    : result StartRoleHandle :=
  match indices with
  | [] => Ok h
  | i :: rest => h ← run_role_on_handle handles h i; run_role_on_all handles h rest
  end.

(** [StartRoleHandle::on_worker_group]: every worker of the group, from
    [first_worker_index] up to [first_worker_index + worker_count]. *)
Definition on_worker_group (handles : nat) (h : StartRoleHandle) (g : WorkerGroup)
    : result StartRoleHandle :=
  let start_worker := first_worker_index g in
  let end_worker := wrap 16 (start_worker + worker_count g) in
  run_role_on_all handles h (map (fun i => start_worker + Z.of_nat i)
                                 (seq 0 (Z.to_nat (end_worker - start_worker)))).

(** [StartRoleHandle::local]: panics off a worker thread. *)
Definition start_local (local_worker_context : option Z) (h : StartRoleHandle)
    : result StartRoleHandle :=
  match local_worker_context with
  | None => Panic "Can't start a role locally in a thread that isn't a modrpc worker"
  | Some w => Ok (run_role_on h w)
  end.

(** ** Specification *)

(** The builders a program can make. *)
Inductive built : RuntimeBuilder -> Prop :=
| built_no_local : built new_no_local
| built_with_local : built new_with_local
| built_group b count : built b -> 0 <= count -> built (fst (new_worker_group b count)).

Definition group_total (b : RuntimeBuilder) : Z := fold_right Z.add 0 (map worker_count (worker_groups b)).

Definition local_count (b : RuntimeBuilder) : nat := if local_worker b then 1%nat else 0%nat.

(** The workers the builder asked for: the local one and the groups'. *)
Definition planned_workers (b : RuntimeBuilder) : Z := Z.of_nat (local_count b) + group_total b.

(** Worker [w] of a runtime of [n] workers, as [start] should make it. *)
Definition started_worker (n : nat) (w : nat) : Z * PacketProcessor :=
  (Z.of_nat w, pp_new (build_inter_worker_batchers (Z.of_nat w) n)).

(** The handles a role start can reach on a runtime of [handles] workers. *)
Inductive role_started (handles : nat) : StartRoleHandle -> Prop :=
| rs_new : role_started handles start_role_handle
| rs_group h g h' :
    role_started handles h -> on_worker_group handles h g = Ok h' -> role_started handles h'
| rs_local h w h' :
    role_started handles h -> start_local (Some w) h = Ok h' -> role_started handles h'.

(** Exactly the first run of the role spawned the globals shutdown task. *)
Definition shutdown_spawned_once (h : StartRoleHandle) : Prop :=
  (has_spawned_globals_shutdown h = false /\ role_runs h = []) \/
  (has_spawned_globals_shutdown h = true /\ role_runs h <> [] /\
   filter (fun r => snd r = true) (role_runs h) = take 1 (role_runs h)).

(** ** Examples *)

(** A local worker and a group of two: workers 0, 1 and 2. *)
Definition ex_builder : RuntimeBuilder := fst (new_worker_group new_with_local 2).

(** The role started on the group of [ex_builder], then locally on worker 0. *)
Definition ex_role_start : result StartRoleHandle :=
  h ← on_worker_group 3 start_role_handle (snd (new_worker_group new_with_local 2));
  start_local (Some 0) h.

Definition ex_role_handle : StartRoleHandle :=
  match ex_role_start with Ok h => h | Panic _ => start_role_handle end.

(** A local worker and 65535 remote workers: 65536 workers in a u16. *)
Definition ex_builder_full : RuntimeBuilder := fst (new_worker_group new_with_local 65535).

(** ** Lemmas *)

Lemma wrap16_small z : 0 <= z < 2 ^ 16 -> wrap 16 z = z.
Proof. intros. apply wrap_small, fits_iff. lia. Qed.

Lemma map_seq_shift {B} (f : nat -> B) s k :
  map f (seq s k) = map (fun i => f (s + i)%nat) (seq 0 k).
Proof.
  revert s. induction k as [|k IH]; intros s; [done|]. cbn. rewrite Nat.add_0_r. f_equal.
  rewrite IH, <- seq_shift, map_map. apply map_ext. intros i. f_equal. lia.
Qed.

Lemma group_indices_seq g :
  0 <= first_worker_index g -> 0 <= worker_count g ->
  first_worker_index g + worker_count g < 2 ^ 16 ->
  group_indices g = map Z.of_nat (seq (Z.to_nat (first_worker_index g)) (Z.to_nat (worker_count g))).
Proof.
  intros ? ? ?. unfold group_indices. rewrite (map_seq_shift Z.of_nat). apply map_ext_in.
  intros i (_ & Hi)%in_seq. rewrite wrap16_small by lia. lia.
Qed.

Lemma fold_right_Zadd l a : fold_right Z.add a l = fold_right Z.add 0 l + a.
Proof. induction l as [|x l IH]; cbn; lia. Qed.

(** The builder's invariant: groups are consecutive after the local worker. *)
Lemma built_inv b :
  built b -> planned_workers b < 2 ^ 16 ->
  next_worker_index b = planned_workers b /\ 0 <= group_total b /\
  remote_worker_count b = group_total b /\
  concat (map group_indices (worker_groups b)) =
    map Z.of_nat (seq (local_count b) (Z.to_nat (group_total b))).
Proof.
  induction 1 as [| |b c Hb IH Hc]; [done|done|].
  unfold planned_workers, group_total, local_count, remote_worker_count in *; cbn in *.
  rewrite !map_app, fold_right_app, foldl_app, fold_right_Zadd in *; cbn in *.
  rewrite ?Z.add_0_r in *.
  intros Hplan. destruct IH as (Hn & HT & Hr & Hcat); [lia|].
  set (L := if local_worker b then 1%nat else 0%nat) in *.
  set (T := fold_right Z.add 0 (map worker_count (worker_groups b))) in *.
  rewrite Hn, Hr, !wrap16_small by lia. split_and!; [lia|lia|lia|].
  rewrite concat_app, Hcat; cbn. rewrite app_nil_r, group_indices_seq by (cbn; lia); cbn.
  rewrite (Z2Nat.inj_add T c), seq_app, map_app by lia. do 3 f_equal. lia.
Qed.

Lemma build_inter_worker_batchers_lookup w n j :
  build_inter_worker_batchers w n !! j =
    if (j <? n)%nat then Some (negb (Z.of_nat j =? w)) else None.
Proof.
  unfold build_inter_worker_batchers. rewrite list_lookup_fmap.
  destruct (Nat.ltb_spec j n); [by rewrite lookup_seq_lt | by rewrite lookup_seq_ge].
Qed.

Lemma take_receiver_ok what rxs i :
  rxs !! i = Some true -> take_receiver what rxs (Z.of_nat i) = Ok (<[i := false]> rxs).
Proof. intros H. unfold take_receiver. by rewrite Nat2Z.id, H. Qed.

(** Starting workers [s .. s+k-1] whose receivers are all in place. *)
Lemma start_workers_seq n st s k :
  (forall i, (s <= i < s + k)%nat -> ss_cmd st !! i = Some true /\ ss_inter st !! i = Some true) ->
  exists cmd inter, start_workers n st (map Z.of_nat (seq s k)) =
    Ok {| ss_cmd := cmd; ss_inter := inter;
          ss_workers := ss_workers st ++ (started_worker n <$> seq s k) |}.
Proof.
  revert s st. induction k as [|k IH]; intros s st Hrx.
  { exists (ss_cmd st), (ss_inter st). cbn. rewrite app_nil_r. by destruct st. }
  destruct (Hrx s) as [Hc Hi]; [lia|]. cbn.
  unfold start_worker. rewrite !take_receiver_ok by done. cbn.
  fold (started_worker n s).
  destruct (IH (S s) {| ss_cmd := <[s:=false]> (ss_cmd st); ss_inter := <[s:=false]> (ss_inter st);
      ss_workers := ss_workers st ++ [started_worker n s] |}) as (cmd & inter & ->).
  { intros i Hi'. cbn. rewrite !list_lookup_insert_ne by lia. apply Hrx. lia. }
  exists cmd, inter. cbn. by rewrite <- app_assoc.
Qed.

(** A built runtime that fits in [u16] starts without panicking, with
    workers [0 .. n-1] in order. *)
Lemma start_ok b :
  built b -> planned_workers b < 2 ^ 16 ->
  start b = Ok (started_worker (Z.to_nat (planned_workers b)) <$>
                    seq 0 (Z.to_nat (planned_workers b))).
Proof.
  intros Hb Hp. destruct (built_inv b Hb Hp) as (_ & HT & Hr & Hcat).
  unfold start, start_worker_count. rewrite Hr, Hcat.
  unfold planned_workers, local_count in *.
  set (n := Z.to_nat (Z.of_nat (if local_worker b then 1%nat else 0%nat) + group_total b)).
  set (T := group_total b) in *.
  destruct (local_worker b); cbn -[start_workers replicate] in *.
  - rewrite wrap16_small by lia.
    replace (Z.to_nat (1 + T)) with n by (subst n; lia).
    replace (S (Z.to_nat T)) with n by (subst n; lia).
    unfold start_worker. rewrite !(take_receiver_ok _ _ 0%nat) by (apply lookup_replicate_2; lia).
    cbn -[start_workers].
    change (0, pp_new (build_inter_worker_batchers 0 n)) with (started_worker n 0).
    destruct (start_workers_seq n {| ss_cmd := <[0%nat:=false]> (replicate n true);
        ss_inter := <[0%nat:=false]> (replicate n true); ss_workers := [started_worker n 0] |}
        1 (Z.to_nat T)) as (cmd & inter & ->).
    { intros i Hi. cbn. rewrite !list_lookup_insert_ne, !lookup_replicate_2 by lia. done. }
    assert (seq 0 n = 0%nat :: seq 1 (Z.to_nat T)) as ->
      by (replace n with (S (Z.to_nat T)) by (subst n; lia); done).
    done.
  - replace (Z.to_nat T) with n by (subst n; lia).
    destruct (start_workers_seq n {| ss_cmd := replicate n true; ss_inter := replicate n true;
        ss_workers := [] |} 0 n) as (cmd & inter & ->).
    { intros i Hi. cbn. rewrite !lookup_replicate_2 by lia. done. }
    done.
Qed.

(** ** Lemmas: the globals shutdown task *)

Lemma run_role_on_once h w :
  shutdown_spawned_once h -> shutdown_spawned_once (run_role_on h w).
Proof.
  unfold shutdown_spawned_once, run_role_on; cbn.
  intros [[-> ->] | (-> & Hne & Hf)]; right; cbn; split_and!; try done.
  - by destruct (role_runs h).
  - rewrite filter_app, Hf, filter_cons_False by done. cbn. rewrite app_nil_r.
    by destruct (role_runs h).
Qed.

Lemma run_role_on_all_once handles h idx h' :
  shutdown_spawned_once h -> run_role_on_all handles h idx = Ok h' -> shutdown_spawned_once h'.
Proof.
  revert h. induction idx as [|i idx IH]; intros h Hh Hr; cbn in Hr; [by simplify_eq|].
  unfold run_role_on_handle in Hr. destruct (_ <? _)%nat; [|done].
  cbn in Hr. eapply IH; [by apply run_role_on_once|exact Hr].
Qed.

(** ** Lemmas: forwarding between started workers *)

Lemma started_worker_forwards n w j packet :
  0 <= j ->
  send_to_worker (snd (started_worker n w)) 0 {| worker_index := j |} packet =
    (if bool_decide (j < Z.of_nat n /\ j <> Z.of_nat w)
     then emit (snd (started_worker n w)) (OutWorker {| worker_index := j |} packet)
     else snd (started_worker n w), Z.lor 0 (worker_mask {| worker_index := j |})).
Proof.
  intros Hj. unfold send_to_worker. rewrite Z.land_0_l. cbn -[worker_mask].
  rewrite build_inter_worker_batchers_lookup.
  destruct (Nat.ltb_spec (Z.to_nat j) n); case_bool_decide; rewrite ?Z2Nat.id in * by lia;
    try (destruct (Z.eqb_spec j (Z.of_nat w))); cbn; try done; lia.
Qed.

(** ** Lemmas: u16 overflow *)

Lemma group_indices_length g : length (group_indices g) = Z.to_nat (worker_count g).
Proof. unfold group_indices. by rewrite length_map, length_seq. Qed.

Lemma built_counts b :
  built b ->
  remote_worker_count b = group_total b mod 2 ^ 16 /\ 0 <= group_total b /\
  length (concat (map group_indices (worker_groups b))) = Z.to_nat (group_total b).
Proof.
  induction 1 as [| |b c Hb IH Hc]; [done|done|].
  unfold group_total, remote_worker_count in *; cbn in *.
  rewrite !map_app, fold_right_app, foldl_app, fold_right_Zadd, concat_app, length_app in *; cbn in *.
  rewrite ?Z.add_0_r in *.
  destruct IH as (Hr & HT & Hl). rewrite Hr, app_nil_r, group_indices_length, Hl.
  unfold wrap. rewrite Zplus_mod_idemp_l. split_and!; [done|lia|cbn; lia].
Qed.

(** Starting workers when a receiver slot is missing. *)
Lemma start_workers_oob n st i rest :
  ss_cmd st = [] -> start_workers n st (i :: rest) = Panic "index out of bounds".
Proof. intros Hc. cbn. unfold start_worker, take_receiver. by rewrite Hc. Qed.

(** ** Properties *)

Lemma ex_builder_built : built ex_builder.
Proof. apply built_group; [constructor | lia]. Qed.

Lemma ex_builder_full_built : built ex_builder_full.
Proof. apply built_group; [constructor | lia]. Qed.

(** C26: Runtime start-up.  A runtime built with new_no_local or
    new_with_local and any worker groups, whose workers fit in u16,
    starts without panicking (every worker takes its command and
    inter-worker receivers exactly once), its workers are 0 .. n-1 in
    order, and the packet processor of worker w, on a first forward to
    worker j, queues the packet exactly when j is another worker of the
    runtime. *)
Theorem start_runs_every_worker b :
  built b -> planned_workers b < 2 ^ 16 ->
  exists workers, start b = Ok workers /\
    fst <$> workers = Z.of_nat <$> seq 0 (Z.to_nat (planned_workers b)) /\
    forall (w : nat) pp j packet, snd <$> workers !! w = Some pp -> 0 <= j ->
      fst (send_to_worker pp 0 {| worker_index := j |} packet) =
        if bool_decide (j < planned_workers b /\ j <> Z.of_nat w)
        then emit pp (OutWorker {| worker_index := j |} packet) else pp.
Proof.
  intros Hb Hp. eexists. split; [by apply start_ok|]. split.
  - rewrite <- list_fmap_compose. by apply list_fmap_ext.
  - intros w pp j packet Hw Hj. rewrite list_lookup_fmap in Hw.
    destruct (seq 0 _ !! w) eqn:E; [|done]. apply lookup_seq in E as [-> Hlt].
    cbn in Hw. simplify_eq.
    pose proof (started_worker_forwards (Z.to_nat (planned_workers b)) w j packet Hj) as H.
    unfold started_worker in H; cbn [snd] in H. rewrite H. cbn [fst].
    by rewrite Z2Nat.id by (unfold planned_workers in *; lia).
Qed.

Lemma start_runs_every_worker_witness :
  built ex_builder /\ planned_workers ex_builder < 2 ^ 16 /\
  exists workers, start ex_builder = Ok workers.
Proof.
  assert (Hp : planned_workers ex_builder < 2 ^ 16) by (vm_compute; reflexivity).
  split_and!; [exact ex_builder_built | exact Hp |].
  destruct (start_runs_every_worker ex_builder ex_builder_built Hp) as (ws & Hs & _).
  exists ws. exact Hs.
Defined.

(** C27: u16 worker indices.  A runtime whose local and group workers add
    up to 2^16 wraps its u16 worker counts (a debug build panics on the
    overflow instead) and RuntimeBuilder::start panics on an index out of
    bounds. *)
Theorem start_u16_overflow_panics b :
  built b -> planned_workers b = 2 ^ 16 -> start b = Panic "index out of bounds".
Proof.
  intros Hb Hp. destruct (built_counts b Hb) as (Hr & HT & Hl).
  unfold start, start_worker_count. rewrite Hr. unfold planned_workers, local_count in Hp.
  destruct (local_worker b); cbn in Hp.
  - replace (group_total b mod 2 ^ 16) with 65535 by (rewrite Z.mod_small; lia).
    replace (wrap 16 (1 + 65535)) with 0 by reflexivity.
    unfold start_worker at 1.
    rewrite (take_receiver_ok "worker command receiver" _ 0%nat)
      by (cbn [ss_cmd]; apply lookup_replicate_2, Nat.lt_0_succ).
    rewrite bind_Ok. reflexivity.
  - replace (group_total b mod 2 ^ 16) with 0
      by (replace (group_total b) with (2 ^ 16) by lia; reflexivity).
    destruct (concat (map group_indices (worker_groups b))) as [|i rest] eqn:E;
      [cbn in Hl; lia|].
    rewrite bind_Ok, start_workers_oob by done. done.
Qed.

Lemma start_u16_overflow_panics_witness :
  built ex_builder_full /\ planned_workers ex_builder_full = 2 ^ 16 /\
  start ex_builder_full = Panic "index out of bounds".
Proof.
  assert (Hp : planned_workers ex_builder_full = 2 ^ 16) by reflexivity.
  split_and!; [exact ex_builder_full_built | exact Hp |].
  exact (start_u16_overflow_panics ex_builder_full ex_builder_full_built Hp).
Defined.

(** C28: Role globals are shut down once.  However a role is started
    (on_worker_group for any groups, local on the current worker), exactly
    one worker spawns the task that shuts the role's globals down: the
    first one that ran the role. *)
Theorem globals_shutdown_spawned_once handles h :
  role_started handles h -> shutdown_spawned_once h.
Proof.
  induction 1 as [|h g h' _ IH Hg|h w h' _ IH Hl]; [by left| |].
  - by eapply run_role_on_all_once.
  - cbn in Hl. simplify_eq. by apply run_role_on_once.
Qed.

Lemma ex_role_handle_started : role_started 3 ex_role_handle.
Proof.
  eapply (rs_local 3 _ 0); [|reflexivity].
  eapply (rs_group 3 start_role_handle (snd (new_worker_group new_with_local 2)));
    [apply rs_new | reflexivity].
Qed.

Lemma globals_shutdown_spawned_once_witness :
  role_started 3 ex_role_handle /\ shutdown_spawned_once ex_role_handle.
Proof.
  split; [exact ex_role_handle_started |].
  exact (globals_shutdown_spawned_once 3 ex_role_handle ex_role_handle_started).
Defined.
