(* ===== verification/Tasks.v ===== *)
(** * Tasks: shutdown signals, raced tasks and the role's name

    The runtime never cancels a task: every long-running future is raced
    against shutdown signals and completes when one of them fires.  This
    file models:

    - [bab::SignalTree] (an external crate, modelled from the spec,
      section "Signal tree for shutdown": one state per signal and parent
      pointers; notifying a signal wakes the waiters of all its
      descendants).  A signal is an id; [fired] walks the parent pointers;
    - the tasks the runtime spawns, by what they wait for and what they do
      when woken: [WorkerSpawner::spawn] and [WorkerContext::spawn]
      (worker.rs) race the future with the worker's signal;
      [RoleSpawner::spawn] (role.rs) with the role's or the worker's;
      [RoleSpawner::on_shutdown] runs its future once either fired;
    - the tasks [spawn_worker] (worker.rs) and [build_inter_worker_batchers]
      start on each worker;
    - the role name [run_role_worker] (role.rs) derives from
      [core::any::type_name::<Role>()]. *)

From Stdlib Require Import Ascii.
From S2P Require Import Prelude Codec ContextMap PacketProcessor PacketSender RoleSetup.
Local Open Scope Z_scope.

(** ** [bab::SignalTree] *)

Notation SigId := nat (only parsing).

Record SignalTree := {
  sig_parent : gmap SigId SigId;   (* the signal each [add_child] made a child of *)
  sig_notified : gset SigId;       (* the signals [notify] was called on *)
  sig_next : SigId;                (* the id the next [SignalTree::new] gets *)
}.

Definition signal_tree_empty : SignalTree :=
  {| sig_parent := ∅; sig_notified := ∅; sig_next := 0%nat |}.

(** [SignalTree::new()]. *)
Definition signal_new (s : SignalTree) : SignalTree * SigId :=
  ({| sig_parent := sig_parent s; sig_notified := sig_notified s; sig_next := S (sig_next s) |},
   sig_next s).

(** [parent.add_child(child)]. *)
Definition add_child (parent child : SigId) (s : SignalTree) : SignalTree :=
  {| sig_parent := <[child := parent]> (sig_parent s); sig_notified := sig_notified s;
     sig_next := sig_next s |}.

(** [signal.notify()]. *)
Definition notify (x : SigId) (s : SignalTree) : SignalTree :=
  {| sig_parent := sig_parent s; sig_notified := {[x]} ∪ sig_notified s; sig_next := sig_next s |}.

(** Whether [signal.wait()] has completed: the signal or one of its
    ancestors was notified.  Parents are older than their children (every
    [add_child] of the runtime makes a fresh signal the child of an older
    one), so the walk up from [x] takes at most [x] turns. *)
Fixpoint fired_fuel (fuel : nat) (s : SignalTree) (x : SigId) : bool :=
  bool_decide (x ∈ sig_notified s) ||
  match fuel, sig_parent s !! x with
  | S fuel', Some p => fired_fuel fuel' s p
  | _, _ => false
  end.

Definition fired (s : SignalTree) (x : SigId) : bool := fired_fuel x s x.

(** ** Tasks *)

(** What a task does once one of the signals it waits for has fired:
    a raced future ([Body]) just completes; the future [run_role_worker]
    hands to [on_shutdown] tears the role down on its worker; the task
    [on_worker_group] spawns on the role's first worker drops the role's
    globals. *)
Inductive TaskKind :=
| Body (name : string)
| OnShutdown (plane_id role_id : Z)
| GlobalsShutdown (role_id : Z).

Record Task := {
  task_worker : nat;          (* the worker whose executor runs it *)
  task_waits : list SigId;    (* the signals it is raced against *)
  task_kind : TaskKind;
}.

#[export] Instance TaskKind_eq_dec : EqDecision TaskKind.
Proof. solve_decision. Defined.
#[export] Instance Task_eq_dec : EqDecision Task.
Proof. solve_decision. Defined.

(** A task is woken for good once one of its signals has fired. *)
Definition task_ready (s : SignalTree) (t : Task) : bool := existsb (fired s) (task_waits t).

(** [WorkerSpawner { spawner, shutdown_signal, .. }] and [::spawn]:
    [future::or(future, shutdown_signal.wait_owned())]. *)
Record WorkerSpawner := { ws_worker : nat; ws_shutdown_signal : SigId }.

Definition worker_spawn (sp : WorkerSpawner) (name : string) : Task :=
  {| task_worker := ws_worker sp; task_waits := [ws_shutdown_signal sp]; task_kind := Body name |}.

(** [RoleSpawner] and [::spawn]: the future raced with
    [or(role_shutdown_signal.wait(), worker_shutdown_signal.wait())];
    [spawn_interval_loop] spawns its loop the same way. *)
Record RoleSpawner := {
  rsp_worker : nat;
  rsp_worker_shutdown_signal : SigId;
  rsp_role_shutdown_signal : SigId;
}.

Definition role_spawn (sp : RoleSpawner) (name : string) : Task :=
  {| task_worker := rsp_worker sp;
     task_waits := [rsp_role_shutdown_signal sp; rsp_worker_shutdown_signal sp];
     task_kind := Body name |}.

(** [RoleSpawner::on_shutdown(future)]: wait for either signal, then run
    [future]; the only such future is [run_role_worker]'s teardown
    ([role_teardown]) of a plane and a role id. *)
Definition role_on_shutdown_task (sp : RoleSpawner) (plane_id role_id : Z) : Task :=
  {| task_worker := rsp_worker sp;
     task_waits := [rsp_role_shutdown_signal sp; rsp_worker_shutdown_signal sp];
     task_kind := OnShutdown plane_id role_id |}.

(** [build_inter_worker_batchers]: a [run_burstq_batcher] task for every
    other worker of a runtime of [n]. *)
Definition inter_worker_batcher_tasks (sp : WorkerSpawner) (n : nat) : list Task :=
  map (fun _ => worker_spawn sp "inter-worker-batcher")
      (filter (fun i => i <> ws_worker sp) (seq 0 n)).

(** [spawn_worker]: the command loop, the local-rx and inter-worker-rx
    loops ([spawn_traced] races them like [spawn]) and the loop that
    flushes the packet processor's trace sources. *)
Definition spawn_worker (sp : WorkerSpawner) : list Task :=
  map (worker_spawn sp) ["commands"; "local-rx"; "inter-worker-rx"; "flush-traces"].

(** ** The role's name *)

(** [s.rsplit("::").next()]: the text after the last [::].  Searching
    from the end is searching the reversed text from its start; the
    separator reads the same both ways.  The iterator always yields a
    first piece, so the [unwrap] after it never fails. *)
Fixpoint first_segment (l : list ascii) : list ascii :=
  match l with
  | [] => []
  | c :: l' =>
      match l' with
      | d :: _ =>
          if (Ascii.eqb c ":"%char && Ascii.eqb d ":"%char)%bool then []
          else c :: first_segment l'
      | [] => [c]
      end
  end.

Definition rsplit_next (l : list ascii) : list ascii := rev (first_segment (rev l)).

(** [s.strip_prefix(p)] and [s.strip_suffix(p)]. *)
Fixpoint strip_prefix (p l : list ascii) : option (list ascii) :=
  match p, l with
  | [], _ => Some l
  | c :: p', d :: l' => if Ascii.eqb c d then strip_prefix p' l' else None
  | _ :: _, [] => None
  end.

Definition strip_suffix (suffix l : list ascii) : option (list ascii) :=
  @rev ascii <$> strip_prefix (rev suffix) (rev l).

(** [type_name::<Role>().rsplit("::").next().unwrap().strip_suffix("Role").unwrap()]. *)
Definition role_name (type_name : string) : result string :=
  let last := rsplit_next (String.list_ascii_of_string type_name) in
  name ← expect "called `Option::unwrap()` on a `None` value"
           (strip_suffix (String.list_ascii_of_string "Role") last);
  Ok (String.string_of_list_ascii name).

(** ** The signal tree's ancestry *)

(** [descends s x y]: [y] is [x] or one of its ancestors. *)
Inductive descends (s : SignalTree) : SigId -> SigId -> Prop :=
| descends_refl x : descends s x x
| descends_parent x p y : sig_parent s !! x = Some p -> descends s p y -> descends s x y.

(** Parents are older than their children, and every child is a signal
    [SignalTree::new] made. *)
Definition sig_wf (s : SignalTree) : Prop :=
  forall c p, sig_parent s !! c = Some p -> (p < c)%nat /\ (c < sig_next s)%nat.

(** ** Examples *)

Definition ex_type_name : string := "foo_modrpc::FooClientRole".
Definition ex_generic_type_name : string :=
  "std_modrpc::roles::request_server::RequestServerRole<u32, alloc::string::String>".

(** ** Lemmas: the signal tree *)

#[export] Hint Constructors descends : modrpc.

Section SignalFacts.
Context (s : SignalTree) (Hwf : sig_wf s).

Lemma fired_fuel_spec n x :
  (x <= n)%nat ->
  fired_fuel n s x = true <-> exists y, descends s x y /\ y ∈ sig_notified s.
Proof.
  revert x. induction n as [|n IH]; intros x Hx; cbn [fired_fuel];
    rewrite orb_true_iff, bool_decide_eq_true.
  - destruct (sig_parent s !! x) as [p|] eqn:Hp.
    + destruct (Hwf _ _ Hp). lia.
    + split; [intros [Hin|Hf]; [eauto with modrpc|discriminate]|].
      intros (y & Hd & Hy). inversion Hd; subst; [by left|congruence].
  - destruct (sig_parent s !! x) as [p|] eqn:Hp.
    + destruct (Hwf _ _ Hp) as [Hlt _]. rewrite IH by lia.
      split; [intros [Hin|(y & Hd & Hy)]; eauto with modrpc|].
      intros (y & Hd & Hy). inversion Hd; subst; [by left|]. right. simplify_eq. eauto.
    + split; [intros [Hin|Hf]; [eauto with modrpc|discriminate]|].
      intros (y & Hd & Hy). inversion Hd; subst; [by left|congruence].
Qed.

Lemma fired_spec x : fired s x = true <-> exists y, descends s x y /\ y ∈ sig_notified s.
Proof. apply fired_fuel_spec. lia. Qed.

End SignalFacts.

Lemma descends_notify s x y z : descends (notify z s) x y <-> descends s x y.
Proof. split; induction 1; econstructor; eauto. Qed.

(** Notifying [z] fires exactly the signals below it. *)
Lemma fired_notify s z y :
  sig_wf s -> fired (notify z s) y = true <-> fired s y = true \/ descends s y z.
Proof.
  intros Hwf. rewrite fired_spec, fired_spec by done.
  setoid_rewrite descends_notify. cbn [sig_notified notify]. set_solver.
Qed.

Lemma fired_fuel_ext n s1 s2 x :
  sig_parent s1 = sig_parent s2 -> sig_notified s1 = sig_notified s2 ->
  fired_fuel n s1 x = fired_fuel n s2 x.
Proof.
  intros Hp Hn. revert x. induction n as [|n IH]; intros x; cbn [fired_fuel]; rewrite Hn;
    [done|]. rewrite Hp. destruct (sig_parent s2 !! x); [by rewrite IH|done].
Qed.

Lemma fired_signal_new s y : fired (fst (signal_new s)) y = fired s y.
Proof. apply fired_fuel_ext; done. Qed.

Lemma sig_wf_signal_new s : sig_wf s -> sig_wf (fst (signal_new s)).
Proof. intros Hwf c p Hc. cbn in Hc |- *. destruct (Hwf c p Hc). lia. Qed.

Lemma sig_wf_notify s z : sig_wf s -> sig_wf (notify z s).
Proof. done. Qed.

Lemma sig_wf_add_child s p c :
  sig_wf s -> (p < c)%nat -> (c < sig_next s)%nat -> sig_wf (add_child p c s).
Proof.
  intros Hwf Hpc Hc c' p'. cbn. rewrite lookup_insert_Some.
  intros [[<- <-]|[_ Hc']]; [done|by apply Hwf].
Qed.

(** A signal nobody is the child of yet gets a parent: the ancestry of
    every other signal is unchanged. *)
Lemma descends_add_child s p c y z :
  y <> c -> (forall x, sig_parent s !! x <> Some c) ->
  descends (add_child p c s) y z <-> descends s y z.
Proof.
  intros Hy Hfresh. split; induction 1 as [|x q w Hq Hd IH]; try constructor.
  - cbn in Hq. rewrite lookup_insert_ne in Hq by congruence.
    econstructor; [exact Hq|]. apply IH. intros ->. by apply (Hfresh x).
  - econstructor; [|apply IH; intros ->; by apply (Hfresh x)].
    cbn. by rewrite lookup_insert_ne by congruence.
Qed.

Lemma fired_add_child s p c y :
  sig_wf s -> (p < c)%nat -> (c < sig_next s)%nat -> y <> c ->
  (forall x, sig_parent s !! x <> Some c) ->
  fired (add_child p c s) y = fired s y.
Proof.
  intros Hwf Hpc Hc Hy Hfresh. apply Bool.eq_true_iff_eq.
  rewrite !fired_spec by auto using sig_wf_add_child.
  setoid_rewrite (descends_add_child s p c y); done.
Qed.

(** ** Lemmas: the role's name *)

Lemma first_segment_cons c l :
  c <> ":"%char -> l <> [] -> first_segment (c :: l) = c :: first_segment l.
Proof.
  intros Hc Hl. destruct l as [|d t]; [done|]. cbn [first_segment].
  by rewrite (proj2 (Ascii.eqb_neq c ":") Hc).
Qed.

Lemma first_segment_sep l r :
  ":"%char ∉ l -> first_segment (l ++ ":"%char :: ":"%char :: r) = l.
Proof.
  induction l as [|c l IH]; intros Hl; [done|].
  rewrite not_elem_of_cons in Hl. destruct Hl as [Hc Hl].
  rewrite <-app_comm_cons, first_segment_cons by (done || by destruct l). by rewrite IH.
Qed.

Lemma strip_prefix_app p l : strip_prefix p (p ++ l) = Some l.
Proof. induction p as [|c p IH]; [done|]. cbn. by rewrite Ascii.eqb_refl. Qed.

Lemma strip_suffix_app l suffix : strip_suffix suffix (l ++ suffix) = Some l.
Proof.
  unfold strip_suffix. rewrite rev_app_distr, strip_prefix_app.
  cbn [fmap option_fmap option_map]. by rewrite rev_involutive.
Qed.

Lemma rsplit_next_sep path seg :
  ":"%char ∉ seg -> rsplit_next (path ++ ":"%char :: ":"%char :: seg) = seg.
Proof.
  intros Hseg. unfold rsplit_next.
  replace (path ++ _ :: _ :: seg) with ((path ++ [":"%char; ":"%char]) ++ seg)
    by (by rewrite <-app_assoc).
  rewrite !rev_app_distr. cbn [rev app]. rewrite first_segment_sep, rev_involutive; [done|].
  by rewrite list_elem_of_In, <-in_rev, <-list_elem_of_In.
Qed.

(** ** Theorems: the role's name *)

(** C39: A role type named the way modrpc-codegen names a non-generic
    role, a module path, [::], then an identifier ending in [Role], gets
    that identifier without its [Role] suffix as its name. *)
Theorem role_name_generated (path base : list ascii) :
  ":"%char ∉ base ->
  role_name (String.string_of_list_ascii (path ++ ":"%char :: ":"%char :: base ++
                                            String.list_ascii_of_string "Role"))
  = Ok (String.string_of_list_ascii base).
Proof.
  intros Hbase. unfold role_name. rewrite String.list_ascii_of_string_of_list_ascii.
  rewrite rsplit_next_sep, strip_suffix_app; [done|].
  rewrite elem_of_app. intros [?|Hr]; [done|]. vm_compute in Hr. set_solver.
Qed.

(** C40: The name of a generic role panics: [type_name] writes the type's
    arguments after it, so the text ends in [>]; the piece after the last
    [::] then ends in [>] too (or is empty) and [strip_suffix("Role")]
    returns [None], which [unwrap] turns into a panic.  Every generic
    role of std-modrpc ([RequestServerRole<Req, Resp>], [StreamSenderRole<T>],
    ...) panics in [run_role_worker] on the first worker it is started on. *)
Theorem generic_role_name_panics (type_name : list ascii) :
  role_name (String.string_of_list_ascii (type_name ++ [">"%char]))
  = Panic "called `Option::unwrap()` on a `None` value".
Proof.
  unfold role_name, rsplit_next. rewrite String.list_ascii_of_string_of_list_ascii, rev_app_distr.
  cbn [rev app]. unfold strip_suffix.
  destruct (rev type_name) as [|c t]; [done|].
  rewrite first_segment_cons by done. rewrite rev_involutive.
  cbn. by destruct (rev (first_segment (c :: t))).
Qed.

(** The role of the local benchmark's client, [FooClientRole] of foo_modrpc. *)
Lemma role_name_generated_witness :
  role_name "foo_modrpc::FooClientRole" = Ok "FooClient".
Proof.
  apply (role_name_generated (String.list_ascii_of_string "foo_modrpc")
                             (String.list_ascii_of_string "FooClient")).
  vm_compute. set_solver.
Defined.

Lemma sig_wf_empty : sig_wf signal_tree_empty.
Proof. intros c p. cbn. by rewrite lookup_empty. Qed.

(** An ancestor is never younger than its descendant. *)
Lemma descends_le s y x : sig_wf s -> descends s y x -> (x <= y)%nat.
Proof. intros Hwf. induction 1 as [|c p z Hp _ IH]; [lia|]. destruct (Hwf _ _ Hp). lia. Qed.
