(* ===== verification/Lifecycle.v ===== *)
(** * Lifecycle: transports, role start and role teardown (rt.rs, role.rs)

    The runtime after [RuntimeBuilder::start], composed with the shutdown
    signals and the tasks of Tasks.v:

    - [RuntimeBuilder::start] gives the runtime a shutdown signal and each
      worker one of its children, and starts the tasks of each worker
      ([life_start]);
    - [RuntimeHandle::add_transport] registers a transport, whose own
      signal is a root, and spawns a flush loop on every worker when its
      writers flush ([add_transport]);
    - [RuntimeHandle::start_role] makes the role's signal a child of the
      transport's and takes the next role id ([start_role]);
    - [StartRoleHandle::on_worker_group] and [::local] run the role on a
      worker ([run_role_on_worker]): the packet sender of [TopicChannels],
      [run_role_worker] (the teardown task, the role's name, the
      [RoleSetup] and the role's setup) and, on the first worker, the
      task that drops the role's globals;
    - any signal can be notified (a transport dying, the application
      shutting a role down, [RuntimeShutdownHandle::shutdown] notifying
      the runtime's), and an executor polls a woken task ([poll]) or a
      raced future ends by itself ([finish]).

    A role's setup ([Role::setup_worker] and the start function, generated
    or user code) is a list of [SetupAction]s on its [RoleSetup]: handler
    and queue nodes on its worker, entries in its worker's locals and
    tasks on its role spawner.  The globals and locals hold the value
    types of RoleSetup.v and of the section's [K]/[V].

    No step dispatches a packet: no packet processor is ever inside
    [handle_packet] here, so the [remove_plane] of a teardown is applied
    at once.  In the code a teardown that runs while a dispatch is
    suspended at [queue.send(..).await] defers it until the dispatch
    ends; PacketProcessor.v models that deferral and proves it equal to
    applying the changes in order. *)

From S2P Require Import Prelude Codec ContextMap PacketProcessor FlushBatcher.
From S2P Require Import PacketSender RoleSetup RuntimeBuilder Tasks.
Local Open Scope Z_scope.

(** ** Transports and role handles *)

(** What the lifecycle uses of a [TransportHandle]: its [shutdown_signal]
    and whether [writer_flush_sender()] is [Some]. *)
Record TransportHandle := { tr_signal : SigId; tr_flush : bool }.

(** [TopicChannels] (rt.rs); [MultiChannel] has no fields yet. *)
Inductive TopicChannels := SingleChannel (channel_id : Z) | MultiChannel.

(** A [StartRoleHandle] and the [RoleConfig] it holds, without the role's
    config and init values. *)
Record RoleHandle := {
  rh_plane_id : Z;
  rh_endpoint_addr : EndpointAddr;
  rh_transport : TransportHandle;
  rh_topic_channels : TopicChannels;
  rh_role_shutdown_signal : SigId;
  rh_role_id : Z;                            (* u64 *)
  rh_has_spawned_globals_shutdown : bool;
}.

Definition set_has_spawned (rh : RoleHandle) : RoleHandle :=
  {| rh_plane_id := rh_plane_id rh; rh_endpoint_addr := rh_endpoint_addr rh;
     rh_transport := rh_transport rh; rh_topic_channels := rh_topic_channels rh;
     rh_role_shutdown_signal := rh_role_shutdown_signal rh; rh_role_id := rh_role_id rh;
     rh_has_spawned_globals_shutdown := true |}.

(** [TopicChannels::create_packet_sender]: a single-channel sender over
    the writer [transport.new_writer] makes (a fresh one; when the
    transport flushes, with a flush batcher of 100 us), or the [todo!()]
    of [MultiChannel]. *)
Definition create_packet_sender (tc : TopicChannels) (pp : PacketProcessor)
    (transport : TransportHandle) (endpoint_addr : EndpointAddr) : result PacketSender :=
  match tc with
  | SingleChannel _ =>
      Ok (single_channel_sender endpoint_addr writer_new pp
            (if tr_flush transport then Some (fb_new 100000) else None))
  | MultiChannel => Panic "not yet implemented"
  end.

Section Lifecycle.
Context {K V : Type} `{Countable K}.

#[local] Notation Locals := (@ContextMapPrivate K V _ _).

(** ** The runtime's state *)

Record Life := {
  lf_signals : SignalTree;
  lf_rt_signal : SigId;              (* rt_shutdown_signal *)
  lf_worker_signals : list SigId;    (* worker_handles[i].shutdown_signal *)
  lf_rt : Runtime;                   (* globals, and each worker's packet processor *)
  lf_locals : list Locals;           (* each worker's locals *)
  lf_tasks : list Task;              (* the tasks no executor has completed *)
  lf_next_role_id : Z;               (* next_role_id: AtomicU64 *)
  lf_transports : list TransportHandle;
  lf_roles : list RoleHandle;
}.

Definition set_signals (sigs : SignalTree) (st : Life) : Life :=
  {| lf_signals := sigs; lf_rt_signal := lf_rt_signal st; lf_worker_signals := lf_worker_signals st;
     lf_rt := lf_rt st; lf_locals := lf_locals st; lf_tasks := lf_tasks st;
     lf_next_role_id := lf_next_role_id st; lf_transports := lf_transports st;
     lf_roles := lf_roles st |}.
Definition set_rt (rt : Runtime) (locals : list Locals) (st : Life) : Life :=
  {| lf_signals := lf_signals st; lf_rt_signal := lf_rt_signal st;
     lf_worker_signals := lf_worker_signals st; lf_rt := rt; lf_locals := locals;
     lf_tasks := lf_tasks st; lf_next_role_id := lf_next_role_id st;
     lf_transports := lf_transports st; lf_roles := lf_roles st |}.
Definition set_tasks (ts : list Task) (st : Life) : Life :=
  {| lf_signals := lf_signals st; lf_rt_signal := lf_rt_signal st;
     lf_worker_signals := lf_worker_signals st; lf_rt := lf_rt st; lf_locals := lf_locals st;
     lf_tasks := ts; lf_next_role_id := lf_next_role_id st; lf_transports := lf_transports st;
     lf_roles := lf_roles st |}.
Definition set_roles (next_role_id : Z) (roles : list RoleHandle) (st : Life) : Life :=
  {| lf_signals := lf_signals st; lf_rt_signal := lf_rt_signal st;
     lf_worker_signals := lf_worker_signals st; lf_rt := lf_rt st; lf_locals := lf_locals st;
     lf_tasks := lf_tasks st; lf_next_role_id := next_role_id;
     lf_transports := lf_transports st; lf_roles := roles |}.
Definition set_transports (trs : list TransportHandle) (st : Life) : Life :=
  {| lf_signals := lf_signals st; lf_rt_signal := lf_rt_signal st;
     lf_worker_signals := lf_worker_signals st; lf_rt := lf_rt st; lf_locals := lf_locals st;
     lf_tasks := lf_tasks st; lf_next_role_id := lf_next_role_id st; lf_transports := trs;
     lf_roles := lf_roles st |}.

Definition spawn (t : Task) (st : Life) : Life := set_tasks (lf_tasks st ++ [t]) st.

(** ** Start *)

(** The handles of [RuntimeBuilder::start]: for each worker a new signal,
    made a child of the runtime's.  (The local worker's signal is made by
    [new_with_local] before the runtime's; the ids only name signals.) *)
Fixpoint worker_signals_new (rt_signal : SigId) (n : nat) (s : SignalTree)
    : SignalTree * list SigId :=
  match n with
  | O => (s, [])
  | S n' =>
      let '(s, x) := signal_new s in
      let s := add_child rt_signal x s in
      let '(s, xs) := worker_signals_new rt_signal n' s in
      (s, x :: xs)
  end.

(** Each worker's [build_inter_worker_batchers] and [spawn_worker] tasks. *)
Definition worker_tasks (n : nat) (worker_signals : list SigId) : list Task :=
  concat (imap (fun w x =>
    let sp := {| ws_worker := w; ws_shutdown_signal := x |} in
    inter_worker_batcher_tasks sp n ++ spawn_worker sp) worker_signals).

(** [RuntimeBuilder::start]: the workers [start] makes, their signals,
    tasks, empty locals and the empty globals. *)
Definition life_start (b : RuntimeBuilder) : result Life :=
  workers ← start b;
  let n := length workers in
  let '(sigs, rt_signal) := signal_new signal_tree_empty in
  let '(sigs, worker_signals) := worker_signals_new rt_signal n sigs in
  Ok {| lf_signals := sigs; lf_rt_signal := rt_signal; lf_worker_signals := worker_signals;
        lf_rt := runtime_of workers; lf_locals := replicate n new_inner;
        lf_tasks := worker_tasks n worker_signals; lf_next_role_id := 0;
        lf_transports := []; lf_roles := [] |}.

(** ** Transports and role start *)

(** [RuntimeHandle::add_transport]: [start_transport] makes the
    transport's signal; with a flush sender, [run_on_all_workers] spawns
    the flush loop on every worker with [worker_cx.spawn]. *)
Definition add_transport (flush : bool) (st : Life) : Life :=
  let '(sigs, x) := signal_new (lf_signals st) in
  let flush_tasks :=
    if flush then imap (fun w ws => worker_spawn {| ws_worker := w; ws_shutdown_signal := ws |}
                                      "transport-flush") (lf_worker_signals st)
    else [] in
  set_tasks (lf_tasks st ++ flush_tasks)
    (set_transports (lf_transports st ++ [{| tr_signal := x; tr_flush := flush |}])
       (set_signals sigs st)).

(** [RuntimeHandle::start_role]: a new signal, a child of the transport's,
    and [next_role_id.fetch_add(1)], which wraps at [2^64]. *)
Definition start_role (transport : TransportHandle) (plane_id : Z) (endpoint_addr : EndpointAddr)
    (topic_channels : TopicChannels) (st : Life) : Life :=
  let '(sigs, role_shutdown_signal) := signal_new (lf_signals st) in
  let sigs := add_child (tr_signal transport) role_shutdown_signal sigs in
  let role_id := lf_next_role_id st in
  let rh := {| rh_plane_id := plane_id; rh_endpoint_addr := endpoint_addr;
               rh_transport := transport; rh_topic_channels := topic_channels;
               rh_role_shutdown_signal := role_shutdown_signal; rh_role_id := role_id;
               rh_has_spawned_globals_shutdown := false |} in
  set_roles (wrap 64 (role_id + 1)) (lf_roles st ++ [rh]) (set_signals sigs st).

(** ** Running a role on a worker *)

(** What a role's setup and start function do with their [RoleSetup]. *)
Inductive SetupAction :=
| SetupInline (topic : Z) (hid : nat)                (* an inline handler, [.local()] *)
| SetupQueued (topic : Z) (queue : nat)              (* a local queue, [.local()] *)
| SetupWithLocal (type_id : nat) (key : K) (ctor : V) (* [setup.with_local(key, params, ..)] *)
| SetupSpawn (name : string).                        (* [role_spawner().spawn(..)] *)

Definition run_setup_action (rs : RoleSetup) (sp : RoleSpawner) (st : Life) (a : SetupAction)
    : result Life :=
  match a with
  | SetupInline topic hid =>
      rt ← inline_local rs topic hid (fun _ _ => []) (lf_rt st); Ok (set_rt rt (lf_locals st) st)
  | SetupQueued topic queue =>
      rt ← queued_local rs topic queue (lf_rt st); Ok (set_rt rt (lf_locals st) st)
  | SetupWithLocal type_id key ctor =>
      match lf_locals st !! worker_of rs with
      | None => Ok st
      | Some locals =>
          let locals' := fst (role_with_local rs type_id key ctor (fun v => (v, tt)) locals) in
          Ok (set_rt (lf_rt st) (<[worker_of rs := locals']> (lf_locals st)) st)
      end
  | SetupSpawn name => Ok (spawn (role_spawn sp name) st)
  end.

Fixpoint run_setup (rs : RoleSetup) (sp : RoleSpawner) (st : Life) (setup : list SetupAction)
    : result Life :=
  match setup with
  | [] => Ok st
  | a :: rest => st ← run_setup_action rs sp st a; run_setup rs sp st rest
  end.

(** [run_role_worker]: the role spawner and its teardown task, the role's
    name from its type's name, the [RoleSetup], then the role's setup. *)
Definition run_role_worker (type_name : string) (w : nat) (worker_shutdown_signal : SigId)
    (role_shutdown_signal : SigId) (plane_id role_id : Z) (endpoint_addr : EndpointAddr)
    (packet_sender : PacketSender) (setup : list SetupAction) (st : Life) : result Life :=
  let role_spawner := {| rsp_worker := w; rsp_worker_shutdown_signal := worker_shutdown_signal;
                         rsp_role_shutdown_signal := role_shutdown_signal |} in
  let st := spawn (role_on_shutdown_task role_spawner plane_id role_id) st in
  root_object_name ← role_name type_name;
  let rs := role_setup_new root_object_name (worker_id_of w) packet_sender plane_id role_id
              endpoint_addr in
  run_setup rs role_spawner st setup.

(** The body of [on_worker_group]'s loop and of [local] on worker [w],
    for the role of handle [h]: the packet sender, [run_role_worker], and
    on the first worker the task that waits for the role's signal and
    drops its globals (spawned with the raw spawner: it is not raced with
    the worker's signal). *)
Definition run_role_on_worker (type_name : string) (h : nat) (rh : RoleHandle) (w : nat)
    (setup : list SetupAction) (st : Life) : result Life :=
  let spawn_globals_shutdown := negb (rh_has_spawned_globals_shutdown rh) in
  let st := set_roles (lf_next_role_id st) (<[h := set_has_spawned rh]> (lf_roles st)) st in
  worker_shutdown_signal ← expect "index out of bounds" (lf_worker_signals st !! w);
  pp ← expect "index out of bounds" (rt_pps (lf_rt st) !! w);
  packet_sender ← create_packet_sender (rh_topic_channels rh) pp (rh_transport rh)
                    (rh_endpoint_addr rh);
  st ← run_role_worker type_name w worker_shutdown_signal (rh_role_shutdown_signal rh)
         (rh_plane_id rh) (rh_role_id rh) (rh_endpoint_addr rh) packet_sender setup st;
  if spawn_globals_shutdown then
    Ok (spawn {| task_worker := w; task_waits := [rh_role_shutdown_signal rh];
                 task_kind := GlobalsShutdown (rh_role_id rh) |} st)
  else Ok st.

(** [StartRoleHandle::on_worker_group]: the workers of the group in order. *)
Fixpoint run_role_on_workers (type_name : string) (h : nat) (indices : list Z)
    (setup : list SetupAction) (st : Life) : result Life :=
  match indices with
  | [] => Ok st
  | i :: rest =>
      rh ← expect "role handle" (lf_roles st !! h);
      st ← run_role_on_worker type_name h rh (Z.to_nat i) setup st;
      run_role_on_workers type_name h rest setup st
  end.

Definition life_on_worker_group (type_name : string) (h : nat) (g : WorkerGroup)
    (setup : list SetupAction) (st : Life) : result Life :=
  let start_worker := first_worker_index g in
  let end_worker := wrap 16 (start_worker + worker_count g) in
  run_role_on_workers type_name h
    (map (fun i => start_worker + Z.of_nat i) (seq 0 (Z.to_nat (end_worker - start_worker))))
    setup st.

(** [StartRoleHandle::local]: the worker whose thread calls it. *)
Definition life_local (type_name : string) (h : nat) (local_worker_context : option nat)
    (setup : list SetupAction) (st : Life) : result Life :=
  match local_worker_context with
  | None => Panic "Can't start a role locally in a thread that isn't a modrpc worker"
  | Some w =>
      rh ← expect "role handle" (lf_roles st !! h);
      run_role_on_worker type_name h rh w setup st
  end.

(** ** Executors *)

(** What a woken task runs before it completes. *)
Definition poll_task (st : Life) (t : Task) : result Life :=
  match task_kind t with
  | Body _ => Ok st
  | OnShutdown plane_id role_id =>
      let w := task_worker t in
      match lf_locals st !! w with
      | None => Ok st
      | Some locals =>
          '(rt, locals) ← role_teardown w plane_id role_id locals (lf_rt st);
          Ok (set_rt rt (<[w := locals]> (lf_locals st)) st)
      end
  | GlobalsShutdown role_id =>
      globals ← shutdown_tag (Role role_id) (rt_globals (lf_rt st));
      Ok (set_rt {| rt_globals := globals; rt_pps := rt_pps (lf_rt st) |} (lf_locals st) st)
  end.

(** An executor polls task [i], one of whose signals has fired: it
    completes. *)
Definition poll (i : nat) (st : Life) : option (result Life) :=
  t ← lf_tasks st !! i;
  if task_ready (lf_signals st) t then Some (poll_task (set_tasks (delete i (lf_tasks st)) st) t)
  else None.

(** A raced future ends by itself. *)
Definition finish (i : nat) (st : Life) : option Life :=
  t ← lf_tasks st !! i;
  match task_kind t with
  | Body _ => Some (set_tasks (delete i (lf_tasks st)) st)
  | _ => None
  end.

(** Every woken task polled once, in the order they were spawned: the
    round of the executors after a signal fires. *)
Fixpoint poll_round (sigs : SignalTree) (pending ts : list Task) (st : Life) : result Life :=
  match ts with
  | [] => Ok (set_tasks pending st)
  | t :: ts' =>
      if task_ready sigs t then st ← poll_task st t; poll_round sigs pending ts' st
      else poll_round sigs (pending ++ [t]) ts' st
  end.

Definition poll_ready (st : Life) : result Life := poll_round (lf_signals st) [] (lf_tasks st) st.

(** ** The steps *)

Inductive LifeOp :=
| AddTransport (flush : bool)
| StartRole (transport : nat) (plane_id : Z) (endpoint_addr : EndpointAddr)
    (topic_channels : TopicChannels)
| OnWorkerGroup (type_name : string) (role : nat) (g : WorkerGroup) (setup : list SetupAction)
| Local (type_name : string) (role : nat) (local_worker_context : option nat)
    (setup : list SetupAction)
| Notify (x : SigId)
| Poll (i : nat)
| Finish (i : nat).

(** [None]: the step cannot happen (no such handle, signal or task, or
    the task is not woken). *)
Definition life_exec (op : LifeOp) (st : Life) : option (result Life) :=
  match op with
  | AddTransport flush => Some (Ok (add_transport flush st))
  | StartRole t plane_id endpoint_addr tc =>
      tr ← lf_transports st !! t; Some (Ok (start_role tr plane_id endpoint_addr tc st))
  | OnWorkerGroup type_name h g setup =>
      _ ← lf_roles st !! h; Some (life_on_worker_group type_name h g setup st)
  | Local type_name h w setup =>
      _ ← lf_roles st !! h; Some (life_local type_name h w setup st)
  | Notify x =>
      if decide (x < sig_next (lf_signals st))%nat
      then Some (Ok (set_signals (notify x (lf_signals st)) st)) else None
  | Poll i => poll i st
  | Finish i => Ok <$> finish i st
  end.

Inductive life_reachable : Life -> Prop :=
| life_reachable_start b st : life_start b = Ok st -> life_reachable st
| life_reachable_step st op st' :
    life_reachable st -> life_exec op st = Some (Ok st') -> life_reachable st'.

(** ** Invariant and teardown *)

(** Every packet processor and context map is well formed, the signal
    tree's parents are older than their children, and every worker index
    names a worker. *)
Record life_inv (st : Life) : Prop := {
  inv_sig_wf : sig_wf (lf_signals st);
  inv_pps : Forall pp_wf (rt_pps (lf_rt st));
  inv_globals : wf (rt_globals (lf_rt st));
  inv_locals : Forall wf (lf_locals st);
  inv_len_locals : length (lf_locals st) = length (rt_pps (lf_rt st));
  inv_len_signals : length (lf_worker_signals st) = length (rt_pps (lf_rt st));
  inv_task_worker : Forall (fun t => task_worker t < length (lf_locals st))%nat (lf_tasks st);
  inv_transports : Forall (fun tr => tr_signal tr < sig_next (lf_signals st))%nat (lf_transports st);
}.

(** Role ids are taken in order from [next_role_id]. *)
Definition role_ids_inv (st : Life) : Prop :=
  lf_next_role_id st = wrap 64 (Z.of_nat (length (lf_roles st))) /\
  (rh_role_id <$> lf_roles st) = ((fun i => wrap 64 (Z.of_nat i)) <$> seq 0 (length (lf_roles st))).

(** The signals the code wires together: every worker's signal is older
    than the next one, and every started role's signal is a child of its
    transport's ([start_role]'s [add_child]). *)
Definition life_wired (st : Life) : Prop :=
  Forall (fun x => x < sig_next (lf_signals st))%nat (lf_worker_signals st) /\
  Forall (fun rh => sig_parent (lf_signals st) !! rh_role_shutdown_signal rh =
                      Some (tr_signal (rh_transport rh)) /\
                    (rh_role_shutdown_signal rh < sig_next (lf_signals st))%nat) (lf_roles st).

(** No handler node of plane [p] is left on worker [w]. *)
Definition plane_removed (st : Life) (w : nat) (p : Z) : Prop :=
  exists pp, rt_pps (lf_rt st) !! w = Some pp /\ forall k, k.1 = p -> handlers pp !! k = None.

(** No entry of role [r] is left in worker [w]'s locals. *)
Definition role_locals_dropped (st : Life) (w : nat) (r : Z) : Prop :=
  exists l, lf_locals st !! w = Some l /\ tag_items l (Role r) [].

(** What a task has done once it has run: the teardown of its role on
    its worker, or of its role's globals. *)
Definition torn_down (st : Life) (t : Task) : Prop :=
  match task_kind t with
  | Body _ => True
  | OnShutdown plane_id role_id =>
      plane_removed st (task_worker t) plane_id /\ role_locals_dropped st (task_worker t) role_id
  | GlobalsShutdown role_id => tag_items (rt_globals (lf_rt st)) (Role role_id) []
  end.

(** What a step that only changes the processors, the locals and the
    tasks keeps. *)
Definition frame (st st' : Life) : Prop :=
  lf_signals st' = lf_signals st /\ lf_transports st' = lf_transports st /\
  lf_roles st' = lf_roles st /\ lf_next_role_id st' = lf_next_role_id st /\
  lf_worker_signals st' = lf_worker_signals st.

(** A step of the runtime, and a sequence of them. *)
Definition life_step (st st' : Life) : Prop := exists op, life_exec op st = Some (Ok st').

Fixpoint life_run (ops : list LifeOp) (st : Life) : result Life :=
  match ops with
  | [] => Ok st
  | op :: ops' =>
      match life_exec op st with
      | Some (Ok st') => life_run ops' st'
      | Some (Panic msg) => Panic msg
      | None => Panic "step not enabled"
      end
  end.

End Lifecycle.

Arguments Life K V {_ _}.
Arguments SetupAction : clear implicits.
Arguments LifeOp : clear implicits.

(** ** Examples *)

(** The local benchmark's two roles (src/examples/local-benchmark): a
    local worker and two transports; a server role on the first and a
    client role on the second, both on plane 0 and on worker 0, each with
    an inline handler (topics 1 and 2); the server keeps an entry in its
    locals and the client spawns a task. *)
Definition ex_life_ops : list (LifeOp Z Z) :=
  [AddTransport false; AddTransport false;
   StartRole 0 0 {| endpoint := 0 |} (SingleChannel 0);
   StartRole 1 0 {| endpoint := 0 |} (SingleChannel 0);
   Local "foo_modrpc::FooServerRole" 0 (Some 0%nat) [SetupInline 1 0; SetupWithLocal 3 7 42];
   Local "foo_modrpc::FooClientRole" 1 (Some 0%nat) [SetupInline 2 1; SetupSpawn "client"]].

Definition ex_life : Life Z Z :=
  match life_start new_with_local ≫= life_run ex_life_ops with
  | Ok st => st
  | Panic _ =>
      {| lf_signals := signal_tree_empty; lf_rt_signal := 0; lf_worker_signals := [];
         lf_rt := {| rt_globals := new_inner; rt_pps := [] |}; lf_locals := []; lf_tasks := [];
         lf_next_role_id := 0; lf_transports := []; lf_roles := [] |}
  end.

(** The first transport dies: its signal (2) is notified. *)
Definition ex_server_down : Life Z Z :=
  match life_exec (Notify 2%nat) ex_life with Some (Ok st) => st | _ => ex_life end.

(** The server's teardown task and the client's (signals: 1 the worker,
    2 and 3 the transports, 4 and 5 the roles). *)
Definition ex_server_teardown : Task :=
  {| task_worker := 0; task_waits := [4; 1]%nat; task_kind := OnShutdown 0 0 |}.
Definition ex_client_teardown : Task :=
  {| task_worker := 0; task_waits := [5; 1]%nat; task_kind := OnShutdown 0 1 |}.

(** ** Lemmas: the teardown on well-formed state *)

Lemma shutdown_tag_ok {K V} `{Countable K} (l : @ContextMapPrivate K V _ _) t :
  wf l -> exists l', shutdown_tag t l = Ok l' /\ wf l' /\ tag_items l' t [] /\
    forall t', tag_items l t' [] -> tag_items l' t' [].
Proof.
  intros Hwf. destruct (wf_chains _ Hwf t) as [l0 Hl0].
  eexists. split; [apply (shutdown_tag_spec _ _ _ Hl0)|].
  split; [eapply shutdown_tag_wf; [done|done|apply (shutdown_tag_spec _ _ _ Hl0)]|].
  unfold tag_items; cbn [items tag_chains]. split; [rewrite lookup_delete_eq; constructor|].
  intros t' Ht'. inversion Ht' as [Hn|].
  rewrite (proj2 (lookup_delete_None _ _ _)) by (right; done). constructor.
Qed.

Lemma with_worker_pp_spec i f rt (P : PacketProcessor -> PacketProcessor -> Prop) :
  Forall pp_wf (rt_pps rt) ->
  (forall pp, pp_wf pp -> exists pp', f pp = Ok pp' /\ pp_wf pp' /\ P pp pp') ->
  exists rt', with_worker_pp i f rt = Ok rt' /\ rt_globals rt' = rt_globals rt /\
    Forall pp_wf (rt_pps rt') /\ length (rt_pps rt') = length (rt_pps rt) /\
    forall j pp', rt_pps rt' !! j = Some pp' ->
      exists pp, rt_pps rt !! j = Some pp /\ (if decide (j = i) then P pp pp' else pp' = pp).
Proof.
  intros Hwf Hf. unfold with_worker_pp. destruct (rt_pps rt !! i) as [pp|] eqn:Ei.
  - destruct (Hf pp) as (pp' & Hpp' & Hwf' & HP); [by eapply Forall_lookup_1|].
    rewrite Hpp'. cbn [mbind result_bind]. eexists.
    split_and!; [reflexivity|done|by apply Forall_insert|apply length_insert|].
    intros j pp0. cbn [rt_pps]. rewrite list_lookup_insert_Some.
    intros [(<- & <- & _)|(Hne & Hj)]; [exists pp; by rewrite decide_True|].
    exists pp0. by rewrite decide_False.
  - exists rt. split_and!; [done..|]. intros j pp' Hj. exists pp'. split; [done|].
    case_decide; [subst; congruence|done].
Qed.

(** [role_teardown] on well-formed state never panics: the plane leaves
    worker [w], the role's entries leave the locals, nothing else moves. *)
Lemma role_teardown_ok {K V} `{Countable K} w p r (l : @ContextMapPrivate K V _ _) rt :
  Forall pp_wf (rt_pps rt) -> wf l ->
  exists rt' l', role_teardown w p r l rt = Ok (rt', l') /\ wf l' /\ tag_items l' (Role r) [] /\
    (forall t, tag_items l t [] -> tag_items l' t []) /\
    rt_globals rt' = rt_globals rt /\ Forall pp_wf (rt_pps rt') /\
    length (rt_pps rt') = length (rt_pps rt) /\
    forall j pp', rt_pps rt' !! j = Some pp' -> exists pp, rt_pps rt !! j = Some pp /\
      forall k, handlers pp' !! k = if decide (j = w /\ k.1 = p) then None else handlers pp !! k.
Proof.
  intros Hpps Hl. unfold role_teardown.
  destruct (with_worker_pp_spec w (fun pp => remove_plane pp p) rt
              (fun pp pp' => forall k, handlers pp' !! k =
                 if decide (k.1 = p) then None else handlers pp !! k) Hpps)
    as (rt' & -> & Hg & Hpps' & Hlen & Hj).
  { intros pp Hpp. destruct (remove_plane_ok pp p Hpp) as (pp' & ? & ? & ?). eauto. }
  destruct (shutdown_tag_ok l (Role r) Hl) as (l' & Hsd & Hwf' & Hnil & Hkeep).
  cbn [mbind result_bind]. rewrite Hsd. cbn [mbind result_bind].
  exists rt', l'. split_and!; [done..|]. intros j pp' Hpp'.
  destruct (Hj j pp' Hpp') as (pp & Hpp & HP). exists pp. split; [done|]. intros k.
  case_decide as Hjw; [subst; rewrite HP; repeat case_decide; naive_solver|].
  subst. repeat case_decide; naive_solver.
Qed.

Section LifecycleFacts.
Context {K V : Type} `{Countable K}.
Implicit Types (st : Life K V) (t : Task).

Lemma set_rt_id st : set_rt (lf_rt st) (lf_locals st) st = st.
Proof. by destruct st. Qed.

Lemma life_inv_set_rt st rt locals :
  life_inv st -> Forall pp_wf (rt_pps rt) -> wf (rt_globals rt) -> Forall wf locals ->
  length locals = length (lf_locals st) -> length (rt_pps rt) = length (rt_pps (lf_rt st)) ->
  life_inv (set_rt rt locals st).
Proof.
  intros Hinv Hpps Hg Hl Hlen1 Hlen2. constructor; cbn [lf_signals lf_rt lf_locals lf_tasks
    lf_worker_signals set_rt]; try done.
  - apply Hinv.
  - rewrite Hlen1, Hlen2. apply Hinv.
  - rewrite Hlen2. apply Hinv.
  - rewrite Hlen1. apply Hinv.
  - apply Hinv.
Qed.

(** The teardown of [OnShutdown p r] on worker [w]. *)
Lemma poll_task_on_shutdown st t p r :
  life_inv st -> task_kind t = OnShutdown p r -> (task_worker t < length (lf_locals st))%nat ->
  exists st', poll_task st t = Ok st' /\ life_inv st' /\ torn_down st' t /\
    (forall t', torn_down st t' -> torn_down st' t') /\ st' = set_rt (lf_rt st') (lf_locals st') st /\
    length (lf_locals st') = length (lf_locals st).
Proof.
  intros Hinv Hk Hw. unfold poll_task. rewrite Hk.
  destruct (lookup_lt_is_Some_2 _ _ Hw) as [l Hl]. rewrite Hl.
  destruct (role_teardown_ok (task_worker t) p r l (lf_rt st) (inv_pps _ Hinv)
              (Forall_lookup_1 _ _ _ _ (inv_locals _ Hinv) Hl))
    as (rt' & l' & -> & Hwf' & Hnil & Hkeep & Hg & Hpps & Hlen & Hj).
  cbn [mbind result_bind]. eexists. split; [reflexivity|].
  assert (Hpp : forall w, (w < length (rt_pps rt'))%nat -> exists pp',
    rt_pps rt' !! w = Some pp' /\ exists pp, rt_pps (lf_rt st) !! w = Some pp /\
    forall k, handlers pp' !! k = if decide (w = task_worker t /\ k.1 = p) then None
                                 else handlers pp !! k).
  { intros w Hw'. destruct (lookup_lt_is_Some_2 _ _ Hw') as [pp' Hpp']. eauto. }
  split_and!; [|unfold torn_down; rewrite Hk; split|..|done|apply length_insert].
  - apply life_inv_set_rt; [done..|by rewrite Hg; apply Hinv| |by rewrite length_insert|done].
    apply Forall_insert; [apply Hinv|done].
  - destruct (Hpp (task_worker t)) as (pp' & Hpp' & pp & _ & Hh);
      [rewrite Hlen, <-(inv_len_locals _ Hinv); done|].
    exists pp'. split; [done|]. intros k Hkp. rewrite Hh, decide_True; [done|split; [done|exact Hkp]].
  - exists l'. cbn [lf_locals set_rt]. by rewrite list_lookup_insert_eq.
  - intros t'. unfold torn_down. destruct (task_kind t') as [|p' r'|r']; [done| |cbn [lf_rt set_rt]; by rewrite Hg].
    intros [(pp0 & Hpp0 & Hnone) (l0 & Hl0 & Hnil0)]. split.
    + destruct (Hpp (task_worker t')) as (pp' & Hpp' & pp & Hold & Hh).
      { rewrite Hlen. by eapply lookup_lt_Some. }
      exists pp'. split; [done|]. intros k Hkp. rewrite Hh. destruct (decide _); [done|].
      rewrite Hpp0 in Hold. injection Hold as <-. by apply Hnone.
    + unfold role_locals_dropped. cbn [lf_locals set_rt]. destruct (decide (task_worker t' = task_worker t)) as [Heq|Hne].
      * rewrite Heq in Hl0 |- *. rewrite Hl in Hl0. injection Hl0 as <-. exists l'.
        rewrite list_lookup_insert_eq by done. split; [done|by apply Hkeep].
      * exists l0. by rewrite list_lookup_insert_ne by congruence.
Qed.

Lemma poll_task_globals st t r :
  life_inv st -> task_kind t = GlobalsShutdown r ->
  exists st', poll_task st t = Ok st' /\ life_inv st' /\ torn_down st' t /\
    (forall t', torn_down st t' -> torn_down st' t') /\ st' = set_rt (lf_rt st') (lf_locals st') st /\
    length (lf_locals st') = length (lf_locals st).
Proof.
  intros Hinv Hk. unfold poll_task. rewrite Hk.
  destruct (shutdown_tag_ok (rt_globals (lf_rt st)) (Role r) (inv_globals _ Hinv))
    as (g & -> & Hwf & Hnil & Hkeep).
  cbn [mbind result_bind]. eexists. split; [reflexivity|].
  split_and!; [apply life_inv_set_rt; try done; apply Hinv|by unfold torn_down; rewrite Hk| |done..].
  intros t'. unfold torn_down, plane_removed, role_locals_dropped.
  destruct (task_kind t'); cbn [lf_rt lf_locals set_rt rt_pps rt_globals]; auto.
Qed.

(** Polling a task never panics on well-formed state; it tears its role
    down and keeps every teardown done before. *)
Lemma poll_task_ok st t :
  life_inv st -> (task_worker t < length (lf_locals st))%nat ->
  exists st', poll_task st t = Ok st' /\ life_inv st' /\ torn_down st' t /\
    (forall t', torn_down st t' -> torn_down st' t') /\ st' = set_rt (lf_rt st') (lf_locals st') st /\
    length (lf_locals st') = length (lf_locals st).
Proof.
  intros Hinv Hw. destruct (task_kind t) as [name|p r|r] eqn:Hk.
  - exists st. unfold poll_task, torn_down. rewrite Hk, set_rt_id. split_and!; auto.
  - by apply (poll_task_on_shutdown st t p r).
  - by apply (poll_task_globals st t r).
Qed.

Lemma life_inv_set_tasks st ts :
  life_inv st -> Forall (fun t => task_worker t < length (lf_locals st))%nat ts ->
  life_inv (set_tasks ts st).
Proof. intros Hinv Hts. destruct Hinv. by constructor. Qed.

Lemma set_tasks_set_rt ts rt locals st :
  set_tasks ts (set_rt rt locals st) = set_rt rt locals (set_tasks ts st).
Proof. done. Qed.

Lemma set_rt_set_rt rt locals rt' locals' st :
  set_rt rt locals (set_rt rt' locals' st) = set_rt rt locals st.
Proof. done. Qed.

(** One round of the executors: every woken task runs its teardown and
    completes, the others stay, and nothing panics. *)
Lemma poll_round_ok sigs pending ts st :
  life_inv st -> Forall (fun t => task_worker t < length (lf_locals st))%nat (pending ++ ts) ->
  exists st', poll_round sigs pending ts st = Ok st' /\ life_inv st' /\
    lf_tasks st' = pending ++ filter (fun t => task_ready sigs t = false) ts /\
    Forall (torn_down st') (filter (fun t => task_ready sigs t = true) ts) /\
    (forall t', torn_down st t' -> torn_down st' t') /\
    st' = set_tasks (lf_tasks st') (set_rt (lf_rt st') (lf_locals st') st).
Proof.
  revert pending st. induction ts as [|t ts IH]; intros pending st Hinv Hw; cbn [poll_round].
  - rewrite app_nil_r in Hw. eexists. split; [reflexivity|].
    split_and!; [by apply life_inv_set_tasks|cbn; by rewrite app_nil_r|constructor|done|].
    by destruct st.
  - rewrite Forall_app, Forall_cons in Hw. destruct Hw as (Hp & Ht & Hts).
    destruct (task_ready sigs t) eqn:Hr.
    + destruct (poll_task_ok st t Hinv Ht) as (st1 & -> & Hinv1 & Hdown1 & Hkeep1 & Heq1 & Hlen1).
      cbn [mbind result_bind].
      destruct (IH pending st1 Hinv1) as (st' & -> & Hinv' & Htasks & Hdown & Hkeep & Heq);
        [rewrite Hlen1, Forall_app; done|].
      eexists. split; [reflexivity|]. split_and!; [done| |..].
      * rewrite Htasks. cbn [filter list_filter]. by rewrite Hr.
      * cbn [filter list_filter]. rewrite Hr. constructor; [by apply Hkeep|done].
      * naive_solver.
      * by rewrite Heq, Heq1 at 1.
    + destruct (IH (pending ++ [t]) st Hinv) as (st' & -> & Hinv' & Htasks & Hdown & Hkeep & Heq);
        [rewrite <-app_assoc; apply Forall_app; by split; [|constructor]|].
      eexists. split; [reflexivity|]. split_and!; [done| |..|done].
      * rewrite Htasks, <-app_assoc. cbn [filter list_filter]. by rewrite Hr.
      * cbn [filter list_filter]. by rewrite Hr.
      * done.
Qed.

Lemma poll_ready_ok st :
  life_inv st ->
  exists st', poll_ready st = Ok st' /\ life_inv st' /\
    lf_tasks st' = filter (fun t => task_ready (lf_signals st) t = false) (lf_tasks st) /\
    Forall (torn_down st') (filter (fun t => task_ready (lf_signals st) t = true) (lf_tasks st)) /\
    (forall t', torn_down st t' -> torn_down st' t') /\
    st' = set_tasks (lf_tasks st') (set_rt (lf_rt st') (lf_locals st') st).
Proof. intros Hinv. apply poll_round_ok; [done|apply Hinv]. Qed.

(** ** Lemmas: the invariant holds in every reachable state *)

Lemma Forall_imap_lookup {A B} (P : B -> Prop) (f : nat -> A -> B) l :
  (forall i x, l !! i = Some x -> P (f i x)) -> Forall P (imap f l).
Proof.
  revert f. induction l as [|x l IH]; intros f Hf; [constructor|].
  rewrite imap_cons. constructor; [by apply (Hf 0%nat)|]. apply IH. intros i y Hy. by apply (Hf (S i)).
Qed.

Lemma Forall_concat_imap {A B} (P : B -> Prop) (f : nat -> A -> list B) l :
  (forall i x, l !! i = Some x -> Forall P (f i x)) -> Forall P (concat (imap f l)).
Proof.
  intros Hf. apply Forall_concat. apply Forall_imap_lookup. done.
Qed.

Lemma worker_signals_new_spec rt_signal n s s' xs :
  sig_wf s -> (rt_signal < sig_next s)%nat -> worker_signals_new rt_signal n s = (s', xs) ->
  sig_wf s' /\ length xs = n.
Proof.
  revert s s' xs. induction n as [|n IH]; intros s s' xs Hwf Hrt; cbn [worker_signals_new signal_new].
  { intros [= <- <-]. done. }
  match goal with |- context [worker_signals_new ?a ?b ?c] =>
    destruct (worker_signals_new a b c) as [s1 xs1] eqn:E end.
  intros [= <- <-]. apply IH in E as [Hwf1 Hlen1]; [split; [done|cbn; by rewrite Hlen1]| |].
  - apply sig_wf_add_child; [apply (sig_wf_signal_new s Hwf)|cbn; lia..].
  - cbn. lia.
Qed.

Lemma start_worker_pp_wf n (st st' : StartState) i :
  start_worker n st i = Ok st' -> Forall (fun w => pp_wf w.2) (ss_workers st) ->
  Forall (fun w => pp_wf w.2) (ss_workers st').
Proof.
  unfold start_worker. destruct (take_receiver _ (ss_cmd st) i); [|done]. cbn [mbind result_bind].
  destruct (take_receiver _ (ss_inter st) i); [|done]. cbn [mbind result_bind].
  intros [= <-] Hw. cbn. apply Forall_app. split; [done|]. constructor; [apply pp_new_wf|constructor].
Qed.

Lemma start_pp_wf b workers : start b = Ok workers -> Forall (fun w => pp_wf w.2) workers.
Proof.
  assert (Hall : forall n idx (st st' : StartState), start_workers n st idx = Ok st' ->
            Forall (fun w => pp_wf w.2) (ss_workers st) -> Forall (fun w => pp_wf w.2) (ss_workers st')).
  { intros n idx. induction idx as [|i idx IH]; intros st st'; cbn [start_workers]; [by intros [= <-]|].
    destruct (start_worker n st i) as [st1|] eqn:E; [|done]. cbn [mbind result_bind].
    intros Hs Hw. eapply IH; [exact Hs|]. by eapply start_worker_pp_wf. }
  unfold start. destruct (local_worker b).
  - destruct (start_worker _ _ 0) as [st1|] eqn:E; [|done]. cbn [mbind result_bind].
    destruct (start_workers _ st1 _) as [st2|] eqn:E2; [|done]. cbn [mbind result_bind].
    intros [= <-]. eapply Hall; [exact E2|]. eapply start_worker_pp_wf; [exact E|constructor].
  - cbn [mbind result_bind]. destruct (start_workers _ _ _) as [st2|] eqn:E2; [|done].
    cbn [mbind result_bind]. intros [= <-]. eapply Hall; [exact E2|constructor].
Qed.

Lemma life_start_inv b st : life_start b = Ok st -> life_inv st.
Proof.
  unfold life_start. destruct (start b) as [workers|] eqn:Hs; [|done]. cbn [mbind result_bind].
  destruct (signal_new signal_tree_empty) as [s0 r0] eqn:E0.
  assert (Hs0 : sig_wf s0 /\ (r0 < sig_next s0)%nat).
  { split; [replace s0 with (fst (signal_new signal_tree_empty)) by (by rewrite E0);
            apply sig_wf_signal_new, sig_wf_empty|].
    unfold signal_new in E0. injection E0 as <- <-. cbn. lia. }
  destruct (worker_signals_new r0 (length workers) s0) as [sigs xs] eqn:E. intros [= <-].
  destruct (worker_signals_new_spec _ _ _ _ _ (proj1 Hs0) (proj2 Hs0) E) as [Hwf Hlen].
  pose proof (start_pp_wf _ _ Hs) as Hpp.
  constructor; cbn; rewrite ?length_map, ?length_replicate; try done.
  - by apply Forall_fmap.
  - apply new_inner_wf.
  - apply Forall_replicate, new_inner_wf.
  - apply Forall_concat_imap. intros i x Hi. apply lookup_lt_Some in Hi.
    apply Forall_app. split; apply Forall_forall; intros t Ht.
    + apply list_elem_of_fmap in Ht as (j & -> & _). cbn. lia.
    + apply list_elem_of_fmap in Ht as (j & -> & _). cbn. lia.
Qed.

Lemma add_transport_inv st flush : life_inv st -> life_inv (add_transport flush st).
Proof.
  intros Hinv. unfold add_transport. cbn [signal_new].
  destruct Hinv as [Hs Hp Hg Hl Hl1 Hl2 Ht Htr]. constructor; cbn; try done.
  - apply (sig_wf_signal_new _ Hs).
  - apply Forall_app. split; [done|]. destruct flush; [|constructor].
    apply Forall_imap_lookup. intros i x Hi. apply lookup_lt_Some in Hi. cbn. lia.
  - apply Forall_app. split; [|constructor; [cbn; lia|constructor]].
    eapply Forall_impl; [exact Htr|]. intros tr ?. cbn in *. lia.
Qed.

Lemma start_role_inv st (j : nat) tr p e tc :
  life_inv st -> lf_transports st !! j = Some tr -> life_inv (start_role tr p e tc st).
Proof.
  intros Hinv Htr. pose proof (Forall_lookup_1 _ _ _ _ (inv_transports _ Hinv) Htr) as Hlt.
  destruct Hinv as [Hs Hp Hg Hl Hl1 Hl2 Ht Htrs]. unfold start_role. cbn [signal_new].
  constructor; cbn; try done.
  - apply sig_wf_add_child; [apply (sig_wf_signal_new _ Hs)|cbn in *; lia..].
  - eapply Forall_impl; [exact Htrs|]. intros tr' ?. cbn in *. lia.
Qed.

Lemma notify_inv st x : life_inv st -> life_inv (set_signals (notify x (lf_signals st)) st).
Proof. intros []. by constructor. Qed.

Lemma finish_inv st i st' : life_inv st -> finish i st = Some st' -> life_inv st'.
Proof.
  unfold finish. destruct (lf_tasks st !! i) as [t|]; [|done]. cbn [mbind option_bind].
  destruct (task_kind t); [|done..]. intros Hinv [= <-].
  apply life_inv_set_tasks; [done|apply Forall_delete, Hinv].
Qed.

Lemma poll_inv st i st' :
  life_inv st -> poll i st = Some (Ok st') ->
  life_inv st' /\ lf_roles st' = lf_roles st /\ lf_next_role_id st' = lf_next_role_id st /\
  lf_signals st' = lf_signals st.
Proof.
  unfold poll. destruct (lf_tasks st !! i) as [t|] eqn:Ht; [|done]. cbn [mbind option_bind].
  destruct (task_ready _ t); [|done]. intros Hinv [= Hp].
  assert (Hinv' : life_inv (set_tasks (delete i (lf_tasks st)) st))
    by (apply life_inv_set_tasks; [done|apply Forall_delete, Hinv]).
  destruct (poll_task_ok _ t Hinv') as (st1 & Hp1 & Hinv1 & _ & _ & Heq & _).
  { cbn. apply (Forall_lookup_1 _ _ _ _ (inv_task_worker _ Hinv) Ht). }
  rewrite Hp1 in Hp. injection Hp as Hp. subst st'. split; [done|]. rewrite Heq. by split_and!.
Qed.

Lemma with_worker_pp_add_node_inv i sf p (topic : Z) b rt rt' :
  Forall pp_wf (rt_pps rt) -> with_worker_pp i (fun pp => add_node pp sf p topic b) rt = Ok rt' ->
  Forall pp_wf (rt_pps rt') /\ rt_globals rt' = rt_globals rt /\
  length (rt_pps rt') = length (rt_pps rt).
Proof.
  intros Hpps E. destruct (with_worker_pp_spec i (fun pp => add_node pp sf p topic b) rt
                             (fun _ _ => True) Hpps) as (rt1 & E1 & Hg & Hpps1 & Hlen & _).
  { intros pp Hpp. destruct (add_node_ok pp sf p topic b Hpp) as (pp' & ? & _ & _ & ?). eauto. }
  rewrite E1 in E. injection E as <-. done.
Qed.

Lemma run_setup_action_inv rs sp st a st' :
  life_inv st -> (rsp_worker sp < length (lf_locals st))%nat ->
  run_setup_action rs sp st a = Ok st' ->
  life_inv st' /\ frame st st' /\ length (lf_locals st') = length (lf_locals st).
Proof.
  intros Hinv Hsp. destruct a as [topic hid|topic queue|type_id key ctor|name]; cbn [run_setup_action].
  - unfold inline_local, worker_add_handler, add_handler.
    destruct (with_worker_pp _ _ _) as [rt|] eqn:E; [|done]. intros [= <-].
    destruct (with_worker_pp_add_node_inv _ _ _ _ _ _ _ (inv_pps _ Hinv) E) as (Hpps & Hg & Hlen).
    split_and!; [apply life_inv_set_rt; try done; [by rewrite Hg; apply Hinv|apply Hinv]|done..].
  - unfold queued_local, worker_add_local_queue, add_local_queue.
    destruct (with_worker_pp _ _ _) as [rt|] eqn:E; [|done]. intros [= <-].
    destruct (with_worker_pp_add_node_inv _ _ _ _ _ _ _ (inv_pps _ Hinv) E) as (Hpps & Hg & Hlen).
    split_and!; [apply life_inv_set_rt; try done; [by rewrite Hg; apply Hinv|apply Hinv]|done..].
  - destruct (lf_locals st !! worker_of rs) as [l|] eqn:Hl; [|intros [= <-]; by split_and!].
    intros [= <-]. split_and!; [|done|apply length_insert].
    apply life_inv_set_rt; try done; [apply Hinv..| |apply length_insert].
    apply Forall_insert; [apply Hinv|]. apply with_inner_wf.
    apply (Forall_lookup_1 _ _ _ _ (inv_locals _ Hinv) Hl).
  - intros [= <-]. split_and!; [|done..]. apply life_inv_set_tasks; [done|].
    apply Forall_app. split; [apply Hinv|by repeat constructor].
Qed.

Lemma run_setup_inv rs sp setup : forall st st',
  life_inv st -> (rsp_worker sp < length (lf_locals st))%nat ->
  run_setup rs sp st setup = Ok st' ->
  life_inv st' /\ frame st st' /\ length (lf_locals st') = length (lf_locals st).
Proof.
  induction setup as [|a setup IH]; intros st st' Hinv Hsp; cbn [run_setup].
  { intros [= <-]. by split_and!. }
  destruct (run_setup_action rs sp st a) as [st1|] eqn:E; [|done]. cbn [mbind result_bind].
  destruct (run_setup_action_inv _ _ _ _ _ Hinv Hsp E) as (Hinv1 & Hf1 & Hlen1).
  intros Hrun. apply IH in Hrun as (Hinv' & Hf' & Hlen'); [|done|lia].
  split_and!; [done| |lia]. destruct Hf1 as (?&?&?&?&?), Hf' as (?&?&?&?&?). split_and!; congruence.
Qed.

Lemma run_role_worker_inv type_name w ws rsig p r e ps setup st st' :
  life_inv st -> (w < length (lf_locals st))%nat ->
  run_role_worker type_name w ws rsig p r e ps setup st = Ok st' ->
  life_inv st' /\ frame st st'.
Proof.
  intros Hinv Hw. unfold run_role_worker. destruct (role_name type_name) as [name|]; [|done].
  cbn [mbind result_bind]. intros Hrun.
  assert (Hinv1 : life_inv (spawn (role_on_shutdown_task
            {| rsp_worker := w; rsp_worker_shutdown_signal := ws; rsp_role_shutdown_signal := rsig |}
            p r) st)).
  { apply life_inv_set_tasks; [done|]. apply Forall_app. split; [apply Hinv|by repeat constructor]. }
  apply run_setup_inv in Hrun as (Hinv' & Hf & _); [|done|done]. split; [done|].
  destruct Hf as (?&?&?&?&?). by split_and!.
Qed.

Lemma role_ids_insert st st' h rh :
  role_ids_inv st -> lf_roles st !! h = Some rh -> lf_next_role_id st' = lf_next_role_id st ->
  lf_roles st' = <[h := set_has_spawned rh]> (lf_roles st) -> role_ids_inv st'.
Proof.
  intros [Hn Hids] Hh Hn' Hr. split; rewrite Hr, length_insert; [congruence|].
  rewrite list_fmap_insert. cbn [rh_role_id set_has_spawned]. rewrite <-Hids.
  apply list_insert_id. by rewrite list_lookup_fmap, Hh.
Qed.

(** One worker of [on_worker_group] or [local]. *)
Lemma run_role_on_inv type_name h rh w setup st st' :
  life_inv st -> lf_roles st !! h = Some rh ->
  run_role_on_worker type_name h rh w setup st = Ok st' ->
  life_inv st' /\ lf_signals st' = lf_signals st /\ lf_transports st' = lf_transports st /\
  lf_next_role_id st' = lf_next_role_id st /\ lf_worker_signals st' = lf_worker_signals st /\
  lf_roles st' = <[h := set_has_spawned rh]> (lf_roles st).
Proof.
  intros Hinv Hh. unfold run_role_on_worker.
  set (st1 := set_roles (lf_next_role_id st) (<[h := set_has_spawned rh]> (lf_roles st)) st).
  assert (Hinv1 : life_inv st1) by (destruct Hinv; by constructor).
  intros Hr. destruct_ok Hr. rename a into ws, Ha into Hws, a0 into pp, a1 into ps, a2 into st2,
    Ha2 into Hrun. apply expect_Ok in Hws.
  assert (Hw : (w < length (lf_locals st1))%nat).
  { apply lookup_lt_Some in Hws. rewrite (inv_len_locals _ Hinv1), <-(inv_len_signals _ Hinv1). done. }
  destruct (run_role_worker_inv _ _ _ _ _ _ _ _ _ _ _ Hinv1 Hw Hrun) as (Hinv2 & ? & ? & ? & ? & ?).
  assert (lf_signals st1 = lf_signals st /\ lf_transports st1 = lf_transports st /\
          lf_next_role_id st1 = lf_next_role_id st /\ lf_worker_signals st1 = lf_worker_signals st /\
          lf_roles st1 = <[h := set_has_spawned rh]> (lf_roles st)) as (?&?&?&?&?) by done.
  destruct (negb _); injection Hr as <-; cbn [lf_signals lf_transports lf_next_role_id lf_roles
    lf_worker_signals spawn set_tasks]; split_and!; try congruence.
  apply life_inv_set_tasks; [done|]. apply Forall_app. split; [apply Hinv2|].
  repeat constructor. cbn. apply lookup_lt_Some in Hws.
  rewrite (inv_len_locals _ Hinv2), <-(inv_len_signals _ Hinv2). congruence.
Qed.

Lemma run_role_on_step_inv type_name h rh w setup st st' :
  life_inv st -> role_ids_inv st -> lf_roles st !! h = Some rh ->
  run_role_on_worker type_name h rh w setup st = Ok st' ->
  life_inv st' /\ role_ids_inv st' /\ lf_signals st' = lf_signals st /\
  lf_transports st' = lf_transports st.
Proof.
  intros Hinv Hids Hh Hrun.
  destruct (run_role_on_inv _ _ _ _ _ _ _ Hinv Hh Hrun) as (? & ? & ? & ? & ? & ?).
  split_and!; [done|by eapply role_ids_insert|done..].
Qed.

Lemma run_role_on_workers_inv type_name h setup : forall idx st st',
  life_inv st -> role_ids_inv st ->
  run_role_on_workers type_name h idx setup st = Ok st' ->
  life_inv st' /\ role_ids_inv st' /\ lf_signals st' = lf_signals st /\
  lf_transports st' = lf_transports st.
Proof.
  induction idx as [|i idx IH]; intros st st' Hinv Hids; cbn [run_role_on_workers].
  { intros [= <-]. done. }
  intros Hr. destruct_ok Hr. apply expect_Ok in Ha.
  destruct (run_role_on_step_inv _ _ _ _ _ _ _ Hinv Hids Ha Ha0) as (Hinv1 & Hids1 & Hs1 & Ht1).
  destruct (IH _ _ Hinv1 Hids1 Hr) as (? & ? & ? & ?). split_and!; congruence.
Qed.

Lemma life_exec_inv op st st' :
  life_inv st -> role_ids_inv st -> life_exec op st = Some (Ok st') ->
  life_inv st' /\ role_ids_inv st'.
Proof.
  intros Hinv Hids. destruct op as [flush|t p e tc|type_name h g setup|type_name h w setup|x|i|i];
    cbn [life_exec].
  - intros [= <-]. split; [by apply add_transport_inv|done].
  - destruct (lf_transports st !! t) as [tr|] eqn:Ht; [|done]. intros [= <-].
    split; [by eapply start_role_inv|].
    destruct Hids as [Hn Hids]. unfold role_ids_inv, start_role.
    cbn [lf_roles lf_next_role_id set_roles signal_new].
    rewrite length_app, Nat.add_1_r, seq_S, !fmap_app, <-Hids, Hn. cbn.
    split; [|done]. rewrite Nat2Z.inj_succ. unfold wrap. by rewrite Zplus_mod_idemp_l.
  - destruct (lf_roles st !! h); [|done]. cbn [mbind option_bind]. intros [= Hr].
    by destruct (run_role_on_workers_inv _ _ _ _ _ _ Hinv Hids Hr) as (? & ? & _).
  - destruct (lf_roles st !! h); [|done]. cbn [mbind option_bind]. intros [= Hr].
    unfold life_local in Hr. destruct w as [w|]; [|done]. destruct_ok Hr. apply expect_Ok in Ha.
    by destruct (run_role_on_step_inv _ _ _ _ _ _ _ Hinv Hids Ha Hr) as (? & ? & _).
  - case_decide; [|done]. intros [= <-]. by split; [apply notify_inv|].
  - intros Hp. destruct (poll_inv _ _ _ Hinv Hp) as (? & Hr & Hn & _). split; [done|].
    destruct Hids as [Hn0 Hids0]. unfold role_ids_inv. by rewrite Hr, Hn.
  - destruct (finish i st) as [st1|] eqn:Hf; [|done]. intros [= <-].
    split; [by eapply finish_inv|]. revert Hf. unfold finish.
    destruct (lf_tasks st !! i) as [t|]; [|done]. cbn [mbind option_bind].
    destruct (task_kind t); [|done..]. by intros [= <-].
Qed.

Lemma life_start_roles b st : life_start b = Ok st -> role_ids_inv st.
Proof.
  unfold life_start. destruct (start b); [|done]. cbn [mbind result_bind].
  destruct (signal_new _) as [s0 r0]. destruct (worker_signals_new _ _ _). by intros [= <-].
Qed.

Lemma life_reachable_inv st : life_reachable st -> life_inv st /\ role_ids_inv st.
Proof.
  induction 1 as [b st Hs|st op st' _ [Hinv Hids] Hex].
  - split; [by eapply life_start_inv|by eapply life_start_roles].
  - by eapply life_exec_inv.
Qed.

Lemma worker_signals_new_lt rt_signal n : forall s s' xs,
  worker_signals_new rt_signal n s = (s', xs) ->
  (sig_next s <= sig_next s')%nat /\ Forall (fun x => x < sig_next s')%nat xs.
Proof.
  induction n as [|n IH]; intros s s' xs; cbn [worker_signals_new signal_new].
  { intros [= <- <-]. split; [lia|constructor]. }
  destruct (worker_signals_new _ n _) as [s1 xs1] eqn:E. intros [= <- <-].
  apply IH in E as [Hle Hall]. cbn in Hle. split; [lia|]. constructor; [lia|done].
Qed.

Lemma life_start_wired b st : life_start b = Ok st -> life_wired st.
Proof.
  unfold life_start. destruct (start b); [|done]. cbn [mbind result_bind].
  destruct (signal_new _) as [s0 r0]. destruct (worker_signals_new _ _ _) as [s xs] eqn:E.
  intros [= <-]. split; [|constructor]. cbn. by apply worker_signals_new_lt in E as [_ ?].
Qed.

Lemma poll_task_frame st t st' :
  poll_task st t = Ok st' -> lf_signals st' = lf_signals st /\
  lf_worker_signals st' = lf_worker_signals st /\ lf_roles st' = lf_roles st.
Proof.
  unfold poll_task. destruct (task_kind t); [by intros [= <-]| |].
  - destruct (lf_locals st !! task_worker t); [|by intros [= <-]].
    destruct (role_teardown _ _ _ _ _) as [[rt l]|]; [|done]. by intros [= <-].
  - destruct (shutdown_tag _ _); [|done]. by intros [= <-].
Qed.

Lemma run_role_on_wired type_name h rh w setup st st' :
  life_inv st -> lf_roles st !! h = Some rh -> life_wired st ->
  run_role_on_worker type_name h rh w setup st = Ok st' -> life_wired st'.
Proof.
  intros Hinv Hh [Hw Hr] Hrun.
  destruct (run_role_on_inv _ _ _ _ _ _ _ Hinv Hh Hrun) as (_ & Hs & _ & _ & Hws & Hroles).
  unfold life_wired. rewrite Hs, Hws, Hroles. split; [done|].
  apply Forall_insert; [done|]. exact (Forall_lookup_1 _ _ _ _ Hr Hh).
Qed.

Lemma run_role_on_workers_wired type_name h setup : forall idx st st',
  life_inv st -> role_ids_inv st -> life_wired st ->
  run_role_on_workers type_name h idx setup st = Ok st' -> life_wired st'.
Proof.
  induction idx as [|i idx IH]; intros st st' Hinv Hids Hw; cbn [run_role_on_workers].
  { by intros [= <-]. }
  intros Hr. destruct_ok Hr. apply expect_Ok in Ha.
  destruct (run_role_on_step_inv _ _ _ _ _ _ _ Hinv Hids Ha Ha0) as (Hinv1 & Hids1 & _).
  apply (IH a0); [done|done| |exact Hr]. exact (run_role_on_wired _ _ _ _ _ _ _ Hinv Ha Hw Ha0).
Qed.

Lemma life_exec_wired op st st' :
  life_inv st -> role_ids_inv st -> life_wired st -> life_exec op st = Some (Ok st') ->
  life_wired st'.
Proof.
  intros Hinv Hids Hwd. pose proof Hwd as [Hw Hr].
  destruct op as [flush|t p e tc|type_name h g setup|type_name h w setup|x|i|i]; cbn [life_exec].
  - intros [= <-]. unfold add_transport. cbn [signal_new]. split; cbn.
    + eapply Forall_impl; [exact Hw|]. intros y Hy. cbn in *. lia.
    + eapply Forall_impl; [exact Hr|]. intros rh [? ?]. cbn in *. split; [done|lia].
  - destruct (lf_transports st !! t) as [tr|]; [|done]. intros [= <-].
    unfold start_role. cbn [signal_new]. split; cbn.
    + eapply Forall_impl; [exact Hw|]. intros y Hy. cbn in *. lia.
    + apply Forall_app. split; [|constructor; [cbn; split; [by rewrite lookup_insert_eq|lia]|constructor]].
      eapply Forall_impl; [exact Hr|]. intros rh [Hp Hlt]. split; [|lia].
      by rewrite lookup_insert_ne by lia.
  - destruct (lf_roles st !! h); [|done]. cbn [mbind option_bind]. intros [= Hrun].
    by eapply run_role_on_workers_wired.
  - destruct (lf_roles st !! h); [|done]. cbn [mbind option_bind]. intros [= Hrun].
    unfold life_local in Hrun. destruct w as [w|]; [|done]. destruct_ok Hrun.
    apply expect_Ok in Ha. exact (run_role_on_wired _ _ _ _ _ _ _ Hinv Ha Hwd Hrun).
  - case_decide; [|done]. intros [= <-]. done.
  - unfold poll. destruct (lf_tasks st !! i) as [t|]; [|done]. cbn [mbind option_bind].
    destruct (task_ready _ t); [|done]. intros [= Hp].
    apply poll_task_frame in Hp as (Hs & Hws & Hrs). unfold life_wired. by rewrite Hs, Hws, Hrs.
  - destruct (finish i st) as [st1|] eqn:Hf; [|done]. intros [= <-]. revert Hf. unfold finish.
    destruct (lf_tasks st !! i) as [t|]; [|done]. cbn [mbind option_bind].
    destruct (task_kind t); [|done..]. by intros [= <-].
Qed.

Lemma life_reachable_wired st : life_reachable st -> life_wired st.
Proof.
  induction 1 as [b st Hs|st op st' Hr Hw Hex]; [by eapply life_start_wired|].
  destruct (life_reachable_inv _ Hr) as [Hinv Hids]. by eapply life_exec_wired.
Qed.

Lemma poll_task_set_tasks st t ts :
  poll_task (set_tasks ts st) t = set_tasks ts <$> poll_task st t.
Proof.
  unfold poll_task. destruct (task_kind t) as [|p r|r]; cbn [lf_locals lf_rt set_tasks]; [done| |].
  - destruct (lf_locals st !! task_worker t); [|done].
    destruct (role_teardown _ _ _ _ _) as [[rt l]|]; done.
  - destruct (shutdown_tag _ _); done.
Qed.

Lemma poll_task_signals st t st' : poll_task st t = Ok st' -> lf_signals st' = lf_signals st.
Proof.
  unfold poll_task. destruct (task_kind t); [by intros [= <-]| |].
  - destruct (lf_locals st !! task_worker t); [|by intros [= <-]].
    destruct (role_teardown _ _ _ _ _) as [[rt l]|]; [|done]. by intros [= <-].
  - destruct (shutdown_tag _ _); [|done]. by intros [= <-].
Qed.

(** A round of the executors is a sequence of [Poll] steps. *)
Lemma poll_round_steps sigs pending ts : forall st st',
  lf_signals st = sigs -> poll_round sigs pending ts st = Ok st' ->
  rtc life_step (set_tasks (pending ++ ts) st) st'.
Proof.
  revert pending. induction ts as [|t ts IH]; intros pending st st' Hs; cbn [poll_round].
  { intros [= <-]. rewrite app_nil_r. apply rtc_refl. }
  destruct (task_ready sigs t) eqn:Hr.
  - destruct (poll_task st t) as [st1|] eqn:Hp; [|done]. cbn [mbind result_bind]. intros Hrun.
    eapply rtc_l; [|apply (IH pending st1); [by rewrite (poll_task_signals _ _ _ Hp)|done]].
    exists (Poll (length pending)). cbn [life_exec]. unfold poll. cbn [lf_tasks set_tasks lf_signals].
    rewrite list_lookup_middle by done. cbn [mbind option_bind]. rewrite Hs, Hr.
    rewrite delete_middle. change (set_tasks (pending ++ ts) (set_tasks (pending ++ t :: ts) st))
      with (set_tasks (pending ++ ts) st). by rewrite poll_task_set_tasks, Hp.
  - intros Hrun. replace (pending ++ t :: ts) with ((pending ++ [t]) ++ ts)
      by by rewrite <-app_assoc. by apply IH.
Qed.

Lemma life_steps_reachable st st' : rtc life_step st st' -> life_reachable st -> life_reachable st'.
Proof. induction 1 as [|st1 st2 st3 [op Hop] _ IH]; [done|]. intros Hr. apply IH. by econstructor. Qed.

Lemma poll_ready_reachable st st' :
  life_reachable st -> poll_ready st = Ok st' -> life_reachable st'.
Proof.
  intros Hr Hp. eapply life_steps_reachable; [|exact Hr].
  replace st with (set_tasks ([] ++ lf_tasks st) st) at 1 by (by destruct st).
  by eapply poll_round_steps.
Qed.

Lemma life_run_reachable ops : forall st st',
  life_reachable st -> life_run ops st = Ok st' -> life_reachable st'.
Proof.
  induction ops as [|op ops IH]; intros st st' Hr; cbn [life_run]; [by intros [= <-]|].
  destruct (life_exec op st) as [[st1|]|] eqn:E; [|done..]. intros Hrun.
  apply (IH st1); [by econstructor|done].
Qed.


(** ** Theorems *)

(** C35: Once one of the signals a task is raced against has fired (for
    a role's teardown task: the role's signal, its transport's, the
    worker's or the runtime's), the next round of the executors runs it
    without panicking: a teardown task leaves no handler node of its
    plane on its worker and no entry of its role in the worker's locals
    (the spec's "planes are destroyed when their shutdown signal fires";
    scenario "Shutdown drops role state"), the globals task leaves no
    global entry of its role, and no woken task is left. *)
Theorem role_shutdown_tears_down st t :
  life_reachable st -> t ∈ lf_tasks st -> task_ready (lf_signals st) t = true ->
  exists st', poll_ready st = Ok st' /\ life_reachable st' /\ torn_down st' t /\
    Forall (fun t' => task_ready (lf_signals st') t' = false) (lf_tasks st').
Proof.
  intros Hr Ht Hready. destruct (life_reachable_inv _ Hr) as [Hinv _].
  destruct (poll_ready_ok st Hinv) as (st' & Hp & _ & Htasks & Hdown & _ & Heq).
  exists st'. split_and!; [done|by eapply poll_ready_reachable| |].
  - eapply Forall_forall; [exact Hdown|]. by apply list_elem_of_filter.
  - rewrite Heq. cbn [lf_signals lf_tasks set_tasks set_rt]. rewrite Htasks.
    apply Forall_forall. intros t' Ht'. by apply list_elem_of_filter in Ht' as [? _].
Qed.

(** C36: The teardown of a role removes the whole plane from its worker,
    so a second role of the same plane on the same worker, whose own
    signals have not fired and whose tasks keep running, loses its
    handler nodes too: a transport's death (or a role's shutdown) ends
    another role on another transport.  The spec says no failure in one
    role may terminate another role and that transport death propagates
    only to its own subtree; the local benchmark starts its client and
    server roles this way (plane 0, one worker). *)
Theorem shared_plane_teardown_drops_other_role st t1 t2 p r1 r2 :
  life_reachable st -> t1 ∈ lf_tasks st -> t2 ∈ lf_tasks st ->
  task_kind t1 = OnShutdown p r1 -> task_kind t2 = OnShutdown p r2 ->
  task_worker t2 = task_worker t1 ->
  task_ready (lf_signals st) t1 = true -> task_ready (lf_signals st) t2 = false ->
  exists st', poll_ready st = Ok st' /\ t2 ∈ lf_tasks st' /\ plane_removed st' (task_worker t2) p.
Proof.
  intros Hr Ht1 Ht2 Hk1 Hk2 Hw Hready1 Hready2. destruct (life_reachable_inv _ Hr) as [Hinv _].
  destruct (poll_ready_ok st Hinv) as (st' & Hp & _ & Htasks & Hdown & _ & _).
  exists st'. split_and!; [done| |].
  - rewrite Htasks. by apply list_elem_of_filter.
  - rewrite Hw. eapply Forall_forall in Hdown; [|by apply list_elem_of_filter].
    unfold torn_down in Hdown. rewrite Hk1 in Hdown. apply Hdown.
Qed.

(** Notifying a signal ends exactly the tasks below it: after the round
    of the executors that follows, a task is still there iff none of its
    signals had fired and none is the notified one or one of its
    descendants. *)
Lemma poll_after_notify st x :
  life_reachable st -> (x < sig_next (lf_signals st))%nat ->
  exists st', poll_ready (set_signals (notify x (lf_signals st)) st) = Ok st' /\
    forall t, t ∈ lf_tasks st' <-> t ∈ lf_tasks st /\
      Forall (fun y => fired (lf_signals st) y = false /\ ~ descends (lf_signals st) y x)
        (task_waits t).
Proof.
  intros Hr Hx. destruct (life_reachable_inv _ Hr) as [Hinv _].
  destruct (poll_ready_ok _ (notify_inv _ x Hinv)) as (st' & Hp & _ & Htasks & _).
  exists st'. split; [done|]. intros t. rewrite Htasks, list_elem_of_filter.
  cbn [lf_tasks lf_signals set_signals]. unfold task_ready.
  rewrite <-not_true_iff_false, existsb_exists, Forall_forall.
  setoid_rewrite (fired_notify _ x _ (inv_sig_wf _ Hinv)).
  setoid_rewrite <-not_true_iff_false. setoid_rewrite <-list_elem_of_In.
  split; [intros [Hn Ht]; split; [done|]; intros y Hy; split; intros ?; apply Hn; eauto|].
  intros [Ht Hall]. split; [|done]. intros (y & Hy & [Hf|Hd]); destruct (Hall y Hy); auto.
Qed.

(** C37: A transport's death reaches what the code wires below its
    signal, and nothing else.  [start_role] makes every role's signal a
    child of its transport's, so once the transport's signal fires and
    the executors run, no task of a role started on it (the role's own
    tasks, its teardown, its globals shutdown) is left.  The flush loops
    [add_transport] spawns are raced only against the workers' signals:
    when the transport they flush dies, the loop of every worker whose
    signal has not fired keeps running. *)
Theorem transport_death_scope st tr :
  life_reachable st -> tr ∈ lf_transports st ->
  (exists st', poll_ready (set_signals (notify (tr_signal tr) (lf_signals st)) st) = Ok st' /\
     forall rh t, rh ∈ lf_roles st -> rh_transport rh = tr -> t ∈ lf_tasks st' ->
       rh_role_shutdown_signal rh ∉ task_waits t) /\
  (exists x st', lf_transports (add_transport true st) =
       lf_transports st ++ [{| tr_signal := x; tr_flush := true |}] /\
     poll_ready (set_signals (notify x (lf_signals (add_transport true st)))
                   (add_transport true st)) = Ok st' /\
     forall w ws, lf_worker_signals st !! w = Some ws -> fired (lf_signals st) ws = false ->
       worker_spawn {| ws_worker := w; ws_shutdown_signal := ws |} "transport-flush" ∈ lf_tasks st').
Proof.
  intros Hr Htr. destruct (life_reachable_inv _ Hr) as [Hinv _].
  destruct (life_reachable_wired _ Hr) as [Hws Hroles]. split.
  - destruct (poll_after_notify st (tr_signal tr) Hr) as (st' & Hp & Hin).
    { exact (proj1 (Forall_forall _ _) (inv_transports _ Hinv) tr Htr). }
    exists st'. split; [done|]. intros rh t Hrh <- Ht Hw.
    apply Hin in Ht as [_ Hall]. eapply Forall_forall in Hall as [_ Hd]; [|exact Hw].
    apply Hd. eapply Forall_forall in Hroles as [Hp' _]; [|exact Hrh].
    econstructor; [exact Hp'|constructor].
  - set (st1 := add_transport true st).
    assert (Hr1 : life_reachable st1) by (by eapply (life_reachable_step _ (AddTransport true))).
    destruct (poll_after_notify st1 (sig_next (lf_signals st)) Hr1) as (st' & Hp & Hin).
    { cbn. lia. }
    exists (sig_next (lf_signals st)), st'. split_and!; [done|done|].
    intros w ws Hw Hf. apply Hin. split.
    + apply elem_of_app. right. apply list_elem_of_lookup. exists w.
      by rewrite list_lookup_imap, Hw.
    + repeat constructor.
      * change (lf_signals st1) with (fst (signal_new (lf_signals st))).
        by rewrite fired_signal_new.
      * intros Hd%descends_le; [|apply (inv_sig_wf _ (proj1 (life_reachable_inv _ Hr1)))].
        pose proof (Forall_lookup_1 _ _ _ _ Hws Hw) as Hlt. cbv beta in Hlt. cbn in Hd. lia.
Qed.

(** C38: Role ids come from [next_role_id.fetch_add(1)] on a [u64], which
    wraps: the roles a runtime has started have distinct ids exactly as
    long as it has started at most [2^64] of them. *)
Theorem role_ids_distinct st :
  life_reachable st ->
  NoDup (rh_role_id <$> lf_roles st) <-> Z.of_nat (length (lf_roles st)) <= 2 ^ 64.
Proof.
  intros Hr. destruct (life_reachable_inv _ Hr) as [_ [_ Hids]]. rewrite Hids.
  set (n := length (lf_roles st)). split.
  - intros Hnd. apply Z.nlt_ge. intros Hn.
    assert (Hl : forall i, (i < n)%nat ->
      ((fun i => wrap 64 (Z.of_nat i)) <$> seq 0 n) !! i = Some (wrap 64 (Z.of_nat i))).
    { intros i Hi. rewrite list_lookup_fmap, lookup_seq_lt by done. done. }
    assert (exists m : nat, Z.of_nat m = 2 ^ 64) as [m Hm] by (exists (Z.to_nat (2 ^ 64)); lia).
    pose proof (NoDup_lookup _ 0%nat m _ Hnd (Hl 0%nat ltac:(lia))) as Heq.
    rewrite Hl in Heq by lia. unfold wrap in Heq. rewrite Hm, Z_mod_same_full in Heq.
    specialize (Heq eq_refl). lia.
  - intros Hn. apply NoDup_fmap_2_strong; [|apply NoDup_seq].
    intros i j Hi Hj. rewrite !elem_of_seq in *. unfold wrap.
    rewrite !Z.mod_small by lia. lia.
Qed.

End LifecycleFacts.

(** ** Witnesses *)

Lemma ex_life_reachable : life_reachable ex_life.
Proof.
  assert (E : life_start new_with_local ≫= life_run ex_life_ops = Ok ex_life) by (vm_compute; reflexivity).
  apply bind_eq_Ok in E as (st0 & E0 & E1).
  eapply life_run_reachable; [|exact E1]. by econstructor.
Qed.

Lemma ex_server_down_reachable : life_reachable ex_server_down.
Proof.
  apply (life_reachable_step ex_life (Notify 2%nat)); [apply ex_life_reachable|].
  vm_compute; reflexivity.
Qed.

(** The local benchmark after the server's transport dies: the server's
    teardown on worker 0 is woken and runs. *)
Lemma role_shutdown_tears_down_witness :
  exists st', poll_ready ex_server_down = Ok st' /\ life_reachable st' /\
    torn_down st' ex_server_teardown /\
    Forall (fun t' => task_ready (lf_signals st') t' = false) (lf_tasks st').
Proof.
  apply role_shutdown_tears_down;
    [apply ex_server_down_reachable|apply (bool_decide_eq_true_1 _); vm_compute; reflexivity|
     vm_compute; reflexivity].
Defined.

(** Before the round the client's handler of topic 2 is on
    worker 0; after it, with the client still running, it is gone. *)
Lemma shared_plane_teardown_drops_other_role_witness :
  (exists pp, rt_pps (lf_rt ex_server_down) !! 0%nat = Some pp /\ is_Some (handlers pp !! (0, 2))) /\
  exists st', poll_ready ex_server_down = Ok st' /\ ex_client_teardown ∈ lf_tasks st' /\
    plane_removed st' 0 0.
Proof.
  split; [vm_compute; eexists; split; [reflexivity|eexists; reflexivity]|].
  apply (shared_plane_teardown_drops_other_role ex_server_down ex_server_teardown
           ex_client_teardown 0 0 1);
    [apply ex_server_down_reachable|apply (bool_decide_eq_true_1 _); vm_compute; reflexivity..
    |reflexivity|reflexivity|reflexivity|vm_compute; reflexivity|vm_compute; reflexivity].
Defined.

(** The local benchmark's first transport (signal 2): its death ends the
    server's tasks; a flushing transport added next loses none of its
    flush loops when it dies. *)
Lemma transport_death_scope_witness :
  (exists st', poll_ready (set_signals (notify 2 (lf_signals ex_life)) ex_life) = Ok st' /\
     forall rh t, rh ∈ lf_roles ex_life -> rh_transport rh = {| tr_signal := 2; tr_flush := false |} ->
       t ∈ lf_tasks st' -> rh_role_shutdown_signal rh ∉ task_waits t) /\
  (exists x st', lf_transports (add_transport true ex_life) =
       lf_transports ex_life ++ [{| tr_signal := x; tr_flush := true |}] /\
     poll_ready (set_signals (notify x (lf_signals (add_transport true ex_life)))
                   (add_transport true ex_life)) = Ok st' /\
     forall w ws, lf_worker_signals ex_life !! w = Some ws -> fired (lf_signals ex_life) ws = false ->
       worker_spawn {| ws_worker := w; ws_shutdown_signal := ws |} "transport-flush" ∈ lf_tasks st').
Proof.
  apply (transport_death_scope ex_life {| tr_signal := 2; tr_flush := false |});
    [apply ex_life_reachable|].
  apply list_elem_of_lookup. exists 0%nat. vm_compute. reflexivity.
Defined.

(** The two roles of the local benchmark have distinct ids. *)
Lemma role_ids_distinct_witness :
  NoDup (rh_role_id <$> lf_roles ex_life) <-> Z.of_nat (length (lf_roles ex_life)) <= 2 ^ 64.
Proof. apply role_ids_distinct, ex_life_reachable. Defined.
