(* ===== verification/ByteStream.v ===== *)
(** * ByteStream: the byte-stream sender and receiver roles

    Models src/std-modrpc/rust/src/role_impls/byte_stream_sender.rs and
    byte_stream_receiver.rs.  The sender numbers every byte it sends with
    a u64 cursor and sends each chunk as one [blob] event whose payload is
    the chunk's start index (8 bytes, little endian) followed by the
    chunk; the receiver keeps the blobs by start index in a [HashMap] and
    hands the bytes out in stream order ([peek], [consume],
    [try_peek_ahead]), whatever order the blobs arrive in.

    A [Packet] is the list of bytes it views: [advance n] is [drop n] and
    [set_len n] (always called with [n] at most the length) is [take n].
    The u64 counters are [Z]: the sender's additions are checked (a debug
    build panics on overflow, [u64_add]), as is the receiver's subtraction
    in [consume] ([u64_sub]); the receiver's additions are bounded by the
    sender's cursor (invariant [bs_wf]).  The unbounded [loop] of
    [try_peek_ahead] takes fuel, with [None] for "still looping".

    [BsSystem] composes one sender and one receiver through a network
    that delivers each blob once, in any order: the concurrent [send]s of
    the sender reserve their ranges before their first await, so blobs
    can reach the receiver out of order. *)

From S2P Require Import Prelude Codec.
Local Open Scope Z_scope.

(** ** u64 arithmetic of a debug build *)

Definition u64_add (a b : Z) : result Z :=
  if a + b <? 2 ^ 64 then Ok (a + b) else Panic "attempt to add with overflow".

Definition u64_sub (a b : Z) : result Z :=
  if b <=? a then Ok (a - b) else Panic "attempt to subtract with overflow".

(** [<modrpc::TransmitPacket as BaseLen>::BASE_LEN]. *)
Definition TRANSMIT_BASE_LEN : nat := base_len (A := TransmitPacket).

(** [blob.advance(offset); blob.set_len(min(blob.len(), len))]. *)
Definition slice_blob (blob : list byte) (offset len : Z) : list byte :=
  let blob := drop (Z.to_nat offset) blob in
  take (Nat.min (length blob) (Z.to_nat len)) blob.

(** ** The sender (byte_stream_sender.rs) *)

Module ByteStreamSender.

Record SenderState := { send_cursor : Z }.

(** [ByteStreamSenderBuilder::new]. *)
Definition sender_new : SenderState := {| send_cursor := 0 |}.

(** [ByteStreamSender::send]: reserve [bytes.len()] indices, then send
    the blob [start_index.to_le_bytes() ++ bytes] with [send_raw]; returns
    the new state, [start_index] and the payload written. *)
Definition send (st : SenderState) (bytes : list byte) : result (SenderState * Z * list byte) :=
  let start_index := send_cursor st in
  cursor ← u64_add start_index (Z.of_nat (length bytes));
  Ok ({| send_cursor := cursor |}, start_index, le_bytes 8 start_index ++ bytes).

(** [ByteStreamSender::send_buffer]: [buffer] is the complete packet
    (header headroom, 8 bytes for the start index, payload); the start
    index is written in place at [headroom..headroom + 8]. *)
Definition send_buffer (st : SenderState) (buffer : list byte)
    : result (SenderState * Z * list byte) :=
  let headroom := TRANSMIT_BASE_LEN in
  len1 ← u64_sub (Z.of_nat (length buffer)) (Z.of_nat headroom);
  payload_len ← u64_sub len1 8;
  let start_index := send_cursor st in
  cursor ← u64_add start_index payload_len;
  Ok ({| send_cursor := cursor |}, start_index,
      take headroom buffer ++ le_bytes 8 start_index ++ drop (headroom + 8) buffer).

End ByteStreamSender.
Import ByteStreamSender.

(** ** The receiver (byte_stream_receiver.rs) *)

(** [State]: [waiters] are the parked [peek_ahead] calls, by their
    [(read_start, read_len)]. *)
Record Receiver := {
  blobs : gmap Z (list byte);
  current_blob_start : Z;
  consume_cursor : Z;
  waiters : list (Z * Z);
}.

(** [ByteStreamReceiverBuilder::new]. *)
Definition receiver_new : Receiver :=
  {| blobs := ∅; current_blob_start := 0; consume_cursor := 0; waiters := [] |}.

Definition set_blobs (r : Receiver) (m : gmap Z (list byte)) (start : Z) : Receiver :=
  {| blobs := m; current_blob_start := start; consume_cursor := consume_cursor r;
     waiters := waiters r |}.

Definition set_consume_cursor (r : Receiver) (cursor : Z) : Receiver :=
  {| blobs := blobs r; current_blob_start := current_blob_start r; consume_cursor := cursor;
     waiters := waiters r |}.

Definition set_waiters (r : Receiver) (ws : list (Z * Z)) : Receiver :=
  {| blobs := blobs r; current_blob_start := current_blob_start r;
     consume_cursor := consume_cursor r; waiters := ws |}.

(** The inline handler [build] installs on the [blob] topic; [packet] is
    the whole packet, header included.  Returns the waiters it wakes
    ([notify(usize::MAX)] wakes them all).  [packet[..8]] panics when the
    packet has less than 8 bytes left after its header. *)
Definition on_blob (r : Receiver) (packet : list byte) : result (Receiver * list (Z * Z)) :=
  if (length packet <? 8)%nat then Ok (r, [])
  else
    let packet := drop TRANSMIT_BASE_LEN packet in
    '(start_index, packet) ← expect "range end index 8 out of range for slice" (read_le 8 packet);
    let start := if start_index <? current_blob_start r then start_index
                 else current_blob_start r in
    let m := match blobs r !! start_index with
             | Some _ => blobs r
             | None => <[start_index := packet]> (blobs r)
             end in
    Ok (set_waiters (set_blobs r m start) [], waiters r).

(** [ByteStreamReceiver::cursor]. *)
Definition cursor (r : Receiver) : Z := consume_cursor r.

(** [ByteStreamReceiver::peek]. *)
Definition peek (r : Receiver) : option (list byte) :=
  let start := current_blob_start r in
  let cursor := consume_cursor r in
  if cursor <? start then None
  else blob ← blobs r !! start; Some (drop (Z.to_nat (cursor - start)) blob).

(** [ByteStreamReceiver::consume]: [offset_in_blob] is computed before
    the [start > cursor] test, as in the code. *)
Definition consume (r : Receiver) (count : Z) : result (Receiver * option (list byte)) :=
  let start := current_blob_start r in
  let cursor := consume_cursor r in
  offset_in_blob ← u64_sub cursor start;
  if cursor <? start then Ok (r, None)
  else
    match blobs r !! start with
    | None => Ok (r, None)
    | Some blob =>
        remaining ← u64_sub (Z.of_nat (length blob)) offset_in_blob;
        let r' := if remaining <=? count
                  then set_blobs r (delete start (blobs r)) (start + Z.of_nat (length blob))
                  else r in
        let out := slice_blob blob offset_in_blob count in
        Ok (set_consume_cursor r' (cursor + Z.of_nat (length out)), Some out)
    end.

(** The [loop] of [try_peek_ahead] from blob start [cursor]; [None] when
    the fuel runs out. *)
Fixpoint peek_ahead_loop (fuel : nat) (m : gmap Z (list byte)) (cursor read_start read_len : Z)
    : option (option (list byte)) :=
  match fuel with
  | O => None
  | S fuel =>
      match m !! cursor with
      | None => Some None
      | Some blob =>
          let end_ := cursor + Z.of_nat (length blob) in
          if (read_start <? end_) || ((end_ =? read_start) && (read_len =? 0))
          then Some (Some (slice_blob blob (read_start - cursor) read_len))
          else peek_ahead_loop fuel m end_ read_start read_len
      end
  end.

(** [ByteStreamReceiver::try_peek_ahead]. *)
Definition try_peek_ahead (fuel : nat) (r : Receiver) (read_start read_len : Z)
    : option (option (list byte)) :=
  if read_start <? consume_cursor r then Some None
  else if read_start <? current_blob_start r then Some None
  else peek_ahead_loop fuel (blobs r) (current_blob_start r) read_start read_len.

(** One poll of [peek_ahead]'s [wait_for]: the bytes, or the call parked
    among the waiters. *)
Definition peek_ahead_poll (fuel : nat) (r : Receiver) (read_start read_len : Z)
    : option (Receiver * option (list byte)) :=
  match try_peek_ahead fuel r read_start read_len with
  | None => None
  | Some (Some b) => Some (r, Some b)
  | Some None => Some (set_waiters r (waiters r ++ [(read_start, read_len)]), None)
  end.

(** ** A sender, a receiver and the network between them *)

(** [bs_chunks] is the history of the byte slices passed to [send] (the
    stream is their concatenation); [bs_net] holds the blobs in flight,
    each with the index of its chunk; [bs_out] is what [consume] has
    returned so far. *)
Record BsSystem := {
  bs_tx : SenderState;
  bs_chunks : list (list byte);
  bs_net : list (nat * list byte);
  bs_rx : Receiver;
  bs_out : list byte;
}.

Definition bs_new : BsSystem :=
  {| bs_tx := sender_new; bs_chunks := []; bs_net := []; bs_rx := receiver_new; bs_out := [] |}.

(** The sender's [send]; the network's delivery of the [k]-th blob in
    flight, framed by a [TransmitPacket] header; the reader's [consume]
    with a u64 count. *)
Inductive BsOp :=
| Send (bytes : list byte)
| Deliver (k : nat) (h : TransmitPacket)
| Consume (count : N).

Definition bs_exec (s : BsSystem) (op : BsOp) : result BsSystem :=
  match op with
  | Send bytes =>
      '(tx, _, payload) ← send (bs_tx s) bytes;
      Ok {| bs_tx := tx; bs_chunks := bs_chunks s ++ [bytes];
            bs_net := bs_net s ++ [(length (bs_chunks s), payload)];
            bs_rx := bs_rx s; bs_out := bs_out s |}
  | Deliver k h =>
      match bs_net s !! k with
      | None => Ok s
      | Some (_, payload) =>
          '(rx, _) ← on_blob (bs_rx s) (encode h ++ payload);
          Ok {| bs_tx := bs_tx s; bs_chunks := bs_chunks s; bs_net := delete k (bs_net s);
                bs_rx := rx; bs_out := bs_out s |}
      end
  | Consume count =>
      '(rx, o) ← consume (bs_rx s) (Z.of_N count);
      Ok {| bs_tx := bs_tx s; bs_chunks := bs_chunks s; bs_net := bs_net s;
            bs_rx := rx; bs_out := bs_out s ++ default [] o |}
  end.

Fixpoint bs_run (s : BsSystem) (ops : list BsOp) : result BsSystem :=
  match ops with
  | [] => Ok s
  | op :: ops => s' ← bs_exec s op; bs_run s' ops
  end.

(** [u64::MAX]. *)
Definition u64_MAX : N := 18446744073709551615.

(** ** Specification *)

(** The stream is the concatenation of the chunks sent; chunk [i] starts
    at [seg_at cs i]. *)
Definition stream (s : BsSystem) : list byte := concat (bs_chunks s).

Definition seg_at (cs : list (list byte)) (i : nat) : nat := sum_list_with length (take i cs).

Definition seg_start (cs : list (list byte)) (i : nat) : Z := Z.of_nat (seg_at cs i).

(** The ops whose [send] has something to send. *)
Definition nonempty_send (op : BsOp) : Prop :=
  match op with Send bytes => bytes <> [] | _ => True end.

(** The invariant, with [j] the chunk the receiver's [current_blob_start]
    stands at: the blobs in the map are the delivered chunks from [j] on,
    keyed by their start; the consume cursor lies in chunk [j]; what was
    consumed is the stream up to the cursor. *)
Record bs_wf (j : nat) (s : BsSystem) : Prop := {
  wf_nonempty : Forall (fun c => c <> []) (bs_chunks s);
  wf_j : (j <= length (bs_chunks s))%nat;
  wf_tx : send_cursor (bs_tx s) = Z.of_nat (length (stream s));
  wf_bound : send_cursor (bs_tx s) < 2 ^ 64;
  wf_start : current_blob_start (bs_rx s) = seg_start (bs_chunks s) j;
  wf_cursor : seg_start (bs_chunks s) j <= consume_cursor (bs_rx s) /\
    (consume_cursor (bs_rx s) = seg_start (bs_chunks s) j \/
     consume_cursor (bs_rx s) < seg_start (bs_chunks s) (S j));
  wf_net : Forall (fun '(i, p) => (j <= i)%nat /\
    exists c, bs_chunks s !! i = Some c /\ p = le_bytes 8 (seg_start (bs_chunks s) i) ++ c)
    (bs_net s);
  wf_net_nodup : NoDup (fst <$> bs_net s);
  wf_blobs : forall a b, blobs (bs_rx s) !! a = Some b <->
    exists i, (j <= i)%nat /\ i ∉ fst <$> bs_net s /\ bs_chunks s !! i = Some b /\
              a = seg_start (bs_chunks s) i;
  wf_out : bs_out s = take (Z.to_nat (consume_cursor (bs_rx s))) (stream s);
}.

(** The states a sender whose [send]s are not empty and a receiver reach. *)
Inductive bs_reachable : BsSystem -> Prop :=
| bs_reach_new : bs_reachable bs_new
| bs_reach_step s op s' :
    bs_reachable s -> nonempty_send op -> bs_exec s op = Ok s' -> bs_reachable s'.

(** ** Traces *)

Definition ex_header : TransmitPacket :=
  {| payload_length := 8; infra_id := 0; plane_id := 0; topic := 0;
     source := {| endpoint := 0 |} |}.

(** Two chunks sent, delivered in the reverse order, partly consumed. *)
Definition ex_trace : list BsOp :=
  [Send [Byte.x01; Byte.x02]; Send [Byte.x03]; Deliver 1 ex_header; Consume 1;
   Deliver 0 ex_header; Consume 1].

Definition ex_state : BsSystem :=
  match bs_run bs_new ex_trace with Ok s => s | Panic _ => bs_new end.

(** An empty [send] followed by a non-empty one: both blobs start at 0. *)
Definition ex_lost_trace : list BsOp :=
  [Send []; Send [Byte.x01; Byte.x02; Byte.x03]; Deliver 0 ex_header; Deliver 0 ex_header;
   Consume 10].

(** An empty [send], delivered. *)
Definition ex_spin_trace : list BsOp := [Send []; Deliver 0 ex_header].

(** The receiver's start is stuck at 0 with nothing there and nothing in
    flight that starts at 0. *)
Definition stalled (s : BsSystem) : Prop :=
  current_blob_start (bs_rx s) = 0 /\ consume_cursor (bs_rx s) = 0 /\ bs_out s = [] /\
  blobs (bs_rx s) !! 0 = None /\ 1 <= send_cursor (bs_tx s) /\
  Forall (fun '(_, p) => exists z c, p = le_bytes 8 z ++ c /\ 1 <= z < 2 ^ 64) (bs_net s).

(** ** Chunk offsets *)

Section Segments.
Implicit Types (cs : list (list byte)) (c : list byte).

Lemma seg_at_S cs i c : cs !! i = Some c -> seg_at cs (S i) = (seg_at cs i + length c)%nat.
Proof. intros H. unfold seg_at. rewrite (take_S_r _ _ _ H), sum_list_with_app. simpl. lia. Qed.

Lemma seg_at_app cs x i : (i <= length cs)%nat -> seg_at (cs ++ x) i = seg_at cs i.
Proof. intros H. unfold seg_at. by rewrite take_app_le. Qed.

Lemma seg_at_total cs i : (length cs <= i)%nat -> seg_at cs i = length (concat cs).
Proof.
  intros H. unfold seg_at. rewrite take_ge by done.
  clear H. induction cs as [|c cs IH]; simpl; [done|]. rewrite length_app. lia.
Qed.

Lemma seg_at_mono cs i i' : (i <= i')%nat -> (seg_at cs i <= seg_at cs i')%nat.
Proof.
  intros H. unfold seg_at. replace i' with (i + (i' - i))%nat by lia.
  rewrite <- (take_take_drop cs i (i' - i)), sum_list_with_app. lia.
Qed.

Lemma seg_at_lt cs i i' :
  Forall (fun c => c <> []) cs -> (i < i')%nat -> (i < length cs)%nat ->
  (seg_at cs i < seg_at cs i')%nat.
Proof.
  intros Hne Hi Hlen. destruct (lookup_lt_is_Some_2 cs i Hlen) as [c Hc].
  pose proof (seg_at_mono cs (S i) i' ltac:(lia)). rewrite (seg_at_S _ _ _ Hc) in *.
  destruct c; [|simpl in *; lia]. by apply Forall_lookup_1 with (i := i) (x := []) in Hne.
Qed.

Lemma seg_at_inj cs i i' :
  Forall (fun c => c <> []) cs -> (i <= length cs)%nat -> (i' <= length cs)%nat ->
  seg_at cs i = seg_at cs i' -> i = i'.
Proof.
  intros Hne Hi Hi' Heq. destruct (Nat.lt_trichotomy i i') as [H|[H|H]]; [|done|].
  - pose proof (seg_at_lt cs i i' Hne H ltac:(lia)). lia.
  - pose proof (seg_at_lt cs i' i Hne H ltac:(lia)). lia.
Qed.

Lemma seg_at_le_total cs i : (seg_at cs i <= length (concat cs))%nat.
Proof.
  destruct (decide (i <= length cs)%nat).
  - rewrite <- (seg_at_total cs (length cs)) by done. by apply seg_at_mono.
  - rewrite seg_at_total by lia. done.
Qed.

Lemma drop_seg_at cs j c :
  cs !! j = Some c -> drop (seg_at cs j) (concat cs) = c ++ drop (seg_at cs (S j)) (concat cs).
Proof.
  revert j. induction cs as [|c' cs IH]; intros [|j] Hj; simplify_eq/=.
  - unfold seg_at. simpl. rewrite Nat.add_0_r, drop_app_length. done.
  - unfold seg_at in *. simpl. rewrite !drop_app_ge by lia.
    replace (length c' + sum_list_with length (take j cs) - length c')%nat
      with (sum_list_with length (take j cs)) by lia.
    replace (length c' + sum_list_with length (take (S j) cs) - length c')%nat
      with (sum_list_with length (take (S j) cs)) by lia.
    by apply IH.
Qed.

(** Consuming [m] bytes of chunk [j] from offset [off] extends the
    consumed prefix of the stream by those bytes. *)
Lemma take_seg_slice cs j c off m :
  cs !! j = Some c -> (off <= length c)%nat -> (m <= length c - off)%nat ->
  take (seg_at cs j + off) (concat cs) ++ take m (drop off c) =
  take (seg_at cs j + off + m) (concat cs).
Proof.
  intros Hc Hoff Hm.
  rewrite <- (take_take_drop (concat cs) (seg_at cs j + off) m), <- drop_drop, (drop_seg_at _ _ _ Hc).
  rewrite drop_app_le, take_app_le by (rewrite ?length_drop; lia). done.
Qed.

End Segments.

(** ** The loop of [try_peek_ahead] *)

Section PeekAhead.
Implicit Types (m : gmap Z (list byte)).

(** Over non-empty blobs the loop moves its cursor forward by at least
    one byte a turn and stops at [read_start]: [rs - cur + 1] turns are
    enough. *)
Lemma peek_ahead_loop_terminates fuel m cur rs rl :
  map_Forall (fun _ b => b <> []) m -> cur <= rs -> (Z.to_nat (rs - cur) < fuel)%nat ->
  is_Some (peek_ahead_loop fuel m cur rs rl).
Proof.
  intros Hne. revert cur. induction fuel as [|fuel IH]; intros cur Hcur Hf; [lia|].
  cbn [peek_ahead_loop]. destruct (m !! cur) as [b|] eqn:Hb; [|done].
  destruct (_ || _) eqn:E; [done|]. apply orb_false_iff in E as [E%Z.ltb_ge _].
  apply IH; [lia|]. pose proof (Hne _ _ Hb). destruct b; [done|]. simpl length in *. lia.
Qed.

Lemma peek_ahead_loop_found fuel m cur rs rl b :
  cur <= rs -> peek_ahead_loop fuel m cur rs rl = Some (Some b) ->
  exists a blob, m !! a = Some blob /\ a <= rs <= a + Z.of_nat (length blob) /\
                 b = slice_blob blob (rs - a) rl.
Proof.
  revert cur. induction fuel as [|fuel IH]; intros cur Hcur H; [done|].
  cbn [peek_ahead_loop] in H. destruct (m !! cur) as [blob|] eqn:Hb; [|done].
  destruct (_ || _) eqn:E.
  - injection H as <-. exists cur, blob. split_and!; try done.
    apply orb_true_iff in E as [E%Z.ltb_lt|[E%Z.eqb_eq _]%andb_true_iff]; lia.
  - apply orb_false_iff in E as [E%Z.ltb_ge _]. eapply IH; [|done]. lia.
Qed.

(** An empty blob at the cursor, short of [read_start] (or at it, for a
    read that is not empty), keeps the loop where it is. *)
Lemma peek_ahead_loop_spins fuel m cur rs rl :
  m !! cur = Some [] -> cur < rs \/ (cur = rs /\ rl <> 0) ->
  peek_ahead_loop fuel m cur rs rl = None.
Proof.
  intros Hb Hrs. induction fuel as [|fuel IH]; [done|].
  cbn [peek_ahead_loop]. rewrite Hb. cbn [length]. rewrite Z.add_0_r.
  destruct (Z.ltb_spec rs cur), (Z.eqb_spec cur rs), (Z.eqb_spec rl 0); simpl; try done; lia.
Qed.

End PeekAhead.

(** ** Receiver and network lemmas *)

Section ReceiverFacts.

Lemma u64_sub_ok a b : b <= a -> u64_sub a b = Ok (a - b).
Proof. intros H. unfold u64_sub. by rewrite (proj2 (Z.leb_le _ _) H). Qed.

Lemma length_slice_blob blob offset len :
  0 <= offset -> 0 <= len ->
  length (slice_blob blob offset len) = Nat.min (length blob - Z.to_nat offset) (Z.to_nat len).
Proof. intros. unfold slice_blob. rewrite length_take, length_drop. lia. Qed.

(** The handler on a blob framed by a header: no panic, the start index
    is read back, the blob is added unless its start is taken. *)
Lemma on_blob_blob r (h : TransmitPacket) z c :
  0 <= z < 2 ^ 64 ->
  on_blob r (encode h ++ le_bytes 8 z ++ c) =
  Ok (set_waiters (set_blobs r
        (match blobs r !! z with Some _ => blobs r | None => <[z := c]> (blobs r) end)
        (if z <? current_blob_start r then z else current_blob_start r)) [], waiters r).
Proof.
  intros Hz. unfold on_blob.
  rewrite (proj2 (Nat.ltb_ge _ _)) by (rewrite !length_app, length_encode, length_le_bytes; cbn; lia).
  unfold TRANSMIT_BASE_LEN. rewrite drop_app_length' by (symmetry; apply length_encode).
  rewrite read_le_bytes_fits by (apply fits_iff; cbn; lia). reflexivity.
Qed.

(** Removing the [k]-th blob in flight, whose chunk is [i]. *)
Lemma net_delete (net : list (nat * list byte)) k i p :
  NoDup (fst <$> net) -> net !! k = Some (i, p) ->
  NoDup (fst <$> delete k net) /\
  forall x, x ∈ fst <$> delete k net <-> x ∈ fst <$> net /\ x <> i.
Proof.
  intros Hnd Hk.
  assert (Hp : fst <$> net ≡ₚ i :: (fst <$> delete k net))
    by (by rewrite (delete_Permutation net k (i, p) Hk) at 1).
  rewrite Hp in Hnd. apply NoDup_cons in Hnd as [Hi Hnd]. split; [done|].
  intros x. rewrite Hp, elem_of_cons. split; [|tauto]. intros H; split; [tauto|]. congruence.
Qed.

End ReceiverFacts.

(** ** The invariant [bs_wf] *)

Section Invariant.
#[local] Arguments le_bytes : simpl never.

Lemma wf_net_lt j s i : bs_wf j s -> i ∈ fst <$> bs_net s -> (i < length (bs_chunks s))%nat.
Proof.
  intros Hwf ([i' p] & -> & Hin)%list_elem_of_fmap.
  eapply Forall_forall in Hin; [|apply (wf_net _ _ Hwf)].
  destruct Hin as (_ & c & Hc & _). eapply lookup_lt_Some, Hc.
Qed.

Lemma wf_seg_bound j s i : bs_wf j s -> 0 <= seg_start (bs_chunks s) i < 2 ^ 64.
Proof.
  intros Hwf. pose proof (seg_at_le_total (bs_chunks s) i). pose proof (wf_tx _ _ Hwf).
  pose proof (wf_bound _ _ Hwf). unfold seg_start, stream in *. lia.
Qed.

Lemma wf_cursor_le_total j s :
  bs_wf j s -> consume_cursor (bs_rx s) <= Z.of_nat (length (stream s)).
Proof.
  intros Hwf. pose proof (wf_cursor _ _ Hwf).
  pose proof (seg_at_le_total (bs_chunks s) j). pose proof (seg_at_le_total (bs_chunks s) (S j)).
  unfold seg_start, stream in *. lia.
Qed.

Lemma lookup_snoc_lt {A} (l : list A) x i y :
  (l ++ [x]) !! i = Some y -> i <> length l -> l !! i = Some y.
Proof.
  intros H Hi. destruct (decide (i < length l)%nat); [by rewrite lookup_app_l in H|].
  rewrite lookup_app_r in H by lia. destruct (i - length l)%nat eqn:E; [lia|done].
Qed.

Lemma bs_send_wf j s bytes s' :
  bs_wf j s -> bytes <> [] -> bs_exec s (Send bytes) = Ok s' -> bs_wf j s'.
Proof.
  intros Hwf Hbytes Hex. pose proof (wf_cursor_le_total _ _ Hwf) as Hle.
  destruct Hwf as [Hne Hj Htx Hb Hst [Hc1 Hc2] Hnet Hnd Hbl Hout].
  unfold bs_exec, send, u64_add in Hex.
  destruct (Z.ltb_spec (send_cursor (bs_tx s) + Z.of_nat (length bytes)) (2 ^ 64)); [|done].
  cbn [mbind result_bind] in Hex. injection Hex as <-. unfold stream, seg_start in *.
  set (cs := bs_chunks s) in *.
  assert (Hseg : forall i, (i <= length cs)%nat -> seg_at (cs ++ [bytes]) i = seg_at cs i)
    by (intros; by apply seg_at_app).
  assert (Htot : seg_at cs (length cs) = length (concat cs)) by (by apply seg_at_total).
  assert (Hlt : forall i, i ∈ fst <$> bs_net s -> (i < length cs)%nat).
  { intros i ([i' p] & -> & Hin)%list_elem_of_fmap. eapply Forall_forall in Hin; [|done].
    destruct Hin as (_ & c & Hc & _). eapply lookup_lt_Some, Hc. }
  constructor; unfold stream, seg_start; cbn [bs_chunks bs_tx bs_net bs_rx bs_out send_cursor]; fold cs.
  - apply Forall_app. by split; [|constructor].
  - rewrite length_app. simpl. lia.
  - rewrite concat_app, length_app. simpl. rewrite app_nil_r. lia.
  - lia.
  - rewrite Hst, Hseg by done. done.
  - rewrite Hseg by done. split; [done|].
    destruct (decide (S j <= length cs)%nat); [by rewrite Hseg|].
    rewrite (seg_at_total cs (S j)) in Hc2 by lia. left.
    assert (j = length cs) as -> by lia. rewrite Htot in Hc1 |- *. lia.
  - apply Forall_app. split.
    + eapply Forall_impl; [apply Hnet|]. intros [i p] (Hij & c & Hc & ->).
      pose proof (lookup_lt_Some _ _ _ Hc). split; [done|]. exists c.
      rewrite lookup_app_l, Hseg by lia. done.
    + constructor; [|done]. split; [lia|]. exists bytes.
      rewrite list_lookup_middle, Hseg, Htot by done. split; [done|]. by rewrite Htx.
  - rewrite fmap_app, list_fmap_singleton. apply NoDup_app.
    split_and!; [done| |by apply NoDup_singleton].
    intros i Hi ->%list_elem_of_singleton. cbn [fst] in Hi. specialize (Hlt _ Hi). lia.
  - intros a b. rewrite Hbl, fmap_app, list_fmap_singleton. cbn [fst]. split.
    + intros (i & Hij & Hi & Hc & ->). pose proof (lookup_lt_Some _ _ _ Hc).
      exists i. rewrite lookup_app_l, Hseg by lia. split_and!; try done.
      rewrite elem_of_app, list_elem_of_singleton. intros [|]; [done|lia].
    + intros (i & Hij & Hi & Hc & ->). rewrite elem_of_app, list_elem_of_singleton in Hi.
      apply lookup_snoc_lt in Hc; [|tauto]. pose proof (lookup_lt_Some _ _ _ Hc).
      exists i. rewrite Hseg by lia. tauto.
  - rewrite Hout, concat_app, take_app_le by lia. done.
Qed.

Lemma wf_seg_inj j s i i' :
  bs_wf j s -> (i <= length (bs_chunks s))%nat -> (i' <= length (bs_chunks s))%nat ->
  seg_start (bs_chunks s) i = seg_start (bs_chunks s) i' -> i = i'.
Proof. intros Hwf ?? Heq%Nat2Z.inj. by eapply seg_at_inj; [apply (wf_nonempty _ _ Hwf)|..]. Qed.

Lemma bs_deliver_wf j s k h s' :
  bs_wf j s -> bs_exec s (Deliver k h) = Ok s' -> bs_wf j s'.
Proof.
  intros Hwf Hex. cbn [bs_exec] in Hex.
  destruct (bs_net s !! k) as [[i p]|] eqn:Hk; [|by injection Hex as <-].
  pose proof (Forall_lookup_1 _ _ _ _ (wf_net _ _ Hwf) Hk) as (Hij & c & Hc & ->).
  pose proof (lookup_lt_Some _ _ _ Hc) as Hi.
  assert (Hinet : i ∈ fst <$> bs_net s)
    by (apply list_elem_of_fmap; eexists; split; [|by eapply list_elem_of_lookup_2]; done).
  rewrite on_blob_blob in Hex by (eapply wf_seg_bound; done).
  destruct (blobs (bs_rx s) !! seg_start (bs_chunks s) i) as [b|] eqn:Hb.
  { apply (wf_blobs _ _ Hwf) in Hb as (i' & _ & Hi' & Hc' & Heq).
    pose proof (lookup_lt_Some _ _ _ Hc'). apply (wf_seg_inj j s) in Heq as ->; [by destruct Hi'|done|lia|lia]. }
  assert (seg_start (bs_chunks s) j <= seg_start (bs_chunks s) i)
    by (apply inj_le, seg_at_mono, Hij).
  rewrite (proj2 (Z.ltb_ge _ _)) in Hex by (rewrite (wf_start _ _ Hwf); lia).
  cbn [mbind result_bind] in Hex. injection Hex as <-.
  destruct (net_delete _ _ _ _ (wf_net_nodup _ _ Hwf) Hk) as [Hnd' Hmem].
  destruct Hwf as [Hne Hj Htx Hbd Hst Hcur Hnet Hnd Hbl Hout].
  constructor; unfold stream in *;
    cbn [bs_chunks bs_tx bs_net bs_rx bs_out set_waiters set_blobs blobs current_blob_start
         consume_cursor] in *; try done.
  - by apply Forall_delete.
  - intros a b. rewrite lookup_insert_Some, Hbl. setoid_rewrite Hmem. split.
    + intros [[<- <-]|[_ (i' & ? & ? & ? & ->)]].
      * exists i. naive_solver.
      * exists i'. naive_solver.
    + intros (i' & Hij' & Hi' & Hc' & ->). destruct (decide (i' = i)) as [->|Hne'].
      * left. split; [done|congruence].
      * right. split; [|exists i'; split_and!; try done; tauto].
        intros Heq. apply Hne'. symmetry. pose proof (lookup_lt_Some _ _ _ Hc').
        eapply seg_at_inj; [done|lia|lia|by apply Nat2Z.inj].
Qed.

Lemma bs_consume_wf j s n :
  bs_wf j s -> exists s', bs_exec s (Consume n) = Ok s' /\
    bs_chunks s' = bs_chunks s /\ bs_net s' = bs_net s /\
    (bs_wf (S j) s' \/ bs_wf j s' /\
     (blobs (bs_rx s) !! seg_start (bs_chunks s) j = None \/
      Z.of_N n < seg_start (bs_chunks s) (S j) - consume_cursor (bs_rx s))).
Proof.
  intros Hwf. pose proof Hwf as [Hne Hj Htx Hbd Hst [Hc1 Hc2] Hnet Hnd Hbl Hout].
  cbn [bs_exec]. unfold consume. rewrite Hst, u64_sub_ok by done.
  rewrite (proj2 (Z.ltb_ge _ _)) by done. cbn [mbind result_bind].
  destruct (blobs (bs_rx s) !! seg_start (bs_chunks s) j) as [b|] eqn:Hb.
  2:{ eexists. split; [reflexivity|]. split_and!; [done|done|]. right. split; [|by left].
       cbn [default]. rewrite app_nil_r. by destruct s. }
  pose proof Hb as (i & Hij & Hi & Hc & Heq)%Hbl.
  pose proof (lookup_lt_Some _ _ _ Hc).
  apply (wf_seg_inj j s) in Heq as <-; [|done|lia|lia].
  pose proof (seg_at_S _ _ _ Hc) as Hsj. unfold seg_start in *.
  set (off := Z.to_nat (consume_cursor (bs_rx s) - Z.of_nat (seg_at (bs_chunks s) j))).
  assert (Hcur : consume_cursor (bs_rx s) = Z.of_nat (seg_at (bs_chunks s) j + off)) by lia.
  assert (Hoff : (off <= length b)%nat) by lia.
  rewrite u64_sub_ok by lia. cbn [mbind result_bind].
  assert (Hout' : forall m, (m <= length b - off)%nat ->
    bs_out s ++ take m (drop off b) =
    take (Z.to_nat (Z.of_nat (seg_at (bs_chunks s) j + off + m))) (stream s)).
  { intros m Hm. rewrite Hout, Hcur, !Nat2Z.id. by apply take_seg_slice. }
  unfold slice_blob. rewrite length_take, length_drop.
  replace (Z.to_nat (consume_cursor (bs_rx s) - Z.of_nat (seg_at (bs_chunks s) j))) with off by lia.
  destruct (Z.leb_spec (Z.of_nat (length b) - (consume_cursor (bs_rx s) -
                         Z.of_nat (seg_at (bs_chunks s) j))) (Z.of_N n)) as [Hfin|Hpart];
    eexists; (split; [reflexivity|]); (split; [done|]); (split; [done|]).
  - left. replace (Nat.min (length b - off) (Z.to_nat (Z.of_N n))) with (length b - off)%nat by lia.
    constructor; unfold seg_start, stream; cbn [bs_chunks bs_tx bs_net bs_rx bs_out
      set_consume_cursor set_blobs blobs current_blob_start consume_cursor default id]; try done;
      try (rewrite ?Hsj, ?Hcur; lia).
    + apply Forall_forall. intros [i p] Hin.
      destruct (proj1 (Forall_forall _ _) Hnet _ Hin) as [Hji Hp]. split; [|done].
      destruct (decide (i = j)) as [->|]; [|lia]. exfalso. apply Hi.
      by apply (list_elem_of_fmap_2 fst) in Hin.
    + intros a b'. rewrite lookup_delete_Some, Hbl. split.
      * intros [Hne' (i & Hji & Hin & Hci & ->)]. exists i. split_and!; try done.
        destruct (decide (i = j)) as [->|]; [done|lia].
      * intros (i & Hji & Hin & Hci & ->). pose proof (lookup_lt_Some _ _ _ Hci).
        split; [|exists i; split_and!; try done; lia].
        intros Heq. apply (wf_seg_inj j s) in Heq; [lia|done|lia|lia].
    + rewrite Hout' by lia. f_equal. lia.
  - right. split; [|right; rewrite Hsj; lia].
    replace (Nat.min (length b - off) (Z.to_nat (Z.of_N n))) with (Z.to_nat (Z.of_N n)) by lia.
    constructor; unfold seg_start, stream; cbn [bs_chunks bs_tx bs_net bs_rx bs_out
      set_consume_cursor set_blobs blobs current_blob_start consume_cursor default id]; try done;
      try (rewrite ?Hsj, ?Hcur; lia).
    rewrite Hout' by lia. f_equal. lia.
Qed.

Lemma bs_deliver_ok j s k h : bs_wf j s -> is_ok (bs_exec s (Deliver k h)) = true.
Proof.
  intros Hwf. cbn [bs_exec]. destruct (bs_net s !! k) as [[i p]|] eqn:Hk; [|done].
  pose proof (Forall_lookup_1 _ _ _ _ (wf_net _ _ Hwf) Hk) as (_ & c & _ & ->).
  by rewrite on_blob_blob by (eapply wf_seg_bound; done).
Qed.

Lemma bs_new_wf : bs_wf 0 bs_new.
Proof.
  constructor; try done; [unfold seg_start, seg_at; simpl; lia|apply NoDup_nil_2|].
  intros a b. cbn. rewrite lookup_empty. split; [done|]. by intros (i & _ & _ & ? & _).
Qed.

Lemma bs_reachable_wf s : bs_reachable s -> exists j, bs_wf j s.
Proof.
  induction 1 as [|s op s' _ [j Hwf] Hop Hex]; [exists 0%nat; apply bs_new_wf|].
  destruct op as [bytes|k h|n].
  - exists j. by eapply bs_send_wf.
  - exists j. by eapply bs_deliver_wf.
  - destruct (bs_consume_wf j s n Hwf) as (s'' & Hex' & _ & _ & [H|[H _]]);
      rewrite Hex in Hex'; injection Hex' as <-; eauto.
Qed.

(** With every blob delivered, a [consume] of [u64::MAX] bytes takes
    the whole current chunk; so as many of them as chunks take all. *)
Lemma bs_drain m j s :
  bs_wf j s -> bs_net s = [] -> (length (bs_chunks s) - j <= m)%nat ->
  exists s', bs_run s (replicate m (Consume u64_MAX)) = Ok s' /\
    bs_wf (length (bs_chunks s)) s' /\ bs_chunks s' = bs_chunks s.
Proof.
  revert j s. induction m as [|m IH]; intros j s Hwf Hnet Hm.
  { exists s. pose proof (wf_j _ _ Hwf). by replace j with (length (bs_chunks s)) in Hwf by lia. }
  destruct (bs_consume_wf j s u64_MAX Hwf) as (s1 & Hex & Hch & Hnet1 & Hwf1).
  cbn [replicate bs_run]. rewrite Hex. cbn [mbind result_bind].
  assert (exists j1, bs_wf j1 s1 /\ (length (bs_chunks s1) - j1 <= m)%nat) as (j1 & Hwf1' & Hm1).
  { destruct Hwf1 as [H|[H Hcase]].
    - exists (S j). split; [done|]. rewrite Hch. lia.
    - exists j. split; [done|]. rewrite Hch.
      destruct (decide (j < length (bs_chunks s))%nat) as [Hj|]; [|lia]. exfalso.
      destruct (lookup_lt_is_Some_2 _ _ Hj) as [c Hc]. destruct Hcase as [Hb|Hn].
      + assert (is_Some (blobs (bs_rx s) !! seg_start (bs_chunks s) j)) as [? Hb'];
          [|by rewrite Hb in Hb'].
        eexists. apply (wf_blobs _ _ Hwf). exists j. rewrite Hnet. split_and!; try done.
        by intros ?%not_elem_of_nil.
      + pose proof (seg_at_le_total (bs_chunks s) (S j)). pose proof (wf_cursor _ _ Hwf).
        pose proof (wf_tx _ _ Hwf). pose proof (wf_bound _ _ Hwf).
        unfold seg_start, stream, u64_MAX in *. lia. }
  destruct (IH j1 s1 Hwf1' ltac:(congruence) Hm1) as (s' & Hrun & Hwf' & Hch').
  exists s'. rewrite Hch in Hwf'. split_and!; [done|done|congruence].
Qed.

Lemma bs_run_reachable s ops s' :
  bs_reachable s -> Forall nonempty_send ops -> bs_run s ops = Ok s' -> bs_reachable s'.
Proof.
  revert s. induction ops as [|op ops IH]; intros s Hs Hops Hrun; [by injection Hrun as <-|].
  apply Forall_cons in Hops as [Hop Hops]. cbn [bs_run] in Hrun.
  destruct (bs_exec s op) as [s1|] eqn:Hex; [|done]. eapply IH; [|done|done].
  by eapply bs_reach_step.
Qed.

Lemma ex_state_reachable : bs_reachable ex_state.
Proof.
  eapply (bs_run_reachable bs_new ex_trace); [constructor| |reflexivity].
  repeat constructor; discriminate.
Qed.

Lemma bs_wf_blob j s a blob :
  bs_wf j s -> blobs (bs_rx s) !! a = Some blob ->
  exists i, bs_chunks s !! i = Some blob /\ a = seg_start (bs_chunks s) i /\ blob <> [].
Proof.
  intros Hwf (i & _ & _ & Hc & ->)%(wf_blobs _ _ Hwf). exists i. split_and!; try done.
  eapply (Forall_lookup_1 _ _ _ _ (wf_nonempty _ _ Hwf) Hc).
Qed.

(** A slice of a blob of the map from [rs] is a prefix of the stream
    from [rs]. *)
Lemma bs_slice_prefix j s a blob rs rl :
  bs_wf j s -> blobs (bs_rx s) !! a = Some blob -> a <= rs <= a + Z.of_nat (length blob) ->
  slice_blob blob (rs - a) rl `prefix_of` drop (Z.to_nat rs) (stream s) /\
  (length (slice_blob blob (rs - a) rl) <= Z.to_nat rl)%nat.
Proof.
  intros Hwf Hb Hrs. destruct (bs_wf_blob _ _ _ _ Hwf Hb) as (i & Hc & -> & _).
  pose proof (wf_seg_bound _ _ i Hwf). unfold slice_blob, stream, seg_start in *.
  split; [|rewrite length_take; lia].
  replace (Z.to_nat rs) with (seg_at (bs_chunks s) i + Z.to_nat (rs - Z.of_nat (seg_at (bs_chunks s) i)))%nat
    by lia.
  rewrite <- drop_drop, (drop_seg_at _ _ _ Hc), drop_app_le by lia.
  rewrite <- (take_app_le _ (drop (seg_at (bs_chunks s) (S i)) (concat (bs_chunks s)))) by lia.
  apply prefix_take.
Qed.

(** A [stalled] system stays stalled, whatever is sent, delivered or
    consumed. *)
Lemma stalled_step s op s' : stalled s -> bs_exec s op = Ok s' -> stalled s'.
Proof.
  intros (Hst & Hcur & Hout & H0 & Htx & Hnet) Hex. destruct op as [bytes|k h|n]; cbn [bs_exec] in Hex.
  - unfold send, u64_add in Hex.
    destruct (Z.ltb_spec (send_cursor (bs_tx s) + Z.of_nat (length bytes)) (2 ^ 64)); [|done].
    cbn [mbind result_bind] in Hex. injection Hex as <-. unfold stalled. cbn.
    split_and!; try done; [lia|]. apply Forall_app. split; [done|]. constructor; [|done].
    do 2 eexists. split; [done|]. lia.
  - destruct (bs_net s !! k) as [[i p]|] eqn:Hk; [|by injection Hex as <-].
    pose proof (Forall_lookup_1 _ _ _ _ Hnet Hk) as (z & c & -> & Hz).
    rewrite on_blob_blob in Hex by lia. cbn [mbind result_bind] in Hex. injection Hex as <-.
    unfold stalled. cbn. rewrite Hst. rewrite (proj2 (Z.ltb_ge z 0)) by lia.
    split_and!; try done; [|by apply Forall_delete].
    destruct (blobs (bs_rx s) !! z); [done|]. rewrite lookup_insert_ne by lia. done.
  - unfold consume in Hex. rewrite Hst, Hcur, u64_sub_ok in Hex by lia.
    cbn [mbind result_bind Z.ltb] in Hex. rewrite H0 in Hex. injection Hex as <-.
    unfold stalled. cbn. rewrite app_nil_r. by destruct s.
Qed.

Lemma stalled_run s ops s' : stalled s -> bs_run s ops = Ok s' -> stalled s'.
Proof.
  revert s. induction ops as [|op ops IH]; intros s Hs Hrun; [by injection Hrun as <-|].
  cbn [bs_run] in Hrun. destruct (bs_exec s op) as [s1|] eqn:Hex; [|done].
  eapply IH; [|done]. by eapply stalled_step.
Qed.

End Invariant.

(** ** Theorems *)

(** C29: Whatever order the blobs of a sender whose sends are not empty
    reach the receiver in, and however [consume] is called, the bytes
    [consume] has returned are a prefix of the concatenation of the byte
    slices sent, and the receiver's [cursor()] is their number. *)
Theorem bs_stream_in_order s :
  bs_reachable s ->
  bs_out s `prefix_of` stream s /\ length (bs_out s) = Z.to_nat (cursor (bs_rx s)).
Proof.
  intros [j Hwf]%bs_reachable_wf. pose proof (wf_cursor_le_total _ _ Hwf).
  rewrite (wf_out _ _ Hwf). split; [apply prefix_take|]. rewrite length_take. unfold cursor. lia.
Qed.

Lemma bs_stream_in_order_witness :
  bs_reachable ex_state /\
  bs_out ex_state `prefix_of` stream ex_state /\
  length (bs_out ex_state) = Z.to_nat (cursor (bs_rx ex_state)).
Proof. split; [apply ex_state_reachable|]. apply (bs_stream_in_order ex_state ex_state_reachable). Defined.

(** C30: In every reachable state, the receiver's handler never panics
    on a blob the sender sent (whatever header frames it), and
    [consume] never panics: its u64 subtractions [cursor - start] and
    [blob.len() - offset_in_blob] never underflow. *)
Theorem bs_receiver_never_panics s :
  bs_reachable s ->
  (forall k h, is_ok (bs_exec s (Deliver k h)) = true) /\
  (forall n, is_ok (bs_exec s (Consume n)) = true).
Proof.
  intros [j Hwf]%bs_reachable_wf. split; [intros; by eapply bs_deliver_ok|].
  intros n. by destruct (bs_consume_wf j s n Hwf) as (s' & -> & _).
Qed.

Lemma bs_receiver_never_panics_witness :
  bs_reachable ex_state /\
  (forall k h, is_ok (bs_exec ex_state (Deliver k h)) = true) /\
  (forall n, is_ok (bs_exec ex_state (Consume n)) = true).
Proof. split; [apply ex_state_reachable|]. apply (bs_receiver_never_panics ex_state ex_state_reachable). Defined.

(** Once every blob sent has been delivered, as many
    [consume(u64::MAX)] calls as [send]s return the whole stream: the
    receiver never waits for bytes it already has. *)
Theorem bs_consume_all s :
  bs_reachable s -> bs_net s = [] ->
  exists s', bs_run s (replicate (length (bs_chunks s)) (Consume u64_MAX)) = Ok s' /\
             bs_out s' = stream s.
Proof.
  intros [j Hwf]%bs_reachable_wf Hnet.
  destruct (bs_drain (length (bs_chunks s)) j s Hwf Hnet ltac:(lia)) as (s' & Hrun & Hwf' & Hch).
  exists s'. split; [done|].
  pose proof (wf_cursor _ _ Hwf') as [Hc _]. pose proof (wf_cursor_le_total _ _ Hwf').
  rewrite <- Hch in Hc. unfold seg_start in Hc. rewrite seg_at_total in Hc by done.
  rewrite (wf_out _ _ Hwf'), take_ge; unfold stream in *; rewrite Hch in *; [done|lia].
Qed.

Lemma bs_consume_all_witness :
  bs_net ex_state = [] /\
  exists s', bs_run ex_state (replicate (length (bs_chunks ex_state)) (Consume u64_MAX)) = Ok s' /\
             bs_out s' = stream ex_state.
Proof. split; [reflexivity|]. apply (bs_consume_all ex_state ex_state_reachable). reflexivity. Defined.

(** C31: In every reachable state [try_peek_ahead]'s loop ends within
    [read_start + 1] turns, and the bytes it returns are the stream's
    bytes from [read_start] on, at most [read_len] of them. *)
Theorem try_peek_ahead_sound s fuel rs rl :
  bs_reachable s -> (Z.to_nat rs < fuel)%nat ->
  exists o, try_peek_ahead fuel (bs_rx s) rs rl = Some o /\
    forall b, o = Some b ->
      b `prefix_of` drop (Z.to_nat rs) (stream s) /\ (length b <= Z.to_nat rl)%nat.
Proof.
  intros [j Hwf]%bs_reachable_wf Hf. pose proof (wf_seg_bound _ _ j Hwf).
  unfold try_peek_ahead. rewrite (wf_start _ _ Hwf) in *.
  destruct (Z.ltb_spec rs (consume_cursor (bs_rx s))); [by eexists|].
  destruct (Z.ltb_spec rs (seg_start (bs_chunks s) j)); [by eexists|].
  destruct (peek_ahead_loop_terminates fuel (blobs (bs_rx s)) (seg_start (bs_chunks s) j) rs rl)
    as [o Ho]; [|lia|lia|].
  { intros a b Hb. by destruct (bs_wf_blob _ _ _ _ Hwf Hb) as (? & ? & ? & ?). }
  exists o. split; [done|]. intros b ->.
  apply peek_ahead_loop_found in Ho as (a & blob & Hb & Hrs & ->); [|lia].
  by eapply bs_slice_prefix.
Qed.

Lemma try_peek_ahead_sound_witness :
  bs_reachable ex_state /\ (Z.to_nat 1 < 2)%nat /\
  exists o, try_peek_ahead 2 (bs_rx ex_state) 1 5 = Some o /\
    forall b, o = Some b ->
      b `prefix_of` drop (Z.to_nat 1) (stream ex_state) /\ (length b <= Z.to_nat 5)%nat.
Proof.
  split; [apply ex_state_reachable|]. split; [cbn; lia|].
  apply (try_peek_ahead_sound ex_state 2 1 5 ex_state_reachable). cbn. lia.
Defined.

(** C32: An empty [send] breaks the stream.  Its blob starts where the
    next one does.  After [send(&[])] and [send(&[1, 2, 3])], the first
    blob to arrive takes index 0 and [or_insert] drops the other; once the
    empty blob is consumed nothing starts at index 0 again, so whatever is
    sent, delivered or consumed afterwards, [consume] returns no byte.
    And once an empty blob is in the map at the receiver's start, the
    cursor of [try_peek_ahead]'s loop never moves past it, so
    [peek_ahead(0, 1)] polls a loop that never ends, whatever fuel it is
    given. *)
Theorem empty_send_breaks_stream :
  (exists s, bs_run bs_new ex_lost_trace = Ok s /\
     stream s = [Byte.x01; Byte.x02; Byte.x03] /\ bs_net s = [] /\
     forall ops s', bs_run s ops = Ok s' -> bs_out s' = []) /\
  (exists s, bs_run bs_new ex_spin_trace = Ok s /\
     forall fuel, try_peek_ahead fuel (bs_rx s) 0 1 = None).
Proof.
  split.
  - eexists. split; [reflexivity|]. split_and!; [reflexivity|reflexivity|].
    intros ops s' Hrun. eapply stalled_run in Hrun as (_ & _ & Hout & _); [done|].
    unfold stalled. cbn. split_and!; try done; lia.
  - eexists. split; [vm_compute; reflexivity|]. intros fuel. unfold try_peek_ahead.
    cbn -[peek_ahead_loop]. apply peek_ahead_loop_spins; [reflexivity|lia].
Qed.

(** The blob handler panics exactly on the packets of 8 to 27
    bytes: it checks [packet.len() < 8] before skipping the 20-byte
    header, so a packet whose payload is shorter than the 8-byte start
    index reaches [packet[..8]] out of range. *)
Theorem on_blob_panics_iff r packet :
  is_ok (on_blob r packet) = false <-> (8 <= length packet < 28)%nat.
Proof.
  unfold on_blob. destruct (Nat.ltb_spec (length packet) 8); [split; [done|lia]|].
  change TRANSMIT_BASE_LEN with 20%nat.
  destruct (read_le 8 (drop 20 packet)) as [[z rest]|] eqn:E; cbn [expect mbind result_bind].
  - apply read_le_length in E. rewrite length_drop in E. split; [done|lia].
  - apply read_le_None in E. rewrite length_drop in E. split; [lia|done].
Qed.

(** [send_buffer] on a complete buffer sends what [send] sends for
    the payload after the header headroom and the 8-byte index slot, with
    the same start index and cursor; a buffer of less than 28 bytes
    underflows the payload length. *)
Theorem send_buffer_is_send st buffer :
  send_buffer st buffer =
  if (28 <=? length buffer)%nat
  then (fun '(st', start, payload) => (st', start, take 20 buffer ++ payload))
         <$> send st (drop 28 buffer)
  else Panic "attempt to subtract with overflow".
Proof.
  unfold send_buffer, send, u64_sub. change TRANSMIT_BASE_LEN with 20%nat.
  destruct (Nat.leb_spec 28 (length buffer)).
  - rewrite (proj2 (Z.leb_le _ _)) by lia. cbn [mbind result_bind].
    rewrite (proj2 (Z.leb_le _ _)) by lia. cbn [mbind result_bind].
    rewrite length_drop. replace (Z.of_nat (length buffer) - Z.of_nat 20 - 8)
      with (Z.of_nat (length buffer - 28)) by lia.
    by destruct (u64_add _ _).
  - destruct (Z.leb_spec (Z.of_nat 20) (Z.of_nat (length buffer))); cbn [mbind result_bind];
      [rewrite (proj2 (Z.leb_gt _ _)) by lia|]; done.
Qed.
