(* ===== verification/RequestServer.v ===== *)
(** * RequestServer: the request server role and a request's round trip

    Models src/std-modrpc/rust/src/role_impls/request_server.rs and the
    parts of request_client.rs that build a request, subscribe to the
    requests of other clients and decode a response.  A server's [build] installs a queued, load-balanced
    handler on the request topic; each queued packet is decoded by the
    receive loop of [handle_events_async] ([RoleSetup]) into the sender's
    address and a [RequestLazy] view ([Proto]); the closure reads the
    request id, the requester's worker and the payload view, returns
    when one fails to decode, calls the user handler and sends a
    [Response] to the requester.  [build_replier] hands the handler a
    [ResponseSender] instead, through which it sends any number of
    responses.

    The user handler is a Rocq function of its arguments (its [FnMut]
    state is not modelled); the response the closure passes to
    [response_tx.send] is the output, and [EventTx::send] writes it after
    a [TransmitPacket] header ([PacketSender]).  The load balancing of the
    queued setup ([load_balance]) and [build_proxied]
    ([proxy_load_balance]) are modelled in [LoadBalancer];
    [build_shared] is an empty TODO. *)

From S2P Require Import Prelude Codec Slab ContextMap RequestTracker Proto RoleSetup.
Local Open Scope Z_scope.

Local Notation Packet := (list byte).

(** ** The server handle *)

(** [RequestServer]: its hooks and tracker are handles on state modelled
    elsewhere. *)
Record RequestServer := {
  server_name : string;
  server_worker_id : Z;
  tracing_enabled : bool;
}.

(** [RequestServerBuilder::create_handle]. *)
Definition create_handle (name : string) (worker_id : Z) : RequestServer :=
  {| server_name := name; server_worker_id := worker_id; tracing_enabled := true |}.

(** [ResponseSender] and [RequestContext] (the reply's event Tx is the
    server's [response] hook). *)
Record ResponseSender := {
  rsend_request_id : Z;
  rsend_source : EndpointAddr;
  rsend_requester_worker : Z;
}.

Record RequestContext := { ctx_source : EndpointAddr; ctx_reply : ResponseSender }.

(** [ResponseSender::send]: the [ResponseGen] it sends. *)
Definition response_sender_send {P} (rs : ResponseSender) (payload : P) : Response P :=
  Build_Response (rsend_request_id rs) (endpoint (rsend_source rs)) (rsend_requester_worker rs)
    payload.

(** [ResponseSender::send_ok] and [send_err], for a [Result<O, E>]
    response ([inl] is [Ok], [inr] is [Err]). *)
Definition send_ok {O E} (rs : ResponseSender) (o : O) : Response (O + E) :=
  response_sender_send rs (inl o).

Definition send_err {O E} (rs : ResponseSender) (e : E) : Response (O + E) :=
  response_sender_send rs (inr e).

Section Server.
Context {Req Resp : Type} `{Codec Req} `{Codec Resp}.

(** The closure [build] queues, on one request: [None] where it returns
    early, else the response it sends. *)
Definition build_handler (handler : EndpointAddr -> LazyView -> Resp)
    (source : EndpointAddr) (request : LazyView) : option (Response Resp) :=
  request_id ← lazy_int 4 request 0;
  requester_worker ← lazy_int 2 request 4;
  request_payload ← request_lazy_payload (T := Req) request;
  Some (Build_Response request_id (endpoint source) requester_worker
          (handler source request_payload)).

(** The closure [build_replier] queues: the handler gets the request's
    context and payload and sends the responses it returns through
    [reply]. *)
Definition build_replier_handler (handler : RequestContext -> LazyView -> list Resp)
    (source : EndpointAddr) (request : LazyView) : list (Response Resp) :=
  match lazy_int 4 request 0, lazy_int 2 request 4, request_lazy_payload (T := Req) request with
  | Some request_id, Some requester_worker, Some payload =>
      let reply := {| rsend_request_id := request_id; rsend_source := source;
                      rsend_requester_worker := requester_worker |} in
      response_sender_send reply <$> handler {| ctx_source := source; ctx_reply := reply |} payload
  | _, _, _ => []
  end.

(** The server's queued task on the packets of its queue: the receive
    loop of [handle_events_async] for [Request<Req>] events, then the
    closure of [build] on each; the responses it sends, in order. *)
Definition server_queue (handler : EndpointAddr -> LazyView -> Resp) (rx : list Packet)
    : list (Response Resp) :=
  omap (fun '(source, request) => build_handler handler source request)
    (handle_events_async (T := Request Req) rx).

(** ** The client's side (request_client.rs) *)

(** The start of [RequestClient::call]: a tracker slot, and the
    [RequestGen] sent with its id. *)
Definition client_call_start (worker_id : Z) (payload : Req) (st : RequestTracker)
    : result (RequestTracker * Z * Request Req) :=
  '(st, request_id) ← client_start_request st;
  Ok (st, request_id, Build_Request request_id worker_id payload).

(** [ResponseWaiter::wait] after its packet arrived: slice off the header
    and decode the [Response]; a decode error is returned, not unwrapped. *)
Definition response_waiter_wait (response_packet : Packet) : result (option Resp) :=
  bs ← slice_from response_packet PACKET_HEADER_LEN;
  Ok ((fun '(response, _) => resp_payload response) <$> @decode (Response Resp) _ bs).

(** [RequestClient::subscribe]: the calling thread's worker (the
    [expect] of [local_worker_context]) adds the inter-worker topic
    subscription, then the tracker registers the callback. *)
Definition client_subscribe (local_worker : option WorkerId) (plane_id request_topic : Z)
    (callback : nat) (rt : Runtime) (st : RequestTracker) : result (Runtime * RequestTracker) :=
  w ← expect "modrpc::RequestClient::subscribe local worker context" local_worker;
  rt ← add_topic_subscription w plane_id request_topic rt;
  Ok (rt, subscribe plane_id request_topic callback st).

(** The task [subscribe]'s callback spawns for a request packet: decode
    the header from [packet[..header_len]] and the [RequestLazy] from the
    rest, returning early on a decode error; the user's subscription
    gets the header's source and the payload view. *)
Definition subscribe_task (request_packet : Packet) : result (option (EndpointAddr * LazyView)) :=
  header_bytes ← (if decide (PACKET_HEADER_LEN <= length request_packet)%nat
                  then Ok (take PACKET_HEADER_LEN request_packet)
                  else Panic "range end index out of range for slice");
  bs ← slice_from request_packet PACKET_HEADER_LEN;
  Ok (match decode (A := TransmitPacket) header_bytes with
      | None => None
      | Some (header, _) =>
          match decode_request_lazy (T := Req) bs with
          | None => None
          | Some request =>
              request_payload ← request_lazy_payload (T := Req)
                                  {| lz_buffer := request; lz_offset := 0 |};
              Some (source header, request_payload)
          end
      end).

End Server.

(** ** Lemmas *)

Section ServerFacts.
Context {Req Resp : Type} `{CodecLaws Req} `{CodecLaws Resp}.

(** The receive loop hands the closure the request's header source and a
    view of the encoded request. *)
Lemma handle_event_request (hreq : TransmitPacket) (req : Request Req) :
  admissible hreq = true ->
  handle_event_packet (T := Request Req) (encode hreq ++ encode req)
  = Some (source hreq, {| lz_buffer := encode req; lz_offset := 0 |}).
Proof.
  intros Hh. unfold handle_event_packet. rewrite decode_encode by done. cbn [mbind option_bind].
  rewrite drop_app_length. rewrite decide_True by (rewrite length_encode; lia). done.
Qed.

(** [build]'s closure on a view of an encoded request answers the
    requester with the handler's response on the payload view. *)
Lemma build_handler_encoded (h : EndpointAddr -> LazyView -> Resp) src (req : Request Req) :
  admissible req = true ->
  build_handler (Req := Req) h src {| lz_buffer := encode req; lz_offset := 0 |}
  = Some (Build_Response (req_request_id req) (endpoint src) (req_worker req)
            (h src {| lz_buffer := encode req; lz_offset := 6 |})).
Proof.
  intros Ha. destruct (request_lazy_fields req [] Ha) as [Hid Hw]. rewrite app_nil_r in Hid, Hw.
  unfold build_handler, lazy_int. cbn [lz_offset lz_buffer Nat.add].
  unfold request_lazy_request_id, request_lazy_worker in *. rewrite Hid, Hw. done.
Qed.

Lemma lazy_payload_encoded (req : Request Req) :
  admissible (req_payload req) = true ->
  lazy_to_owned (A := Req) {| lz_buffer := encode req; lz_offset := 6 |} = Some (req_payload req).
Proof.
  intros Ha. unfold lazy_to_owned. cbn [lz_offset lz_buffer encode Request_codec].
  rewrite app_assoc, drop_app_length' by (rewrite length_app, !length_le_bytes; done).
  rewrite <- (app_nil_r (encode (req_payload req))), decode_encode by done. done.
Qed.

End ServerFacts.

(** ** Theorems *)

(** C14: A call answered by a request server completes with the
    server's answer.  On a well-formed tracker with room for another
    call, [RequestClient::call] gets a slot [request_id] and sends its
    request from its own address (the header's source) and worker; the
    server's queued task decodes the request, runs the handler on a view
    of the payload the client sent, and sends a response; when that
    response reaches the client's worker, framed by any header, the
    pending call becomes ready with it and [call] decodes the handler's
    output. *)
Theorem request_round_trip {Req Resp : Type} `{CodecLaws Req} `{CodecLaws Resp}
    (st : RequestTracker) (worker_id : Z) (payload : Req)
    (h : EndpointAddr -> LazyView -> Resp) (hreq hresp : TransmitPacket) pl task :
  slab_wf (pending_requests st) -> Z.of_nat (length (entries (pending_requests st))) < 2 ^ 32 ->
  admissible hreq = true -> fits 16 worker_id = true -> admissible payload = true ->
  (forall v, admissible (h (source hreq) v) = true) ->
  exists st1 request_id request resp st2 woken st3,
    client_call_start worker_id payload st = Ok (st1, request_id, request) /\
    lazy_to_owned (A := Req) {| lz_buffer := encode request; lz_offset := 6 |} = Some payload /\
    server_queue (Req := Req) h [encode hreq ++ encode request] = [resp] /\
    handle_response (T := Resp) pl (endpoint (source hreq)) worker_id
      (encode hresp ++ encode resp) st1 = Ok (st2, woken) /\
    pending_request_poll request_id task st2 = Ok (st3, Ready (encode hresp ++ encode resp)) /\
    call_decode_response (T := Resp) (encode hresp ++ encode resp)
      = Ok (h (source hreq) {| lz_buffer := encode request; lz_offset := 6 |}).
Proof.
  intros Hwf Hlen Hh Hw Hp Hr.
  destruct (client_start_request_refines st Hwf Hlen) as (st1 & i & Hstart & Hi & _ & Hview & _).
  set (req := Build_Request i worker_id payload).
  assert (Hreq : admissible req = true).
  { cbn. rewrite Hw, Hp, (proj2 (fits_iff _ _) Hi). done. }
  set (resp := Build_Response i (endpoint (source hreq)) worker_id
                 (h (source hreq) {| lz_buffer := encode req; lz_offset := 6 |})).
  assert (Hresp : admissible resp = true).
  { assert (Hsrc : fits 64 (endpoint (source hreq)) = true)
      by (cbn [admissible TransmitPacket_codec EndpointAddr_codec] in Hh; by split_admissible).
    cbn. by rewrite Hw, Hr, Hsrc, (proj2 (fits_iff _ _) Hi). }
  assert (Hslot : slab_get (pending_requests st1) (Z.to_nat i) = Some {| response := None; waker := None |})
    by (by rewrite <- slab_view_lookup, Hview, lookup_insert_eq).
  destruct (handle_response_slot pl (endpoint (source hreq)) worker_id i hresp resp [] st1 _
              Hresp ltac:(lia) Hslot) as (st2 & woken & Hhr & Hslot2 & _).
  rewrite app_nil_r in Hhr, Hslot2. rewrite bool_decide_true in Hslot2 by done.
  exists st1, i, req, resp, st2, woken. eexists. split_and!.
  - unfold client_call_start. by rewrite Hstart.
  - by apply lazy_payload_encoded.
  - unfold server_queue, handle_events_async. cbn [omap list_omap]. rewrite handle_event_request by done.
    cbn [omap list_omap]. by rewrite build_handler_encoded.
  - done.
  - unfold pending_request_poll. by rewrite Hslot2.
  - unfold call_decode_response. rewrite slice_header. cbn [mbind result_bind].
    rewrite <- (app_nil_r (encode resp)), decode_encode by done. done.
Qed.

Lemma request_round_trip_witness :
  slab_wf (pending_requests rt_new) /\
  exists st1 request_id request resp st2 woken st3,
    client_call_start 3 tt rt_new = Ok (st1, request_id, request) /\
    lazy_to_owned (A := unit) {| lz_buffer := encode request; lz_offset := 6 |} = Some tt /\
    server_queue (Req := unit) (fun _ _ => tt) [encode ex_header ++ encode request] = [resp] /\
    handle_response (T := unit) 1 (endpoint (source ex_header)) 3
      (encode ex_header ++ encode resp) st1 = Ok (st2, woken) /\
    pending_request_poll request_id 0 st2 = Ok (st3, Ready (encode ex_header ++ encode resp)) /\
    call_decode_response (T := unit) (encode ex_header ++ encode resp) = Ok tt.
Proof.
  split; [apply slab_wf_new|].
  apply (request_round_trip (Req := unit) (Resp := unit) rt_new 3 tt (fun _ _ => tt)
           ex_header ex_header 1 0); [apply slab_wf_new|cbn; lia|reflexivity..|done].
Defined.
