(* ===== verification/PropertyRoles.v ===== *)
(** * PropertyRoles: the property owner and observer roles

    Models src/std-modrpc/rust/src/role_impls/property_owner.rs and
    property_observer.rs.  An owner keeps the property's value and
    publishes each change as an [update] event; an observer keeps its own
    copy, which its inline handler on the [update] topic overwrites with
    every update it receives.  The owner's own handler on that topic does
    nothing (a TODO in the code).

    [PropertyOwner::update] sends the update and only after that await
    stores the new value; the owner is [Clone], so two handles can run
    [update] at the same time.  [PropSys] models an owner, its observers
    and the update packets in the order the sends wrote them, with one
    step per half of an [update] call and one per packet an observer
    handles; packets reach each observer in that order, as a transport's
    writer and the local dispatch of [send_raw] deliver them. *)

From S2P Require Import Prelude Codec Proto RoleSetup.
Local Open Scope Z_scope.

Local Notation Packet := (list byte).

Section Property.
Context {T : Type} `{Codec T}.

(** ** The owner (property_owner.rs) *)

(** [State]'s [value] cell; the [update] hook is the network below. *)
Record OwnerState := { owner_value : T }.

(** [PropertyOwnerBuilder::new]. *)
Definition owner_new (init : PropertyInitState T) : OwnerState := {| owner_value := value init |}.

(** The first half of [PropertyOwner::update]: the event it sends. *)
Definition update_send (new_value : T) : PropertyUpdate T := Build_PropertyUpdate new_value.

(** The second half, after the send's await: store the value. *)
Definition update_finish (new_value : T) (st : OwnerState) : OwnerState :=
  {| owner_value := new_value |}.

(** [PropertyOwner::with_value]; [value] and [value_cloned] are
    [with_value id]. *)
Definition with_value {R} (f : T -> R) (st : OwnerState) : R := f (owner_value st).

(** The handler [PropertyOwnerBuilder::build] installs: nothing. *)
Definition owner_on_update (_ : PropertyUpdate T) (st : OwnerState) : OwnerState := st.

(** ** The observer (property_observer.rs) *)

Record ObserverState := { observer_value : T }.

(** [PropertyObserverBuilder::new]. *)
Definition observer_new (init : PropertyInitState T) : ObserverState :=
  {| observer_value := value init |}.

(** [PropertyObserver::value] and [value_cloned]. *)
Definition observer_get (st : ObserverState) : T := observer_value st.

(** The handler [PropertyObserverBuilder::build] installs, behind the
    decode of [inline]: a packet that does not decode is dropped. *)
Definition observer_handle_packet (packet : Packet) (st : ObserverState) : ObserverState :=
  match inline_packet (T := PropertyUpdate T) packet with
  | Some update => {| observer_value := new_value update |}
  | None => st
  end.

(** ** An owner and its observers *)

(** [ps_inflight]: the [update] calls past their send, by task, with the
    value each will store; [ps_log]: the update packets sent, in order;
    [ps_observers]: each observer with the number of packets it has
    handled. *)
Record PropSys := {
  ps_owner : OwnerState;
  ps_inflight : list (nat * T);
  ps_log : list Packet;
  ps_observers : list (ObserverState * nat);
}.

Definition prop_new (init : PropertyInitState T) (observers : nat) : PropSys :=
  {| ps_owner := owner_new init; ps_inflight := []; ps_log := [];
     ps_observers := replicate observers (observer_new init, 0%nat) |}.

(** A task's [update(v)] sends (with the header [h] its sender writes);
    a task's [update] returns; an observer handles its next packet. *)
Inductive PropOp :=
| UpdateSend (task : nat) (v : T) (h : TransmitPacket)
| UpdateFinish (task : nat)
| ObserverRecv (i : nat).

Definition prop_exec (s : PropSys) (op : PropOp) : option PropSys :=
  match op with
  | UpdateSend task v h =>
      Some {| ps_owner := ps_owner s; ps_inflight := ps_inflight s ++ [(task, v)];
              ps_log := ps_log s ++ [encode h ++ encode (update_send v)];
              ps_observers := ps_observers s |}
  | UpdateFinish task =>
      k ← list_find (fun '(t, _) => t = task) (ps_inflight s);
      let '(k, (_, v)) := k in
      Some {| ps_owner := update_finish v (ps_owner s); ps_inflight := delete k (ps_inflight s);
              ps_log := ps_log s; ps_observers := ps_observers s |}
  | ObserverRecv i =>
      '(o, n) ← ps_observers s !! i;
      packet ← ps_log s !! n;
      Some {| ps_owner := ps_owner s; ps_inflight := ps_inflight s; ps_log := ps_log s;
              ps_observers := <[i := (observer_handle_packet packet o, S n)]> (ps_observers s) |}
  end.

Fixpoint prop_run (s : PropSys) (ops : list PropOp) : option PropSys :=
  match ops with
  | [] => Some s
  | op :: ops => s' ← prop_exec s op; prop_run s' ops
  end.

(** ** Specification *)

(** The newest of a list of values, or [init]. *)
Definition newest (init : T) (vs : list T) : T := default init (last vs).

(** The values the update packets of a log carry, as an observer's
    handler decodes them. *)
Definition log_values (log : list Packet) : list T :=
  omap (fun p => new_value <$> inline_packet (T := PropertyUpdate T) p) log.

(** An [update] sends a value of its type: one the codec can write. *)
Definition op_ok (op : PropOp) : Prop :=
  match op with UpdateSend _ v _ => admissible v = true | _ => True end.

(** The calls to [update] do not overlap: a new one starts only once
    the previous one has returned. *)
Definition serial_op (s : PropSys) (op : PropOp) : Prop :=
  match op with UpdateSend _ _ _ => ps_inflight s = [] | _ => True end.

Inductive prop_reachable (init : PropertyInitState T) (m : nat) (serial : bool) : PropSys -> Prop :=
| prop_reach_new : prop_reachable init m serial (prop_new init m)
| prop_reach_step s op s' :
    prop_reachable init m serial s -> op_ok op -> (if serial then serial_op s op else True) ->
    prop_exec s op = Some s' -> prop_reachable init m serial s'.

(** Every packet of the log is an update of an admissible value, and
    each observer holds the newest value of the packets it has handled. *)
Record prop_inv (init : PropertyInitState T) (s : PropSys) : Prop := {
  pi_log : Forall (fun p => exists (h : TransmitPacket) v,
                     p = encode h ++ encode (update_send v) /\ admissible v = true) (ps_log s);
  pi_obs : Forall (fun '(o, n) => (n <= length (ps_log s))%nat /\
                     observer_value o = newest (value init) (log_values (take n (ps_log s))))
             (ps_observers s);
}.

(** With serial updates: at most one is in flight, it stores the newest
    value sent, and with none in flight the owner holds it. *)
Record prop_serial_inv (init : PropertyInitState T) (s : PropSys) : Prop := {
  psi_single : (length (ps_inflight s) <= 1)%nat;
  psi_owner : ps_inflight s = [] ->
    owner_value (ps_owner s) = newest (value init) (log_values (ps_log s));
  psi_last : forall t v, (t, v) ∈ ps_inflight s -> last (log_values (ps_log s)) = Some v;
}.

(** No update in flight and every observer has handled every packet. *)
Definition quiescent (s : PropSys) : Prop :=
  ps_inflight s = [] /\ Forall (fun '(_, n) => n = length (ps_log s)) (ps_observers s).

End Property.

(** ** Traces *)

Definition ex_prop_header : TransmitPacket :=
  {| payload_length := 8; infra_id := 0; plane_id := 1; topic := 2;
     source := {| endpoint := 5 |} |}.

Definition ex_prop_init : PropertyInitState EndpointAddr :=
  Build_PropertyInitState {| endpoint := 0 |}.

(** One [update(1)] that returns before its update is observed. *)
Definition ex_serial_trace : list (PropOp (T := EndpointAddr)) :=
  [UpdateSend 0 {| endpoint := 1 |} ex_prop_header; UpdateFinish 0; ObserverRecv 0].

Definition ex_serial_state : PropSys (T := EndpointAddr) :=
  default (prop_new ex_prop_init 1) (prop_run (prop_new ex_prop_init 1) ex_serial_trace).

(** Two handles of one owner: task 0 runs [update(1)], task 1 runs
    [update(2)]; both sends go out in that order, and task 1 returns
    first. *)
Definition ex_concurrent_trace : list (PropOp (T := EndpointAddr)) :=
  [UpdateSend 0 {| endpoint := 1 |} ex_prop_header; UpdateSend 1 {| endpoint := 2 |} ex_prop_header;
   UpdateFinish 1; UpdateFinish 0; ObserverRecv 0; ObserverRecv 0].

(** ** Lemmas *)

Section PropertyFacts.
Context {T : Type} `{CodecLaws T}.
#[local] Arguments le_bytes : simpl never.
Implicit Types (init : PropertyInitState T) (s : PropSys (T := T)).

Lemma inline_update_packet (h : TransmitPacket) (v : T) :
  admissible v = true ->
  inline_packet (T := PropertyUpdate T) (encode h ++ encode (update_send v)) = Some (update_send v).
Proof.
  intros Hv. unfold inline_packet. rewrite drop_app_length' by (symmetry; apply length_encode).
  rewrite <- (app_nil_r (encode (update_send v))), decode_encode; [done|exact Hv].
Qed.

Lemma log_values_snoc log (h : TransmitPacket) (v : T) :
  admissible v = true ->
  log_values (log ++ [encode h ++ encode (update_send v)]) = log_values log ++ [v].
Proof. intros Hv. unfold log_values. rewrite omap_app. cbn [omap list_omap]. by rewrite inline_update_packet. Qed.

Lemma prop_new_inv init m : prop_inv init (prop_new init m).
Proof.
  constructor; [done|]. apply Forall_replicate. split; [done|]. done.
Qed.

Lemma prop_exec_inv init s op s' :
  prop_inv init s -> op_ok op -> prop_exec s op = Some s' -> prop_inv init s'.
Proof.
  intros [Hlog Hobs] Hop Hex. destruct op as [t v h|t|i]; cbn [prop_exec] in Hex.
  - injection Hex as <-. constructor; cbn.
    + apply Forall_app. split; [done|]. constructor; [|done]. by exists h, v.
    + eapply Forall_impl; [apply Hobs|]. intros [o n] [Hn Hv]. rewrite length_app.
      split; [lia|]. by rewrite take_app_le.
  - destruct (list_find _ _) as [[k [t' v']]|]; [|done]. injection Hex as <-. by constructor.
  - destruct (ps_observers s !! i) as [[o n]|] eqn:Hi; [|done]. cbn in Hex.
    destruct (ps_log s !! n) as [p|] eqn:Hp; [|done]. injection Hex as <-.
    constructor; cbn; [done|]. apply Forall_insert; [done|].
    pose proof (lookup_lt_Some _ _ _ Hp).
    destruct (Forall_lookup_1 _ _ _ _ Hlog Hp) as (h & v & -> & Hv).
    split; [lia|]. unfold observer_handle_packet. rewrite inline_update_packet by done.
    rewrite (take_S_r _ _ _ Hp), log_values_snoc by done. unfold newest. by rewrite last_snoc.
Qed.

Lemma prop_serial_step init s op s' :
  prop_inv init s -> prop_serial_inv init s -> op_ok op -> serial_op s op ->
  prop_exec s op = Some s' -> prop_serial_inv init s'.
Proof.
  intros Hinv [Hsingle Howner Hlast] Hop Hser Hex. destruct op as [t v h|t|i]; cbn [prop_exec serial_op] in Hex, Hser.
  - apply (inj Some) in Hex. subst s'. cbn in Hop. constructor; cbn [ps_inflight ps_log]; rewrite Hser; [done|done|].
    intros t' v' Hin. apply list_elem_of_singleton in Hin. injection Hin as -> ->.
    rewrite log_values_snoc by done. by rewrite last_snoc.
  - destruct (list_find _ (ps_inflight s)) as [[k [t' v']]|] eqn:Hf; [|done].
    injection Hex as <-. apply list_find_Some in Hf as (Hk & _ & _).
    destruct (ps_inflight s) as [|x [|y l]] eqn:E; [done| |cbn in Hsingle; lia].
    destruct k as [|k]; [|done]. injection Hk as ->.
    constructor; cbn [ps_inflight ps_owner ps_log owner_value update_finish delete list_delete length];
      [lia| |set_solver]. intros _. unfold newest.
    rewrite (Hlast t' v') by by apply list_elem_of_singleton. done.
  - destruct (ps_observers s !! i) as [[o n]|]; [|done]. cbn in Hex.
    destruct (ps_log s !! n); [|done]. injection Hex as <-. by constructor.
Qed.

Lemma prop_run_reachable init m s ops s' :
  prop_reachable init m false s -> Forall op_ok ops -> prop_run s ops = Some s' ->
  prop_reachable init m false s'.
Proof.
  revert s. induction ops as [|op ops IH]; intros s Hs Hops Hrun; [by injection Hrun as <-|].
  apply Forall_cons in Hops as [Hop Hops]. cbn [prop_run] in Hrun.
  destruct (prop_exec s op) as [s1|] eqn:Hex; [|done]. eapply IH; [|done|done].
  by eapply prop_reach_step.
Qed.

Lemma prop_reachable_inv init m serial s :
  prop_reachable init m serial s -> prop_inv init s /\ (serial = true -> prop_serial_inv init s).
Proof.
  induction 1 as [|s op s' _ [IH IHs] Hop Hser Hex]; [split; [apply prop_new_inv|]|].
  - intros _. constructor; cbn; [lia|done|set_solver].
  - split; [by eapply prop_exec_inv|]. intros ->. eapply prop_serial_step; eauto.
Qed.

End PropertyFacts.

Lemma ex_serial_reachable : prop_reachable ex_prop_init 1 true ex_serial_state.
Proof.
  eapply (prop_reach_step _ _ _ _ (ObserverRecv 0));
    [eapply (prop_reach_step _ _ _ _ (UpdateFinish 0));
       [eapply (prop_reach_step _ _ _ _ (UpdateSend 0 {| endpoint := 1 |} ex_prop_header));
          [apply prop_reach_new|reflexivity|reflexivity|reflexivity]|done|done|reflexivity]
    |done|done|vm_compute; reflexivity].
Qed.

(** ** Theorems *)

(** C33: When the calls to [update] do not overlap, once none is in
    flight and every observer has handled every update packet, the
    owner and all observers hold the newest value sent. *)
Theorem property_serial_consistent {T} `{CodecLaws T} (init : PropertyInitState T) m s :
  prop_reachable init m true s -> quiescent s ->
  owner_value (ps_owner s) = newest (value init) (log_values (ps_log s)) /\
  Forall (fun '(o, _) => observer_value o = owner_value (ps_owner s)) (ps_observers s).
Proof.
  intros [[_ Hobs] Hser]%prop_reachable_inv [Hq Hall]. destruct (Hser eq_refl) as [_ Howner _].
  rewrite (Howner Hq). split; [done|].
  apply Forall_forall. intros [o n] Hin.
  destruct (proj1 (Forall_forall _ _) Hobs _ Hin) as [_ ->].
  rewrite (proj1 (Forall_forall _ _) Hall _ Hin), take_ge by done. done.
Qed.

Lemma property_serial_consistent_witness :
  prop_reachable ex_prop_init 1 true ex_serial_state /\ quiescent ex_serial_state /\
  owner_value (ps_owner ex_serial_state)
    = newest (value ex_prop_init) (log_values (ps_log ex_serial_state)) /\
  Forall (fun '(o, _) => observer_value o = owner_value (ps_owner ex_serial_state))
    (ps_observers ex_serial_state).
Proof.
  assert (Hq : quiescent ex_serial_state) by (split; [reflexivity|repeat constructor]).
  split; [apply ex_serial_reachable|]. split; [exact Hq|].
  apply (property_serial_consistent ex_prop_init 1 ex_serial_state ex_serial_reachable Hq).
Defined.

(** C34: Concurrent updates leave the owner disagreeing with every
    observer.  [update] stores its value only after its send's await, so
    when two handles of one owner update at once and the second returns
    first, the owner ends up with the first value while every observer
    has handled both updates and holds the second: with no update in
    flight and every packet handled, the property has two values. *)
Theorem concurrent_updates_diverge :
  exists s, prop_run (prop_new ex_prop_init 1) ex_concurrent_trace = Some s /\
    prop_reachable ex_prop_init 1 false s /\ quiescent s /\
    Forall (fun '(o, _) => observer_value o <> owner_value (ps_owner s)) (ps_observers s).
Proof.
  eexists. split; [vm_compute; reflexivity|]. split_and!.
  - apply (prop_run_reachable _ _ (prop_new ex_prop_init 1) ex_concurrent_trace);
      [constructor|repeat constructor|vm_compute; reflexivity].
  - split; [reflexivity|repeat constructor].
  - repeat constructor. cbn. congruence.
Qed.
